(* ===== verification/_CoqProject ===== *)
-Q . S2P
Prelude.v
Types.v
Env.v
Socket.v
Flush.v
ConnMap.v
World.v
Traces.v
ActiveConnection.v
Candidate.v
NatUtil.v
Connect.v
Listener.v
Refresher.v
Discovery.v
Bootstrap.v
IfAddrs.v
Mapped.v
System.v
Probes.v
Frame.v
ConnectProps.v
ListenerProps.v
RefresherProps.v
BootstrapProps.v
EndToEnd.v
Reachability.v
Handshake.v
MappedProps.v
Service.v
ListeningProps.v
Clean.v
HeapTyping.v
Typing.v
HandlerTyping.v
TypeSafety.v
Threads.v
Peer.v
PeerProps.v
