(* ===== verification/Prelude.v ===== *)
(** * A verification of crust

    crust ([src/src]) keeps connections between peers of a network: a service
    listens for peers, connects to them, bootstraps off them, and exchanges
    messages with them, telling its user what happens by events.

    ** The program and its parts

    One thread runs an event loop ([common/core.rs]). It owns state machines,
    reference-counted and borrowed at run time ([Rc<RefCell<State>>]), each
    registered under a token; the poll reports that a socket is ready, the timer
    that a timeout has fired, and the user's thread posts closures; each of these
    runs one method of one state machine to its end. State machines start
    others, hand their socket over to them, and are told the result by a closure
    ([finish]) that reaches them through a weak reference.

    - A [Socket] ([common/socket.rs]) sends and receives messages in frames: a
      length of four bytes, little endian, and the serialised message.
    - [Connect] ([main/connect]) opens connections to all addresses of a peer;
      on each an [ExchangeMsg] makes itself known, and becomes a
      [ConnectionCandidate].
    - [ConnectionListener] ([main/connection_listener]) accepts connections; on
      each an [ExchangeMsg] learns who the peer is and what it wants, and checks
      that it may: to bootstrap (becoming an [ActiveConnection], for a node after
      a [CheckReachability] has reached it), to connect (becoming a
      [ConnectionCandidate]), or to know its own address.
    - Of the [ConnectionCandidate]s ([main/connection_candidate.rs]) between two
      peers, the one with the greater identifier chooses one, which becomes the
      [ActiveConnection] ([main/active_connection.rs]) that carries data and
      heartbeats.
    - The connection map, shared by all of them, counts for each peer the
      handshakes under way and names the active connection.
    - [Bootstrap] ([main/bootstrap]) joins the network: on a connection to each
      known contact a [TryPeer] asks to bootstrap; the first to be granted becomes
      the [ActiveConnection].
    - [ServiceDiscovery] ([service_discovery/mod.rs]) finds contacts on the local
      network by UDP broadcast, and answers those who search.
    - [ConfigRefresher] ([main/config_refresher.rs]) re-reads the configuration
      and drops the connections it no longer allows.
    - [MappedTcpSocket] ([nat/mapped_tcp_socket]) finds out under which addresses
      a socket can be reached, before a listener uses it or a connection info is
      made of it: threads ask the gateways of the interfaces, and a [GetExtAddr]
      asks each peer that can tell. The interfaces ([common/get_if_addrs.rs]),
      their gateways and these peers are kept in a [MappingContext].
    - [Service] ([main/service.rs]) is the user's handle.
    - The example program ([src/examples/crust_peer.rs]) runs a node from a
      command line: its main thread runs the user's commands or a speed test,
      another thread handles the service's events, and the two share a table of
      peers and the service, each behind a mutex; a fourth thread ends the speed
      test when there is no peer in time.

    ** The files

    - [Prelude]: results, the monad [M] of stateful computations that may panic
      or exhaust a loop bound, its weakest preconditions [wp], machine integers,
      bytes, shared lemmas and automation.
    - [Types]: the data ([common/{mod,message,error}.rs],
      [main/{types,event,error,config_handler}.rs]) and the configuration
      wrapper.
    - [Env]: what the program calls and does not define (mio's sockets, poll and
      timer, net2's builder, the clock, random numbers, the configuration and
      contacts files, the gateways, the system's tables of interfaces, the
      serialisation library) as a type class over an abstract outside world, and
      a scripted instance of it on which concrete runs are evaluated.
    - [Socket]: [common/socket.rs]. [Flush]: its writer makes progress.
    - [ConnMap]: the connection map and its abstract specification.
    - [World]: the state of a service (the heap of states with their borrow
      flags, [Core], the connection map, the configuration, the events sent to
      the user, the channels to observers of service discovery, the threads that
      ask gateways) and the operations of [Core], [Rc] and [RefCell].
    - [ActiveConnection], [Candidate], [Connect], [Listener], [Refresher],
      [Discovery], [Bootstrap]: the state machines, one definition per method, named [<Type>_<method>].
    - [NatUtil]: [nat/util.rs] and [nat/punch_hole.rs]. [IfAddrs]:
      [common/get_if_addrs.rs] and [nat/mapping_context.rs]. [Mapped]:
      [nat/mapped_tcp_socket] and the start of the listener.
    - [System]: [dyn State] (dispatch on the kind of state), the [finish]
      closures, the event loop; [terminate] always returns.
    - [Frame]: what handlers leave alone. [Probes]: the states that ask one
      question of one peer, and how their parents end them.
    - [ConnectProps], [ListenerProps], [RefresherProps], [BootstrapProps],
      [MappedProps]: properties of the state machines that need the whole system.
      [EndToEnd], [Reachability], [Handshake]: the two ends of a bootstrap, of one
      that needs a check from outside, and of a connection, run against each
      other.
    - [Service]: [main/service.rs]. [ListeningProps]: listening, from the user's
      call to its event.
    - [Traces]: which events the user may be sent after which. [Clean]: the
      computations that cannot go wrong by themselves. [HeapTyping]: when the heap
      of states is well typed, and what the tokens stand for. [Typing]: a typing
      judgement on computations, its rules and automation. [HandlerTyping]: every
      handler and operation is well typed. [TypeSafety]: what holds in every
      reachable state of a service.
    - [Threads]: threads that share a state and take mutexes, in any interleaving,
      with the arguments about them (taking mutexes in order, relying on what the
      others change, keeping an invariant). [Peer]: the example program as such
      threads, the service's event loop included. [PeerProps]: its properties.

    ** How the code is modelled

    A method [fn m(&mut self, core, poll, args) -> T] is a function from [self]
    and [args] to a computation on the [World] that returns the new [self] (and
    the result). [borrow_mut] marks the state as borrowed for the duration of the
    call and panics if it already is, so that re-entrance is visible. [?] is
    [bind_ok]. [usize] counters panic or wrap around on overflow, as the build
    says ([overflow_checks]). A closure given to a child is represented by what
    it captures. Log output is left out. The iteration order of a [HashMap] or
    [HashSet] is not specified; the model uses that of [map_to_list] and
    [elements].

    Loops whose length the outside world decides (reading, accepting, firing
    timers) take the bound [loop_fuel] and end in [Diverged] when it is
    exhausted (the search for a free port, [get_socket], has a bound of its own:
    the ports there are); every theorem about what such a loop does assumes only that the
    outside world gives fewer chunks than that, and concludes that the loop
    completes. The nesting of [terminate] is bounded by the number of states,
    which is proved to be enough.

    Assumptions about the outside world are classes or hypotheses named where
    they are used: [CodecLaws] (what was serialised is read back, from a stream
    whatever follows, and takes at least a byte), [TimerLaws] (there is room in the timer,
    and timers do not change what sockets deliver), [PollLaws] (deregistering
    does not either), [stable_addrs] (the address of a peer does not change);
    that a shuffled list is a permutation is a hypothesis of [bootstrap_tries].
    The example program has a class of its own for what it calls ([PeerEnv]:
    clap, serde_json, rand, the clock), and [ClapLaws] for what clap documents of
    subcommands and required arguments.
    Each has an instance in the scripted environment.

    ** What is shown

    - Messages: what is written, in any partial writes, is read at the other end
      in order whatever the chunks; priorities and expiry; the size limit.
      A stream that takes anything at all gets everything out.
    - The connection map refines its specification.
    - In every state a service can reach, by any sequence of operations, events,
      timers and threads, the table of states is in order, new tokens are free, and
      events that were sent stay (and the model's pointers between the state
      machines are used as Rust's types have them). The user is told of a peer's messages, and of its loss, only after
      it was told of the peer. A message that is sent to a peer is written on no
      other peer's connection, whatever happens before it is written. The argument
      is that a token, once it stands for a peer, stands for it for ever, and that
      only the handshake that has the token's socket can let it stand for one.
    - Connections deliver data in order, and close completely and once.
    - Handshakes: run against each other, two peers that connect both report it
      and both have the connection; they agree on the one the chooser picks and it
      picks one; an attempt that succeeds or fails cleans up after itself; only
      the expected peer passes on the connecting side and only allowed peers on
      the accepting side; refusals are answered and admit nobody.
    - Bootstrapping tries all contacts that are not blacklisted and no other,
      succeeds with the first grant, ending the rest, and fails, once, when a
      denial is fatal or nobody is left; searching the local network finds the
      services that listen, and the search for a port ends. Run against each other, the two ends of a bootstrap
      both report it and both have the connection, for a node that has to be
      reachable after it was reached.
    - A mapping collects what it is told, in any order, and hands it over when
      nothing is missing or time is up; the address a peer reports reaches the
      user; a listener starts with the addresses of the interfaces exactly when the
      system grants all it asks for, and says so. The tables of interfaces are read back (on Windows with the right
      netmask for whole octets only).
    - The refresher closes exactly what a new whitelist does not allow.
    - The service's operations, and the order of what is posted.
    - The example program: its threads do not wait for each other in a circle as
      long as no new peer is announced, and can when one is; the handler's
      lookups hold across its locked sections, and none of its [unwrap]s fails; the
      peers in its table were announced to it; what becomes of the commands; the
      speed test starves the handler; what each exit code says. What is shown of
      every service holds of the one it uses, however its threads interleave.
    - Where the code departs from what it means to do, a theorem states what it
      does: panics on a failed registration, a handshake counted for ever, an
      attempt left behind, a peer lost twice, a timer left set, a missing size
      check, a listener that cannot be stopped while it is being mapped, a command
      that always panics.

    ** What is not modelled

    In the library, the threads themselves (the event loop's is the sequence of
    what it runs, a thread that asks a gateway is the message it ends with) and
    the poll's choice of events; a step of the event loop, and a computation under
    a mutex of the example program, are each taken to be atomic. File access, the
    serialisation format and the operating system are external. Of the example
    program, what it prints (but for the list of peers), how long a thread sleeps,
    whether the main thread waits for the handler at its end, and how clap finds
    its two options. That a socket shuts its stream down when it is dropped, and
    the reading of a stream's pending error for a log line. The tests, and the
    parts of the code that exist in tests only.

    The connection map is related to the states in one direction only: a
    connection it names was made to that peer, and tokens are not used for another.
    That every handshake it counts is under way, and every connection it names
    still registered, does not hold of the code (handshakes counted for ever, a
    connection whose token is removed by the handshake it came from). *)

From stdpp Require Import base tactics list gmap.
From Stdlib Require Import ZArith Lia.
From Stdlib Require Strings.Byte.

Declare Scope crust_scope.
Delimit Scope crust_scope with crust.
Open Scope Z_scope.

(** ** Results

    Rust's [Result<T, E>]. *)

Inductive result (A E : Type) : Type :=
| Ok (a : A)
| Err (e : E).
Arguments Ok {A E} a.
Arguments Err {A E} e.

Definition is_ok {A E} (r : result A E) : bool :=
  match r with Ok _ => true | Err _ => false end.

Definition result_ok {A E} (r : result A E) : option A :=
  match r with Ok a => Some a | Err _ => None end.

Definition map_err {A E F} (f : E → F) (r : result A E) : result A F :=
  match r with Ok a => Ok a | Err e => Err (f e) end.

(** ** Stateful computations

    A handler of the event loop either completes with a value and a new state,
    panics (an [unwrap!] of [None], a second [RefCell::borrow_mut], an
    arithmetic overflow in a build with overflow checks, a [panic!], a mutex that
    is poisoned), or exhausts
    the bound given to a loop whose length the peer controls. [IllTyped] is the use of a
    pointer that dangles or points to another kind of state, which the types of
    the program rule out and the model has to prove away. *)

Inductive panic : Type :=
| BorrowError
| UnwrapNone
| ArithOverflow
| ExplicitPanic
| Poisoned
| IllTyped.

Inductive outcome (W A : Type) : Type :=
| Done (a : A) (w : W)
| Panicked (p : panic)
| Diverged.
Arguments Done {W A} a w.
Arguments Panicked {W A} p.
Arguments Diverged {W A}.

Definition M (W A : Type) : Type := W → outcome W A.

#[export] Instance M_ret W : MRet (M W) := λ A a w, Done a w.
#[export] Instance M_bind W : MBind (M W) := λ A B f m w,
  match m w with
  | Done a w' => f a w'
  | Panicked p => Panicked p
  | Diverged => Diverged
  end.

Definition gets {W A} (f : W → A) : M W A := λ w, Done (f w) w.
Definition modify {W} (f : W → W) : M W unit := λ w, Done tt (f w).
Definition throw {W A} (p : panic) : M W A := λ _, Panicked p.
Definition diverge {W A} : M W A := λ _, Diverged.

(** A total external call: it always returns, with a value and a new state. *)
Definition call {W A} (f : W → A * W) : M W A :=
  λ w, let '(a, w') := f w in Done a w'.

(** [unwrap!(o)]. *)
Definition unwrap {W A} (o : option A) : M W A :=
  match o with Some a => mret a | None => throw UnwrapNone end.

(** A computation on a part of the state (a lens given by its two halves). *)
Definition zoom {W V A} (get : W → V) (put : V → W → W) (m : M V A) : M W A :=
  λ w, match m (get w) with
       | Done a v => Done a (put v w)
       | Panicked p => Panicked p
       | Diverged => Diverged
       end.

(** The [?] operator: stop at the first error. *)
Definition bind_ok {W A B E} (m : M W (result A E)) (k : A → M W (result B E)) :
  M W (result B E) :=
  m ≫= λ r, match r with Ok a => k a | Err e => mret (Err e) end.

Notation "x ←? m ; k" := (bind_ok m (λ x, k))
  (at level 20, m at level 100, k at level 200, only parsing) : crust_scope.
Open Scope crust_scope.

(** [for x in l { body }]. *)
Fixpoint for_each {W A} (body : A → M W unit) (l : list A) : M W unit :=
  match l with
  | [] => mret tt
  | x :: l' => body x ;; for_each body l'
  end.

(** A loop threading a value through its body. *)
Fixpoint fold_loop {W A B} (body : B → A → M W B) (acc : B) (l : list A) : M W B :=
  match l with
  | [] => mret acc
  | x :: l' => acc' ← body acc x; fold_loop body acc' l'
  end.

(** ** Weakest preconditions

    [wp p d m Q w]: started in [w], if [m] completes, [Q] holds of its value and
    state; [p] is what is claimed when it panics and [d] when a loop bound is
    exhausted. [wp False False] is total correctness, [wp True False] says that
    [m] returns (or panics) without running out of its bounds, and
    [wp False True] that it does not panic. *)

Definition wp {W A} (p d : Prop) (m : M W A) (Q : A → W → Prop) (w : W) : Prop :=
  match m w with
  | Done a w' => Q a w'
  | Panicked _ => p
  | Diverged => d
  end.

(** ** Machine integers *)

Definition usize_modulus : Z := 2 ^ 64.
Definition u32_modulus : Z := 2 ^ 32.

(** [a - 1] on [usize]: it panics in a build with overflow checks and wraps
    around in one without. *)
Definition usize_pred {W} (overflow_checks : bool) (a : Z) : M W Z :=
  if a =? 0
  then if overflow_checks then throw ArithOverflow else mret (usize_modulus - 1)
  else mret (a - 1).

(** [a + 1] on [usize]. *)
Definition usize_succ {W} (overflow_checks : bool) (a : Z) : M W Z :=
  if a =? usize_modulus - 1
  then if overflow_checks then throw ArithOverflow else mret 0
  else mret (a + 1).

(** ** Bytes, little endian *)

Abbreviation byte := Byte.byte.

#[export] Instance byte_eq_dec : EqDecision byte := Byte.byte_eq_dec.

Definition Z_of_byte (b : byte) : Z := Z.of_N (Strings.Byte.to_N b).

Definition byte_of_Z (z : Z) : byte :=
  default Byte.x00 (Strings.Byte.of_N (Z.to_N (z mod 256))).

Fixpoint le_bytes (n : nat) (z : Z) : list byte :=
  match n with
  | O => []
  | S n' => byte_of_Z z :: le_bytes n' (z / 256)
  end.

Fixpoint le_value (l : list byte) : Z :=
  match l with
  | [] => 0
  | b :: l' => Z_of_byte b + 256 * le_value l'
  end.

(** ** Lemmas: computations *)

Section wp_rules.
Context {W : Type}.
Implicit Types (w : W) (p d : Prop).

Lemma wp_ret {A} p d (a : A) (Q : A → W → Prop) w :
  wp p d (mret a) Q w ↔ Q a w.
Proof. reflexivity. Qed.

Lemma Done_bind_inv {A B} (m : M W A) (k : A → M W B) w b w' :
  (m ≫= k) w = Done b w' → ∃ a w1, m w = Done a w1 ∧ k a w1 = Done b w'.
Proof. unfold mbind, M_bind. destruct (m w) as [a w1|e|]; [|done|done]. by exists a, w1. Qed.

Lemma wp_bind {A B} p d (m : M W A) (k : A → M W B) Q w :
  wp p d (m ≫= k) Q w ↔ wp p d m (λ a w', wp p d (k a) Q w') w.
Proof. unfold wp, mbind, M_bind. by destruct (m w). Qed.

Lemma wp_mono {A} p d (m : M W A) (Q R : A → W → Prop) w :
  wp p d m Q w → (∀ a w', Q a w' → R a w') → wp p d m R w.
Proof. unfold wp. destruct (m w); auto. Qed.

Lemma wp_gets {A} p d (f : W → A) Q w : wp p d (gets f) Q w ↔ Q (f w) w.
Proof. reflexivity. Qed.

Lemma wp_modify p d (f : W → W) Q w : wp p d (modify f) Q w ↔ Q tt (f w).
Proof. reflexivity. Qed.

Lemma wp_call {A} p d (f : W → A * W) Q w :
  wp p d (call f) Q w ↔ Q (f w).1 (f w).2.
Proof. unfold wp, call. by destruct (f w). Qed.

Lemma wp_unwrap {A} p d (a : A) Q w : wp p d (unwrap (Some a)) Q w ↔ Q a w.
Proof. reflexivity. Qed.

Lemma wp_zoom {V A} p d (get : W → V) (put : V → W → W) (m : M V A) Q w :
  wp p d (zoom get put m) Q w ↔ wp p d m (λ a v, Q a (put v w)) (get w).
Proof. unfold wp, zoom. by destruct (m (get w)). Qed.

Lemma wp_bind_ok {A B E} p d (m : M W (result A E)) (k : A → M W (result B E)) Q w :
  wp p d (bind_ok m k) Q w ↔
  wp p d m (λ r w', match r with
                  | Ok a => wp p d (k a) Q w'
                  | Err e => Q (Err e) w'
                  end) w.
Proof.
  unfold bind_ok, wp, mbind, M_bind.
  destruct (m w) as [[|]| |]; reflexivity.
Qed.

Lemma wp_throw {A} p d e (Q : A → W → Prop) w : wp p d (throw e) Q w ↔ p.
Proof. reflexivity. Qed.

(** A completed run is what [wp] speaks about. *)
Lemma wp_done {A} p d (m : M W A) Q w a w' :
  wp p d m Q w → m w = Done a w' → Q a w'.
Proof. unfold wp. intros H E. by rewrite E in H. Qed.

(** The loop rule: an invariant of every iteration is one of the loop. *)
Lemma wp_for_each {A} p d (body : A → M W unit) (l : list A) (I : W → Prop) w :
  I w →
  (∀ x w', x ∈ l → I w' → wp p d (body x) (λ _ w'', I w'') w') →
  wp p d (for_each body l) (λ _ w', I w') w.
Proof.
  revert w. induction l as [|x l IH]; intros w Hw Hbody; [done|].
  simpl. rewrite wp_bind.
  eapply wp_mono; [apply Hbody; [left|done]|].
  intros [] w' Hw'. apply IH; [done|].
  intros y w'' Hy. apply Hbody. by right.
Qed.

Lemma wp_fold_loop {A B} p d (body : B → A → M W B) (l : list A) (I : B → W → Prop) acc w :
  I acc w →
  (∀ x b w', x ∈ l → I b w' → wp p d (body b x) (λ b' w'', I b' w'') w') →
  wp p d (fold_loop body acc l) (λ b w', I b w') w.
Proof.
  revert acc w. induction l as [|x l IH]; intros acc w Hw Hbody; [done|].
  simpl. rewrite wp_bind.
  eapply wp_mono; [apply Hbody; [left|done]|].
  intros b w' Hw'. apply IH; [done|].
  intros y b' w'' Hy. apply Hbody. by right.
Qed.

Lemma fold_loop_app {A B} (body : B → A → M W B) l1 l2 : ∀ acc w,
  fold_loop body acc (l1 ++ l2) w = (acc' ← fold_loop body acc l1; fold_loop body acc' l2) w.
Proof.
  induction l1 as [|x l1 IH]; intros acc w; [done|].
  cbn. unfold mbind, M_bind. destruct (body acc x w) as [b w'| |]; [|done|done]. apply IH.
Qed.
End wp_rules.

(** Symbolic execution of a straight-line computation. *)
Create HintDb crust discriminated.
Create Rewrite HintDb wp.
#[export] Hint Rewrite @wp_ret @wp_throw @wp_bind @wp_gets @wp_modify @wp_call @wp_unwrap @wp_zoom
  @wp_bind_ok : wp.

Ltac wp_go := repeat (progress (autorewrite with wp; cbn beta iota)).

(** ** Lemmas: bytes *)

Lemma Z_of_byte_bounds b : 0 ≤ Z_of_byte b < 256.
Proof. unfold Z_of_byte. pose proof (Strings.Byte.to_N_bounded b). lia. Qed.

Lemma Z_of_byte_of_Z z : Z_of_byte (byte_of_Z z) = z mod 256.
Proof.
  unfold Z_of_byte, byte_of_Z.
  pose proof (Z.mod_pos_bound z 256 ltac:(lia)) as Hb.
  destruct (Strings.Byte.of_N (Z.to_N (z mod 256))) as [b|] eqn:E; simpl.
  - apply Strings.Byte.to_of_N in E. rewrite E. lia.
  - apply Strings.Byte.of_N_None_iff in E. lia.
Qed.

Lemma byte_of_Z_of_byte b : byte_of_Z (Z_of_byte b) = b.
Proof.
  unfold byte_of_Z. rewrite Z.mod_small by apply Z_of_byte_bounds.
  unfold Z_of_byte. by rewrite N2Z.id, Strings.Byte.of_to_N.
Qed.

Lemma length_le_bytes n z : length (le_bytes n z) = n.
Proof. revert z. induction n; simpl; auto. Qed.

Lemma le_value_bytes n z : le_value (le_bytes n z) = z mod 256 ^ Z.of_nat n.
Proof.
  revert z. induction n as [|n IH]; intros z; simpl le_bytes; simpl le_value.
  - by rewrite Z.mod_1_r.
  - rewrite IH, Z_of_byte_of_Z, Nat2Z.inj_succ, Z.pow_succ_r by lia.
    by rewrite (Z.rem_mul_r z 256 (256 ^ Z.of_nat n)) by lia.
Qed.

Lemma le_value_bounds l : 0 ≤ le_value l < 256 ^ Z.of_nat (length l).
Proof.
  induction l as [|b l IH]; simpl length; simpl le_value; [lia|].
  rewrite Nat2Z.inj_succ, Z.pow_succ_r by lia.
  pose proof (Z_of_byte_bounds b). lia.
Qed.

Lemma le_bytes_value l : le_bytes (length l) (le_value l) = l.
Proof.
  induction l as [|b l IH]; simpl; [done|].
  pose proof (Z_of_byte_bounds b) as Hb.
  f_equal.
  - rewrite <- (byte_of_Z_of_byte b) at 2. unfold byte_of_Z.
    rewrite (Z.mul_comm 256), Z_mod_plus_full. done.
  - transitivity (le_bytes (length l) (le_value l)); [f_equal|done].
    rewrite (Z.mul_comm 256), Z.div_add by lia.
    rewrite Z.div_small by lia. lia.
Qed.

(** ** Lemmas: lists *)

Lemma filter_none {A} (f : A → bool) (l : list A) :
  (∀ x, x ∈ l → f x = false) → List.filter f l = [].
Proof.
  induction l as [|x l IH]; intros Hf; simpl; [done|].
  rewrite Hf by left. apply IH. intros y Hy. apply Hf. by right.
Qed.

Lemma filter_all {A} (f : A → bool) (l : list A) :
  (∀ x, x ∈ l → f x = true) → List.filter f l = l.
Proof.
  induction l as [|x l IH]; intros Hf; simpl; [done|].
  rewrite Hf by left. f_equal. apply IH. intros y Hy. apply Hf. by right.
Qed.

Lemma filter_iff_in {A} (P Q : A → Prop) `{∀ x, Decision (P x), ∀ x, Decision (Q x)} (l : list A) :
  (∀ x, x ∈ l → P x ↔ Q x) → filter P l = filter Q l.
Proof.
  induction l as [|x l IH]; intros Hpq; [done|]. rewrite !filter_cons.
  pose proof (Hpq x ltac:(left)). rewrite IH by (intros y Hy; apply Hpq; by right).
  repeat case_decide; tauto.
Qed.
