(* ===== verification/Types.v ===== *)
(** The data the components share: addresses, wire messages, errors, events,
    connection records and the configuration, from [src/src/common/mod.rs],
    [common/message.rs], [common/error.rs], [main/types.rs], [main/event.rs],
    [main/error.rs], [main/config_handler.rs], [nat/error.rs] and
    [common/get_if_addrs.rs], with the
    properties of the configuration wrapper. *)

From stdpp Require Import base tactics list gmap strings.
From Stdlib Require Import ZArith Lia.
From S2P Require Import Prelude.

(** ** Addresses ([std::net]) *)

Record Ipv4Addr := mkIpv4Addr { v4_a : Z; v4_b : Z; v4_c : Z; v4_d : Z }.

Record Ipv6Addr := mkIpv6Addr {
  v6_0 : Z; v6_1 : Z; v6_2 : Z; v6_3 : Z;
  v6_4 : Z; v6_5 : Z; v6_6 : Z; v6_7 : Z
}.

Inductive IpAddr :=
| V4 (a : Ipv4Addr)
| V6 (a : Ipv6Addr).

Inductive SocketAddr :=
| SocketAddrV4 (addr : Ipv4Addr) (port : Z)
| SocketAddrV6 (addr : Ipv6Addr) (port flowinfo scope_id : Z).

Definition sa_ip (s : SocketAddr) : IpAddr :=
  match s with
  | SocketAddrV4 a _ => V4 a
  | SocketAddrV6 a _ _ _ => V6 a
  end.

Definition sa_port (s : SocketAddr) : Z :=
  match s with
  | SocketAddrV4 _ p => p
  | SocketAddrV6 _ p _ _ => p
  end.

Definition sa_set_port (p : Z) (s : SocketAddr) : SocketAddr :=
  match s with
  | SocketAddrV4 a _ => SocketAddrV4 a p
  | SocketAddrV6 a _ f i => SocketAddrV6 a p f i
  end.

(** [SocketAddr::new]. *)
Definition sa_new (ip : IpAddr) (p : Z) : SocketAddr :=
  match ip with
  | V4 a => SocketAddrV4 a p
  | V6 a => SocketAddrV6 a p 0 0
  end.

#[export] Instance Ipv4Addr_eq_dec : EqDecision Ipv4Addr.
Proof. solve_decision. Defined.
#[export] Instance Ipv6Addr_eq_dec : EqDecision Ipv6Addr.
Proof. solve_decision. Defined.
#[export] Instance IpAddr_eq_dec : EqDecision IpAddr.
Proof. solve_decision. Defined.
#[export] Instance SocketAddr_eq_dec : EqDecision SocketAddr.
Proof. solve_decision. Defined.

#[export] Program Instance Ipv4Addr_countable : Countable Ipv4Addr :=
  inj_countable' (λ x, (v4_a x, v4_b x, v4_c x, v4_d x))
                 (λ '(a, b, c, d), mkIpv4Addr a b c d) _.
Next Obligation. by intros []. Qed.
#[export] Program Instance Ipv6Addr_countable : Countable Ipv6Addr :=
  inj_countable' (λ x, (v6_0 x, v6_1 x, v6_2 x, v6_3 x, v6_4 x, v6_5 x, v6_6 x, v6_7 x))
                 (λ '(a, b, c, d, e, f, g, h), mkIpv6Addr a b c d e f g h) _.
Next Obligation. by intros []. Qed.
#[export] Program Instance IpAddr_countable : Countable IpAddr :=
  inj_countable' (λ x, match x with V4 a => inl a | V6 a => inr a end)
                 (λ x, match x with inl a => V4 a | inr a => V6 a end) _.
Next Obligation. by intros []. Qed.
#[export] Program Instance SocketAddr_countable : Countable SocketAddr :=
  inj_countable' (λ x, match x with
                       | SocketAddrV4 a p => inl (a, p)
                       | SocketAddrV6 a p f i => inr (a, p, f, i) end)
                 (λ x, match x with
                       | inl (a, p) => SocketAddrV4 a p
                       | inr (a, p, f, i) => SocketAddrV6 a p f i end) _.
Next Obligation. by intros []. Qed.

(** ** Constants and enums of [common/mod.rs] *)

Definition HASH_SIZE : nat := 32.
Abbreviation NameHash := (list byte) (only parsing).
Abbreviation Priority := Z (only parsing).
Definition MAX_PAYLOAD_SIZE : Z := 2 * 1024 * 1024.
Definition MSG_DROP_PRIORITY : Z := 2.

Inductive CrustUser := Node | Client.

Inductive ExternalReachability :=
| NotRequired
| Required (direct_listeners : list SocketAddr).

(** The [Uid] trait: what the code uses of a peer identifier is equality, use as
    a map key, and its total order ([Ord]). *)
Class Uid (UID : Type) := {
  uid_eq_dec :: EqDecision UID;
  uid_countable :: Countable UID;
  uid_gt : UID → UID → bool;
  uid_gt_irrefl : ∀ a, uid_gt a a = false;
  uid_gt_asym : ∀ a b, uid_gt a b = true → uid_gt b a = false;
  uid_gt_total : ∀ a b, a ≠ b → uid_gt a b = true ∨ uid_gt b a = true
}.

#[export] Program Instance Z_uid : Uid Z := {| uid_gt := Z.gtb |}.
Next Obligation. intros a. unfold Z.gtb. by rewrite Z.compare_refl. Qed.
Next Obligation. intros a b. rewrite Z.gtb_ltb, Z.ltb_lt. unfold Z.gtb. intros.
  rewrite (proj2 (Z.compare_lt_iff b a)); done. Qed.
Next Obligation. intros a b. rewrite !Z.gtb_ltb, !Z.ltb_lt. lia. Qed.

(** ** Wire messages ([common/message.rs]) *)

Inductive BootstrapDenyReason :=
| InvalidNameHash
| FailedExternalReachability
| NodeNotWhitelisted
| ClientNotWhitelisted.

Inductive Message (UID : Type) :=
| Heartbeat
| BootstrapRequest (uid : UID) (name_hash : NameHash) (er : ExternalReachability)
| BootstrapGranted (uid : UID)
| BootstrapDenied (reason : BootstrapDenyReason)
| EchoAddrReq
| EchoAddrResp (addr : SocketAddr)
| ChooseConnection
| Connect (uid : UID) (name_hash : NameHash)
| Data (payload : list byte).
Arguments Heartbeat {UID}.
Arguments BootstrapRequest {UID} uid name_hash er.
Arguments BootstrapGranted {UID} uid.
Arguments BootstrapDenied {UID} reason.
Arguments EchoAddrReq {UID}.
Arguments EchoAddrResp {UID} addr.
Arguments ChooseConnection {UID}.
Arguments Connect {UID} uid name_hash.
Arguments Data {UID} payload.

(** ** Service discovery messages ([service_discovery/mod.rs]) *)

Inductive DiscoveryMsg :=
| Request (guid : Z)
| Response (listeners : list SocketAddr).

(** ** Errors *)

(** [io::ErrorKind]: the code tells apart [WouldBlock] and [Interrupted]. *)
Inductive ErrorKind := WouldBlock | Interrupted | OtherKind.

Definition would_block (k : ErrorKind) : bool :=
  match k with WouldBlock | Interrupted => true | OtherKind => false end.

Inductive CommonError :=
| CommonIo (e : ErrorKind)
| UninitialisedSocket
| PayloadSizeProhibitive
| CommonSerialisation
| CommonTimer
| ZeroByteRead
| CommonCoreMsgTx.

Inductive NatError :=
| NatIo (e : ErrorKind)
| NatCommonError (e : CommonError).

Inductive ServiceDiscoveryError :=
| SdIo (e : ErrorKind)
| SdAddrParse
| SdSerialisation.

Inductive CrustError :=
| ChannelRecv
| ConfigFileHandler
| CrustIo (e : ErrorKind)
| ServiceDiscNotEnabled
| ServiceDisc (e : ServiceDiscoveryError)
| InsufficientConnectionInfo
| Nat (e : NatError)
| Common (e : CommonError)
| CrustCoreMsgTx
| PeerNotFound
| CrustSerialisation
| RequestedConnectToSelf
| ListenerNotIntialised.

(** ** Interfaces ([common/get_if_addrs.rs]) *)

Record Ifv4Addr := mkIfv4Addr {
  if4_ip : Ipv4Addr; if4_netmask : Ipv4Addr; if4_broadcast : option Ipv4Addr
}.

Record Ifv6Addr := mkIfv6Addr {
  if6_ip : Ipv6Addr; if6_netmask : Ipv6Addr; if6_broadcast : option Ipv6Addr
}.

Inductive IfAddr :=
| IfV4 (a : Ifv4Addr)
| IfV6 (a : Ifv6Addr).

Record Interface := mkInterface { if_name : string; if_addr : IfAddr }.

(** What a [sockaddr] pointer that is not null points to, by its family:
    [sockaddr_in] with the address in network order read as a [u32],
    [sockaddr_in6] with the 16 bytes of the address, or something else. *)
Inductive sockaddr :=
| SaInet (s_addr : Z)
| SaInet6 (s6_addr : list byte)
| SaOther.

(** An entry of the list of [getifaddrs]; the names are given decoded. The field
    [ifa_ifu] of Linux is [ifa_dstaddr] elsewhere. *)
Record posix_ifaddrs := mkIfaddrs {
  ifa_name : string;
  ifa_flags : Z;
  ifa_addr : option sockaddr;
  ifa_netmask : option sockaddr;
  ifa_ifu : option sockaddr
}.

(** An entry of the list of [GetAdaptersAddresses]. *)
Record IpAdapterPrefix := mkPrefix { pf_address : option sockaddr; prefix_length : Z }.

Record IpAdapterAddresses := mkAdapter {
  adapter_name : string;
  unicast_addresses : list (option sockaddr);
  prefixes : list IpAdapterPrefix
}.

(** ** Readiness and tokens ([mio]) *)

Record Ready := mkReady {
  is_readable : bool; is_writable : bool; is_error : bool; is_hup : bool
}.

Abbreviation Token := Z (only parsing).

Definition ready_read : Ready := mkReady true false true true.
Definition ready_write : Ready := mkReady false true true true.
Definition ready_read_write : Ready := mkReady true true true true.

Record CoreTimer := mkCoreTimer { state_id : Token; timer_id : Z }.

(** ** [main/types.rs] *)

Record ConnectionId := mkConnectionId {
  active_connection : option Token;
  currently_handshaking : Z
}.

Record PrivConnectionInfo (UID B : Type) := mkPrivConnectionInfo {
  priv_id : UID;
  priv_for_direct : list SocketAddr;
  priv_for_hole_punch : list SocketAddr;
  hole_punch_socket : option B
}.
Arguments mkPrivConnectionInfo {UID B} _ _ _ _.
Arguments priv_id {UID B} _.
Arguments priv_for_direct {UID B} _.
Arguments priv_for_hole_punch {UID B} _.
Arguments hole_punch_socket {UID B} _.

Record PubConnectionInfo (UID : Type) := mkPubConnectionInfo {
  pub_id : UID;
  pub_for_hole_punch : list SocketAddr;
  pub_for_direct : list SocketAddr
}.
Arguments mkPubConnectionInfo {UID} _ _ _.
Arguments pub_id {UID} _.
Arguments pub_for_hole_punch {UID} _.
Arguments pub_for_direct {UID} _.

Definition to_pub_connection_info {UID B} (self : PrivConnectionInfo UID B) :
  PubConnectionInfo UID :=
  {| pub_for_hole_punch := priv_for_hole_punch self;
     pub_for_direct := priv_for_direct self;
     pub_id := priv_id self |}.

Record ConnectionInfoResult (UID B : Type) := mkConnectionInfoResult {
  result_token : Z;
  ci_result : result (PrivConnectionInfo UID B) CrustError
}.
Arguments mkConnectionInfoResult {UID B} _ _.
Arguments result_token {UID B} _.
Arguments ci_result {UID B} _.

(** ** Events to the user ([main/event.rs]) *)

Inductive Event (UID B : Type) :=
| BootstrapAccept (uid : UID) (kind : CrustUser)
| BootstrapConnect (uid : UID) (addr : SocketAddr)
| BootstrapFailed
| ListenerStarted (port : Z)
| ListenerFailed
| ConnectionInfoPrepared (r : ConnectionInfoResult UID B)
| ConnectSuccess (uid : UID)
| ConnectFailure (uid : UID)
| LostPeer (uid : UID)
| NewMessage (uid : UID) (kind : CrustUser) (data : list byte)
| WriteMsgSizeProhibitive (uid : UID) (data : list byte).
Arguments BootstrapAccept {UID B} uid kind.
Arguments BootstrapConnect {UID B} uid addr.
Arguments BootstrapFailed {UID B}.
Arguments ListenerStarted {UID B} port.
Arguments ListenerFailed {UID B}.
Arguments ConnectionInfoPrepared {UID B} r.
Arguments ConnectSuccess {UID B} uid.
Arguments ConnectFailure {UID B} uid.
Arguments LostPeer {UID B} uid.
Arguments NewMessage {UID B} uid kind data.
Arguments WriteMsgSizeProhibitive {UID B} uid data.

(** ** Configuration ([main/config_handler.rs]) *)

Record DevConfig := mkDevConfig {
  disable_external_reachability_requirement : bool
}.

Record Config := mkConfig {
  hard_coded_contacts : list SocketAddr;
  tcp_acceptor_port : option Z;
  force_acceptor_port_in_ext_ep : bool;
  service_discovery_port : option Z;
  bootstrap_cache_name : option string;
  whitelisted_node_ips : option (gset IpAddr);
  whitelisted_client_ips : option (gset IpAddr);
  network_name : option string;
  dev : option DevConfig
}.

Definition Config_default : Config := {|
  hard_coded_contacts := [];
  tcp_acceptor_port := None;
  force_acceptor_port_in_ext_ep := false;
  service_discovery_port := None;
  bootstrap_cache_name := None;
  whitelisted_node_ips := None;
  whitelisted_client_ips := None;
  network_name := None;
  dev := None
|}.

#[export] Instance DevConfig_eq_dec : EqDecision DevConfig.
Proof. solve_decision. Defined.
#[export] Instance Config_eq_dec : EqDecision Config.
Proof. solve_decision. Defined.

(** ** [ConfigWrapper] ([main/types.rs]) *)

Record ConfigWrapper := mkConfigWrapper {
  cfg : Config;
  is_modified_for_next_refresh : bool
}.

Definition ConfigWrapper_new (c : Config) : ConfigWrapper :=
  {| cfg := c; is_modified_for_next_refresh := false |}.

Definition check_for_update_and_mark_modified (self : ConfigWrapper) (new_cfg : Config) :
  ConfigWrapper :=
  if decide (cfg self = new_cfg) then self
  else {| cfg := new_cfg; is_modified_for_next_refresh := true |}.

Definition check_for_refresh_and_reset_modified (self : ConfigWrapper) (new_cfg : Config) :
  bool * ConfigWrapper :=
  let '(should_refresh, c) :=
    if decide (cfg self = new_cfg)
    then (is_modified_for_next_refresh self, cfg self)
    else (true, new_cfg) in
  (should_refresh, {| cfg := c; is_modified_for_next_refresh := false |}).

(** ** Decidable equality of the remaining data *)

#[export] Instance CrustUser_eq_dec : EqDecision CrustUser.
Proof. solve_decision. Defined.
#[export] Instance ErrorKind_eq_dec : EqDecision ErrorKind.
Proof. solve_decision. Defined.
#[export] Instance Ready_eq_dec : EqDecision Ready.
Proof. solve_decision. Defined.
#[export] Instance ConnectionId_eq_dec : EqDecision ConnectionId.
Proof. solve_decision. Defined.
#[export] Instance CoreTimer_eq_dec : EqDecision CoreTimer.
Proof. solve_decision. Defined.
#[export] Instance BootstrapDenyReason_eq_dec : EqDecision BootstrapDenyReason.
Proof. solve_decision. Defined.
#[export] Instance ExternalReachability_eq_dec : EqDecision ExternalReachability.
Proof. solve_decision. Defined.
#[export] Instance Message_eq_dec {UID} `{EqDecision UID} : EqDecision (Message UID).
Proof. solve_decision. Defined.

(** ** Properties of the configuration wrapper *)

(** The configurations read since the last refresh, each passed to
    [check_for_update_and_mark_modified] by a handshake. *)
Definition updates (c : ConfigWrapper) (reads : list Config) : ConfigWrapper :=
  foldl check_for_update_and_mark_modified c reads.

Lemma update_cfg c new : cfg (check_for_update_and_mark_modified c new) = new.
Proof. unfold check_for_update_and_mark_modified. by case_decide. Qed.

Lemma update_modified c new :
  is_modified_for_next_refresh (check_for_update_and_mark_modified c new) =
  is_modified_for_next_refresh c || negb (bool_decide (cfg c = new)).
Proof.
  unfold check_for_update_and_mark_modified.
  destruct (decide (cfg c = new)) as [E|E].
  - by rewrite bool_decide_true, orb_false_r.
  - by rewrite bool_decide_false, orb_true_r.
Qed.

Lemma last_default {A} (x : A) l d d' : List.last (x :: l) d = List.last (x :: l) d'.
Proof. revert x. induction l as [|y l IH]; intros x; [done|]. apply (IH y). Qed.

Lemma last_elem_of {A} (x : A) l d : List.last (x :: l) d ∈ x :: l.
Proof. revert x. induction l as [|y l IH]; intros x; [by left|]. right. apply IH. Qed.

Lemma updates_cfg c reads : cfg (updates c reads) = List.last reads (cfg c).
Proof.
  revert c. induction reads as [|r reads IH]; intros c; [done|].
  change (updates c (r :: reads)) with (updates (check_for_update_and_mark_modified c r) reads).
  rewrite IH, update_cfg. destruct reads as [|c0 reads]; [done|].
  exact (last_default c0 reads r (cfg c)).
Qed.

Lemma updates_modified c reads :
  is_modified_for_next_refresh (updates c reads) = true ↔
  is_modified_for_next_refresh c = true ∨ Exists (λ r, r ≠ cfg c) reads.
Proof.
  revert c. induction reads as [|r reads IH]; intros c.
  - rewrite Exists_nil. simpl. tauto.
  - change (updates c (r :: reads)) with (updates (check_for_update_and_mark_modified c r) reads).
    rewrite IH, Exists_cons, update_cfg, update_modified, orb_true_iff, negb_true_iff,
      bool_decide_eq_false.
    destruct (decide (cfg c = r)) as [E|Hne].
    { rewrite E. intuition congruence. }
    split; [intros _; right; left; congruence|intros _; left; right; done].
Qed.

(** The [ConfigRefresher]'s question is answered exactly: whatever handshakes
    have read in between, a refresh is asked for if and only if some
    configuration read since the last refresh differs from the one in force at
    that refresh; and it leaves the wrapper with the newest configuration and
    the flag reset. *)
Theorem refresh_iff_changed c reads new :
  is_modified_for_next_refresh c = false →
  let '(should_refresh, c') :=
    check_for_refresh_and_reset_modified (updates c reads) new in
  (should_refresh = true ↔ Exists (λ r, r ≠ cfg c) (reads ++ [new])) ∧
  c' = ConfigWrapper_new new.
Proof.
  intros Hc. unfold check_for_refresh_and_reset_modified, ConfigWrapper_new.
  pose proof (updates_modified c reads) as Hm. rewrite Hc in Hm.
  destruct (decide (cfg (updates c reads) = new)) as [E|Hne]; simpl;
    (split; [|congruence]); rewrite Exists_app, Exists_cons, Exists_nil, updates_cfg in *.
  - subst new. rewrite Hm. destruct reads as [|r reads].
    { simpl. rewrite Exists_nil. intuition congruence. }
    split; [intuition congruence|]. intros [?|[Hd|[]]]; [by right|]. right.
    apply Exists_exists. eexists. split; [apply last_elem_of|exact Hd].
  - split; [intros _|done].
    destruct (decide (new = cfg c)) as [->|]; [left|right; left; done].
    destruct reads as [|r reads]; [done|]. apply Exists_exists.
    eexists. split; [apply last_elem_of|exact Hne].
Qed.

Module TypesWitness.

Definition c1 : Config := mkConfig [] (Some 5483) false None None None None None None.

(** A handshake read another configuration in between: the refresh is asked for
    although the file is as before again. *)
Lemma refresh_iff_changed_witness :
  let '(should_refresh, c') :=
    check_for_refresh_and_reset_modified
      (updates (ConfigWrapper_new Config_default) [c1]) Config_default in
  (should_refresh = true ↔ Exists (λ r, r ≠ Config_default) [c1; Config_default]) ∧
  c' = ConfigWrapper_new Config_default.
Proof. exact (refresh_iff_changed (ConfigWrapper_new Config_default) [c1] Config_default eq_refl). Defined.

End TypesWitness.
