(* ===== verification/Env.v ===== *)
(** What the program calls and does not define: the [mio] sockets, poll and
    timer, the clock and the serialisation library, as the operations of a type
    class over an abstract outside world [net]. An operation takes the outside
    world and returns its answer with the new one; nothing is assumed of the
    answers except where a theorem says so. [Script] is an instance that
    replays given answers, for evaluating the model on concrete runs. *)

From stdpp Require Import base tactics list strings.
From Stdlib Require Import ZArith Lia.
From S2P Require Import Prelude Types.

(** What can be registered with a [mio::Poll]: sockets, the channel of the event
    loop and its timer. *)
Inductive Evented (S L U : Type) :=
| EvStream (s : S)
| EvListener (l : L)
| EvUdp (u : U)
| EvChannel
| EvTimer.
Arguments EvStream {S L U} s.
Arguments EvListener {S L U} l.
Arguments EvUdp {S L U} u.
Arguments EvChannel {S L U}.
Arguments EvTimer {S L U}.

Class Env := {
  net : Type;
  TcpStream : Type;
  TcpListener : Type;
  TcpBuilder : Type;
  UdpSocket : Type;
  Timeout : Type;
  StdTcpStream : Type;
  StdTcpListener : Type;
  FileHandler : Type;
  ConfigFile : Type;
  Gateway : Type;

  (** Whether the build has arithmetic overflow checks. *)
  overflow_checks : bool;
  (** Whether the target family is unix (else it is windows). *)
  target_unix : bool;
  (** The bound given to the loops whose length the outside world decides. *)
  loop_fuel : nat;

  (** [mio::tcp::TcpStream]; [tcp_read] reads at most 65536 bytes. *)
  tcp_connect : SocketAddr → net → result TcpStream ErrorKind * net;
  tcp_read : TcpStream → net → result (list byte) ErrorKind * net;
  tcp_write : TcpStream → list byte → net → result Z ErrorKind * net;
  tcp_peer_addr : TcpStream → net → result SocketAddr ErrorKind * net;

  (** [mio::Poll]. *)
  poll_new : net → result unit ErrorKind * net;
  poll_register : Evented TcpStream TcpListener UdpSocket → Token → Ready → net →
                  result unit ErrorKind * net;
  poll_reregister : Evented TcpStream TcpListener UdpSocket → Token → Ready → net →
                    result unit ErrorKind * net;
  poll_deregister : Evented TcpStream TcpListener UdpSocket → net →
                    result unit ErrorKind * net;

  (** [mio::timer::Timer], intervals in milliseconds. *)
  timer_set_timeout : Z → CoreTimer → net → result Timeout unit * net;
  timer_cancel_timeout : Timeout → net → option CoreTimer * net;
  timer_poll : net → option CoreTimer * net;

  (** [Instant::now()], in milliseconds. *)
  now : net → Z;

  (** [mio::tcp::TcpListener::accept]. *)
  tcp_accept : TcpListener → net → result TcpStream ErrorKind * net;

  (** [net2::TcpBuilder], and the conversions from [std::net] to [mio]. *)
  builder_new_v4 : net → result TcpBuilder ErrorKind * net;
  builder_new_v6 : net → result TcpBuilder ErrorKind * net;
  builder_reuse_address : TcpBuilder → bool → net → result unit ErrorKind * net;
  builder_reuse_port : TcpBuilder → bool → net → result unit ErrorKind * net;
  builder_bind : TcpBuilder → SocketAddr → net → result unit ErrorKind * net;
  builder_local_addr : TcpBuilder → net → result SocketAddr ErrorKind * net;
  builder_to_tcp_stream : TcpBuilder → net → result StdTcpStream ErrorKind * net;
  builder_listen : TcpBuilder → Z → net → result StdTcpListener ErrorKind * net;
  std_local_addr : StdTcpListener → net → result SocketAddr ErrorKind * net;
  from_listener : StdTcpListener → SocketAddr → net → result TcpListener ErrorKind * net;
  connect_stream : StdTcpStream → SocketAddr → net → result TcpStream ErrorKind * net;

  (** [mio::udp::UdpSocket]; [udp_recv_from] receives at most 1024 bytes. *)
  udp_bind : SocketAddr → net → result UdpSocket ErrorKind * net;
  udp_set_broadcast : UdpSocket → bool → net → result unit ErrorKind * net;
  udp_send_to : UdpSocket → list byte → SocketAddr → net → result (option Z) ErrorKind * net;
  udp_recv_from : UdpSocket → net →
                  result (option (list byte * SocketAddr)) ErrorKind * net;

  (** [rand]. *)
  random_u64 : net → Z * net;
  shuffle : list SocketAddr → net → list SocketAddr * net;

  (** [config_file_handler]: the file of bootstrap contacts. *)
  exe_file_stem : net → result string CrustError * net;
  file_handler_new : string → net → result FileHandler CrustError * net;
  file_handler_read : FileHandler → net → result (list SocketAddr) CrustError * net;

  (** [config_file_handler]: the crust configuration file. *)
  config_file_new : string → net → result ConfigFile CrustError * net;
  config_file_read : ConfigFile → net → result Config CrustError * net;

  (** [igd]: finding the gateway of an interface (with a time limit in
      milliseconds), and asking it to map an address. *)
  search_gateway : Ipv4Addr → Z → net → result Gateway unit * net;
  get_any_address : Gateway → Ipv4Addr → Z → net → result (Ipv4Addr * Z) unit * net;

  (** The operating system's interfaces: [getifaddrs] and [freeifaddrs];
      [malloc] and [free], and [GetAdaptersAddresses] into a buffer of a given
      size, which returns a code, the size it asks for and the table. *)
  getifaddrs : net → result (list posix_ifaddrs) ErrorKind * net;
  freeifaddrs : net → unit * net;
  libc_malloc : Z → net → bool * net;
  libc_free : net → unit * net;
  GetAdaptersAddresses : Z → net → (Z * Z * list IpAdapterAddresses) * net;
  last_os_error : net → ErrorKind * net
}.

Abbreviation evented := (Evented TcpStream TcpListener UdpSocket).

(** [config_handler.rs]: the configuration file is next to the program, or where
    [config_file_handler] looks for it, under the program's name. *)
Section ConfigHandler.
Context {ENV : Env}.

Definition get_file_name (n : net) : result string CrustError * net :=
  match exe_file_stem n with
  | (Ok name, n) => (Ok (name ++ ".crust.config")%string, n)
  | (Err e, n) => (Err e, n)
  end.

Definition read_config_file (n : net) : result Config CrustError * net :=
  match get_file_name n with
  | (Err e, n) => (Err e, n)
  | (Ok name, n) =>
      match config_file_new name n with
      | (Err e, n) => (Err e, n)
      | (Ok file_handler, n) => config_file_read file_handler n
      end
  end.

End ConfigHandler.
Arguments read_config_file : simpl never.

(** [maidsafe_utilities::serialisation]: [serialise] (and [serialise_into] a fresh
    buffer), [deserialise_from] a cursor at the start of a buffer, and
    [deserialise] of a whole slice. *)
Class Codec (T : Type) := {
  serialise : T → option (list byte);
  deserialise_from : list byte → option T;
  deserialise : list byte → option T
}.

(** The documented behaviour of the format: what was serialised is read back,
    from a cursor whatever follows it; and no value is encoded as zero bytes (the messages are
    enums, encoded with their tag). *)
Class CodecLaws (T : Type) `{Codec T} := {
  deserialise_serialise : ∀ (m : T) bs rest,
    serialise m = Some bs → deserialise_from (bs ++ rest) = Some m;
  deserialise_whole : ∀ (m : T) bs, serialise m = Some bs → deserialise bs = Some m;
  serialise_nonempty : ∀ (m : T) bs, serialise m = Some bs → bs ≠ []
}.

(** ** A scripted environment *)
Module Script.

Record net := mkNet {
  reads : list (result (list byte) ErrorKind);
  writes : list (result Z ErrorKind);
  polls : list (result unit ErrorKind);
  timeouts : list (result nat unit);
  fired : list CoreTimer;
  accepts : list (result nat ErrorKind);
  configs : list (result Config CrustError);
  connects : list (result nat ErrorKind);
  builds : list (result nat ErrorKind);
  datagrams : list (result (option (list byte * SocketAddr)) ErrorKind);
  sendings : list (result (option Z) ErrorKind);
  contacts : list SocketAddr;
  time : Z
}.

(** The next scripted answer, or the given one when the script has run out. *)
Definition pop {A} (d : A) (l : list A) : A * list A :=
  match l with [] => (d, []) | x :: l' => (x, l') end.

Definition quiet : net :=
  {| reads := []; writes := []; polls := []; timeouts := []; fired := []; accepts := [];
     configs := []; connects := []; builds := [];
     datagrams := []; sendings := []; contacts := []; time := 0 |}.

Definition set_reads x n := mkNet x (writes n) (polls n) (timeouts n) (fired n) (accepts n)
  (configs n) (connects n) (builds n) (datagrams n) (sendings n) (contacts n) (time n).
Definition set_writes x n := mkNet (reads n) x (polls n) (timeouts n) (fired n) (accepts n)
  (configs n) (connects n) (builds n) (datagrams n) (sendings n) (contacts n) (time n).
Definition set_polls x n := mkNet (reads n) (writes n) x (timeouts n) (fired n) (accepts n)
  (configs n) (connects n) (builds n) (datagrams n) (sendings n) (contacts n) (time n).
Definition set_timeouts x n := mkNet (reads n) (writes n) (polls n) x (fired n) (accepts n)
  (configs n) (connects n) (builds n) (datagrams n) (sendings n) (contacts n) (time n).
Definition set_fired x n := mkNet (reads n) (writes n) (polls n) (timeouts n) x (accepts n)
  (configs n) (connects n) (builds n) (datagrams n) (sendings n) (contacts n) (time n).
Definition set_accepts x n := mkNet (reads n) (writes n) (polls n) (timeouts n) (fired n) x
  (configs n) (connects n) (builds n) (datagrams n) (sendings n) (contacts n) (time n).
Definition set_configs x n := mkNet (reads n) (writes n) (polls n) (timeouts n) (fired n)
  (accepts n) x (connects n) (builds n) (datagrams n) (sendings n) (contacts n) (time n).
Definition set_connects x n := mkNet (reads n) (writes n) (polls n) (timeouts n) (fired n)
  (accepts n) (configs n) x (builds n) (datagrams n) (sendings n) (contacts n) (time n).
Definition set_builds x n := mkNet (reads n) (writes n) (polls n) (timeouts n) (fired n)
  (accepts n) (configs n) (connects n) x (datagrams n) (sendings n) (contacts n) (time n).
Definition set_datagrams x n := mkNet (reads n) (writes n) (polls n) (timeouts n) (fired n)
  (accepts n) (configs n) (connects n) (builds n) x (sendings n) (contacts n) (time n).
Definition set_sendings x n := mkNet (reads n) (writes n) (polls n) (timeouts n) (fired n)
  (accepts n) (configs n) (connects n) (builds n) (datagrams n) x (contacts n) (time n).
Definition set_contacts x n := mkNet (reads n) (writes n) (polls n) (timeouts n) (fired n)
  (accepts n) (configs n) (connects n) (builds n) (datagrams n) (sendings n) x (time n).
Definition set_time x n := mkNet (reads n) (writes n) (polls n) (timeouts n) (fired n) (accepts
  n) (configs n) (connects n) (builds n) (datagrams n) (sendings n) (contacts n) x.

(** An operation on a [TcpBuilder]. *)
Definition build {A} (a : A) (n : net) : result A ErrorKind * net :=
  let '(r, l) := pop (Ok 0%nat) (builds n) in
  (match r with Ok _ => Ok a | Err e => Err e end, set_builds l n).

(** The peer of the stream [i] is the host [i + 1] of a local network. *)
Definition host (b : byte) : SocketAddr := SocketAddrV4 (mkIpv4Addr 192 168 0 (Z_of_byte b)) 0.

Definition local : SocketAddr := SocketAddrV4 (mkIpv4Addr 192 168 0 2) 5483.

(** An address that is reachable from outside. *)
Definition public : SocketAddr := SocketAddrV4 (mkIpv4Addr 203 0 114 9) 5000.

(** The host's interfaces: the loopback, and 10.0.0.7 behind a gateway, with a
    link-local address and one that is not of the Internet. *)
Definition interfaces : list posix_ifaddrs :=
  [ mkIfaddrs "lo" 73 (Some (SaInet (127 + Z.shiftl 1 24))) (Some (SaInet 255)) None;
    mkIfaddrs "eth0" 67 (Some (SaInet (10 + Z.shiftl 7 24))) (Some (SaInet 255))
      (Some (SaInet (10 + Z.shiftl 16777215 8)));
    mkIfaddrs "eth0" 67 (Some (SaInet6 (Byte.xfe :: Byte.x80 :: replicate 14 Byte.x00))) None None;
    mkIfaddrs "eth0" 67 (Some SaOther) None None ]%string.

Definition adapters : list IpAdapterAddresses :=
  [ mkAdapter "eth0" [Some (SaInet (10 + Z.shiftl 7 24))] [mkPrefix (Some (SaInet 10)) 8] ]%string.

(** An unscripted read blocks, an unscripted write takes everything, an
    unscripted registration succeeds; timers are scripted like the rest if
    [timers_fail], and succeed always otherwise. *)
Definition env (checks : bool) (timers_fail : bool) : Env := {|
  Env.net := net;
  TcpStream := nat;
  TcpListener := nat;
  TcpBuilder := nat;
  UdpSocket := nat;
  Timeout := nat;
  StdTcpStream := nat;
  StdTcpListener := nat;
  FileHandler := nat;
  ConfigFile := nat;
  Gateway := nat;
  overflow_checks := checks;
  target_unix := true;
  loop_fuel := 100;
  tcp_connect _ n := let '(r, l) := pop (Ok 0%nat) (connects n) in (r, set_connects l n);
  tcp_read _ n := let '(r, l) := pop (Err WouldBlock) (reads n) in (r, set_reads l n);
  tcp_write _ bs n :=
    let '(r, l) := pop (Ok (Z.of_nat (length bs))) (writes n) in (r, set_writes l n);
  tcp_peer_addr i n := (Ok (host (byte_of_Z (Z.of_nat i + 1))), n);
  poll_new n := (Ok tt, n);
  poll_register _ _ _ n := let '(r, l) := pop (Ok tt) (polls n) in (r, set_polls l n);
  poll_reregister _ _ _ n := let '(r, l) := pop (Ok tt) (polls n) in (r, set_polls l n);
  poll_deregister _ n := (Ok tt, n);
  timer_set_timeout _ _ n :=
    if timers_fail
    then let '(r, l) := pop (Ok 0%nat) (timeouts n) in (r, set_timeouts l n)
    else (Ok 0%nat, n);
  timer_cancel_timeout _ n := (None, n);
  timer_poll n := match fired n with
                  | [] => (None, n)
                  | t :: l => (Some t, set_fired l n)
                  end;
  now := time;
  tcp_accept _ n := let '(r, l) := pop (Err WouldBlock) (accepts n) in (r, set_accepts l n);
  builder_new_v4 := build 0%nat;
  builder_new_v6 := build 0%nat;
  builder_reuse_address _ _ := build tt;
  builder_reuse_port _ _ := build tt;
  builder_bind _ _ := build tt;
  builder_local_addr _ := build local;
  builder_to_tcp_stream _ := build 0%nat;
  builder_listen _ _ := build 0%nat;
  std_local_addr _ := build local;
  from_listener _ _ := build 0%nat;
  connect_stream _ _ n := let '(r, l) := pop (Ok 0%nat) (connects n) in (r, set_connects l n);
  udp_bind _ := build 0%nat;
  udp_set_broadcast _ _ := build tt;
  udp_send_to _ bs _ n :=
    let '(r, l) := pop (Ok (Some (Z.of_nat (length bs)))) (sendings n) in (r, set_sendings l n);
  udp_recv_from _ n := let '(r, l) := pop (Ok None) (datagrams n) in (r, set_datagrams l n);
  random_u64 n := (4, n);
  shuffle l n := (l, n);
  exe_file_stem n := (Ok "crust"%string, n);
  file_handler_new _ n := (Ok 0%nat, n);
  file_handler_read _ n := (Ok (contacts n), n);
  config_file_new _ n := (Ok 0%nat, n);
  config_file_read _ n := let '(r, l) := pop (Err ConfigFileHandler) (configs n) in
                   (r, set_configs l n);
  search_gateway ip _ n := (if v4_a ip =? 10 then Ok 0%nat else Err tt, n);
  get_any_address _ ip port n := (Ok (mkIpv4Addr 203 0 114 (v4_d ip), port), n);
  getifaddrs n := (Ok interfaces, n);
  freeifaddrs n := (tt, n);
  libc_malloc _ n := (true, n);
  libc_free n := (tt, n);
  GetAdaptersAddresses size n :=
    (if size <? 20000 then (111, 20000, []) else (0, size, adapters), n);
  last_os_error n := (OtherKind, n)
|}.

(** A one-byte codec, for the witnesses of statements about any codec. *)
#[export] Instance byte_codec : Codec byte := {|
  serialise b := Some [b];
  deserialise_from bs := head bs;
  deserialise bs := match bs with [b] => Some b | _ => None end
|}.

#[export] Program Instance byte_codec_laws : CodecLaws byte.
Next Obligation. intros m bs rest [= <-]. done. Qed.
Next Obligation. intros m bs [= <-]. done. Qed.
Next Obligation. by intros m bs [= <-]. Qed.

(** A codec for messages: a tag byte and at most one byte of contents. It
    serialises the messages the concrete runs need (identifiers of one byte,
    empty name hashes, data of one byte) and refuses the others. *)
Definition one_byte (z : Z) : option byte :=
  if (0 <=? z) && (z <? 256) then Some (byte_of_Z z) else None.

Definition deny_byte (r : BootstrapDenyReason) : byte :=
  match r with
  | InvalidNameHash => Byte.x00
  | FailedExternalReachability => Byte.x01
  | NodeNotWhitelisted => Byte.x02
  | ClientNotWhitelisted => Byte.x03
  end.

Definition byte_deny (b : byte) : BootstrapDenyReason :=
  match b with
  | Byte.x00 => InvalidNameHash
  | Byte.x01 => FailedExternalReachability
  | Byte.x02 => NodeNotWhitelisted
  | _ => ClientNotWhitelisted
  end.

(** The decoder allows more bytes to follow. *)
Definition msg_decode (bs : list byte) : option (Message Z) :=
  match bs with
  | Byte.x00 :: _ => Some Heartbeat
  | Byte.x01 :: _ => Some ChooseConnection
  | Byte.x02 :: _ => Some EchoAddrReq
  | Byte.x03 :: b :: _ => Some (Data [b])
  | Byte.x04 :: b :: _ => Some (Connect (Z_of_byte b) [])
  | Byte.x05 :: b :: _ => Some (BootstrapRequest (Z_of_byte b) [] NotRequired)
  | Byte.x06 :: b :: _ => Some (BootstrapRequest (Z_of_byte b) [] (Required []))
  | Byte.x07 :: b :: _ => Some (BootstrapGranted (Z_of_byte b))
  | Byte.x08 :: b :: _ => Some (BootstrapDenied (byte_deny b))
  | Byte.x09 :: b :: _ => Some (EchoAddrResp (host b))
  | Byte.x0a :: b :: _ => Some (BootstrapRequest (Z_of_byte b) [] (Required [public]))
  | _ => None
  end.

#[export] Instance msg_codec : Codec (Message Z) := {|
  serialise m :=
    match m with
    | Heartbeat => Some [Byte.x00]
    | ChooseConnection => Some [Byte.x01]
    | EchoAddrReq => Some [Byte.x02]
    | Data [b] => Some [Byte.x03; b]
    | Connect uid [] => b ← one_byte uid; Some [Byte.x04; b]
    | BootstrapRequest uid [] NotRequired => b ← one_byte uid; Some [Byte.x05; b]
    | BootstrapRequest uid [] (Required []) => b ← one_byte uid; Some [Byte.x06; b]
    | BootstrapRequest uid [] (Required [addr]) =>
        if decide (addr = public) then b ← one_byte uid; Some [Byte.x0a; b] else None
    | BootstrapGranted uid => b ← one_byte uid; Some [Byte.x07; b]
    | BootstrapDenied r => Some [Byte.x08; deny_byte r]
    | EchoAddrResp (SocketAddrV4 ip p) =>
        b ← one_byte (v4_d ip);
        if decide (SocketAddrV4 ip p = host b) then Some [Byte.x09; b] else None
    | _ => None
    end;
  deserialise_from := msg_decode;
  deserialise := msg_decode
|}.

Lemma one_byte_inv z b : one_byte z = Some b → Z_of_byte b = z.
Proof.
  unfold one_byte. destruct (Z.leb_spec 0 z), (Z.ltb_spec z 256); simpl; try done.
  intros [= <-]. rewrite Z_of_byte_of_Z. apply Z.mod_small. lia.
Qed.

Lemma msg_codec_inv (m : Message Z) bs rest :
  serialise m = Some bs → bs ≠ [] ∧ deserialise_from (bs ++ rest) = Some m.
Proof.
  destruct m as [|uid [|] [|[|addr [|]]]|uid| | | | |uid [|]|[|? [|]]]; cbn -[one_byte deny_byte public]; intros H;
    try (case_decide as Ha; [subst addr|discriminate]);
    try (destruct (one_byte uid) as [b|] eqn:E; [|discriminate]; apply one_byte_inv in E);
    try discriminate H; try (injection H as <-; cbn -[Z_of_byte]; split; [done|congruence]).
  - injection H as <-. split; [done|]. by destruct reason.
  - destruct addr as [ip p|]; [|discriminate].
    destruct (one_byte (v4_d ip)) as [b|]; [|discriminate]. cbn -[host] in H.
    case_decide; [|discriminate]. injection H as <-. cbn -[host]. split; [done|congruence].
Qed.

#[export] Instance msg_codec_laws : CodecLaws (Message Z).
Proof.
  split.
  - intros m bs rest H. by apply msg_codec_inv.
  - intros m bs H. rewrite <- (app_nil_r bs). by apply msg_codec_inv.
  - intros m bs H. by eapply (msg_codec_inv _ _ []).
Qed.

(** A codec for the datagrams of service discovery. *)
Definition disc_decode (bs : list byte) : option DiscoveryMsg :=
  match bs with
  | Byte.x00 :: b :: _ => Some (Request (Z_of_byte b))
  | Byte.x01 :: _ => Some (Response [])
  | Byte.x02 :: b :: _ => Some (Response [host b])
  | _ => None
  end.

#[export] Instance disc_codec : Codec DiscoveryMsg := {|
  serialise m :=
    match m with
    | Request guid => b ← one_byte guid; Some [Byte.x00; b]
    | Response [] => Some [Byte.x01]
    | Response [SocketAddrV4 ip p] =>
        b ← one_byte (v4_d ip);
        if decide (SocketAddrV4 ip p = host b) then Some [Byte.x02; b] else None
    | _ => None
    end;
  deserialise_from := disc_decode;
  deserialise := disc_decode
|}.

Lemma disc_codec_inv (m : DiscoveryMsg) bs rest :
  serialise m = Some bs → bs ≠ [] ∧ deserialise_from (bs ++ rest) = Some m.
Proof.
  destruct m as [guid|[|[ip p|] [|]]]; cbn -[one_byte host]; try discriminate.
  - destruct (one_byte guid) as [b|] eqn:E; [|discriminate]. apply one_byte_inv in E.
    intros [= <-]. cbn -[Z_of_byte]. split; [done|congruence].
  - by intros [= <-].
  - destruct (one_byte (v4_d ip)) as [b|]; [|discriminate]. cbn -[host].
    case_decide; [|discriminate]. intros [= <-]. cbn -[host]. split; [done|congruence].
Qed.

#[export] Instance disc_codec_laws : CodecLaws DiscoveryMsg.
Proof.
  split.
  - intros m bs rest H. by apply disc_codec_inv.
  - intros m bs H. rewrite <- (app_nil_r bs). by apply disc_codec_inv.
  - intros m bs H. by eapply (disc_codec_inv _ _ []).
Qed.

End Script.
