(* ===== verification/Socket.v ===== *)
(** [src/src/common/socket.rs]: the framed, prioritised message socket. The
    reader reassembles length-prefixed messages from arbitrary chunks; the
    writer keeps one queue per priority, drops what has waited too long, and
    never splits a frame. *)

From stdpp Require Import base tactics list sorting sets.
From Stdlib Require Import ZArith Lia.
From S2P Require Import Prelude Types Env.

Definition MAX_MSG_AGE_SECS : Z := 60.

(** The length prefix: [mem::size_of::<u32>()]. *)
Definition u32_size : nat := 4.

(** A [BTreeMap<Priority, VecDeque<(Instant, Vec<u8>)>>], in key order. *)
Abbreviation WriteQueue := (list (Priority * list (Z * list byte))) (only parsing).

Section Socket.
Context {ENV : Env}.

Record SockInner := mkSockInner {
  stream : TcpStream;
  read_buffer : list byte;
  read_len : Z;
  write_queue : WriteQueue;
  current_write : option (list byte)
}.

Definition Socket : Type := option SockInner.

Definition set_read (buf : list byte) (len : Z) (s : SockInner) : SockInner :=
  mkSockInner (stream s) buf len (write_queue s) (current_write s).
Definition set_write (q : WriteQueue) (c : option (list byte)) (s : SockInner) : SockInner :=
  mkSockInner (stream s) (read_buffer s) (read_len s) q c.

(** ** Construction *)

Definition Socket_wrap (st : TcpStream) : Socket :=
  Some {| stream := st; read_buffer := []; read_len := 0;
          write_queue := []; current_write := None |}.

Definition Socket_default : Socket := None.

Definition Socket_connect (addr : SocketAddr) : M net (result Socket CommonError) :=
  r ← call (tcp_connect addr);
  mret match r with
       | Ok st => Ok (Socket_wrap st)
       | Err k => Err (CommonIo k)
       end.

Definition Socket_peer_addr (s : Socket) : M net (result SocketAddr CommonError) :=
  match s with
  | None => mret (Err UninitialisedSocket)
  | Some inner => r ← call (tcp_peer_addr (stream inner)); mret (map_err CommonIo r)
  end.

(** ** Registration ([impl Evented for Socket]) *)

Definition Socket_register (s : Socket) (token : Token) (interest : Ready) :
  M net (result unit ErrorKind) :=
  match s with
  | None => mret (Err OtherKind)
  | Some inner => call (poll_register (EvStream (stream inner)) token interest)
  end.

Definition Socket_reregister (s : Socket) (token : Token) (interest : Ready) :
  M net (result unit ErrorKind) :=
  match s with
  | None => mret (Err OtherKind)
  | Some inner => call (poll_reregister (EvStream (stream inner)) token interest)
  end.

Definition Socket_deregister (s : Socket) : M net (result unit ErrorKind) :=
  match s with
  | None => mret (Err OtherKind)
  | Some inner => call (poll_deregister (EvStream (stream inner)))
  end.

(** ** Reading *)

Section Read.
Context {T : Type} `{Codec T}.

(** The second half of [read_from_buffer], once the length is known. *)
Definition take_message (s : SockInner) : result (option T) CommonError * SockInner :=
  if read_len s >? Z.of_nat (length (read_buffer s)) then (Ok None, s)
  else match deserialise_from (read_buffer s) with
       | None => (Err CommonSerialisation, s)
       | Some m => (Ok (Some m), set_read (drop (Z.to_nat (read_len s)) (read_buffer s)) 0 s)
       end.

Definition SockInner_read_from_buffer (s : SockInner) :
  result (option T) CommonError * SockInner :=
  if read_len s =? 0 then
    if (length (read_buffer s) <? u32_size)%nat then (Ok None, s)
    else
      let len := le_value (take u32_size (read_buffer s)) in
      if len >? MAX_PAYLOAD_SIZE
      then (Err PayloadSizeProhibitive, set_read (read_buffer s) len s)
      else take_message (set_read (drop u32_size (read_buffer s)) len s)
  else take_message s.

(** The loop of [SockInner::read]: read until the stream would block, ends or
    fails. *)
Fixpoint read_loop (fuel : nat) (is_something_read : bool) (s : SockInner) :
  M net (result (option T) CommonError * SockInner) :=
  match fuel with
  | O => diverge
  | S fuel =>
      r ← call (tcp_read (stream s));
      match r with
      | Ok bytes =>
          if (length bytes =? 0)%nat then
            mret (if is_something_read then
                    match SockInner_read_from_buffer s with
                    | (Ok None, s') => (Err ZeroByteRead, s')
                    | res => res
                    end
                  else (Err ZeroByteRead, s))
          else read_loop fuel true (set_read (read_buffer s ++ bytes) (read_len s) s)
      | Err k =>
          mret (if would_block k then
                  if is_something_read then SockInner_read_from_buffer s else (Ok None, s)
                else (Err (CommonIo k), s))
      end
  end.

Definition SockInner_read (s : SockInner) : M net (result (option T) CommonError * SockInner) :=
  match SockInner_read_from_buffer s with
  | (Ok None, s') => read_loop loop_fuel false s'
  | res => mret res
  end.

Definition Socket_read (s : Socket) : M net (result (option T) CommonError * Socket) :=
  match s with
  | None => mret (Err UninitialisedSocket, None)
  | Some inner => '(r, inner') ← SockInner_read inner; mret (r, Some inner')
  end.
End Read.

(** ** Writing *)

(** [timestamp.elapsed().as_secs() <= MAX_MSG_AGE_SECS] of the queue's front. *)
Definition front_is_fresh (t : Z) (queue : list (Z * list byte)) : bool :=
  match queue with
  | [] => true
  | (timestamp, _) :: _ => (t - timestamp) / 1000 <=? MAX_MSG_AGE_SECS
  end.

Fixpoint skip_while {A} (f : A → bool) (l : list A) : list A :=
  match l with
  | [] => []
  | x :: l' => if f x then skip_while f l' else l
  end.

Definition not_expired (t : Z) (kv : Priority * list (Z * list byte)) : bool :=
  (kv.1 <? MSG_DROP_PRIORITY) || front_is_fresh t kv.2.

Definition expired_keys (t : Z) (q : WriteQueue) : list Priority :=
  (skip_while (not_expired t) q).*1.

(** [write_queue.remove(priority)]. *)
Definition queue_remove (q : WriteQueue) (p : Priority) : WriteQueue :=
  List.filter (λ kv, negb (kv.1 =? p)) q.

Definition drop_expired (t : Z) (q : WriteQueue) : WriteQueue :=
  foldl queue_remove q (expired_keys t q).

(** [write_queue.entry(priority).or_insert_with(..).push_back(x)]. *)
Fixpoint queue_push (p : Priority) (x : Z * list byte) (q : WriteQueue) : WriteQueue :=
  match q with
  | [] => [(p, [x])]
  | (k, v) :: q' =>
      if p <? k then (p, [x]) :: q
      else if p =? k then (k, v ++ [x]) :: q'
      else (k, v) :: queue_push p x q'
  end.

(** The frame of a serialised message: its length as a [u32], little endian,
    then its bytes; the length is truncated by [len as u32]. *)
Definition frame_of (payload : list byte) : list byte :=
  le_bytes u32_size (Z.of_nat (length payload) mod u32_modulus) ++ payload.

Section Write.
Context {T : Type} `{Codec T}.

(** Serialising the given message and queueing its frame. *)
Definition enqueue (t : Z) (msg : option (T * Priority)) (q : WriteQueue) : option WriteQueue :=
  match msg with
  | None => Some q
  | Some (m, priority) =>
      match serialise m with
      | None => None
      | Some payload => Some (queue_push priority (t, frame_of payload) q)
      end
  end.

(** The end of [write]: [done] when nothing is left, and the registration for
    what remains to be done. *)
Definition finish_write (token : Token) (s : SockInner) :
  M net (result bool CrustError * SockInner) :=
  let done := match current_write s, write_queue s with None, [] => true | _, _ => false end in
  let event_set := if done then ready_read else ready_read_write in
  r ← call (poll_reregister (EvStream (stream s)) token event_set);
  mret match r with
       | Ok _ => (Ok done, s)
       | Err k => (Err (CrustIo k), s)
       end.

(** Writing [data], the frame (or the rest of it) that is next, taken out of
    [current_write]. *)
Definition write_data (token : Token) (data : list byte) (s : SockInner) :
  M net (result bool CrustError * SockInner) :=
  r ← call (tcp_write (stream s) data);
  match r with
  | Ok bytes_txd =>
      finish_write token
        (set_write (write_queue s)
           (if bytes_txd <? Z.of_nat (length data)
            then Some (drop (Z.to_nat bytes_txd) data) else None) s)
  | Err k =>
      if would_block k
      then finish_write token (set_write (write_queue s) (Some data) s)
      else mret (Err (CrustIo k), s)
  end.

Definition SockInner_write (s : SockInner) (token : Token) (msg : option (T * Priority)) :
  M net (result bool CrustError * SockInner) :=
  t ← gets now;
  let q := drop_expired t (write_queue s) in
  match enqueue t msg q with
  | None => mret (Err CrustSerialisation, set_write q (current_write s) s)
  | Some q =>
      match current_write s with
      | Some data => write_data token data (set_write q None s)
      | None =>
          match q with
          | [] => mret (Ok true, set_write q None s)
          | (key, queue) :: q' =>
              match queue with
              | [] => throw UnwrapNone
              | (_, data) :: [] => write_data token data (set_write q' None s)
              | (_, data) :: queue' => write_data token data (set_write ((key, queue') :: q') None s)
              end
          end
      end
  end.

Definition Socket_write (s : Socket) (token : Token) (msg : option (T * Priority)) :
  M net (result bool CrustError * Socket) :=
  match s with
  | None => mret (Err (Common UninitialisedSocket), None)
  | Some inner => '(r, inner') ← SockInner_write inner token msg; mret (r, Some inner')
  end.
End Write.

#[local] Arguments le_bytes : simpl never.
#[local] Arguments u32_size : simpl never.

(** * Properties of the reader *)

(** The bytes received and not yet handed over, as they came off the wire: the
    length prefix of the message being received is put back. *)
Definition buffered (s : SockInner) : list byte :=
  (if read_len s =? 0 then [] else le_bytes u32_size (read_len s)) ++ read_buffer s.

(** The invariant of the reader: a length prefix it has accepted is in bounds. *)
Definition reader_ok (s : SockInner) : Prop := 0 ≤ read_len s ≤ MAX_PAYLOAD_SIZE.

(** The stream delivers the chunks [cs] and then blocks, in the state [n']. *)
Inductive delivers (st : TcpStream) : net → list (list byte) → net → Prop :=
| delivers_nil n k :
    would_block k = true → tcp_read st n = (Err k, n) → delivers st n [] n
| delivers_cons n c n1 cs n' :
    c ≠ [] → tcp_read st n = (Ok c, n1) → delivers st n1 cs n' → delivers st n (c :: cs) n'.

Section Reader_props.
Context {T : Type} `{!Codec T, !CodecLaws T}.
Implicit Types (s : SockInner) (m : T).

(** [fits m f]: [f] is the frame of [m], and [m] is within the size limit. *)
Definition fits (m : T) (f : list byte) : Prop :=
  ∃ payload, serialise m = Some payload ∧ f = frame_of payload ∧
             Z.of_nat (length payload) ≤ MAX_PAYLOAD_SIZE.

Lemma le4_inj a b : 0 ≤ a < u32_modulus → 0 ≤ b < u32_modulus →
  le_bytes u32_size a = le_bytes u32_size b → a = b.
Proof.
  intros Ha Hb Hab. apply (f_equal le_value) in Hab.
  rewrite !le_value_bytes in Hab. change (256 ^ Z.of_nat u32_size) with u32_modulus in Hab.
  by rewrite !Z.mod_small in Hab.
Qed.

Lemma fits_frame m f : fits m f → ∃ payload,
  serialise m = Some payload ∧ 0 < Z.of_nat (length payload) ≤ MAX_PAYLOAD_SIZE ∧
  f = le_bytes u32_size (Z.of_nat (length payload)) ++ payload.
Proof.
  intros (payload & Hs & -> & Hlen). exists payload. split; [done|].
  assert (payload ≠ []) by by eapply serialise_nonempty.
  destruct payload as [|x payload]; [done|]. split; [simpl length in *; lia|].
  unfold frame_of. rewrite Z.mod_small; [done|].
  unfold MAX_PAYLOAD_SIZE, u32_modulus in *. lia.
Qed.

Lemma take_message_complete s m payload rest :
  serialise m = Some payload → read_len s = Z.of_nat (length payload) →
  read_buffer s = payload ++ rest →
  take_message s = (Ok (Some m), set_read rest 0 s).
Proof.
  intros Hm Hlen Hbuf. unfold take_message. rewrite Hlen, Hbuf.
  rewrite length_app, (deserialise_serialise m payload rest Hm), Nat2Z.id, drop_app_length.
  by destruct (Z.gtb_spec (Z.of_nat (length payload)) (Z.of_nat (length payload + length rest)));
    [lia|].
Qed.

Lemma read_len_prefix len rest :
  0 ≤ len < u32_modulus →
  le_value (take u32_size (le_bytes u32_size len ++ rest)) = len ∧
  drop u32_size (le_bytes u32_size len ++ rest) = rest.
Proof.
  intros Hlen. pose proof (length_le_bytes u32_size len) as Hl.
  rewrite take_app_le, drop_app_ge, take_ge, Hl, Nat.sub_diag, le_value_bytes by lia.
  split; [by rewrite Z.mod_small|done].
Qed.

(** A complete frame at the front is handed over, and nothing else is consumed. *)
Lemma read_from_buffer_complete s m f rest :
  reader_ok s → fits m f → buffered s = f ++ rest →
  ∃ s', SockInner_read_from_buffer s = (Ok (Some m), s') ∧
        buffered s' = rest ∧ reader_ok s' ∧ stream s' = stream s.
Proof.
  intros Hok (payload & Hm & Hlen & ->)%fits_frame Hbuf.
  unfold buffered, reader_ok, SockInner_read_from_buffer in *.
  assert (MAX_PAYLOAD_SIZE < u32_modulus) by done.
  rewrite <- app_assoc in Hbuf.
  destruct (Z.eqb_spec (read_len s) 0) as [E|E]; cbn [app] in Hbuf.
  - rewrite Hbuf.
    destruct (read_len_prefix (Z.of_nat (length payload)) (payload ++ rest)) as [-> ->]; [lia|].
    destruct (Nat.ltb_spec (length (le_bytes u32_size (Z.of_nat (length payload)) ++ payload ++ rest))
      u32_size) as [Hlt|_].
    { rewrite length_app, length_le_bytes in Hlt. lia. }
    destruct (Z.gtb_spec (Z.of_nat (length payload)) MAX_PAYLOAD_SIZE); [lia|].
    erewrite take_message_complete by done. eexists. split_and!; try done; simpl; lia.
  - apply app_inj_1 in Hbuf as [Hl Hb]; [|by rewrite !length_le_bytes].
    apply le4_inj in Hl; [|lia..].
    erewrite take_message_complete by done. eexists. split_and!; try done; simpl; lia.
Qed.

(** While the frame at the front is incomplete, nothing is handed over and
    nothing is lost. *)
Lemma read_from_buffer_partial s m f more :
  reader_ok s → fits m f → f = buffered s ++ more → more ≠ [] →
  ∃ s', SockInner_read_from_buffer (T:=T) s = (Ok None, s') ∧
        buffered s' = buffered s ∧ reader_ok s' ∧ stream s' = stream s.
Proof.
  intros Hok (payload & Hm & Hlen & ->)%fits_frame Hbuf Hmore.
  assert (MAX_PAYLOAD_SIZE < u32_modulus) by done.
  assert (0 < length more)%nat by (destruct more; [done|simpl; lia]).
  unfold buffered, reader_ok, SockInner_read_from_buffer, take_message in *.
  destruct (Z.eqb_spec (read_len s) 0) as [E|E]; cbn [app] in Hbuf.
  - destruct (Nat.ltb_spec (length (read_buffer s)) u32_size) as [|Hge].
    { exists s. rewrite E. by split_and!. }
    assert (take u32_size (read_buffer s) = le_bytes u32_size (Z.of_nat (length payload))) as Ht.
    { apply (f_equal (take u32_size)) in Hbuf.
      rewrite !take_app_le in Hbuf by (rewrite ?length_le_bytes; lia).
      by rewrite <- Hbuf, take_ge by (rewrite length_le_bytes; lia). }
    pose proof (f_equal length Hbuf) as Hl. rewrite !length_app, length_le_bytes in Hl.
    rewrite Ht, le_value_bytes.
    change (256 ^ Z.of_nat u32_size) with u32_modulus. rewrite Z.mod_small by lia.
    destruct (Z.gtb_spec (Z.of_nat (length payload)) MAX_PAYLOAD_SIZE); [lia|].
    simpl. rewrite length_drop.
    destruct (Z.gtb_spec (Z.of_nat (length payload))
      (Z.of_nat (length (read_buffer s) - u32_size))); [|lia].
    eexists. split_and!; try done; simpl; try lia.
    destruct (Z.eqb_spec (Z.of_nat (length payload)) 0); [lia|].
    by rewrite <- Ht, take_drop.
  - rewrite <- app_assoc in Hbuf.
    apply app_inj_1 in Hbuf as [Hl Hb]; [|by rewrite !length_le_bytes].
    apply le4_inj in Hl; [|lia..]. apply (f_equal length) in Hb. rewrite length_app in Hb.
    destruct (Z.gtb_spec (read_len s) (Z.of_nat (length (read_buffer s)))); [|lia].
    exists s. rewrite (proj2 (Z.eqb_neq _ _) E). split_and!; done || lia.
Qed.

(** Not enough for a message yet: nothing, or a proper prefix of a frame. *)
Definition incomplete (b : list byte) : Prop :=
  b = [] ∨ ∃ m f more, fits m f ∧ f = b ++ more ∧ more ≠ [].

Lemma incomplete_prefix b c : incomplete (b ++ c) → incomplete b.
Proof.
  intros [[-> _]%app_eq_nil|(m & f & more & Hf & -> & Hmore)]; [by left|].
  right. exists m. eexists. exists (c ++ more). rewrite app_assoc. split_and!; [done|done|].
  intros [_ ?]%app_eq_nil. done.
Qed.

Lemma read_from_buffer_incomplete s :
  reader_ok s → incomplete (buffered s) →
  ∃ s', SockInner_read_from_buffer (T:=T) s = (Ok None, s') ∧
        buffered s' = buffered s ∧ reader_ok s' ∧ stream s' = stream s.
Proof.
  intros Hok [Hnil|(m & f & more & Hf & Heq & Hmore)]; [|by eapply read_from_buffer_partial].
  exists s. split_and!; try done. unfold buffered, SockInner_read_from_buffer in *.
  destruct (Z.eqb_spec (read_len s) 0) as [E|E]; [|done].
  cbn [app] in Hnil. by rewrite Hnil.
Qed.

Lemma buffered_extend s bytes :
  buffered (set_read (read_buffer s ++ bytes) (read_len s) s) = buffered s ++ bytes.
Proof. unfold buffered. cbn. by rewrite app_assoc. Qed.

Lemma delivers_end st n cs n' : delivers st n cs n' → delivers st n' [] n'.
Proof. induction 1; [econstructor|]; done. Qed.

(** The loop takes every chunk the stream has, then looks at the buffer once. *)
Lemma read_loop_delivers st n cs n' :
  delivers st n cs n' → ∀ fuel b s,
  stream s = st → (length cs < fuel)%nat →
  read_loop (T:=T) fuel b s n =
  Done (if b || negb (bool_decide (cs = []))
        then SockInner_read_from_buffer
               (set_read (read_buffer s ++ concat cs) (read_len s) s)
        else (Ok None, s)) n'.
Proof.
  induction 1 as [n k Hk Hr|n c n1 cs n' Hc Hr Hd IH]; intros [|fuel] b s Hst Hfuel;
    simpl in Hfuel; try lia; cbn [read_loop]; unfold mbind, M_bind, call; rewrite Hst, Hr.
  - rewrite Hk, bool_decide_true, orb_false_r, app_nil_r by done. by destruct b, s.
  - destruct (Nat.eqb_spec (length c) 0) as [?%nil_length_inv|_]; [done|].
    rewrite IH by (done || lia).
    rewrite (bool_decide_false (c :: cs = [])), orb_true_r by done. simpl.
    by rewrite app_assoc.
Qed.

(** A [read] on a buffer with a whole message leaves the stream alone. *)
Lemma read_buffered s m f rest n :
  reader_ok s → fits m f → buffered s = f ++ rest →
  ∃ s', SockInner_read s n = Done (Ok (Some m), s') n ∧
        buffered s' = rest ∧ reader_ok s' ∧ stream s' = stream s.
Proof.
  intros Hok Hf Hb. unfold SockInner_read.
  destruct (read_from_buffer_complete s m f rest Hok Hf Hb) as (s' & -> & ?). by exists s'.
Qed.

(** Otherwise it appends what the stream has and tries once more. *)
Lemma read_from_stream s n cs n' :
  reader_ok s → incomplete (buffered s) → delivers (stream s) n cs n' →
  (length cs < loop_fuel)%nat →
  ∃ s1, buffered s1 = buffered s ++ concat cs ∧ reader_ok s1 ∧ stream s1 = stream s ∧
        (incomplete (buffered s1) →
         ∃ s2, SockInner_read (T:=T) s n = Done (Ok None, s2) n' ∧
               buffered s2 = buffered s1 ∧ reader_ok s2 ∧ stream s2 = stream s) ∧
        (∀ m f rest, fits m f → buffered s1 = f ++ rest →
         ∃ s2, SockInner_read s n = Done (Ok (Some m), s2) n' ∧
               buffered s2 = rest ∧ reader_ok s2 ∧ stream s2 = stream s).
Proof.
  intros Hok Hinc Hd Hfuel. unfold SockInner_read.
  destruct (read_from_buffer_incomplete s Hok Hinc) as (s0 & -> & Hb0 & Hok0 & Hst0).
  rewrite (read_loop_delivers _ _ _ _ Hd _ _ s0) by done.
  exists (set_read (read_buffer s0 ++ concat cs) (read_len s0) s0).
  rewrite buffered_extend, Hb0. split_and!; [done|done|done|..].
  - intros Hinc'. destruct cs as [|c cs]; simpl.
    { exists s0. by rewrite Hb0, app_nil_r. }
    destruct (read_from_buffer_incomplete
      (set_read (read_buffer s0 ++ concat (c :: cs)) (read_len s0) s0)) as (s2 & H2 & Hb2 & Hok2 & Hst2);
      [done|by rewrite buffered_extend, Hb0|].
    exists s2. simpl in H2. rewrite H2. rewrite buffered_extend, Hb0 in Hb2.
    
    cbn in Hst2, Hb2. split; [done|]. split; [done|]. split; [done|congruence].
  - intros m f rest Hf Hb. destruct cs as [|c cs]; simpl.
    { destruct (read_from_buffer_complete s0 m f rest) as (s2 & H2 & ?); [done|done| |].
      { rewrite Hb0. by rewrite app_nil_r in Hb. }
      destruct (read_from_buffer_incomplete s0) as (s3 & H3 & _); [done|by rewrite Hb0|].
      congruence. }
    destruct (read_from_buffer_complete
      (set_read (read_buffer s0 ++ concat (c :: cs)) (read_len s0) s0) m f rest)
      as (s2 & H2 & Hb2 & Hok2 & Hst2); [done|done|by rewrite buffered_extend, Hb0|].
    exists s2. simpl in H2. rewrite H2. 
    cbn in Hst2, Hb2. split; [done|]. split; [done|]. split; [done|congruence].
Qed.

(** Reading does not touch what is to be written. *)
Definition same_writer (s s' : SockInner) : Prop :=
  write_queue s' = write_queue s ∧ current_write s' = current_write s.

Lemma read_from_buffer_writer s : same_writer s (SockInner_read_from_buffer (T:=T) s).2.
Proof.
  unfold SockInner_read_from_buffer, take_message.
  repeat match goal with |- context [match ?x with _ => _ end] => destruct x end; done.
Qed.

Lemma read_loop_writer fuel : ∀ b s n r s' n',
  read_loop (T:=T) fuel b s n = Done (r, s') n' → same_writer s s'.
Proof.
  induction fuel as [|fuel IH]; intros b s n r s' n'; cbn [read_loop]; [done|].
  unfold mbind, M_bind, call. destruct (tcp_read (stream s) n) as [[bytes|k] n1].
  - destruct (_ =? 0)%nat; [|by intros ?%IH].
    pose proof (read_from_buffer_writer s) as Hw. destruct b; [|by intros [= <- <- <-]].
    destruct (SockInner_read_from_buffer s) as [[[m|]|e] s1]; by intros [= <- <- <-].
  - pose proof (read_from_buffer_writer s) as Hw. destruct (would_block k), b; try by intros [= <- <- <-].
    unfold mret, M_ret. intros [= H <-]. by rewrite H in Hw.
Qed.

Lemma read_writer s n r s' n' :
  SockInner_read (T:=T) s n = Done (r, s') n' → same_writer s s'.
Proof.
  unfold SockInner_read. pose proof (read_from_buffer_writer s) as Hw.
  destruct (SockInner_read_from_buffer s) as [[[m|]|e] s1]; cbn in Hw; [by intros [= <- <- <-]| |by intros [= <- <- <-]].
  intros [H1 H2]%read_loop_writer. destruct Hw. split; congruence.
Qed.

(** One [read] of a socket whose buffer and stream hold a whole message next. *)
Lemma read_next s m f rest n cs n' :
  fits m f → reader_ok s → delivers (stream s) n cs n' → (length cs < loop_fuel)%nat →
  buffered s ++ concat cs = f ++ rest →
  ∃ s1 n1 cs1, SockInner_read s n = Done (Ok (Some m), s1) n1 ∧ reader_ok s1 ∧
    stream s1 = stream s ∧ delivers (stream s) n1 cs1 n' ∧
    buffered s1 ++ concat cs1 = rest ∧ (length cs1 ≤ length cs)%nat.
Proof.
  intros Hf Hok Hd Hfuel Hb.
  assert ((∃ rest0, buffered s = f ++ rest0 ∧ rest0 ++ concat cs = rest) ∨
          (∃ more, f = buffered s ++ more ∧ more ≠ [])) as [(rest0 & Hf1 & <-)|(more & Hf1 & Hmore)].
  { apply app_eq_inv in Hb as [(rest0 & Hf1 & Hb)|(more & Hf1 & Hb)]; [left; by exists rest0|].
    destruct (decide (more = [])) as [->|]; [|right; by exists more].
    left. exists []. rewrite app_nil_r in *. cbn [app] in *. by rewrite Hb. }
  - destruct (read_buffered s m f rest0 n Hok Hf Hf1) as (s' & Hr & Hb' & Hok' & Hst').
    exists s', n, cs. by rewrite Hb'.
  - destruct (read_from_stream s n cs n') as (s1 & Hs1 & _ & _ & _ & Hsome); [done| |done|done|].
    { right. by exists m, f, more. }
    rewrite Hb in Hs1. destruct (Hsome m f _ Hf Hs1) as (s2 & Hr & Hb2 & Hok2 & Hst2).
    exists s2, n', []. rewrite Hb2, app_nil_r. split_and!; try done; [by eapply delivers_end|].
    simpl. lia.
Qed.

(** One [read] of a socket whose buffer and stream hold no whole message. *)
Lemma read_none s tail n cs n' :
  incomplete tail → reader_ok s → delivers (stream s) n cs n' → (length cs < loop_fuel)%nat →
  buffered s ++ concat cs = tail →
  ∃ s1, SockInner_read (T:=T) s n = Done (Ok None, s1) n' ∧ buffered s1 = tail ∧
        reader_ok s1 ∧ stream s1 = stream s.
Proof.
  intros Htail Hok Hd Hfuel Hb.
  destruct (read_from_stream s n cs n') as (s1 & Hs1 & _ & _ & Hnone & _); [done| |done|done|].
  { apply (incomplete_prefix _ (concat cs)). by rewrite Hb. }
  rewrite Hb in Hs1. destruct (Hnone ltac:(by rewrite Hs1)) as (s2 & Hr & Hb2 & ?).
  exists s2. by rewrite Hb2, Hs1.
Qed.

(** What a handler that reads until nothing is left gets from a socket: the
    messages in order, and the result that ended it. *)
Fixpoint drain (k : nat) (s : SockInner) :
  M net (list T * result (option T) CommonError * SockInner) :=
  match k with
  | O => diverge
  | S k =>
      '(r, s') ← SockInner_read s;
      match r with
      | Ok (Some m) => '(ms, r', s'') ← drain k s'; mret (m :: ms, r', s'')
      | _ => mret ([], r, s')
      end
  end.

Lemma drain_delivers_gen ms : ∀ fs tail k s n cs n',
  Forall2 fits ms fs → incomplete tail → reader_ok s → delivers (stream s) n cs n' →
  buffered s ++ concat cs = concat fs ++ tail →
  (length cs < loop_fuel)%nat → (length ms < k)%nat →
  ∃ s', drain k s n = Done (ms, Ok None, s') n' ∧ buffered s' = tail ∧ reader_ok s'.
Proof.
  induction ms as [|m ms IH]; intros fs tail [|k] s n cs n' Hfs Htail Hok Hd Hb Hfuel Hk;
    simpl in Hk; try lia; cbn [drain]; unfold mbind, M_bind.
  - apply Forall2_nil_inv_l in Hfs as ->.
    destruct (read_none s tail n cs n') as (s2 & -> & ? & ? & _); try done. by exists s2.
  - apply Forall2_cons_inv_l in Hfs as (f & fs' & Hf & Hfs' & ->). cbn [concat] in Hb.
    rewrite <- app_assoc in Hb.
    destruct (read_next s m f _ n cs n' Hf Hok Hd Hfuel Hb)
      as (s1 & n1 & cs1 & -> & Hok1 & Hst1 & Hd1 & Hb1 & Hle).
    rewrite <- Hst1 in Hd1.
    destruct (IH fs' tail k s1 n1 cs1 n') as (s' & -> & ? & ?); try done; [lia|lia|].
    by exists s'.
Qed.
End Reader_props.

(** * Properties of the writer *)

(** The invariant of the write queue: keys in order, no empty queue, no empty
    frame. *)
Definition queue_ok (q : WriteQueue) : Prop :=
  StronglySorted Z.lt q.*1 ∧ Forall (λ kv, kv.2 ≠ [] ∧ Forall (λ x, x.2 ≠ []) kv.2) q.

Definition writer_ok (s : SockInner) : Prop :=
  queue_ok (write_queue s) ∧ current_write s ≠ Some [].

(** The queued frames in the order they will be sent. *)
Definition frames (q : WriteQueue) : list (list byte) := concat ((λ kv, kv.2.*2) <$> q).

(** The bytes accepted for sending and not yet taken by the stream. *)
Definition backlog (s : SockInner) : list byte :=
  default [] (current_write s) ++ concat (frames (write_queue s)).

Fixpoint take_while {A} (f : A → bool) (l : list A) : list A :=
  match l with
  | [] => []
  | x :: l' => if f x then x :: take_while f l' else []
  end.

Lemma take_skip_while {A} (f : A → bool) l : take_while f l ++ skip_while f l = l.
Proof. induction l as [|x l IH]; simpl; [done|]. destruct (f x); simpl; congruence. Qed.

Lemma foldl_queue_remove ks q :
  foldl queue_remove q ks = List.filter (λ kv, negb (bool_decide (kv.1 ∈ ks))) q.
Proof.
  revert q. induction ks as [|k ks IH]; intros q; simpl.
  - induction q as [|kv q IH]; simpl; [done|]. by rewrite <- IH.
  - rewrite IH. unfold queue_remove. induction q as [|kv q IHq]; simpl; [done|].
    destruct (Z.eqb_spec kv.1 k) as [E|E]; simpl.
    + rewrite (bool_decide_true (kv.1 ∈ k :: ks)) by (rewrite E; left). done.
    + rewrite IHq. destruct (decide (kv.1 ∈ ks)) as [Hin|Hin].
      * by rewrite !bool_decide_true by (done || by right).
      * rewrite !bool_decide_false; [done| |done]. by intros [?|?]%elem_of_cons.
Qed.

Lemma filter_out_suffix (pre suf : WriteQueue) :
  NoDup (pre ++ suf).*1 →
  List.filter (λ kv, negb (bool_decide (kv.1 ∈ suf.*1))) (pre ++ suf) = pre.
Proof.
  rewrite fmap_app, NoDup_app. intros (_ & Hdisj & _). rewrite List.filter_app.
  rewrite filter_all, filter_none, app_nil_r; [done|..]; intros kv Hkv;
    apply (list_elem_of_fmap_2 fst) in Hkv.
  - by rewrite bool_decide_true.
  - by rewrite bool_decide_false by by apply Hdisj.
Qed.

Lemma queue_keys_nodup q : queue_ok q → NoDup q.*1.
Proof.
  intros [Hs _]. induction Hs as [|k ks Hs IH Hk]; constructor; [|done].
  intros Hin. eapply Forall_forall in Hk; [|done]. lia.
Qed.

(** Dropping keeps the queues before the first expired one. *)
Lemma drop_expired_take_while t q :
  queue_ok q → drop_expired t q = take_while (not_expired t) q.
Proof.
  intros Hq%queue_keys_nodup. unfold drop_expired, expired_keys.
  rewrite foldl_queue_remove.
  pose proof (filter_out_suffix (take_while (not_expired t) q) (skip_while (not_expired t) q)) as Hf.
  rewrite take_skip_while in Hf. by apply Hf.
Qed.

Lemma queue_ok_app_l q1 q2 : queue_ok (q1 ++ q2) → queue_ok q1.
Proof.
  intros [Hs Hq]. rewrite fmap_app in Hs. apply Forall_app in Hq as [Hq _]. split; [|done].
  induction q1 as [|kv q1 IH]; simpl in *; [constructor|].
  apply StronglySorted_inv in Hs as [Hs Hk]. apply Forall_app in Hk as [Hk _].
  apply Forall_cons in Hq as [_ Hq]. constructor; auto.
Qed.

Lemma drop_expired_ok t q : queue_ok q → queue_ok (drop_expired t q).
Proof.
  intros Hq. rewrite drop_expired_take_while by done.
  apply (queue_ok_app_l _ (skip_while (not_expired t) q)). by rewrite take_skip_while.
Qed.

Lemma queue_push_keys p x q k : k ∈ (queue_push p x q).*1 ↔ k = p ∨ k ∈ q.*1.
Proof.
  induction q as [|[k' v] q IH]; simpl.
  - rewrite list_elem_of_singleton, elem_of_nil. tauto.
  - destruct (Z.ltb_spec p k'); simpl; rewrite ?elem_of_cons; [done|].
    destruct (Z.eqb_spec p k') as [->|]; simpl; rewrite ?elem_of_cons; [tauto|].
    rewrite IH. tauto.
Qed.

Lemma queue_push_ok p x q : queue_ok q → x.2 ≠ [] → queue_ok (queue_push p x q).
Proof.
  intros [Hs Hq] Hx. split.
  - clear Hq. induction q as [|[k v] q IH]; simpl; [repeat constructor|].
    simpl in Hs. apply StronglySorted_inv in Hs as [Hs Hk].
    destruct (Z.ltb_spec p k); simpl.
    { constructor; [by constructor|]. constructor; [done|].
      eapply Forall_impl; [done|]. simpl. lia. }
    destruct (Z.eqb_spec p k) as [->|]; simpl; [by constructor|].
    constructor; [by apply IH|]. apply Forall_forall. intros k' [->|Hk']%queue_push_keys; [lia|].
    by eapply Forall_forall in Hk.
  - clear Hs. induction q as [|[k v] q IH]; simpl.
    { repeat constructor; done. }
    apply Forall_cons in Hq as [Hv Hq]. destruct (Z.ltb_spec p k).
    { repeat constructor; try done; by destruct Hv. }
    destruct (Z.eqb_spec p k) as [->|].
    + constructor; [|done]. simpl. destruct Hv as [_ Hv]. split; [by destruct v|].
      apply Forall_app. by repeat constructor.
    + constructor; [done|]. by apply IH.
Qed.

Lemma frame_of_nonempty payload : frame_of payload ≠ [].
Proof. done. Qed.

Section Writer_props.
Context {T : Type} `{!Codec T}.
Implicit Types (s : SockInner) (msg : option (T * Priority)).

Lemma enqueue_ok t msg q q' : queue_ok q → enqueue t msg q = Some q' → queue_ok q'.
Proof.
  intros Hq. unfold enqueue. destruct msg as [[m p]|]; [|by intros [= <-]].
  destruct (serialise m); [|done]. intros [= <-]. by apply queue_push_ok.
Qed.

(** What [write] offers to the stream. *)
Definition next_data (s : SockInner) (q : WriteQueue) : list byte :=
  match current_write s with
  | Some d => d
  | None => match q with (_, (_, d) :: _) :: _ => d | _ => [] end
  end.

(** The part of it the stream takes. *)
Definition accepted (st : TcpStream) (data : list byte) (n : net) : list byte :=
  match (tcp_write st data n).1 with
  | Ok k => take (Z.to_nat k) data
  | Err _ => []
  end.

Lemma done_iff_backlog s : writer_ok s →
  match current_write s, write_queue s with None, [] => true | _, _ => false end = true ↔
  backlog s = [].
Proof.
  intros [[_ Hq] Hc]. unfold backlog, frames. destruct (current_write s) as [d|]; simpl.
  - split; [done|]. intros [-> _]%app_eq_nil. done.
  - destruct (write_queue s) as [|[k v] q]; simpl; [done|].
    apply Forall_cons in Hq as [[Hv Hf] _]. simpl in *.
    split; [done|]. destruct v as [|[t f] v]; [done|].
    apply Forall_cons in Hf as [Hf _]. simpl. intros [? _]%app_eq_nil. done.
Qed.

Lemma finish_write_spec token s n :
  writer_ok s →
  ∃ d, (d = true ↔ backlog s = []) ∧
       finish_write token s n =
       match poll_reregister (EvStream (stream s)) token
               (if d then ready_read else ready_read_write) n with
       | (Ok _, n') => Done (Ok d, s) n'
       | (Err k, n') => Done (Err (CrustIo k), s) n'
       end.
Proof.
  intros Hs. eexists. split; [by apply done_iff_backlog|].
  unfold finish_write, mbind, M_bind, call. by destruct (poll_reregister _ _ _ n) as [[]].
Qed.

(** One call of the stream's [write], on the bytes that are next; what it does
    not take stays at the front of the backlog. *)
Lemma write_data_spec token data s n :
  data ≠ [] → current_write s = None → queue_ok (write_queue s) →
  ∃ r s' n', write_data token data s n = Done (r, s') n' ∧ stream s' = stream s ∧
    writer_ok s' ∧ write_queue s' = write_queue s ∧
    (∀ d, r = Ok d →
      data ++ concat (frames (write_queue s)) = accepted (stream s) data n ++ backlog s' ∧
      (d = true ↔ backlog s' = [])).
Proof.
  intros Hdata Hc Hq.
  assert (0 < length data)%nat as Hpos by (destruct data; [done|simpl; lia]).
  unfold write_data, mbind, M_bind, call, accepted.
  destruct (tcp_write (stream s) data n) as [[k|k] n1]; cbn [fst].
  - set (rest := if k <? Z.of_nat (length data) then Some (drop (Z.to_nat k) data) else None).
    assert (data = take (Z.to_nat k) data ++ default [] rest) as Hsplit.
    { unfold rest. destruct (Z.ltb_spec k (Z.of_nat (length data))); simpl.
      - by rewrite take_drop.
      - by rewrite app_nil_r, take_ge by lia. }
    assert (writer_ok (set_write (write_queue s) rest s)) as Hok.
    { split; [done|]. cbn. unfold rest. destruct (Z.ltb_spec k (Z.of_nat (length data))); [|done].
      intros [= Hd%(f_equal length)]. rewrite length_drop in Hd. cbn in Hd. lia. }
    destruct (finish_write_spec token _ n1 Hok) as (d & Hd & ->).
    destruct (poll_reregister _ _ _ _) as [[[]|k'] n']; eexists _, _, _; split_and!; try done.
    intros d' [= <-]. split; [|done]. unfold backlog. cbn. rewrite app_assoc. by f_equal.
  - destruct (would_block k).
    + assert (writer_ok (set_write (write_queue s) (Some data) s)) as Hok.
      { split; [done|]. cbn. congruence. }
      destruct (finish_write_spec token _ n1 Hok) as (d & Hd & ->).
      destruct (poll_reregister _ _ _ _) as [[[]|k'] n']; eexists _, _, _; split_and!; try done.
      by intros d' [= <-].
    + eexists _, _, _. split_and!; try done.
      split; [done|]. by rewrite Hc.
Qed.

Lemma write_spec s token msg n :
  writer_ok s →
  match enqueue (now n) msg (drop_expired (now n) (write_queue s)) with
  | None =>
      SockInner_write s token msg n =
      Done (Err CrustSerialisation,
            set_write (drop_expired (now n) (write_queue s)) (current_write s) s) n
  | Some q =>
      ∃ r s' n', SockInner_write s token msg n = Done (r, s') n' ∧ stream s' = stream s ∧
        writer_ok s' ∧ (∀ k, k ∈ (write_queue s').*1 → k ∈ q.*1) ∧
        (∀ d, r = Ok d →
          default [] (current_write s) ++ concat (frames q) =
            accepted (stream s) (next_data s q) n ++ backlog s' ∧
          (d = true ↔ backlog s' = []))
  end.
Proof.
  intros [Hq Hc]. unfold SockInner_write, mbind, M_bind, gets, next_data.
  pose proof (λ q, enqueue_ok (now n) msg _ q (drop_expired_ok (now n) _ Hq)) as Hen.
  destruct (enqueue _ _ _) as [q|]; [|done]. specialize (Hen q eq_refl).
  destruct (current_write s) as [data|].
  - destruct (write_data_spec token data (set_write q None s) n)
      as (r & s' & n' & -> & ? & ? & Hq' & ?); [congruence|done|done|].
    exists r, s', n'. rewrite Hq'. split_and!; done.
  - destruct q as [|[k [|[t data] queue]] q].
    + eexists _, _, _. split; [done|]. split; [done|]. split; [split; [exact Hen|done]|].
      split; [done|].
      intros d [= <-]. split; [|done]. unfold accepted.
      by destruct (tcp_write _ _ _) as [[]]; cbn; rewrite ?take_nil.
    + destruct Hen as [_ Hen]. apply Forall_cons in Hen as [[? _] _]. done.
    + destruct Hen as [Hs Hen]. apply Forall_cons in Hen as [[_ Hv] Hen].
      apply Forall_cons in Hv as [Hd Hv]. simpl in Hs, Hd.
      set (q1 := match queue with [] => q | _ => (k, queue) :: q end).
      assert (queue_ok q1) as Hq1.
      { apply StronglySorted_inv in Hs as Hs'. destruct Hs' as [Hs' _].
        unfold q1. destruct queue; [by split|]. split; [done|]. by constructor. }
      assert (concat (frames ((k, (t, data) :: queue) :: q)) = data ++ concat (frames q1)) as Hfr.
      { unfold q1, frames. destruct queue; simpl; [done|]. by rewrite <- ?app_assoc. }
      destruct (write_data_spec token data (set_write q1 None s) n)
        as (r & s' & n' & Hw & ? & ? & Hq' & Hr); [done|done|done|].
      exists r, s', n'. split; [by unfold q1 in Hw; destruct queue|]. rewrite Hq'.
      split; [done|]. split; [done|]. split.
      { intros k'. unfold q1. destruct queue; simpl; [|done]. by right. }
      intros d Hd'. rewrite Hfr. by apply Hr.
Qed.

(** Runs of a sender: calls of [write] that succeed, with a message of priority
    [p] or without, the outside world changing arbitrarily in between; the bytes
    the stream has taken are collected. *)
Inductive sends (p : Priority) : SockInner → list T → list byte → SockInner → Prop :=
| sends_nil s : sends p s [] [] s
| sends_msg s m token n d s1 n1 q ms w s2 :
    SockInner_write s token (Some (m, p)) n = Done (Ok d, s1) n1 →
    enqueue (now n) (Some (m, p)) (drop_expired (now n) (write_queue s)) = Some q →
    sends p s1 ms w s2 →
    sends p s (m :: ms) (accepted (stream s) (next_data s q) n ++ w) s2
| sends_more s token n d s1 n1 ms w s2 :
    SockInner_write s token None n = Done (Ok d, s1) n1 →
    sends p s1 ms w s2 →
    sends p s ms
      (accepted (stream s) (next_data s (drop_expired (now n) (write_queue s))) n ++ w) s2.

(** A socket with nothing to write; the whole frame of [m] is taken by its
    stream at once. *)
Definition idle (s : SockInner) : Prop := current_write s = None ∧ write_queue s = [].

Definition sends_now (s : SockInner) (token : Token) (m : T) (n n' : net) : Prop :=
  ∃ payload k n1, serialise m = Some payload ∧
    tcp_write (stream s) (frame_of payload) n = (Ok k, n1) ∧
    Z.of_nat (length (frame_of payload)) ≤ k ∧
    poll_reregister (EvStream (stream s)) token ready_read n1 = (Ok tt, n').

Lemma write_now s token m p n n' :
  idle s → sends_now s token m n n' →
  Socket_write (Some s) token (Some (m, p)) n = Done (Ok true, Some s) n'.
Proof.
  intros [Hc Hq] (payload & k & n1 & Hm & Hw & Hk & Hr).
  unfold Socket_write, SockInner_write, mbind, M_bind, gets. rewrite Hq. cbn [drop_expired].
  change (drop_expired (now n) []) with ([] : WriteQueue). cbn [enqueue]. rewrite Hm. cbn.
  rewrite Hc. unfold write_data, mbind, M_bind, call. cbn [stream set_write]. rewrite Hw.
  destruct (Z.ltb_spec k (Z.of_nat (length (frame_of payload)))); [lia|].
  unfold finish_write, mbind, M_bind, call. cbn. rewrite Hr. cbn.
  destruct s; cbn in *; by subst.
Qed.

Definition framed (m : T) (f : list byte) : Prop :=
  ∃ payload, serialise m = Some payload ∧ f = frame_of payload.

Lemma drop_expired_undroppable t q :
  queue_ok q → (∀ k, k ∈ q.*1 → k < MSG_DROP_PRIORITY) → drop_expired t q = q.
Proof.
  intros Hq Hk. rewrite drop_expired_take_while by done. clear Hq.
  induction q as [|kv q IH]; simpl; [done|].
  unfold not_expired at 1.
  rewrite (proj2 (Z.ltb_lt kv.1 MSG_DROP_PRIORITY)) by (apply Hk; simpl; left). simpl. f_equal.
  apply IH. intros k ?. apply Hk. simpl. by right.
Qed.

Lemma drop_expired_high t p q :
  queue_ok q → p < MSG_DROP_PRIORITY → (∀ k, k ∈ q.*1 → k = p) → drop_expired t q = q.
Proof. intros Hq Hp Hk. apply drop_expired_undroppable; [done|]. by intros k ->%Hk. Qed.

Lemma queue_push_single t p f q :
  queue_ok q → (∀ k, k ∈ q.*1 → k = p) →
  frames (queue_push p (t, f) q) = frames q ++ [f].
Proof.
  intros Hq Hk. destruct q as [|[k v] [|[k' v'] q]]; simpl; [done|..];
    rewrite (Hk k) by (simpl; left); rewrite ?Z.ltb_irrefl, ?Z.eqb_refl.
  - unfold frames. simpl. by rewrite !app_nil_r, fmap_app.
  - destruct Hq as [Hs _]. simpl in Hs. apply StronglySorted_inv in Hs as [_ Hs].
    apply Forall_cons in Hs as [Hlt _].
    rewrite (Hk k), (Hk k') in Hlt by (simpl; set_solver).
    lia.
Qed.

Lemma sends_in_order p s ms w s' :
  p < MSG_DROP_PRIORITY → sends p s ms w s' →
  writer_ok s → (∀ k, k ∈ (write_queue s).*1 → k = p) →
  ∃ fs, Forall2 framed ms fs ∧ backlog s ++ concat fs = w ++ backlog s' ∧
        writer_ok s' ∧ stream s' = stream s.
Proof.
  intros Hp. induction 1 as [s|s m token n d s1 n1 q ms w s2 Hw Hen Hrun IH
    |s token n d s1 n1 ms w s2 Hw Hrun IH]; intros Hok Hk.
  - exists []. by rewrite app_nil_r.
  - pose proof (write_spec s token (Some (m, p)) n Hok) as Hspec. rewrite Hen in Hspec.
    destruct Hspec as (r & s1' & n1' & Hw' & Hst & Hok1 & Hkeys & Hr).
    rewrite Hw' in Hw. injection Hw as -> -> ->. destruct (Hr d eq_refl) as [Hb _].
    rewrite (drop_expired_high _ p) in Hen by (done || apply Hok). simpl in Hen.
    destruct (serialise m) as [payload|] eqn:Hm; [|done]. injection Hen as <-.
    destruct IH as (fs & Hfs & Hb' & Hok2 & Hst2); [done| |].
    { intros k [Hin|Hin]%Hkeys%queue_push_keys; auto. }
    exists (frame_of payload :: fs).
    split; [constructor; [by exists payload|done]|]. split; [|split; [done|congruence]].
    rewrite queue_push_single in Hb by (done || apply Hok).
    rewrite concat_app in Hb. cbn in Hb |- *. rewrite app_nil_r, app_assoc in Hb.
    unfold backlog at 1. by rewrite app_assoc, Hb, <- !app_assoc, Hb'.
  - pose proof (write_spec s token None n Hok) as Hspec. cbn [enqueue] in Hspec.
    destruct Hspec as (r & s1' & n1' & Hw' & Hst & Hok1 & Hkeys & Hr).
    rewrite Hw' in Hw. injection Hw as -> -> ->. destruct (Hr d eq_refl) as [Hb _].
    rewrite (drop_expired_high _ p) in * by (done || apply Hok).
    destruct IH as (fs & Hfs & Hb' & Hok2 & Hst2); [done|auto|].
    exists fs. split; [done|]. split; [|split; [done|congruence]].
    unfold backlog at 1. by rewrite Hb, <- !app_assoc, Hb'.
Qed.

(** The order in which a new frame will be sent: after everything of the same
    or a higher priority, before everything of a lower one. *)
Lemma queue_push_order p x q :
  queue_ok q →
  frames (queue_push p x q) =
  frames (List.filter (λ kv, kv.1 <=? p) q) ++ [x.2] ++
  frames (List.filter (λ kv, p <? kv.1) q).
Proof.
  intros [Hs _]. induction q as [|[k v] q IH]; [done|].
  simpl in Hs. apply StronglySorted_inv in Hs as [Hs Hk]. cbn [List.filter queue_push fst].
  assert (∀ kv, kv ∈ q → k < kv.1) as Hlt.
  { intros kv Hkv. eapply Forall_forall in Hk; [done|]. by apply list_elem_of_fmap_2. }
  destruct (Z.ltb_spec p k) as [Hpk|Hpk].
  - destruct (Z.leb_spec k p); [lia|].
    rewrite filter_none, filter_all; [done| |].
    + intros kv Hkv%Hlt. apply Z.ltb_lt. lia.
    + intros kv Hkv%Hlt. apply Z.leb_gt. lia.
  - destruct (Z.leb_spec k p); [|lia]. destruct (Z.eqb_spec p k) as [->|Hne].
    + rewrite filter_none, filter_all.
      * unfold frames. cbn. rewrite fmap_app, app_nil_r, <- app_assoc. done.
      * intros kv Hkv%Hlt. by apply Z.ltb_lt.
      * intros kv Hkv%Hlt. by apply Z.leb_gt.
    + specialize (IH Hs). unfold frames in *. cbn. by rewrite IH, <- app_assoc.
Qed.
End Writer_props.

(** * The properties *)

Section Properties.
Context {T : Type} `{!Codec T, !CodecLaws T}.

(** C1: messages arrive as they were sent. Any run of a sender that writes the
    messages [ms] at one undroppable priority and ends with nothing left to
    send, the outside world taking each frame in whatever pieces it likes, puts
    a byte sequence on the wire from which a reader at the other end, getting it
    in whatever chunks, recovers exactly [ms], in order, with nothing left in
    its buffer. *)
Theorem end_to_end p st_tx st_rx tx rx (ms : list T) w tx' cs n n' k :
  Socket_wrap st_tx = Some tx → Socket_wrap st_rx = Some rx →
  p < MSG_DROP_PRIORITY →
  sends p tx ms w tx' → backlog tx' = [] →
  (∀ m payload, m ∈ ms → serialise m = Some payload →
                Z.of_nat (length payload) ≤ MAX_PAYLOAD_SIZE) →
  delivers st_rx n cs n' → concat cs = w →
  (length cs < loop_fuel)%nat → (length ms < k)%nat →
  ∃ rx', drain k rx n = Done (ms, Ok None, rx') n' ∧ buffered rx' = [].
Proof.
  intros [= <-] [= <-] Hp Hsends Hend Hmax Hd <- Hcs Hk.
  destruct (sends_in_order _ _ _ _ _ Hp Hsends) as (fs & Hfs & Hw & _); [split; [split; constructor|done]| |].
  { by intros k' Hk'%elem_of_nil. }
  rewrite Hend, app_nil_r in Hw. change (backlog _) with (@nil byte) in Hw at 1.
  destruct (drain_delivers_gen ms fs [] k (mkSockInner st_rx [] 0 [] None) n cs n')
    as (rx' & Hrx & ? & _); try done.
  - clear - Hfs Hmax. induction Hfs as [|m f ms fs (payload & Hs & ->) Hfs IH]; constructor.
    + exists payload. split_and!; [done..|]. apply (Hmax m); [left|done].
    + apply IH. intros m' ? ?. apply Hmax. by right.
  - by left.
  - rewrite app_nil_r. by rewrite <- Hw.
  - by exists rx'.
Qed.

(** The reader does not depend on how the bytes arrive. From any state of a
    reader, if what it has buffered and the chunks the stream delivers make up
    the frames of [ms] and an unfinished frame, it hands over exactly [ms] and
    keeps exactly the unfinished frame. *)
Theorem drain_any_chunking (ms : list T) fs tail k s n cs n' :
  Forall2 fits ms fs → incomplete tail → reader_ok s → delivers (stream s) n cs n' →
  buffered s ++ concat cs = concat fs ++ tail →
  (length cs < loop_fuel)%nat → (length ms < k)%nat →
  ∃ s', drain k s n = Done (ms, Ok None, s') n' ∧ buffered s' = tail ∧ reader_ok s'.
Proof.
  intros. destruct (drain_delivers_gen ms fs tail k s n cs n') as (s' & ? & ? & ?); try done.
  by exists s'.
Qed.


(** A message of priority [p] goes after everything queued with the same or
    a smaller number and before everything with a greater one. *)
Theorem enqueue_by_priority t (m : T) p q q' payload :
  queue_ok q → serialise m = Some payload → enqueue t (Some (m, p)) q = Some q' →
  queue_ok q' ∧
  frames q' = frames (List.filter (λ kv, kv.1 <=? p) q) ++ [frame_of payload] ++
              frames (List.filter (λ kv, p <? kv.1) q).
Proof.
  intros Hq Hm Hen. split; [by eapply enqueue_ok|].
  unfold enqueue in Hen. rewrite Hm in Hen. injection Hen as <-. by apply queue_push_order.
Qed.

(** What is dropped. The queues kept are the ones before the first queue
    that is droppable and whose oldest message is more than 60 seconds old; no
    queue of a priority below [MSG_DROP_PRIORITY] is ever dropped. *)
Theorem drop_expired_exact t q :
  queue_ok q →
  drop_expired t q ++ skip_while (not_expired t) q = q ∧
  Forall (λ kv, not_expired t kv = true) (drop_expired t q) ∧
  match skip_while (not_expired t) q with
  | [] => True
  | kv :: _ => MSG_DROP_PRIORITY ≤ kv.1 ∧ front_is_fresh t kv.2 = false
  end ∧
  (∀ kv, kv ∈ q → kv.1 < MSG_DROP_PRIORITY → kv ∈ drop_expired t q).
Proof.
  intros Hq. rewrite drop_expired_take_while by done. split; [by rewrite take_skip_while|].
  split.
  { clear. induction q as [|kv q IH]; simpl; [done|]. destruct (not_expired t kv) eqn:E; auto. }
  split.
  { clear. induction q as [|kv q IH]; simpl; [done|]. destruct (not_expired t kv) eqn:E; [done|].
    unfold not_expired in E. by apply orb_false_iff in E as [?%Z.ltb_ge ?]. }
  intros kv Hkv Hp. destruct Hq as [Hs _].
  induction q as [|kv' q IH]; [done|]. simpl in Hs |- *. apply StronglySorted_inv in Hs as [Hs Hk].
  assert (kv'.1 < MSG_DROP_PRIORITY) as Hp'.
  { apply elem_of_cons in Hkv as [->|Hkv]; [done|].
    eapply Forall_forall in Hk; [|by apply list_elem_of_fmap_2]. lia. }
  unfold not_expired at 1. rewrite (proj2 (Z.ltb_lt _ _) Hp'). simpl.
  apply elem_of_cons in Hkv as [->|Hkv]; [left|right; auto].
Qed.

(** C40: an oversized message is not refused where it is sent. A message whose
    encoding is longer than [MAX_PAYLOAD_SIZE] is framed and queued like any
    other, and it is the reader that fails on it. *)
Theorem oversize_fails_at_reader t (m : T) p payload q q' s rest :
  serialise m = Some payload → MAX_PAYLOAD_SIZE < Z.of_nat (length payload) < u32_modulus →
  queue_ok q → read_len s = 0 → read_buffer s = frame_of payload ++ rest →
  enqueue t (Some (m, p)) q = Some q' →
  frame_of payload ∈ frames q' ∧
  (SockInner_read_from_buffer (T:=T) s).1 = Err PayloadSizeProhibitive.
Proof.
  intros Hm Hlen Hq Hl Hb Hen. split.
  - unfold enqueue in Hen. rewrite Hm in Hen. injection Hen as <-.
    rewrite queue_push_order by done. set_solver.
  - unfold SockInner_read_from_buffer. rewrite Hl, Hb. simpl (0 =? 0). cbv iota.
    unfold frame_of. rewrite (Z.mod_small _ u32_modulus), <- app_assoc by lia.
    destruct (Nat.ltb_spec (length (le_bytes u32_size (Z.of_nat (length payload)) ++
      payload ++ rest)) u32_size) as [Hlt|_].
    { rewrite length_app, length_le_bytes in Hlt. lia. }
    destruct (read_len_prefix (Z.of_nat (length payload)) (payload ++ rest)) as [-> _]; [lia|].
    by destruct (Z.gtb_spec (Z.of_nat (length payload)) MAX_PAYLOAD_SIZE); [|lia].
Qed.

(** The declared length is not compared with the message. If the prefix
    declares fewer bytes than the message takes, the message is handed over all
    the same and the rest of its bytes are left in the buffer as the start of
    the next frame. *)
Theorem short_length_desynchronises (m : T) payload len s rest :
  serialise m = Some payload → 0 < len ≤ MAX_PAYLOAD_SIZE → len < Z.of_nat (length payload) →
  read_len s = 0 → read_buffer s = le_bytes u32_size len ++ payload ++ rest →
  ∃ s', SockInner_read_from_buffer s = (Ok (Some m), s') ∧
        buffered s' = drop (Z.to_nat len) payload ++ rest ∧ drop (Z.to_nat len) payload ≠ [].
Proof.
  intros Hm Hlen Hlt Hl Hb. unfold SockInner_read_from_buffer. rewrite Hl, Hb.
  simpl (0 =? 0). cbv iota.
  assert (MAX_PAYLOAD_SIZE < u32_modulus) by done.
  destruct (Nat.ltb_spec (length (le_bytes u32_size len ++ payload ++ rest)) u32_size) as [Hs|_].
  { rewrite length_app, length_le_bytes in Hs. lia. }
  destruct (read_len_prefix len (payload ++ rest)) as [-> ->]; [lia|].
  destruct (Z.gtb_spec len MAX_PAYLOAD_SIZE); [lia|]. unfold take_message. cbn [read_len read_buffer set_read].
  rewrite length_app, (deserialise_serialise m payload rest Hm).
  destruct (Z.gtb_spec len (Z.of_nat (length payload + length rest))); [lia|].
  eexists. split; [done|]. unfold buffered. cbn. split.
  - by rewrite drop_app_le by lia.
  - intros Hd%(f_equal length). rewrite length_drop in Hd. cbn in Hd. lia.
Qed.
End Properties.

End Socket.

(** ** The properties at concrete inputs *)
Module SocketWitness.

#[local] Instance wenv : Env := Script.env true false.
#[local] Existing Instance Script.byte_codec.
#[local] Existing Instance Script.byte_codec_laws.

Definition st0 : @TcpStream wenv := 0%nat.
Definition calm : @net wenv := Script.quiet.

(** The stream takes the first frame in two pieces, and the reader gets the ten
    bytes in three chunks. *)
Definition net_tx : @net wenv := Script.set_writes [Ok 3] calm.
Definition wire : list byte :=
  [Byte.x01; Byte.x00; Byte.x00; Byte.x00; Byte.x41;
   Byte.x01; Byte.x00; Byte.x00; Byte.x00; Byte.x42].
Definition chunks : list (list byte) := [take 2 wire; take 5 (drop 2 wire); drop 7 wire].
Definition net_rx : @net wenv := Script.set_reads (Ok <$> chunks) calm.
Definition fresh : SockInner := mkSockInner st0 [] 0 [] None.

Lemma delivers_chunks : delivers st0 net_rx chunks calm.
Proof.
  do 3 (eapply delivers_cons; [done|reflexivity|]).
  by eapply (delivers_nil _ _ WouldBlock).
Defined.

Lemma end_to_end_witness :
  ∃ rx', drain 3 fresh net_rx = Done ([Byte.x41; Byte.x42], Ok None, rx') calm ∧
         buffered rx' = [].
Proof.
  eapply (end_to_end 0 st0 st0 fresh fresh _ _ fresh chunks).
  - reflexivity.
  - reflexivity.
  - reflexivity.
  - eapply (sends_msg 0 fresh Byte.x41 7 net_tx); [vm_compute; reflexivity|vm_compute; reflexivity|].
    eapply (sends_msg 0 _ Byte.x42 7 calm); [vm_compute; reflexivity|vm_compute; reflexivity|].
    eapply (sends_more 0 _ 7 calm); [vm_compute; reflexivity|].
    apply sends_nil.
  - reflexivity.
  - intros m payload _ [= <-]. vm_compute. discriminate.
  - apply delivers_chunks.
  - vm_compute. reflexivity.
  - vm_compute. lia.
  - vm_compute. lia.
Defined.

Lemma drain_any_chunking_witness :
  ∃ s', drain 3 fresh net_rx = Done ([Byte.x41; Byte.x42], Ok None, s') calm ∧
        buffered s' = [] ∧ reader_ok s'.
Proof.
  apply (drain_any_chunking [Byte.x41; Byte.x42] [take 5 wire; drop 5 wire] [] 3 fresh net_rx chunks).
  - repeat constructor; eexists; (split; [reflexivity|]; split; [reflexivity|]);
      vm_compute; discriminate.
  - by left.
  - split; vm_compute; discriminate.
  - apply delivers_chunks.
  - reflexivity.
  - vm_compute. lia.
  - vm_compute. lia.
Defined.

Definition queued : SockInner :=
  mkSockInner st0 [] 0 [(1, [(0, [Byte.x07])]); (5, [(0, [Byte.x09])])] None.

Lemma queued_ok : queue_ok (write_queue queued).
Proof. repeat constructor; simpl; try done; lia. Defined.


Lemma enqueue_by_priority_witness :
  ∃ q', enqueue 0 (Some (Byte.x41, 3)) (write_queue queued) = Some q' ∧ queue_ok q' ∧
        frames q' = [[Byte.x07]; frame_of [Byte.x41]; [Byte.x09]].
Proof.
  eexists. split; [reflexivity|].
  apply (enqueue_by_priority 0 Byte.x41 3 (write_queue queued) _ [Byte.x41]).
  - apply queued_ok.
  - reflexivity.
  - reflexivity.
Defined.

Lemma drop_expired_exact_witness :
  drop_expired 61000 (write_queue queued) = [(1, [(0, [Byte.x07])])] ∧
  (∀ kv, kv ∈ write_queue queued → kv.1 < MSG_DROP_PRIORITY →
         kv ∈ drop_expired 61000 (write_queue queued)).
Proof.
  split; [reflexivity|]. apply (drop_expired_exact 61000 (write_queue queued)), queued_ok.
Defined.

(** A codec with long messages: a natural number as that many bytes. *)
Fixpoint count_ones (acc : nat) (bs : list byte) : option nat :=
  match bs with
  | [] => None
  | Byte.x00 :: _ => Some acc
  | _ :: bs => count_ones (S acc) bs
  end.

#[local] Instance nat_codec : Codec nat := {|
  serialise n := Some (replicate n Byte.x01 ++ [Byte.x00]);
  deserialise_from := count_ones O;
  deserialise := count_ones O
|}.

Lemma count_ones_exact m rest acc :
  count_ones acc ((replicate m Byte.x01 ++ [Byte.x00]) ++ rest) = Some (m + acc)%nat.
Proof.
  revert acc. induction m as [|m IH]; intros acc; [done|]. simpl. rewrite IH. f_equal. lia.
Qed.

#[local] Instance nat_codec_laws : CodecLaws nat.
Proof.
  split.
  - intros m bs rest [= <-]. cbn. rewrite count_ones_exact. f_equal. lia.
  - intros m bs [= <-]. cbn. rewrite <- (app_nil_r (_ ++ _)), count_ones_exact. f_equal. lia.
  - intros m bs [= <-]. by destruct m.
Defined.

Definition big : nat := Z.to_nat MAX_PAYLOAD_SIZE.

Lemma oversize_fails_at_reader_witness :
  ∃ payload q', serialise big = Some payload ∧
    enqueue 0 (Some (big, 0)) (write_queue queued) = Some q' ∧ frame_of payload ∈ frames q' ∧
    (SockInner_read_from_buffer (T:=nat)
       (mkSockInner st0 (frame_of payload ++ []) 0 [] None)).1 =
    Err PayloadSizeProhibitive.
Proof.
  eexists _, _. split; [reflexivity|]. split; [reflexivity|].
  eapply (oversize_fails_at_reader 0 big 0 _ (write_queue queued) _ _ []).
  - reflexivity.
  - rewrite length_app, length_replicate. unfold big. simpl length.
    rewrite Nat2Z.inj_add, Z2Nat.id by (vm_compute; discriminate).
    vm_compute. split; reflexivity.
  - apply queued_ok.
  - reflexivity.
  - reflexivity.
  - reflexivity.
Defined.

Lemma short_length_desynchronises_witness :
  ∃ s', SockInner_read_from_buffer
          (mkSockInner st0
             (le_bytes u32_size 1 ++ [Byte.x01; Byte.x01; Byte.x00] ++ []) 0 [] None) =
        (Ok (Some 2%nat), s') ∧
        buffered s' = [Byte.x01; Byte.x00].
Proof.
  destruct (short_length_desynchronises 2%nat [Byte.x01; Byte.x01; Byte.x00] 1
    (mkSockInner st0
       (le_bytes u32_size 1 ++ [Byte.x01; Byte.x01; Byte.x00] ++ []) 0 [] None) [])
    as (s' & Hs & Hb & _).
  - reflexivity.
  - vm_compute. split; [reflexivity|discriminate].
  - reflexivity.
  - reflexivity.
  - reflexivity.
  - exists s'. split; [exact Hs|exact Hb].
Defined.

End SocketWitness.
