(* ===== verification/Flush.v ===== *)
(** The writer makes progress: a socket whose stream takes at least one byte at a
    time gets everything out. *)

From stdpp Require Import base tactics list.
From Stdlib Require Import ZArith Lia.
From S2P Require Import Prelude Types Env Socket.

Section Flush.
Context {ENV : Env} {T : Type} `{!Codec T}.
Implicit Types (s : SockInner) (n : net).

(** The calls of [write] without a message that a socket that is writable gets
    from the event loop, until it reports that it is done, fails, or the bound
    is reached. *)
Fixpoint flush (calls : nat) (token : Token) (s : SockInner) :
  M net (result bool CrustError * SockInner) :=
  match calls with
  | O => mret (Ok false, s)
  | S calls =>
      '(r, s) ← SockInner_write s token (None : option (T * Priority));
      match r with
      | Ok false => flush calls token s
      | _ => mret (r, s)
      end
  end.

(** A stream that takes something of what it is given, in an event loop that
    accepts its registration, while the outside world is in the states [P]. *)
Record willing (P : net → Prop) (st : TcpStream) (token : Token) : Prop := {
  takes_some : ∀ data n, P n → data ≠ [] →
    ∃ k n', tcp_write st data n = (Ok k, n') ∧ 0 < k ∧ P n';
  registers : ∀ i n, P n → ∃ n', poll_reregister (EvStream st) token i n = (Ok tt, n') ∧ P n'
}.

Context (P : net → Prop).

Lemma write_data_willing token data s n :
  willing P (stream s) token → P n → data ≠ [] →
  ∃ d s' n', write_data token data s n = Done (Ok d, s') n' ∧ P n' ∧
    accepted (stream s) data n ≠ [].
Proof.
  intros [Hw Hr] Hn Hd. destruct (Hw data n Hn Hd) as (k & n1 & Hk & Hpos & Hn1).
  unfold write_data, accepted, mbind, M_bind, call. rewrite Hk. cbn [fst].
  unfold finish_write, mbind, M_bind, call. cbn [stream set_write].
  match goal with |- context [poll_reregister _ _ ?i ?n] => destruct (Hr i n Hn1) as (n2 & -> & Hn2) end.
  eexists _, _, _. split; [done|]. split; [done|]. destruct data; [done|].
  by destruct (Z.to_nat k) eqn:E; [lia|].
Qed.

Lemma write_willing token s n :
  willing P (stream s) token → P n → writer_ok s →
  (∀ k, k ∈ (write_queue s).*1 → k < MSG_DROP_PRIORITY) →
  ∃ d s' n' out, P n' ∧ SockInner_write s token (None : option (T * Priority)) n = Done (Ok d, s') n' ∧
    backlog s = out ++ backlog s' ∧ (d = true ↔ backlog s' = []) ∧ (backlog s ≠ [] → out ≠ []) ∧
    stream s' = stream s ∧ writer_ok s' ∧
    (∀ k, k ∈ (write_queue s').*1 → k < MSG_DROP_PRIORITY).
Proof.
  intros Hwill Hn Hok Hk. pose proof (write_spec s token (None : option (T * Priority)) n Hok) as Hspec.
  destruct Hok as [Hq Hc]. rewrite drop_expired_undroppable in Hspec by done. cbn [enqueue] in Hspec.
  destruct Hspec as (r & s' & n' & Hrun & Hst & Hok' & Hkeys & Hr).
  assert (∃ d, r = Ok d ∧ P n' ∧
    (backlog s ≠ [] → accepted (stream s) (next_data s (write_queue s)) n ≠ []))
    as (d & -> & Hn' & Hout).
  { revert Hrun. unfold SockInner_write, mbind, M_bind, gets, next_data.
    rewrite drop_expired_undroppable by done. cbn [enqueue].
    destruct (current_write s) as [data|] eqn:Ec.
    - destruct (write_data_willing token data (set_write (write_queue s) None s) n)
        as (d & ? & ? & -> & ? & ?); [done|done|congruence|]. intros [= <- _ <-]. by exists d.
    - unfold backlog. rewrite Ec.
      destruct (write_queue s) as [|[k [|[t data] queue]] q]; [intros [= <- _ <-]; by exists true|done|].
      destruct Hq as [_ [[_ [Hd _]%Forall_cons] _]%Forall_cons].
      destruct queue;
        match goal with |- context [write_data token data ?s1 n] =>
          destruct (write_data_willing token data s1 n) as (d & ? & ? & -> & ? & ?); [done|done|done|] end;
        intros [= <- _ <-]; by exists d. }
  destruct (Hr d eq_refl) as [Hb Hd]. exists d, s', n', (accepted (stream s) (next_data s (write_queue s)) n).
  split_and!; try done. intros k Hin. by apply Hk, Hkeys.
Qed.

Lemma flush_done calls : ∀ token s n,
  willing P (stream s) token → P n → writer_ok s →
  (∀ k, k ∈ (write_queue s).*1 → k < MSG_DROP_PRIORITY) → (length (backlog s) < calls)%nat →
  ∃ s' n', flush calls token s n = Done (Ok true, s') n' ∧ writer_ok s' ∧ backlog s' = [].
Proof.
  induction calls as [|calls IH]; intros token s n Hwill Hn Hok Hk Hlen; [lia|].
  cbn [flush]. unfold mbind, M_bind.
  destruct (write_willing token s n Hwill Hn Hok Hk)
    as (d & s' & n' & out & Hn' & -> & Hb & Hd & Hout & Hst & Hok' & Hk').
  destruct d; [exists s', n'; split; [done|]; split; [done|]; by apply Hd|].
  apply IH; [by rewrite Hst|done|done|done|].
  assert (backlog s' ≠ []) as Hne by (intros H%Hd; done).
  assert (out ≠ []) as Hout'.
  { apply Hout. rewrite Hb. intros [_ ?]%app_eq_nil. done. }
  rewrite Hb, length_app in Hlen. destruct out; [done|]. cbn in Hlen. lia.
Qed.

(** C23: everything gets out. If the stream takes at least one byte whenever it
    is offered some, the calls of [write] that the event loop makes while the
    socket is writable end with nothing left to send, after at most one call
    more than there are bytes waiting; nothing is dropped if no message is of a
    droppable priority. *)
Theorem flush_completes token s n :
  willing P (stream s) token → P n → writer_ok s →
  (∀ k, k ∈ (write_queue s).*1 → k < MSG_DROP_PRIORITY) →
  ∃ s' n', flush (S (length (backlog s))) token s n = Done (Ok true, s') n' ∧ writer_ok s' ∧
           backlog s' = [].
Proof. intros Hwill Hn Hok Hk. apply flush_done; try done. lia. Qed.

End Flush.

Module FlushWitness.

#[local] Instance wenv : Env := Script.env true false.
#[local] Existing Instance Script.byte_codec.

(** The outside world takes the given numbers of bytes, and then everything. *)
Definition taking (n : @net wenv) : Prop :=
  Forall (λ r, match r with Ok k => 0 < k | Err _ => False end) (Script.writes n) ∧ Script.polls n = [].

Lemma taking_willing st token : willing taking st token.
Proof.
  split.
  - intros data n [Hw Hp] Hd. cbn. destruct (Script.writes n) as [|[k|e] ws] eqn:E; cbn.
    + eexists _, _. split; [done|]. split; [destruct data; [done|cbn; lia]|]. split; [done|exact Hp].
    + apply Forall_cons in Hw as [Hk Hw]. by eexists _, _.
    + by apply Forall_cons in Hw as [? _].
  - intros i n [Hw Hp]. cbn. rewrite Hp. eexists. split; [done|]. by split.
Qed.

Definition start : @net wenv := Script.set_writes [Ok 1; Ok 1] Script.quiet.
Definition waiting : SockInner :=
  mkSockInner (0%nat : @TcpStream wenv) [] 0 [(1, [(0, [Byte.x01; Byte.x02])])] (Some [Byte.x03]).

Lemma flush_completes_witness :
  ∃ s' n', flush (T:=byte) 4 10 waiting start = Done (Ok true, s') n' ∧ writer_ok s' ∧ backlog s' = [].
Proof.
  apply (flush_completes taking 10 waiting start).
  - apply taking_willing.
  - split; [by repeat constructor|done].
  - split; [split|done]; by repeat constructor.
  - intros k. cbn. intros ->%list_elem_of_singleton. reflexivity.
Defined.

End FlushWitness.
