(* ===== verification/ConnMap.v ===== *)
(** The connection map [Arc<Mutex<HashMap<UID, ConnectionId>>>] of
    [src/src/main/mod.rs] and the four ways the state machines change it, which
    appear in [connect/exchange_msg.rs], [connection_listener/exchange_msg.rs],
    [connection_candidate.rs] and [active_connection.rs]; an abstract
    specification of them and the proof that they implement it. *)

From stdpp Require Import base tactics list gmap.
From Stdlib Require Import ZArith Lia.
From S2P Require Import Prelude Types Env.

Section ConnMap.
Context {ENV : Env} {UID : Type} `{!Uid UID}.

Abbreviation cmap := (gmap UID ConnectionId).
Implicit Types (cm : cmap) (u : UID) (t : Token).

(** [entry(u).or_insert(c)]. *)
Definition cm_or_insert (u : UID) (c : ConnectionId) (cm : cmap) : ConnectionId :=
  default c (cm !! u).

(** A handshake with [u] begins: [.or_insert({None, 0}).currently_handshaking += 1]. *)
Definition cm_enter (u : UID) : M cmap unit :=
  conn_id ← gets (cm_or_insert u (mkConnectionId None 0));
  n ← usize_succ overflow_checks (currently_handshaking conn_id);
  modify <[u := mkConnectionId (active_connection conn_id) n]>.

(** A handshake with [u] is given up. *)
Definition cm_leave (u : UID) : M cmap unit :=
  cm ← gets id;
  match cm !! u with
  | None => mret tt
  | Some oe =>
      n ← usize_pred overflow_checks (currently_handshaking oe);
      if (n =? 0) && bool_decide (active_connection oe = None)
      then modify (delete u)
      else modify <[u := mkConnectionId (active_connection oe) n]>
  end.

(** A handshake with [u] has succeeded, the connection is [t]. *)
Definition cm_activate (u : UID) (t : Token) : M cmap unit :=
  conn_id ← gets (cm_or_insert u (mkConnectionId None 1));
  n ← usize_pred overflow_checks (currently_handshaking conn_id);
  modify <[u := mkConnectionId (Some t) n]>.

(** The connection to [u] is closed. *)
Definition cm_deactivate (u : UID) : M cmap unit :=
  cm ← gets id;
  match cm !! u with
  | None => mret tt
  | Some oe =>
      if currently_handshaking oe =? 0
      then modify (delete u)
      else modify <[u := mkConnectionId None (currently_handshaking oe)]>
  end.

(** [Some(&ConnectionId { active_connection: Some(_), .. })]. *)
Definition cm_active (u : UID) (cm : cmap) : option Token :=
  match cm !! u with
  | Some c => active_connection c
  | None => None
  end.

(** ** Specification

    What the map is for: how many handshakes with a peer are under way, and
    which connection to it is active. *)

Record conns := mkConns { hs : UID → Z; act : UID → option Token }.

Definition upd {A} (u : UID) (a : A) (f : UID → A) : UID → A :=
  λ v, if decide (v = u) then a else f v.

(** The map represents [c]: a peer with no handshake and no connection has no
    entry, any other has exactly its record. *)
Definition represents (cm : cmap) (c : conns) : Prop :=
  ∀ u, 0 ≤ hs c u < usize_modulus ∧
       cm !! u = if decide (hs c u = 0 ∧ act c u = None) then None
                 else Some (mkConnectionId (act c u) (hs c u)).

Inductive conn_op :=
| Enter (u : UID)
| Leave (u : UID)
| Activate (u : UID) (t : Token)
| Deactivate (u : UID).

Definition run_op (o : conn_op) : M cmap unit :=
  match o with
  | Enter u => cm_enter u
  | Leave u => cm_leave u
  | Activate u t => cm_activate u t
  | Deactivate u => cm_deactivate u
  end.

(** When an operation makes sense, and what it does. *)
Definition op_pre (o : conn_op) (c : conns) : Prop :=
  match o with
  | Enter u => hs c u + 1 < usize_modulus
  | Leave u => 0 < hs c u
  | Activate u _ => 0 < hs c u
  | Deactivate _ => True
  end.

Definition op_spec (o : conn_op) (c : conns) : conns :=
  match o with
  | Enter u => mkConns (upd u (hs c u + 1) (hs c)) (act c)
  | Leave u => mkConns (upd u (hs c u - 1) (hs c)) (act c)
  | Activate u t => mkConns (upd u (hs c u - 1) (hs c)) (upd u (Some t) (act c))
  | Deactivate u => mkConns (hs c) (upd u None (act c))
  end.

(** ** Lemmas *)

Lemma or_insert_some u d c (cm : cmap) : cm !! u = Some c → cm_or_insert u d cm = c.
Proof. intros H. unfold cm_or_insert. by rewrite H. Qed.

Lemma upd_eq {A} u (a : A) f : upd u a f u = a.
Proof. unfold upd. by rewrite decide_True. Qed.

Lemma upd_ne {A} u v (a : A) f : v ≠ u → upd u a f v = f v.
Proof. intros. unfold upd. by rewrite decide_False. Qed.

(** Changing the entry of one peer to what its new record requires. *)
Lemma represents_change cm c u h a cm' :
  represents cm c → 0 ≤ h < usize_modulus →
  (∀ v, v ≠ u → cm' !! v = cm !! v) →
  cm' !! u = (if decide (h = 0 ∧ a = None) then None else Some (mkConnectionId a h)) →
  ∀ hs' act', hs' u = h → act' u = a → (∀ v, v ≠ u → hs' v = hs c v ∧ act' v = act c v) →
  represents cm' (mkConns hs' act').
Proof.
  intros Hr Hh Hne Hu hs' act' <- <- Hothers v. simpl.
  destruct (decide (v = u)) as [->|Hv]; [done|].
  destruct (Hothers v Hv) as [-> ->]. rewrite Hne by done. apply Hr.
Qed.

Lemma represents_entry cm c u :
  represents cm c → (hs c u ≠ 0 ∨ act c u ≠ None) →
  cm !! u = Some (mkConnectionId (act c u) (hs c u)).
Proof. intros Hr H. destruct (Hr u) as [_ ->]. rewrite decide_False by tauto. done. Qed.

Lemma represents_active cm c u : represents cm c → cm_active u cm = act c u.
Proof.
  intros Hr. unfold cm_active. destruct (Hr u) as [_ ->].
  by case_decide as Hd; [destruct Hd as [_ ->]|].
Qed.

Lemma usize_pred_pos {W} (a : Z) (w : W) :
  0 < a → usize_pred overflow_checks a w = Done (a - 1) w.
Proof. intros Ha. unfold usize_pred. by destruct (Z.eqb_spec a 0); [lia|]. Qed.

Lemma usize_succ_small {W} (a : Z) (w : W) :
  a + 1 < usize_modulus → usize_succ overflow_checks a w = Done (a + 1) w.
Proof. intros Ha. unfold usize_succ. by destruct (Z.eqb_spec a (usize_modulus - 1)); [lia|]. Qed.

(** [cm_deactivate] and [cm_leave] as functions of the map. *)
Definition deactivated (u : UID) (cm : cmap) : cmap :=
  match cm !! u with
  | None => cm
  | Some oe =>
      if currently_handshaking oe =? 0 then delete u cm
      else <[u := mkConnectionId None (currently_handshaking oe)]> cm
  end.

Lemma cm_deactivate_done u cm : cm_deactivate u cm = Done tt (deactivated u cm).
Proof.
  unfold cm_deactivate, deactivated, mbind, M_bind, gets. cbn [id].
  destruct (cm !! u) as [oe|]; [|done]. by destruct (currently_handshaking oe =? 0).
Qed.

Lemma deactivated_inactive u cm : cm_active u (deactivated u cm) = None.
Proof.
  unfold cm_active, deactivated. destruct (cm !! u) as [oe|] eqn:E; [|by rewrite E].
  destruct (Z.eqb_spec (currently_handshaking oe) 0).
  - by rewrite lookup_delete_eq.
  - by rewrite lookup_insert_eq.
Qed.

Lemma deactivated_other u v cm : v ≠ u → deactivated u cm !! v = cm !! v.
Proof.
  intros Hv. unfold deactivated. destruct (cm !! u) as [oe|]; [|done].
  destruct (currently_handshaking oe =? 0); by rewrite ?lookup_delete_ne, ?lookup_insert_ne.
Qed.

(** [cm_leave] as a function of the map. *)
Definition left_one (u : UID) (cm : cmap) : cmap :=
  match cm !! u with
  | None => cm
  | Some oe =>
      if (currently_handshaking oe - 1 =? 0) && bool_decide (active_connection oe = None)
      then delete u cm
      else <[u := mkConnectionId (active_connection oe) (currently_handshaking oe - 1)]> cm
  end.

Lemma cm_leave_done u cm :
  (∀ oe, cm !! u = Some oe → 0 < currently_handshaking oe) →
  cm_leave u cm = Done tt (left_one u cm).
Proof.
  intros Hpos. unfold cm_leave, left_one, mbind, M_bind, gets. cbn [id].
  destruct (cm !! u) as [oe|]; [|done]. rewrite usize_pred_pos by by apply Hpos.
  by destruct ((currently_handshaking oe - 1 =? 0) && _).
Qed.

(** The entry of a peer with [k] handshakes under way, if any. *)
Definition entry (a : option Token) (k : Z) : option ConnectionId :=
  if decide (k = 0 ∧ a = None) then None else Some (mkConnectionId a k).

Lemma left_one_eq u cm a k :
  cm !! u = entry a k → 0 < k → left_one u cm !! u = entry a (k - 1).
Proof.
  intros Hu Hk. unfold left_one, entry in *. rewrite Hu, decide_False by lia. cbn.
  destruct (Z.eqb_spec (k - 1) 0); [case_bool_decide|]; cbn.
  - by rewrite lookup_delete_eq, decide_True.
  - rewrite lookup_insert_eq, decide_False by tauto. done.
  - rewrite lookup_insert_eq, decide_False by tauto. done.
Qed.

Lemma left_one_ne u v cm : v ≠ u → left_one u cm !! v = cm !! v.
Proof.
  intros Hv. unfold left_one. destruct (cm !! u) as [oe|]; [|done].
  destruct (_ && _); by rewrite ?lookup_delete_ne, ?lookup_insert_ne.
Qed.

Lemma cm_enter_done u cm a k :
  cm !! u = entry a k → 0 ≤ k → k + 1 < usize_modulus →
  cm_enter u cm = Done tt (<[u := mkConnectionId a (k + 1)]> cm).
Proof.
  intros Hu Hk Hm. unfold cm_enter, mbind, M_bind, gets, modify, cm_or_insert. rewrite Hu.
  unfold entry. case_decide as Hd; cbn; [destruct Hd as [-> ->]|]; by rewrite usize_succ_small.
Qed.

Lemma enter_refines u cm c :
  represents cm c → op_pre (Enter u) c →
  ∃ cm', cm_enter u cm = Done tt cm' ∧ represents cm' (op_spec (Enter u) c).
Proof.
  intros Hr Hpre. pose proof (λ u, proj1 (Hr u)) as Hb. simpl in *.
  unfold cm_enter, mbind, M_bind, gets, modify, cm_or_insert.
  assert (default (mkConnectionId None 0) (cm !! u) = mkConnectionId (act c u) (hs c u)) as ->.
  { destruct (Hr u) as [_ ->]. by case_decide as Hd; [destruct Hd as [-> ->]|]. }
  cbn [currently_handshaking]. rewrite usize_succ_small by done.
  eexists. split; [done|]. pose proof (Hb u).
  apply (represents_change cm c u (hs c u + 1) (act c u)); try done; [lia|..].
  - intros v Hv. by rewrite lookup_insert_ne.
  - rewrite lookup_insert_eq, decide_False by lia. done.
  - apply upd_eq.
  - intros v Hv. by rewrite upd_ne.
Qed.

Lemma leave_refines u cm c :
  represents cm c → op_pre (Leave u) c →
  ∃ cm', cm_leave u cm = Done tt cm' ∧ represents cm' (op_spec (Leave u) c).
Proof.
  intros Hr Hpre. pose proof (λ u, proj1 (Hr u)) as Hb. simpl in *.
  unfold cm_leave, mbind, M_bind, gets. cbn [id].
  rewrite (represents_entry _ c) by (done || lia). cbn [currently_handshaking active_connection].
  rewrite usize_pred_pos by done.
  pose proof (Hb u).
  destruct (Z.eqb_spec (hs c u - 1) 0) as [Hz|Hz]; [case_bool_decide as Ha|]; simpl;
    eexists; (split; [done|]);
    apply (represents_change cm c u (hs c u - 1) (act c u)); try done; try lia;
    try (intros v Hv; by rewrite ?lookup_insert_ne, ?lookup_delete_ne);
    try apply upd_eq; try (intros v Hv; by rewrite upd_ne).
  - by rewrite lookup_delete_eq, decide_True.
  - rewrite lookup_insert_eq, decide_False by tauto. done.
  - rewrite lookup_insert_eq, decide_False by lia. done.
Qed.

Lemma activate_refines u t cm c :
  represents cm c → op_pre (Activate u t) c →
  ∃ cm', cm_activate u t cm = Done tt cm' ∧ represents cm' (op_spec (Activate u t) c).
Proof.
  intros Hr Hpre. pose proof (λ u, proj1 (Hr u)) as Hb. simpl in *.
  unfold cm_activate, mbind, M_bind, gets, modify, cm_or_insert.
  rewrite (represents_entry _ c) by (done || lia). simpl. rewrite usize_pred_pos by done.
  eexists. split; [done|]. pose proof (Hb u).
  apply (represents_change cm c u (hs c u - 1) (Some t)); try done; try lia.
  - intros v Hv. by rewrite lookup_insert_ne.
  - rewrite lookup_insert_eq, decide_False by (intros [_ ?]; done). done.
  - apply upd_eq.
  - apply upd_eq.
  - intros v Hv. by rewrite !upd_ne.
Qed.

Lemma deactivate_refines u cm c :
  represents cm c → op_pre (Deactivate u) c →
  ∃ cm', cm_deactivate u cm = Done tt cm' ∧ represents cm' (op_spec (Deactivate u) c).
Proof.
  intros Hr Hpre. pose proof (λ u, proj1 (Hr u)) as Hb. simpl in *.
  unfold cm_deactivate, mbind, M_bind, gets. cbn [id]. pose proof (Hb u).
  destruct (Hr u) as [_ Hu]. rewrite Hu.
  case_decide as Hd; [|simpl; destruct (Z.eqb_spec (hs c u) 0) as [Hz|Hz]];
    eexists; (split; [done|]);
    apply (represents_change cm c u (hs c u) None); try done; try lia;
    try (intros v Hv; by rewrite ?lookup_insert_ne, ?lookup_delete_ne);
    try apply upd_eq; try (intros v Hv; by rewrite upd_ne).
  - rewrite Hu. by rewrite decide_True by tauto.
  - by rewrite lookup_delete_eq, decide_True.
  - rewrite lookup_insert_eq, decide_False by tauto. done.
Qed.

(** When arithmetic is checked, an operation that completes leaves a map that
    represents something, also when it made no sense (a handshake given up, or
    completed, that was never counted): what makes no sense changes nothing, adds
    the connection only, or panics. *)
Lemma run_op_represents o cm c cm' :
  overflow_checks = true → represents cm c → run_op o cm = Done tt cm' → ∃ c', represents cm' c'.
Proof.
  intros Hc Hr Hrun. pose proof (λ u, proj1 (Hr u)) as Hb.
  assert (op_pre o c → ∃ c', represents cm' c') as Hpre.
  { intros Hpre. assert (∃ cm1, run_op o cm = Done tt cm1 ∧ represents cm1 (op_spec o c)) as (cm1 & H1 & H2).
    { destruct o; [by apply enter_refines|by apply leave_refines|by apply activate_refines|by apply deactivate_refines]. }
    rewrite H1 in Hrun. injection Hrun as <-. by eexists. }
  destruct o as [u|u|u t|u]; cbn in Hpre; [| | |by apply Hpre]; specialize (Hb u).
  - destruct (decide (hs c u + 1 < usize_modulus)); [by apply Hpre|exfalso]. revert Hrun. cbn.
    unfold cm_enter, mbind, M_bind, gets, cm_or_insert. rewrite (represents_entry _ c) by (done || unfold usize_modulus in *; lia).
    cbn. unfold usize_succ. rewrite Hc. by destruct (Z.eqb_spec (hs c u) (usize_modulus - 1)); [|lia].
  - destruct (decide (0 < hs c u)); [by apply Hpre|]. revert Hrun. cbn. unfold cm_leave, mbind, M_bind, gets. cbn [id].
    destruct (Hr u) as [_ ->]. case_decide; [intros [= <-]; by exists c|]. cbn. unfold usize_pred. rewrite Hc.
    by destruct (Z.eqb_spec (hs c u) 0); [|lia].
  - destruct (decide (0 < hs c u)); [by apply Hpre|]. revert Hrun. cbn.
    unfold cm_activate, mbind, M_bind, gets, cm_or_insert, modify. destruct (Hr u) as [_ ->]. case_decide; cbn.
    + intros [= <-]. exists (mkConns (upd u 0 (hs c)) (upd u (Some t) (act c))).
      apply (represents_change cm c u 0 (Some t)); try done.
      * intros v Hv. by rewrite lookup_insert_ne.
      * rewrite lookup_insert_eq, decide_False by (intros [_ ?]; done). done.
      * apply upd_eq.
      * apply upd_eq.
      * intros v Hv. by rewrite !upd_ne.
    + unfold usize_pred. rewrite Hc. by destruct (Z.eqb_spec (hs c u) 0); [|lia].
Qed.

(** Only [Activate] makes a connection active. *)
Lemma run_op_active o cm cm' u t :
  run_op o cm = Done tt cm' → cm_active u cm' = Some t → o = Activate u t ∨ cm_active u cm = Some t.
Proof.
  assert (∀ v c, active_connection c = active_connection (default (mkConnectionId None 0) (cm !! v)) →
    cm_active u (<[v := c]> cm) = cm_active u cm) as Hsame.
  { intros v c Hc. unfold cm_active. destruct (decide (v = u)) as [->|]; [|by rewrite lookup_insert_ne].
    rewrite lookup_insert_eq. rewrite Hc. by destruct (cm !! u). }
  assert (∀ v, cm_active u (delete v cm) = Some t → cm_active u cm = Some t) as Hdel.
  { intros v. unfold cm_active. destruct (decide (v = u)) as [->|]; [by rewrite lookup_delete_eq|by rewrite lookup_delete_ne]. }
  destruct o as [v|v|v t'|v]; cbn;
    unfold cm_enter, cm_leave, cm_activate, cm_deactivate, cm_or_insert, mbind, M_bind, gets, modify, usize_succ, usize_pred; cbn.
  - destruct (_ =? _); [destruct overflow_checks; [done|]|]; cbn; intros [= <-]; rewrite Hsame by done; by right.
  - destruct (cm !! v) as [oe|] eqn:Hv; [|intros [= <-]; by right].
    assert (∀ n, cm_active u (<[v := mkConnectionId (active_connection oe) n]> cm) = cm_active u cm) as Hs.
    { intros n. apply Hsame. by rewrite Hv. }
    destruct (_ =? 0); [destruct overflow_checks; [done|]|]; cbn; destruct (_ && _); intros [= <-]; rewrite ?Hs;
      right; first [done|by eapply Hdel].
  - assert (∀ n, cm_active u (<[v := mkConnectionId (Some t') n]> cm) = Some t → Activate v t' = Activate u t ∨ cm_active u cm = Some t) as Hs.
    { intros n. unfold cm_active. destruct (decide (v = u)) as [->|].
      - rewrite lookup_insert_eq. intros [= ->]. by left.
      - rewrite lookup_insert_ne by done. by right. }
    destruct (_ =? 0); [destruct overflow_checks; [done|]|]; cbn; intros [= <-]; apply Hs.
  - destruct (cm !! v) as [oe|] eqn:Hv; [|intros [= <-]; by right].
    destruct (_ =? 0); intros [= <-] Hu; right; [by eapply Hdel|].
    revert Hu. unfold cm_active. destruct (decide (v = u)) as [->|]; [by rewrite lookup_insert_eq|by rewrite lookup_insert_ne].
Qed.

(** ** Properties *)

(** C8: the map operations implement the specification. Each of the four
    changes the state machines make to the connection map, done when it makes
    sense (a handshake is given up or succeeds only if one is under way), does
    not panic and leaves a map that represents the specified result; so a peer
    has an entry exactly while it has a handshake under way or an active
    connection. *)
Theorem conn_map_refines o cm c :
  represents cm c → op_pre o c →
  ∃ cm', run_op o cm = Done tt cm' ∧ represents cm' (op_spec o c).
Proof.
  destruct o; [apply enter_refines|apply leave_refines|apply activate_refines|apply deactivate_refines].
Qed.

(** Activating a connection to a peer that has an entry but no handshake
    under way is outside the specification: in a build with overflow checks the
    event loop panics, in one without the counter wraps around and the peer
    keeps an entry for ever after. *)
Theorem activate_without_handshake u t cm a :
  cm !! u = Some (mkConnectionId a 0) →
  cm_activate u t cm =
  if overflow_checks then Panicked ArithOverflow
  else Done tt (<[u := mkConnectionId (Some t) (usize_modulus - 1)]> cm).
Proof.
  intros Hu. unfold cm_activate, mbind, M_bind, gets, cm_or_insert, usize_pred. rewrite Hu.
  simpl. by destruct overflow_checks.
Qed.

End ConnMap.

Arguments conns UID : clear implicits.
Arguments conn_op UID : clear implicits.

Module ConnMapWitness.

#[local] Instance wenv : Env := Script.env true false.

Definition c0 : conns Z := mkConns (λ u, if decide (u = 5) then 1 else 0) (λ _, None).
Definition cm0 : gmap Z ConnectionId := {[ 5 := mkConnectionId None 1 ]}.

Lemma represents_cm0 : represents cm0 c0.
Proof.
  intros u. unfold c0, cm0; simpl. case_decide as Hd; subst.
  - split; [unfold usize_modulus; lia|]. by rewrite lookup_singleton_eq.
  - split; [unfold usize_modulus; lia|]. by rewrite lookup_singleton_ne.
Defined.

Lemma conn_map_refines_witness :
  ∃ cm', run_op (Activate 5 9) cm0 = Done tt cm' ∧ represents cm' (op_spec (Activate 5 9) c0).
Proof. apply conn_map_refines; [apply represents_cm0|reflexivity]. Defined.

Definition cm1 : gmap Z ConnectionId := {[ 5 := mkConnectionId (Some 8) 0 ]}.

Lemma activate_without_handshake_witness : cm_activate 5 9 cm1 = Panicked ArithOverflow.
Proof. exact (activate_without_handshake 5 9 cm1 (Some 8) eq_refl). Defined.

End ConnMapWitness.
