(* ===== verification/World.v ===== *)
(** The state of one service: the state machines of [src/src/main] as records,
    the [Rc<RefCell<State>>] heap they live in, the event loop's [Core]
    ([src/src/common/core.rs]), and what they share (the connection map, the
    configuration, the user's event channel). Then the operations of [Core]. *)

From stdpp Require Import base tactics list gmap.
From Stdlib Require Import ZArith Lia.
From S2P Require Import Prelude Types Env Socket ConnMap.

(** A pointer to a reference-counted state: [Rc<RefCell<_>>], and the target of
    a [Weak]. *)
Abbreviation rc := nat (only parsing).

Section States.
Context {ENV : Env} {UID : Type}.

(** ** [active_connection.rs] *)

Record HeartbeatTimers := mkHeartbeatTimers {
  recv_timeout : Timeout;
  recv_timer : CoreTimer;
  send_timeout : Timeout;
  send_timer : CoreTimer
}.

Record ActiveConnection := mkActiveConnection {
  ac_token : Token;
  ac_socket : Socket;
  ac_our_id : UID;
  ac_their_id : UID;
  ac_their_role : CrustUser;
  ac_heartbeat : HeartbeatTimers
}.

(** ** [connection_candidate.rs]: the [finish] closure is that of a [Connect]
    (given by its [self_weak]) or that of the listener's [ExchangeMsg] (given by
    what it captures). *)

Inductive CandidateFinish :=
| FinishConnect (parent : rc)
| FinishListener (our_uid their_uid : UID).

Record ConnectionCandidate := mkConnectionCandidate {
  cc_token : Token;
  cc_socket : Socket;
  cc_our_id : UID;
  cc_their_id : UID;
  cc_msg : option (Message UID * Priority);
  cc_finish : CandidateFinish
}.

(** ** [connect/exchange_msg.rs]; [finish] calls [Connect::handle_exchange_msg]
    of the parent. *)

Record ConnectExchange := mkConnectExchange {
  ce_token : Token;
  ce_expected_id : UID;
  ce_expected_nh : NameHash;
  ce_socket : Socket;
  ce_msg : option (Message UID * Priority);
  ce_finish : rc
}.

(** ** [connect/mod.rs] *)

Record ConnectState := mkConnectState {
  cn_token : Token;
  cn_timeout : Timeout;
  cn_our_nh : NameHash;
  cn_our_id : UID;
  cn_their_id : UID;
  cn_self_weak : rc;
  cn_listener : option TcpListener;
  cn_children : gset Token
}.

(** ** [connection_listener/exchange_msg.rs] *)

Inductive NextState :=
| NextNone
| NextActiveConnection (uid : UID) (kind : CrustUser)
| NextConnectionCandidate (uid : UID).

Record ListenerExchange := mkListenerExchange {
  le_token : Token;
  le_name_hash : NameHash;
  le_next_state : NextState;
  le_our_uid : UID;
  le_socket : Socket;
  le_timeout : Timeout;
  le_reachability_children : gset Token;
  le_accept_bootstrap : bool;
  le_require_reachability : bool;
  le_self_weak : rc
}.

(** ** [connection_listener/check_reachability.rs]; [finish] calls
    [ExchangeMsg::handle_check_reachability] of the parent. *)

Record CheckReachability := mkCheckReachability {
  cr_token : Token;
  cr_socket : Socket;
  cr_timeout : Timeout;
  cr_finish : rc;
  cr_t : UID
}.

(** ** [connection_listener/mod.rs] *)

Record ConnectionListener := mkConnectionListener {
  cl_token : Token;
  cl_listener : TcpListener;
  cl_name_hash : NameHash;
  cl_our_uid : UID;
  cl_timeout_sec : option Z;
  cl_accept_bootstrap : bool
}.

(** ** [config_refresher.rs] *)

Record ConfigRefresher := mkConfigRefresher {
  rf_token : Token;
  rf_timer : CoreTimer;
  rf_timeout : Timeout
}.

(** ** [bootstrap/try_peer.rs]; [finish] calls [Bootstrap::handle_result] of the
    parent. *)

Record TryPeer := mkTryPeer {
  tp_token : Token;
  tp_peer : SocketAddr;
  tp_socket : Socket;
  tp_request : option (Message UID * Priority);
  tp_finish : rc
}.

(** ** [bootstrap/mod.rs]; a [Receiver] is the name of its channel. *)

Record ServiceDiscMeta := mkServiceDiscMeta { sd_rx : nat; sd_timeout : Timeout }.

Record Bootstrap := mkBootstrap {
  bs_token : Token;
  bs_peers : list SocketAddr;
  bs_blacklist : gset SocketAddr;
  bs_name_hash : NameHash;
  bs_ext_reachability : ExternalReachability;
  bs_our_uid : UID;
  bs_sd_meta : option ServiceDiscMeta;
  bs_timer : CoreTimer;
  bs_timeout : Timeout;
  bs_cache : FileHandler;
  bs_children : gset Token;
  bs_self_weak : rc
}.

(** ** [service_discovery/mod.rs]; a [Sender] is the name of its channel. *)

Record ServiceDiscovery := mkServiceDiscovery {
  sd_token : Token;
  sd_socket : UdpSocket;
  sd_remote_addr : SocketAddr;
  sd_listen : bool;
  sd_seek_peers_req : list byte;
  sd_reply_to : list SocketAddr;
  sd_observers : list nat;
  sd_guid : Z
}.

(** ** [nat/mapped_tcp_socket/get_ext_addr.rs]; [finish] calls
    [MappedTcpSocket::handle_stun_resp] of the parent. *)

Record GetExtAddr := mkGetExtAddr {
  ge_token : Token;
  ge_socket : Socket;
  ge_request : option (Message UID * Priority);
  ge_finish : rc
}.

(** ** [nat/mapped_tcp_socket/mod.rs]; the closures it is started with, by what
    they capture: that of [ConnectionListener::start] and that of
    [Service::prepare_connection_info]. *)

Inductive MappedFinish :=
| MapListener (timeout_sec : option Z) (port : Z) (force_include_port : bool) (our_uid : UID)
    (name_hash : NameHash) (token : Token)
| MapConnectionInfo (result_token : Z) (our_uid : UID) (our_listeners : list SocketAddr).

Record MappedTcpSocket := mkMappedTcpSocket {
  mt_token : Token;
  mt_socket : option TcpBuilder;
  mt_igd_children : Z;
  mt_stun_children : gset Token;
  mt_mapped_addrs : list SocketAddr;
  mt_timeout : Timeout;
  mt_finish : option MappedFinish
}.

(** A thread started to ask a gateway. *)
Record IgdThread := mkIgdThread {
  igd_token : Token; igd_gateway : Gateway; igd_ip : Ipv4Addr; igd_port : Z
}.

(** ** [dyn State] *)

Inductive StateObj :=
| StActive (s : ActiveConnection)
| StCandidate (s : ConnectionCandidate)
| StConnectExchange (s : ConnectExchange)
| StConnect (s : ConnectState)
| StListenerExchange (s : ListenerExchange)
| StCheckReachability (s : CheckReachability)
| StListener (s : ConnectionListener)
| StRefresher (s : ConfigRefresher)
| StTryPeer (s : TryPeer)
| StBootstrap (s : Bootstrap)
| StServiceDiscovery (s : ServiceDiscovery)
| StGetExtAddr (s : GetExtAddr)
| StMapped (s : MappedTcpSocket).

Definition state_token (o : StateObj) : Token :=
  match o with
  | StActive s => ac_token s
  | StCandidate s => cc_token s
  | StConnectExchange s => ce_token s
  | StConnect s => cn_token s
  | StListenerExchange s => le_token s
  | StCheckReachability s => cr_token s
  | StListener s => cl_token s
  | StRefresher s => rf_token s
  | StTryPeer s => tp_token s
  | StBootstrap s => bs_token s
  | StServiceDiscovery s => sd_token s
  | StGetExtAddr s => ge_token s
  | StMapped s => mt_token s
  end.

End States.

Arguments ActiveConnection {ENV} UID.
Arguments CandidateFinish UID : clear implicits.
Arguments ConnectionCandidate {ENV} UID.
Arguments ConnectExchange {ENV} UID.
Arguments ConnectState {ENV} UID.
Arguments NextState UID : clear implicits.
Arguments ListenerExchange {ENV} UID.
Arguments CheckReachability {ENV} UID.
Arguments ConnectionListener {ENV} UID.
Arguments TryPeer {ENV} UID.
Arguments Bootstrap {ENV} UID.
Arguments GetExtAddr {ENV} UID.
Arguments MappedFinish UID : clear implicits.
Arguments MappedTcpSocket {ENV} UID.
Arguments StateObj {ENV} UID.

(** A [RefCell]'s borrow flag, when it is borrowed. *)
Inductive borrow := Writing | Reading.

Section World.
Context {ENV : Env} {UID : Type} `{!Uid UID}.

Record World := mkWorld {
  w_net : net;
  w_heap : gmap rc (StateObj UID);
  w_borrows : gmap rc borrow;
  w_next_rc : rc;
  (** [Core] *)
  w_token_counter : Z;
  w_states : gmap Token rc;
  (** shared by the state machines of a service *)
  w_cm : gmap UID ConnectionId;
  w_config : ConfigWrapper;
  w_listeners : list SocketAddr;
  w_events : list (Event UID TcpBuilder);
  (** the channels to the observers of service discovery whose receiver is
      still there, with what was sent and not received *)
  w_channels : gmap nat (list (list SocketAddr));
  w_next_channel : nat;
  (** the threads that ask gateways *)
  w_threads : list IgdThread
}.

Definition set_net x w := mkWorld x (w_heap w) (w_borrows w) (w_next_rc w) (w_token_counter w)
  (w_states w) (w_cm w) (w_config w) (w_listeners w) (w_events w) (w_channels w)
  (w_next_channel w) (w_threads w).
Definition set_heap x w := mkWorld (w_net w) x (w_borrows w) (w_next_rc w) (w_token_counter w)
  (w_states w) (w_cm w) (w_config w) (w_listeners w) (w_events w) (w_channels w)
  (w_next_channel w) (w_threads w).
Definition set_borrows x w := mkWorld (w_net w) (w_heap w) x (w_next_rc w) (w_token_counter w)
  (w_states w) (w_cm w) (w_config w) (w_listeners w) (w_events w) (w_channels w)
  (w_next_channel w) (w_threads w).
Definition set_next_rc x w := mkWorld (w_net w) (w_heap w) (w_borrows w) x (w_token_counter w)
  (w_states w) (w_cm w) (w_config w) (w_listeners w) (w_events w) (w_channels w)
  (w_next_channel w) (w_threads w).
Definition set_token_counter x w := mkWorld (w_net w) (w_heap w) (w_borrows w) (w_next_rc w) x
  (w_states w) (w_cm w) (w_config w) (w_listeners w) (w_events w) (w_channels w)
  (w_next_channel w) (w_threads w).
Definition set_states x w := mkWorld (w_net w) (w_heap w) (w_borrows w) (w_next_rc w)
  (w_token_counter w) x (w_cm w) (w_config w) (w_listeners w) (w_events w) (w_channels w)
  (w_next_channel w) (w_threads w).
Definition set_cm x w := mkWorld (w_net w) (w_heap w) (w_borrows w) (w_next_rc w)
  (w_token_counter w) (w_states w) x (w_config w) (w_listeners w) (w_events w) (w_channels w)
  (w_next_channel w) (w_threads w).
Definition set_config x w := mkWorld (w_net w) (w_heap w) (w_borrows w) (w_next_rc w)
  (w_token_counter w) (w_states w) (w_cm w) x (w_listeners w) (w_events w) (w_channels w)
  (w_next_channel w) (w_threads w).
Definition set_listeners x w := mkWorld (w_net w) (w_heap w) (w_borrows w) (w_next_rc w)
  (w_token_counter w) (w_states w) (w_cm w) (w_config w) x (w_events w) (w_channels w)
  (w_next_channel w) (w_threads w).
Definition set_events x w := mkWorld (w_net w) (w_heap w) (w_borrows w) (w_next_rc w)
  (w_token_counter w) (w_states w) (w_cm w) (w_config w) (w_listeners w) x (w_channels w)
  (w_next_channel w) (w_threads w).
Definition set_channels x w := mkWorld (w_net w) (w_heap w) (w_borrows w) (w_next_rc w)
  (w_token_counter w) (w_states w) (w_cm w) (w_config w) (w_listeners w) (w_events w) x
  (w_next_channel w) (w_threads w).
Definition set_next_channel x w := mkWorld (w_net w) (w_heap w) (w_borrows w) (w_next_rc w)
  (w_token_counter w) (w_states w) (w_cm w) (w_config w) (w_listeners w) (w_events w)
  (w_channels w) x (w_threads w).
Definition set_threads x w := mkWorld (w_net w) (w_heap w) (w_borrows w) (w_next_rc w)
  (w_token_counter w) (w_states w) (w_cm w) (w_config w) (w_listeners w) (w_events w)
  (w_channels w) (w_next_channel w) x.

(** ** Effects *)

Definition io {A} (m : M net A) : M World A := zoom w_net set_net m.
Definition with_cm {A} (m : M (gmap UID ConnectionId) A) : M World A := zoom w_cm set_cm m.

(** [event_tx.send(e)]. *)
Definition send_event (e : Event UID TcpBuilder) : M World unit :=
  modify (λ w, set_events (w_events w ++ [e]) w).

(** ** [Rc] and [RefCell] *)

(** [Rc::new(RefCell::new(o))]. *)
Definition rc_new (o : StateObj UID) : M World rc := λ w,
  let r := w_next_rc w in
  Done r (set_next_rc (S r) (set_heap (<[r := o]> (w_heap w)) w)).

(** What a pointer points to. *)
Definition deref (cell : option (StateObj UID)) : M World (StateObj UID) :=
  match cell with Some o => mret o | None => throw IllTyped end.

(** [r.borrow_mut()] for the duration of [f]. *)
Definition with_borrow_mut (r : rc) (f : StateObj UID → M World (StateObj UID)) : M World unit :=
  b ← gets (λ w, w_borrows w !! r);
  match b with
  | Some _ => throw BorrowError
  | None =>
      modify (λ w, set_borrows (<[r := Writing]> (w_borrows w)) w) ;;
      cell ← gets (λ w, w_heap w !! r);
      o ← deref cell;
      o' ← f o;
      modify (λ w, set_borrows (delete r (w_borrows w)) (set_heap (<[r := o']> (w_heap w)) w))
  end.

(** [r.borrow_mut()] for the duration of [f], which only looks at the state. *)
Definition with_borrow_mut_ref {A} (r : rc) (f : StateObj UID → M World A) : M World A :=
  b ← gets (λ w, w_borrows w !! r);
  match b with
  | Some _ => throw BorrowError
  | None =>
      modify (λ w, set_borrows (<[r := Writing]> (w_borrows w)) w) ;;
      cell ← gets (λ w, w_heap w !! r);
      o ← deref cell;
      a ← f o;
      modify (λ w, set_borrows (delete r (w_borrows w)) w) ;;
      mret a
  end.

(** [r.borrow()] for the duration of [f], which is given what it borrows. *)
Definition with_borrow {A} (r : rc) (f : StateObj UID → M World A) : M World A :=
  b ← gets (λ w, w_borrows w !! r);
  match b with
  | Some Writing => throw BorrowError
  | _ =>
      modify (λ w, set_borrows (<[r := Reading]> (w_borrows w)) w) ;;
      cell ← gets (λ w, w_heap w !! r);
      o ← deref cell;
      a ← f o;
      modify (λ w, set_borrows (partial_alter (λ _, b) r (w_borrows w)) w) ;;
      mret a
  end.

(** [weak.upgrade()]: a state is kept alive by its entry in [Core::states], and by
    the handler that is running on it (which has it borrowed). *)
Definition upgrade (r : rc) : M World bool :=
  gets (λ w, bool_decide (r ∈ (map_to_list (w_states w)).*2) ||
             bool_decide (is_Some (w_borrows w !! r))).

(** ** [Core] *)

(** [Core::new], with the rest of a service that has just been made. *)
Definition Core_new (token_counter_start : Token) (n : net) (c : ConfigWrapper) : World :=
  mkWorld n ∅ ∅ 0%nat token_counter_start ∅ ∅ c [] [] ∅ 0%nat [].

Definition get_new_token : M World Token :=
  token ← gets w_token_counter;
  next ← usize_succ overflow_checks token;
  modify (set_token_counter next) ;;
  mret token.

Definition insert_state (token : Token) (r : rc) : M World unit :=
  modify (λ w, set_states (<[token := r]> (w_states w)) w).

Definition remove_state (token : Token) : M World unit :=
  modify (λ w, set_states (delete token (w_states w)) w).

Definition get_state (token : Token) : M World (option rc) :=
  gets (λ w, w_states w !! token).

Definition set_timeout (interval_ms : Z) (t : CoreTimer) : M World (result Timeout CommonError) :=
  r ← io (call (timer_set_timeout interval_ms t));
  mret (map_err (λ _, CommonTimer) r).

Definition cancel_timeout (t : Timeout) : M World (option CoreTimer) :=
  io (call (timer_cancel_timeout t)).

(** ** Lemmas: the frame of each effect *)

Lemma io_done {A} (m : M net A) w a n :
  m (w_net w) = Done a n → io m w = Done a (set_net n w).
Proof. intros H. unfold io, zoom. by rewrite H. Qed.

Lemma set_net_id w : set_net (w_net w) w = w.
Proof. by destruct w. Qed.

Lemma set_cm_id w : set_cm (w_cm w) w = w.
Proof. by destruct w. Qed.

Lemma with_cm_done {A} (m : M (gmap UID ConnectionId) A) w a cm :
  m (w_cm w) = Done a cm → with_cm m w = Done a (set_cm cm w).
Proof. intros H. unfold with_cm, zoom. by rewrite H. Qed.

Lemma set_heap_id w : set_heap (w_heap w) w = w.
Proof. by destruct w. Qed.

Lemma set_borrows_id w : set_borrows (w_borrows w) w = w.
Proof. by destruct w. Qed.

(** [with_borrow_mut] on an unborrowed cell. *)
Lemma with_borrow_mut_done r f w o o' w' :
  w_borrows w !! r = None → w_heap w !! r = Some o →
  f o (set_borrows (<[r := Writing]> (w_borrows w)) w) = Done o' w' →
  with_borrow_mut r f w =
  Done tt (set_borrows (delete r (w_borrows w')) (set_heap (<[r := o']> (w_heap w')) w')).
Proof.
  intros Hb Hh Hf. unfold with_borrow_mut, mbind, M_bind, gets, modify. rewrite Hb. cbn.
  rewrite Hh. cbn. by rewrite Hf.
Qed.

Lemma with_borrow_mut_run r f w o :
  w_borrows w !! r = None → w_heap w !! r = Some o →
  with_borrow_mut r f w =
  match f o (set_borrows (<[r := Writing]> (w_borrows w)) w) with
  | Done o' w' => Done tt (set_borrows (delete r (w_borrows w')) (set_heap (<[r := o']> (w_heap w')) w'))
  | Panicked e => Panicked e
  | Diverged => Diverged
  end.
Proof.
  intros Hb Hh. unfold with_borrow_mut, mbind, M_bind, gets, modify. rewrite Hb. cbn.
  by rewrite Hh.
Qed.

(** A handler that leaves its state as it was, and the other states alone. *)
Lemma with_borrow_mut_same r f w o w' :
  w_borrows w !! r = None → w_heap w !! r = Some o →
  f o (set_borrows (<[r := Writing]> (w_borrows w)) w) =
    Done o (set_borrows (<[r := Writing]> (w_borrows w)) w') →
  w_heap w' = w_heap w → w_borrows w' = w_borrows w →
  with_borrow_mut r f w = Done tt w'.
Proof.
  intros Hb Hh Hf Hh' Hb'. rewrite (with_borrow_mut_done _ _ _ _ _ _ Hb Hh Hf). f_equal.
  cbn. rewrite Hh', (insert_id (w_heap w) r o), delete_insert_id by done.
  rewrite <- Hh', <- Hb'. by destruct w'.
Qed.

(** [with_borrow] on an unborrowed cell, to look at it. *)
Lemma with_borrow_look {A} r (f : StateObj UID → M World A) w o a :
  w_borrows w !! r = None → w_heap w !! r = Some o → (∀ w, f o w = Done a w) →
  with_borrow r f w = Done a w.
Proof.
  intros Hb Hh Hf. unfold with_borrow, mbind, M_bind, gets, modify. rewrite Hb. cbn.
  rewrite Hh. cbn. rewrite Hf. cbn. f_equal. destruct w; cbn in *. unfold set_borrows. cbn. f_equal.
  apply map_eq. intros r'. destruct (decide (r' = r)) as [->|].
  - by rewrite lookup_partial_alter_eq.
  - by rewrite lookup_partial_alter_ne, lookup_insert_ne by done.
Qed.

Lemma wp_with_borrow_mut p d r f Q w o :
  w_borrows w !! r = None → w_heap w !! r = Some o →
  wp p d (f o) (λ o' w', Q tt (set_borrows (delete r (w_borrows w'))
                               (set_heap (<[r := o']> (w_heap w')) w')))
     (set_borrows (<[r := Writing]> (w_borrows w)) w) →
  wp p d (with_borrow_mut r f) Q w.
Proof.
  intros Hb Hh Hf. unfold with_borrow_mut. wp_go. rewrite Hb. wp_go. cbn. rewrite Hh. cbn [deref]. wp_go.
  eapply wp_mono; [exact Hf|]. intros o' w' HQ. wp_go. exact HQ.
Qed.

End World.

Arguments World {ENV} UID {Uid0}.
