(* ===== verification/Traces.v ===== *)
(** What the user of a service is told, in which order: the events that announce
    a peer, those that presuppose one, and when a history of events is
    justified. *)

From stdpp Require Import base tactics list.
From Stdlib Require Import ZArith Lia.
From S2P Require Import Prelude Types Env.

Section Traces.
Context {ENV : Env} {UID : Type}.
Abbreviation history := (list (Event UID TcpBuilder)).
Implicit Types (ev : Event UID TcpBuilder) (evs : list (Event UID TcpBuilder)) (u : UID) (k : CrustUser).

(** The event tells the user that the peer [u], of kind [k], is connected. The
    peers we connected to ourselves are nodes. *)
Definition announces ev u k : Prop :=
  match ev with
  | BootstrapAccept v k' => v = u ∧ k' = k
  | BootstrapConnect v _ => v = u ∧ k = Node
  | ConnectSuccess v => v = u ∧ k = Node
  | _ => False
  end.

Definition announced evs u k : Prop := ∃ ev, ev ∈ evs ∧ announces ev u k.

(** The timer has room for every timer that is set. *)
Definition timers_succeed : Prop :=
  ∀ i ct (n : net), ∃ tm, (timer_set_timeout i ct n).1 = Ok tm.

(** What may come after the history [evs]: a message from a peer that was
    announced with the kind it is given, and the loss of a peer that was
    announced, unless the timer was full when the connection began. The event
    [WriteMsgSizeProhibitive] may never come. *)
Definition allowed evs ev : Prop :=
  match ev with
  | NewMessage u k _ => announced evs u k
  | LostPeer u => timers_succeed → ∃ k, announced evs u k
  | WriteMsgSizeProhibitive _ _ => False
  | _ => True
  end.

Definition justified evs : Prop := ∀ i ev, evs !! i = Some ev → allowed (take i evs) ev.

Lemma announced_prefix evs evs' u k : evs `prefix_of` evs' → announced evs u k → announced evs' u k.
Proof. intros Hp (ev & Hev & Ha). exists ev. split; [|done]. by eapply elem_of_prefix. Qed.

Lemma announced_snoc evs ev u k : announces ev u k → announced (evs ++ [ev]) u k.
Proof. intros Ha. exists ev. split; [|done]. apply elem_of_app. right. by apply list_elem_of_singleton. Qed.

Lemma allowed_prefix evs evs' ev : evs `prefix_of` evs' → allowed evs ev → allowed evs' ev.
Proof.
  intros Hp. destruct ev; cbn; try done; [|by apply announced_prefix].
  intros Ha Ht. destruct (Ha Ht) as [k Hk]. exists k. by eapply announced_prefix.
Qed.

Lemma announces_allowed evs ev u k : announces ev u k → allowed evs ev.
Proof. by destruct ev. Qed.

Lemma justified_nil : justified [].
Proof. by intros i ev. Qed.

Lemma justified_snoc evs ev : justified evs → allowed evs ev → justified (evs ++ [ev]).
Proof.
  intros Hj Ha i e [Hi|[Hi He]]%lookup_app_Some.
  - rewrite take_app_le by (apply lookup_lt_Some in Hi; lia). by apply Hj.
  - assert (i = length evs) as ->.
    { apply list_lookup_singleton_Some in He. lia. }
    rewrite Nat.sub_diag in He. injection He as <-. by rewrite take_app_length.
Qed.

(** A history that is justified, cut anywhere. *)
Lemma justified_split evs l ev r : justified evs → evs = l ++ ev :: r → allowed l ev.
Proof.
  intros Hj ->. specialize (Hj (length l) ev). rewrite list_lookup_middle in Hj by done.
  rewrite take_app_length in Hj. by apply Hj.
Qed.

End Traces.
