(* ===== verification/ActiveConnection.v ===== *)
(** [src/src/main/active_connection.rs]: an established connection, its
    heartbeat, and how it delivers data and goes away. *)

From stdpp Require Import base tactics list gmap.
From Stdlib Require Import ZArith Lia.
From S2P Require Import Prelude Types Env Socket ConnMap World.

Definition INACTIVITY_TIMEOUT_MS : Z := 120000.
Definition HEARTBEAT_PERIOD_MS : Z := 20000.

Inductive HeartbeatAction := HeartbeatSend | HeartbeatTerminate.

Section ActiveConnection.
Context {ENV : Env} {UID : Type} `{!Uid UID, !Codec (Message UID)}.
Abbreviation MW := (M (World UID)).
Implicit Types (self : ActiveConnection UID).

(** ** [Heartbeat] *)

Definition Heartbeat_new (state_id : Token) : MW (result HeartbeatTimers CrustError) :=
  let recv_timer := mkCoreTimer state_id 0 in
  r ← set_timeout INACTIVITY_TIMEOUT_MS recv_timer;
  match r with
  | Err e => mret (Err (Common e))
  | Ok recv_timeout =>
      let send_timer := mkCoreTimer state_id 1 in
      r ← set_timeout HEARTBEAT_PERIOD_MS send_timer;
      match r with
      | Err e => mret (Err (Common e))
      | Ok send_timeout =>
          mret (Ok (mkHeartbeatTimers recv_timeout recv_timer send_timeout send_timer))
      end
  end.

Definition Heartbeat_timeout (h : HeartbeatTimers) (timer_id : Z) :
  MW (HeartbeatAction * HeartbeatTimers) :=
  if timer_id =? Types.timer_id (recv_timer h) then mret (HeartbeatTerminate, h)
  else
    r ← set_timeout HEARTBEAT_PERIOD_MS (send_timer h);
    match r with
    | Ok t =>
        mret (HeartbeatSend,
              mkHeartbeatTimers (recv_timeout h) (recv_timer h) t (send_timer h))
    | Err _ => mret (HeartbeatTerminate, h)
    end.

Definition Heartbeat_reset_receive (h : HeartbeatTimers) :
  MW (result unit CrustError * HeartbeatTimers) :=
  _ ← cancel_timeout (recv_timeout h);
  r ← set_timeout INACTIVITY_TIMEOUT_MS (recv_timer h);
  match r with
  | Ok t => mret (Ok tt, mkHeartbeatTimers t (recv_timer h) (send_timeout h) (send_timer h))
  | Err e => mret (Err (Common e), h)
  end.

Definition Heartbeat_reset_send (h : HeartbeatTimers) :
  MW (result unit CrustError * HeartbeatTimers) :=
  _ ← cancel_timeout (send_timeout h);
  r ← set_timeout HEARTBEAT_PERIOD_MS (send_timer h);
  match r with
  | Ok t => mret (Ok tt, mkHeartbeatTimers (recv_timeout h) (recv_timer h) t (send_timer h))
  | Err e => mret (Err (Common e), h)
  end.

Definition Heartbeat_terminate (h : HeartbeatTimers) : MW unit :=
  _ ← cancel_timeout (recv_timeout h);
  _ ← cancel_timeout (send_timeout h);
  mret tt.

(** ** [ActiveConnection] *)

Definition ac_set_socket (s : Socket) (self : ActiveConnection UID) : ActiveConnection UID :=
  mkActiveConnection (ac_token self) s (ac_our_id self) (ac_their_id self)
    (ac_their_role self) (ac_heartbeat self).
Definition ac_set_heartbeat (h : HeartbeatTimers) (self : ActiveConnection UID) :
  ActiveConnection UID :=
  mkActiveConnection (ac_token self) (ac_socket self) (ac_our_id self) (ac_their_id self)
    (ac_their_role self) h.

Definition ActiveConnection_terminate (self : ActiveConnection UID) : MW unit :=
  Heartbeat_terminate (ac_heartbeat self) ;;
  _ ← io (Socket_deregister (ac_socket self));
  remove_state (ac_token self) ;;
  with_cm (cm_deactivate (ac_their_id self)) ;;
  send_event (LostPeer (ac_their_id self)).

Definition reset_receive_heartbeat (self : ActiveConnection UID) : MW (ActiveConnection UID) :=
  '(r, h) ← Heartbeat_reset_receive (ac_heartbeat self);
  let self := ac_set_heartbeat h self in
  match r with
  | Ok _ => mret self
  | Err _ => ActiveConnection_terminate self ;; mret self
  end.

Definition reset_send_heartbeat (self : ActiveConnection UID) : MW (ActiveConnection UID) :=
  '(r, h) ← Heartbeat_reset_send (ac_heartbeat self);
  let self := ac_set_heartbeat h self in
  match r with
  | Ok _ => mret self
  | Err _ => ActiveConnection_terminate self ;; mret self
  end.

Fixpoint ActiveConnection_read (fuel : nat) (self : ActiveConnection UID) :
  MW (ActiveConnection UID) :=
  match fuel with
  | O => diverge
  | S fuel =>
      '(r, s) ← io (Socket_read (T:=Message UID) (ac_socket self));
      let self := ac_set_socket s self in
      match r with
      | Ok (Some (Data data)) =>
          send_event (NewMessage (ac_their_id self) (ac_their_role self) data) ;;
          self ← reset_receive_heartbeat self;
          ActiveConnection_read fuel self
      | Ok (Some Heartbeat) =>
          self ← reset_receive_heartbeat self;
          ActiveConnection_read fuel self
      | Ok (Some _) =>
          self ← reset_receive_heartbeat self;
          ActiveConnection_read fuel self
      | Ok None => mret self
      | Err _ => ActiveConnection_terminate self ;; mret self
      end
  end.

(** The inherent [write]. *)
Definition ActiveConnection_write_msg (self : ActiveConnection UID)
  (msg : option (Message UID * Priority)) : MW (ActiveConnection UID) :=
  '(r, s) ← io (Socket_write (ac_socket self) (ac_token self) msg);
  let self := ac_set_socket s self in
  match r with
  | Ok _ => mret self
  | Err _ => ActiveConnection_terminate self ;; mret self
  end.

Definition ActiveConnection_peer_addr (self : ActiveConnection UID) :
  MW (result SocketAddr CrustError) :=
  r ← io (Socket_peer_addr (ac_socket self)); mret (map_err Common r).

Definition ActiveConnection_peer_kind (self : ActiveConnection UID) : CrustUser :=
  ac_their_role self.

(** ** [impl State for ActiveConnection] *)

Definition ActiveConnection_ready (self : ActiveConnection UID) (kind : Ready) :
  MW (ActiveConnection UID) :=
  if is_error kind || is_hup kind
  then ActiveConnection_terminate self ;; mret self
  else
    self ← (if is_writable kind then ActiveConnection_write_msg self None else mret self);
    if is_readable kind then ActiveConnection_read loop_fuel self else mret self.

Definition ActiveConnection_write (self : ActiveConnection UID) (data : list byte)
  (priority : Priority) : MW (ActiveConnection UID) :=
  self ← ActiveConnection_write_msg self (Some (Data data, priority));
  reset_send_heartbeat self.

Definition ActiveConnection_timeout (self : ActiveConnection UID) (timer_id : Z) :
  MW (ActiveConnection UID) :=
  '(action, h) ← Heartbeat_timeout (ac_heartbeat self) timer_id;
  let self := ac_set_heartbeat h self in
  match action with
  | HeartbeatSend => ActiveConnection_write_msg self (Some (Heartbeat, 0))
  | HeartbeatTerminate => ActiveConnection_terminate self ;; mret self
  end.

Definition as_active (f : ActiveConnection UID → MW (ActiveConnection UID)) (o : StateObj UID) :
  MW (StateObj UID) :=
  match o with
  | StActive self => self' ← f self; mret (StActive self')
  | _ => throw IllTyped
  end.

Definition ActiveConnection_start (token : Token) (socket : Socket) (our_id their_id : UID)
  (their_role : CrustUser) (event : Event UID TcpBuilder) : MW unit :=
  h ← Heartbeat_new token;
  match h with
  | Err _ =>
      _ ← io (Socket_deregister socket);
      send_event (LostPeer their_id)
  | Ok heartbeat =>
      state ← rc_new (StActive (mkActiveConnection token socket our_id their_id their_role
                                  heartbeat));
      insert_state token state ;;
      with_borrow_mut state (as_active (λ self,
        with_cm (cm_activate their_id token) ;;
        send_event event ;;
        ActiveConnection_read loop_fuel self))
  end.

(** ** Lemmas *)

(** The timer has room for every timer set, and setting and cancelling timers
    does not change what the sockets will deliver. *)
Definition same_streams (n n' : net) : Prop :=
  ∀ st cs n1, delivers st n cs n1 → ∃ n2, delivers st n' cs n2.

Class TimerLaws : Prop := {
  set_timeout_succeeds : ∀ i ct n, ∃ tm n',
    timer_set_timeout i ct n = (Ok tm, n') ∧ same_streams n n';
  cancel_timeout_frame : ∀ tm n, same_streams n (timer_cancel_timeout tm n).2
}.

(** Deregistering a socket does not change what the sockets will deliver. *)
Class PollLaws : Prop := {
  deregister_frame : ∀ ev n, same_streams n (poll_deregister ev n).2
}.

#[export] Instance same_streams_preorder : PreOrder same_streams.
Proof.
  split.
  - intros n st cs n1 Hd. by exists n1.
  - intros n1 n2 n3 H12 H23 st cs n' Hd. destruct (H12 st cs n' Hd) as [n'' Hd'].
    exact (H23 st cs n'' Hd').
Qed.

Lemma cancel_timeout_done tm (w : World UID) :
  cancel_timeout tm w =
  Done (timer_cancel_timeout tm (w_net w)).1 (set_net (timer_cancel_timeout tm (w_net w)).2 w).
Proof.
  unfold cancel_timeout, io, zoom, call. by destruct (timer_cancel_timeout tm (w_net w)).
Qed.

Lemma set_timeout_done i ct (w : World UID) :
  set_timeout i ct w =
  Done (map_err (λ _, CommonTimer) (timer_set_timeout i ct (w_net w)).1)
       (set_net (timer_set_timeout i ct (w_net w)).2 w).
Proof.
  unfold set_timeout, mbind, M_bind, io, zoom, call.
  by destruct (timer_set_timeout i ct (w_net w)).
Qed.

Lemma deregister_done s (w : World UID) :
  ∃ r n, io (Socket_deregister s) w = Done r (set_net n w) ∧
         (PollLaws → same_streams (w_net w) n).
Proof.
  unfold io, zoom, Socket_deregister. destruct s as [inner|]; unfold call; cbn.
  - pose proof (λ L : PollLaws, deregister_frame (EvStream (stream inner)) (w_net w)) as Hf.
    destruct (poll_deregister (EvStream (stream inner)) (w_net w)) as [r n]. by exists r, n.
  - by eexists _, _.
Qed.

Lemma register_done s token interest (w : World UID) :
  ∃ r n, io (Socket_register s token interest) w = Done r (set_net n w).
Proof.
  unfold io, zoom, Socket_register. destruct s as [inner|]; unfold call; cbn.
  - destruct (poll_register (EvStream (stream inner)) token interest (w_net w)) as [r n].
    by exists r, n.
  - by eexists _, _.
Qed.

(** Terminating a connection always completes; what it does to the world. *)
Lemma terminate_done self w :
  ∃ n, ActiveConnection_terminate self w =
       Done tt (set_events (w_events w ++ [LostPeer (ac_their_id self)])
                 (set_cm (deactivated (ac_their_id self) (w_cm w))
                   (set_states (delete (ac_token self) (w_states w)) (set_net n w)))).
Proof.
  unfold ActiveConnection_terminate, Heartbeat_terminate, mbind, M_bind.
  rewrite cancel_timeout_done, cancel_timeout_done.
  destruct (deregister_done (ac_socket self)
    (set_net (timer_cancel_timeout (send_timeout (ac_heartbeat self))
       (w_net (set_net (timer_cancel_timeout (recv_timeout (ac_heartbeat self)) (w_net w)).2 w))).2
       (set_net (timer_cancel_timeout (recv_timeout (ac_heartbeat self)) (w_net w)).2 w)))
    as (r & n & Hd & _). cbn [mret M_ret]. rewrite Hd.
  unfold remove_state, modify, send_event. cbn. unfold with_cm, zoom. cbn.
  rewrite cm_deactivate_done. cbn. by exists n.
Qed.

(** With room in the timer, resetting the heartbeat only touches the timers. *)
Lemma reset_receive_done `{!TimerLaws} self w :
  ∃ h n, reset_receive_heartbeat self w = Done (ac_set_heartbeat h self) (set_net n w) ∧
         same_streams (w_net w) n.
Proof.
  unfold reset_receive_heartbeat, Heartbeat_reset_receive, mbind, M_bind.
  rewrite cancel_timeout_done, set_timeout_done. cbn [w_net set_net].
  set (n1 := (timer_cancel_timeout _ _).2).
  destruct (set_timeout_succeeds INACTIVITY_TIMEOUT_MS (recv_timer (ac_heartbeat self)) n1)
    as (tm & n2 & Hs & Hf). rewrite Hs. cbn.
  eexists _, n2. split; [done|]. intros st cs n3 Hd.
  destruct (cancel_timeout_frame (recv_timeout (ac_heartbeat self)) (w_net w) st cs n3 Hd)
    as [n4 Hd']. by apply (Hf st cs n4).
Qed.

(** The events a connection sends for the messages it receives. *)
Definition data_events (their_id : UID) (their_role : CrustUser) (ms : list (Message UID)) :
  list (Event UID TcpBuilder) :=
  omap (λ m, match m with
             | Data d => Some (NewMessage their_id their_role d)
             | _ => None
             end) ms.

Lemma read_delivers_gen `{!TimerLaws, !CodecLaws (Message UID)} ms :
  ∀ fs tail fuel self inner (w : World UID) cs n',
  ac_socket self = Some inner → reader_ok inner → Forall2 fits ms fs → incomplete tail →
  delivers (stream inner) (w_net w) cs n' →
  buffered inner ++ concat cs = concat fs ++ tail →
  (length cs < loop_fuel)%nat → (length ms < fuel)%nat →
  ∃ h inner' n'',
    ActiveConnection_read fuel self w =
    Done (ac_set_heartbeat h (ac_set_socket (Some inner') self))
         (set_events (w_events w ++ data_events (ac_their_id self) (ac_their_role self) ms) (set_net n'' w)) ∧
    buffered inner' = tail ∧ reader_ok inner'.
Proof.
  induction ms as [|m ms IH];
    intros fs tail [|fuel] self inner w cs n' Hs Hok Hfs Htail Hd Hb Hcs Hfuel;
    simpl in Hfuel; try lia; cbn [ActiveConnection_read]; unfold mbind, M_bind.
  - apply Forall2_nil_inv_l in Hfs as ->.
    destruct (read_none inner tail (w_net w) cs n') as (s1 & Hr & Hb1 & Hok1 & Hst1); try done.
    unfold io, zoom, Socket_read, mbind, M_bind. rewrite Hs, Hr. cbn.
    exists (ac_heartbeat self), s1, n'. rewrite app_nil_r.
    split; [by destruct self, w|done].
  - apply Forall2_cons_inv_l in Hfs as (f & fs' & Hf & Hfs' & ->). cbn [concat] in Hb.
    rewrite <- app_assoc in Hb.
    destruct (read_next inner m f _ (w_net w) cs n' Hf Hok Hd Hcs Hb)
      as (s1 & n1 & cs1 & Hr & Hok1 & Hst1 & Hd1 & Hb1 & Hle).
    unfold io, zoom, Socket_read, mbind, M_bind. rewrite Hs, Hr. cbn.
    assert (∀ w1 : World UID, w_net w1 = n1 → ∃ h inner' n'',
      (match reset_receive_heartbeat (ac_set_socket (Some s1) self) w1 with
       | Done a w' => ActiveConnection_read fuel a w'
       | Panicked p => Panicked p
       | Diverged => Diverged
       end) = Done (ac_set_heartbeat h (ac_set_socket (Some inner') self))
                   (set_events (w_events w1 ++ data_events (ac_their_id self) (ac_their_role self) ms) (set_net n'' w1)) ∧
      buffered inner' = tail ∧ reader_ok inner') as Hrest.
    { intros w1 Hw1. destruct (reset_receive_done (ac_set_socket (Some s1) self) w1)
        as (h & n2 & -> & Hsame). rewrite Hw1 in Hsame.
      rewrite <- Hst1 in Hd1. destruct (Hsame _ _ _ Hd1) as (n3 & Hd3).
      destruct (IH fs' tail fuel (ac_set_heartbeat h (ac_set_socket (Some s1) self)) s1
        (set_net n2 w1) cs1 n3) as (h' & inner' & n'' & -> & ?); try done; [lia|lia|].
      exists h', inner', n''. done. }
    destruct m; try (destruct (Hrest (set_net n1 w) eq_refl) as (h & inner' & n'' & Hw & ?);
      cbn in Hw; exists h, inner', n''; by rewrite Hw).
    match goal with |- context [NewMessage ?u ?k ?d] =>
      destruct (Hrest (set_events (w_events w ++ [NewMessage u k d]) (set_net n1 w)) eq_refl)
        as (h & inner' & n'' & Hw & ?) end.
    exists h, inner', n''. cbn in Hw. rewrite <- app_assoc in Hw.
    unfold send_event, modify. cbn. by rewrite Hw.
Qed.

(** What a closed connection leaves: the user has been told once, the state is
    gone, no connection to the peer is active, and the handshakes and the other
    peers are untouched. *)
Definition closed (self : ActiveConnection UID) (w w' : World UID) : Prop :=
  w_events w' = w_events w ++ [LostPeer (ac_their_id self)] ∧
  w_states w' = delete (ac_token self) (w_states w) ∧
  cm_active (ac_their_id self) (w_cm w') = None ∧
  (∀ v, v ≠ ac_their_id self → w_cm w' !! v = w_cm w !! v) ∧
  w_heap w' = w_heap w ∧ w_borrows w' = w_borrows w.

Lemma terminate_closed self w :
  ∃ w', ActiveConnection_terminate self w = Done tt w' ∧ closed self w w'.
Proof.
  destruct (terminate_done self w) as (n & ->). eexists. split; [done|].
  unfold closed. cbn. split_and!; try done.
  - apply deactivated_inactive.
  - intros v Hv. by apply deactivated_other.
Qed.

(** A connection that starts on a stream with messages; a peer without an entry
    counts as one with a handshake. *)
Lemma start_delivers `{!TimerLaws, !CodecLaws (Message UID)}
  token inner our_id their_id role ev (w : World UID) ms fs tail cs n' a k :
  reader_ok inner → Forall2 fits ms fs → incomplete tail →
  delivers (stream inner) (w_net w) cs n' →
  buffered inner ++ concat cs = concat fs ++ tail →
  (length cs < loop_fuel)%nat → (length ms < loop_fuel)%nat →
  cm_or_insert their_id (mkConnectionId None 1) (w_cm w) = mkConnectionId a k → 0 < k →
  w_borrows w !! w_next_rc w = None →
  ∃ w' s, ActiveConnection_start token (Some inner) our_id their_id role ev w = Done tt w' ∧
    w_events w' = w_events w ++ [ev] ++ data_events their_id role ms ∧
    w_cm w' = <[their_id := mkConnectionId (Some token) (k - 1)]> (w_cm w) ∧
    w_states w' = <[token := w_next_rc w]> (w_states w) ∧
    w_heap w' !! w_next_rc w = Some (StActive s) ∧ ac_their_id s = their_id ∧
    w_borrows w' = w_borrows w.
Proof.
  intros Hok Hfs Htail Hd Hb Hcs Hms Hcm Hk Hbor.
  unfold ActiveConnection_start, Heartbeat_new, mbind, M_bind.
  rewrite set_timeout_done.
  destruct (set_timeout_succeeds INACTIVITY_TIMEOUT_MS (mkCoreTimer token 0) (w_net w))
    as (t1 & n1 & -> & Hf1). cbn [map_err fst snd].
  rewrite set_timeout_done. cbn [w_net set_net].
  destruct (set_timeout_succeeds HEARTBEAT_PERIOD_MS (mkCoreTimer token 1) n1)
    as (t2 & n2 & -> & Hf2). cbn [map_err fst snd mret M_ret].
  destruct (Hf1 _ _ _ Hd) as (n3 & Hd3). destruct (Hf2 _ _ _ Hd3) as (n4 & Hd4).
  unfold rc_new, insert_state, modify. cbn. unfold with_borrow_mut, mbind, M_bind, gets. cbn.
  rewrite Hbor. cbn. rewrite lookup_insert_eq. cbn. unfold as_active, mbind, M_bind.
  unfold with_cm, zoom, cm_activate, mbind, M_bind, gets, modify. cbn.
  rewrite Hcm. cbn. rewrite usize_pred_pos by done. cbn.
  match goal with |- context [ActiveConnection_read loop_fuel ?s0 ?w0] =>
    destruct (read_delivers_gen ms fs tail loop_fuel s0 inner w0 cs n4)
      as (h & inner' & n'' & -> & ?); try done end.
  cbn. eexists _, _. split; [done|]. cbn. split_and!; try done.
  - by rewrite <- app_assoc.
  - by rewrite lookup_insert_eq.
  - done.
  - rewrite delete_insert_id; [done|]. by rewrite Hbor.
Qed.

(** ** Properties *)

(** C12: an established connection delivers its peer's data. When a connection
    starts on a socket whose stream brings the frames of the messages [ms] in
    any pieces (some possibly buffered during the handshake already), the user
    gets the start event and then exactly the payloads of the [Data] messages
    in [ms], in order, attributed to the peer and its role; the connection is
    registered under its token and is the peer's active connection, its
    handshake no longer counted (the connection map need not have an entry for
    the peer, as when bootstrapping). *)
Theorem active_start_delivers `{!TimerLaws, !CodecLaws (Message UID)}
  token inner our_id their_id role ev (w : World UID) ms fs tail cs n' a k :
  reader_ok inner → Forall2 fits ms fs → incomplete tail →
  delivers (stream inner) (w_net w) cs n' →
  buffered inner ++ concat cs = concat fs ++ tail →
  (length cs < loop_fuel)%nat → (length ms < loop_fuel)%nat →
  cm_or_insert their_id (mkConnectionId None 1) (w_cm w) = mkConnectionId a k → 0 < k →
  w_borrows w !! w_next_rc w = None →
  ∃ w' s, ActiveConnection_start token (Some inner) our_id their_id role ev w = Done tt w' ∧
    w_events w' = w_events w ++ [ev] ++ data_events their_id role ms ∧
    w_cm w' = <[their_id := mkConnectionId (Some token) (k - 1)]> (w_cm w) ∧
    w_states w' = <[token := w_next_rc w]> (w_states w) ∧
    w_heap w' !! w_next_rc w = Some (StActive s) ∧ ac_their_id s = their_id ∧
    w_borrows w' = w_borrows w.
Proof. exact (start_delivers token inner our_id their_id role ev w ms fs tail cs n' a k). Qed.

(** When the timer cannot take the heartbeat's timers, the connection is
    reported lost but its handshake stays counted in the connection map: the
    peer keeps its entry. *)
Theorem active_start_without_heartbeat token socket our_id their_id role ev (w : World UID) n :
  timer_set_timeout INACTIVITY_TIMEOUT_MS (mkCoreTimer token 0) (w_net w) = (Err tt, n) →
  ∃ w', ActiveConnection_start token socket our_id their_id role ev w = Done tt w' ∧
    w_events w' = w_events w ++ [LostPeer their_id] ∧ w_cm w' = w_cm w ∧
    w_states w' = w_states w ∧ w_heap w' = w_heap w.
Proof.
  intros Ht. unfold ActiveConnection_start, Heartbeat_new, mbind, M_bind.
  rewrite set_timeout_done, Ht. cbn.
  destruct (deregister_done socket (set_net n w)) as (r & n' & -> & _). cbn. by eexists.
Qed.

(** C27: a connection closes cleanly. An error or hang-up reported by the poll
    and the firing of the inactivity timer each complete, tell the user once
    that the peer is lost, and remove the connection from the event loop and
    from the connection map, whatever the peer's state was. *)
Theorem active_closes self kind (w : World UID) :
  (is_error kind || is_hup kind = true →
   ∃ w', ActiveConnection_ready self kind w = Done self w' ∧ closed self w w') ∧
  (∃ w', ActiveConnection_timeout self (timer_id (recv_timer (ac_heartbeat self))) w =
         Done self w' ∧ closed self w w').
Proof.
  destruct (terminate_closed self w) as (w' & Ht & Hc).
  split; [intros Hk|]; exists w'; (split; [|done]).
  - unfold ActiveConnection_ready. rewrite Hk. unfold mbind, M_bind. by rewrite Ht.
  - unfold ActiveConnection_timeout, Heartbeat_timeout, mbind, M_bind. rewrite Z.eqb_refl. cbn.
    replace (ac_set_heartbeat _ self) with self by by destruct self. by rewrite Ht.
Qed.

(** A connection on which both the write and the read of one event fail is
    reported lost twice: the handler goes on to read after the failed write has
    closed the connection. *)
Theorem active_lost_twice self kind (w w1 : World UID) e s1 n1 e' s2 n2 :
  kind = mkReady true true false false → (0 < loop_fuel)%nat →
  Socket_write (T:=Message UID) (ac_socket self) (ac_token self) None (w_net w) =
    Done (Err e, s1) n1 →
  ActiveConnection_terminate (ac_set_socket s1 self) (set_net n1 w) = Done tt w1 →
  Socket_read (T:=Message UID) s1 (w_net w1) = Done (Err e', s2) n2 →
  ∃ self' w', ActiveConnection_ready self kind w = Done self' w' ∧
    w_events w' = w_events w ++ [LostPeer (ac_their_id self); LostPeer (ac_their_id self)].
Proof.
  intros -> Hfuel Hw Ht Hr. unfold ActiveConnection_ready. cbn.
  unfold ActiveConnection_write_msg, mbind, M_bind. rewrite (io_done _ _ _ _ Hw). cbn.
  rewrite Ht. cbn.
  destruct loop_fuel as [|fuel]; [lia|]. cbn [ActiveConnection_read]. unfold mbind, M_bind.
  change (ac_socket (ac_set_socket s1 self)) with s1. rewrite (io_done _ _ _ _ Hr). cbn.
  destruct (terminate_done (ac_set_socket s1 self) (set_net n1 w)) as (n2' & Ht').
  rewrite Ht in Ht'. injection Ht' as ->.
  match goal with |- context [ActiveConnection_terminate ?s ?w0] =>
    destruct (terminate_done s w0) as (n3 & ->) end. cbn.
  eexists _, _. split; [done|]. cbn. by rewrite <- app_assoc.
Qed.

End ActiveConnection.

Module ActiveConnectionWitness.

#[local] Instance wenv : Env := Script.env true false.
#[local] Existing Instance Script.msg_codec.
#[local] Existing Instance Script.msg_codec_laws.

#[export] Instance timer_laws : TimerLaws.
Proof.
  split.
  - intros i ct n. exists 0%nat, n. split; [done|]. intros st cs n1 Hd. by exists n1.
  - intros tm n st cs n1 Hd. by exists n1.
Defined.

Definition st0 : @TcpStream wenv := 0%nat.
Definition calm : @net wenv := Script.quiet.
Definition fresh : SockInner := mkSockInner st0 [] 0 [] None.

(** [Data [A]] and [Heartbeat] come in one chunk, then a part of a frame. *)
Definition wire : list byte :=
  [Byte.x02; Byte.x00; Byte.x00; Byte.x00; Byte.x03; Byte.x41;
   Byte.x01; Byte.x00; Byte.x00; Byte.x00; Byte.x00].
Definition net_rx : @net wenv := Script.set_reads [Ok wire] calm.
Definition w0 : World Z :=
  set_cm {[ 7 := mkConnectionId None 1 ]} (Core_new 2 net_rx (ConfigWrapper_new Config_default)).

Lemma active_start_delivers_witness :
  ∃ w' s, ActiveConnection_start 5 (Some fresh) 1 7 Node (ConnectSuccess 7) w0 = Done tt w' ∧
    w_events w' = [ConnectSuccess 7; NewMessage 7 Node [Byte.x41]] ∧
    w_cm w' = <[7 := mkConnectionId (Some 5) 0]> (w_cm w0) ∧
    w_states w' = <[5 := 0%nat]> (w_states w0) ∧
    w_heap w' !! 0%nat = Some (StActive s) ∧ ac_their_id s = 7 ∧ w_borrows w' = ∅.
Proof.
  apply (active_start_delivers 5 fresh 1 7 Node (ConnectSuccess 7) w0 [Data [Byte.x41]; Heartbeat]
    [take 6 wire; drop 6 wire] [] [wire] calm None 1).
  - split; vm_compute; discriminate.
  - repeat constructor; eexists; (split; [reflexivity|]; split; [reflexivity|]);
      vm_compute; discriminate.
  - by left.
  - eapply delivers_cons; [done|reflexivity|]. by eapply (delivers_nil _ _ WouldBlock).
  - reflexivity.
  - vm_compute. lia.
  - vm_compute. lia.
  - reflexivity.
  - lia.
  - reflexivity.
Defined.

Definition hb : @HeartbeatTimers wenv :=
  mkHeartbeatTimers (0%nat : @Timeout wenv) (mkCoreTimer 5 0) (0%nat : @Timeout wenv)
    (mkCoreTimer 5 1).
Definition conn : ActiveConnection Z := mkActiveConnection 5 (Some fresh) 1 7 Node hb.

Lemma active_closes_witness :
  ∃ w', ActiveConnection_ready conn (mkReady true false true false) w0 = Done conn w' ∧
        closed conn w0 w'.
Proof. exact (proj1 (active_closes conn (mkReady true false true false) w0) eq_refl). Defined.

Definition net_broken : @net wenv := Script.set_writes [Err OtherKind] (Script.set_reads [Err OtherKind] calm).
Definition full : SockInner := mkSockInner st0 [] 0 [] (Some [Byte.x41]).
Definition broken : ActiveConnection Z := mkActiveConnection 5 (Some full) 1 7 Node hb.
Definition w1 : World Z := Core_new 2 net_broken (ConfigWrapper_new Config_default).

Lemma active_lost_twice_witness :
  ∃ self' w', ActiveConnection_ready broken (mkReady true true false false) w1 = Done self' w' ∧
    w_events w' = [LostPeer 7; LostPeer 7].
Proof.
  eapply (active_lost_twice broken (mkReady true true false false) w1).
  - reflexivity.
  - vm_compute. lia.
  - vm_compute. reflexivity.
  - vm_compute. reflexivity.
  - vm_compute. reflexivity.
Defined.

Section NoTimers.
#[local] Instance nenv : Env := Script.env true true.

Definition w2 : @World nenv Z _ :=
  Core_new 2 (Script.set_timeouts [Err tt] Script.quiet : @net nenv)
    (ConfigWrapper_new Config_default).

Lemma active_start_without_heartbeat_witness :
  ∃ w', ActiveConnection_start 5 None 1 7 Node (ConnectSuccess 7) w2 = Done tt w' ∧
    w_events w' = [LostPeer 7] ∧ w_cm w' = w_cm w2 ∧ w_states w' = w_states w2 ∧
    w_heap w' = w_heap w2.
Proof.
  eapply (active_start_without_heartbeat 5 None 1 7 Node (ConnectSuccess 7) w2). reflexivity.
Defined.
End NoTimers.

End ActiveConnectionWitness.
