(* ===== verification/Candidate.v ===== *)
(** [src/src/main/connection_candidate.rs]: of the connections two peers have
    opened to each other, the peer with the greater identifier chooses one. *)

From stdpp Require Import base tactics list gmap.
From Stdlib Require Import ZArith Lia.
From S2P Require Import Prelude Types Env Socket ConnMap World ActiveConnection.

Section Candidate.
Context {ENV : Env} {UID : Type} `{!Uid UID, !Codec (Message UID)}.
Abbreviation MW := (M (World UID)).
Implicit Types (self : ConnectionCandidate UID).

Definition cc_set_socket (s : Socket) (self : ConnectionCandidate UID) : ConnectionCandidate UID :=
  mkConnectionCandidate (cc_token self) s (cc_our_id self) (cc_their_id self) (cc_msg self)
    (cc_finish self).
Definition cc_set_msg (m : option (Message UID * Priority)) (self : ConnectionCandidate UID) :
  ConnectionCandidate UID :=
  mkConnectionCandidate (cc_token self) (cc_socket self) (cc_our_id self) (cc_their_id self) m
    (cc_finish self).

Definition ConnectionCandidate_terminate (self : ConnectionCandidate UID) : MW unit :=
  remove_state (cc_token self) ;;
  _ ← io (Socket_deregister (cc_socket self));
  with_cm (cm_leave (cc_their_id self)).

Definition as_candidate {A} (f : ConnectionCandidate UID → MW A) (o : StateObj UID) : MW A :=
  match o with
  | StCandidate self => f self
  | _ => throw IllTyped
  end.

(** The [Ref] made by [state.borrow()] in the scrutinee of the [if let] lives
    until the end of the statement. *)
Definition ConnectionCandidate_start (token : Token) (socket : Socket) (our_id their_id : UID)
  (finish : CandidateFinish UID) : MW (result Token CrustError) :=
  state ← rc_new (StCandidate (mkConnectionCandidate token socket our_id their_id
                                 (Some (ChooseConnection, 0)) finish));
  insert_state token state ;;
  with_borrow state (as_candidate (λ self,
    r ← io (Socket_reregister (cc_socket self) token ready_write);
    match r with
    | Err e =>
        with_borrow_mut state (as_candidate (λ self,
          ConnectionCandidate_terminate self ;; mret (StCandidate self))) ;;
        mret (Err (CrustIo e))
    | Ok _ => mret (Ok token)
    end)).

(** [finish] runs the closure of [Connect] or of the listener's [ExchangeMsg]. *)
Section Finish.
Variable finish : CandidateFinish UID → Token → option Socket → MW unit.

Definition ConnectionCandidate_done (self : ConnectionCandidate UID) :
  MW (ConnectionCandidate UID) :=
  remove_state (cc_token self) ;;
  let socket := cc_socket self in
  let self := cc_set_socket Socket_default self in
  finish (cc_finish self) (cc_token self) (Some socket) ;;
  mret self.

Definition ConnectionCandidate_handle_error (self : ConnectionCandidate UID) :
  MW (ConnectionCandidate UID) :=
  ConnectionCandidate_terminate self ;;
  finish (cc_finish self) (cc_token self) None ;;
  mret self.

Definition ConnectionCandidate_read (self : ConnectionCandidate UID) :
  MW (ConnectionCandidate UID) :=
  '(r, s) ← io (Socket_read (T:=Message UID) (cc_socket self));
  let self := cc_set_socket s self in
  match r with
  | Ok (Some ChooseConnection) => ConnectionCandidate_done self
  | Ok (Some _) | Err _ => ConnectionCandidate_handle_error self
  | Ok None => mret self
  end.

Definition ConnectionCandidate_write (self : ConnectionCandidate UID)
  (msg : option (Message UID * Priority)) : MW (ConnectionCandidate UID) :=
  cm ← gets w_cm;
  match cm_active (cc_their_id self) cm with
  | Some _ => ConnectionCandidate_handle_error self
  | None =>
      if uid_gt (cc_our_id self) (cc_their_id self)
      then
        '(r, s) ← io (Socket_write (cc_socket self) (cc_token self) msg);
        let self := cc_set_socket s self in
        match r with
        | Ok true => ConnectionCandidate_done self
        | Ok false => mret self
        | Err _ => ConnectionCandidate_handle_error self
        end
      else
        r ← io (Socket_reregister (cc_socket self) (cc_token self) ready_read);
        match r with
        | Err _ => ConnectionCandidate_handle_error self
        | Ok _ => ConnectionCandidate_read self
        end
  end.

Definition ConnectionCandidate_ready (self : ConnectionCandidate UID) (kind : Ready) :
  MW (ConnectionCandidate UID) :=
  if is_error kind || is_hup kind
  then ConnectionCandidate_handle_error self
  else
    self ← (if is_readable kind then ConnectionCandidate_read self else mret self);
    if is_writable kind
    then
      let msg := cc_msg self in
      ConnectionCandidate_write (cc_set_msg None self) msg
    else mret self.

(** ** Lemmas *)

(** The chooser sends its choice and hands over the socket. *)
Lemma chooser_hands_over self (w : World UID) s n' :
  uid_gt (cc_our_id self) (cc_their_id self) = true →
  cc_socket self = Some s → cc_msg self = Some (ChooseConnection, 0) → idle s →
  cm_active (cc_their_id self) (w_cm w) = None →
  sends_now s (cc_token self) (ChooseConnection : Message UID) (w_net w) n' →
  ConnectionCandidate_ready self (mkReady false true false false) w =
    (finish (cc_finish self) (cc_token self) (Some (Some s)) ;;
     mret (cc_set_socket None (cc_set_msg None self)))
    (set_states (delete (cc_token self) (w_states w)) (set_net n' w)).
Proof.
  intros Hgt Hs Hmsg Hidle Hact Hsend.
  unfold ConnectionCandidate_ready. cbn. unfold mbind, M_bind. cbn. rewrite Hmsg.
  unfold ConnectionCandidate_write, mbind, M_bind, gets. cbn. rewrite Hact, Hgt, Hs.
  rewrite (io_done _ _ _ _ (write_now _ _ _ 0 _ _ Hidle Hsend)). cbn.
  unfold ConnectionCandidate_done, mbind, M_bind, remove_state, modify. cbn.
  by destruct (finish _ _ _ _).
Qed.

(** The other, once it is writable, finds the choice and hands over its socket. *)
Lemma waiter_hands_over self (w : World UID) s s1 n1 n2 :
  uid_gt (cc_our_id self) (cc_their_id self) = false → cc_socket self = Some s →
  cm_active (cc_their_id self) (w_cm w) = None →
  poll_reregister (EvStream (stream s)) (cc_token self) ready_read (w_net w) = (Ok tt, n1) →
  SockInner_read s n1 = Done (Ok (Some (ChooseConnection : Message UID)), s1) n2 →
  ConnectionCandidate_ready self (mkReady false true false false) w =
    (finish (cc_finish self) (cc_token self) (Some (Some s1)) ;;
     mret (cc_set_socket None (cc_set_msg None self)))
    (set_states (delete (cc_token self) (w_states w)) (set_net n2 w)).
Proof.
  intros Hgt Hs Hact Hp Hr. unfold ConnectionCandidate_ready. cbn. unfold mbind, M_bind. cbn.
  unfold ConnectionCandidate_write, mbind, M_bind, gets. cbn. rewrite Hact, Hgt, Hs.
  unfold io, zoom, Socket_reregister, call. cbn. rewrite Hp. cbn.
  unfold ConnectionCandidate_read, mbind, M_bind, io, zoom. cbn. rewrite Hs.
  unfold Socket_read, mbind, M_bind. rewrite Hr. cbn.
  unfold ConnectionCandidate_done, mbind, M_bind, remove_state, modify. cbn.
  by destruct (finish _ _ _ _).
Qed.

(** ** Properties *)

(** Both ends settle on the connection the chooser picks. Of two peers with
    a candidate on the same connection, the one with the greater identifier is
    the chooser: when its socket is writable and no connection to the peer is
    active yet, it sends [ChooseConnection] and hands the socket over. The other
    hands over its socket when the bytes of that frame arrive, in any pieces. *)
Theorem candidate_agreement (chooser waiter : ConnectionCandidate UID) `{!CodecLaws (Message UID)}
  (w v : World UID) s s' n' payload cs m' :
  uid_gt (cc_our_id chooser) (cc_their_id chooser) = true →
  cc_our_id waiter = cc_their_id chooser → cc_their_id waiter = cc_our_id chooser →
  (* the chooser *)
  cc_socket chooser = Some s → cc_msg chooser = Some (ChooseConnection, 0) → idle s →
  cm_active (cc_their_id chooser) (w_cm w) = None →
  sends_now s (cc_token chooser) (ChooseConnection : Message UID) (w_net w) n' →
  (* the other, with the chooser's frame in its stream *)
  cc_socket waiter = Some s' → reader_ok s' →
  serialise (ChooseConnection : Message UID) = Some payload →
  Z.of_nat (length payload) ≤ MAX_PAYLOAD_SIZE →
  delivers (stream s') (w_net v) cs m' → (length cs < loop_fuel)%nat →
  buffered s' ++ concat cs = frame_of payload →
  ConnectionCandidate_ready chooser (mkReady false true false false) w =
    (finish (cc_finish chooser) (cc_token chooser) (Some (Some s)) ;;
     mret (cc_set_socket None (cc_set_msg None chooser)))
    (set_states (delete (cc_token chooser) (w_states w)) (set_net n' w)) ∧
  ∃ s'' n'', buffered s'' = [] ∧ stream s'' = stream s' ∧
    ConnectionCandidate_ready waiter (mkReady true false false false) v =
    (finish (cc_finish waiter) (cc_token waiter) (Some (Some s'')) ;;
     mret (cc_set_socket None waiter))
    (set_states (delete (cc_token waiter) (w_states v)) (set_net n'' v)).
Proof.
  intros Hgt Ho Ht Hs Hmsg Hidle Hact Hsend Hs' Hok Hpay Hlen Hd Hcs Hb. split.
  - by apply chooser_hands_over.
  - assert (fits (ChooseConnection : Message UID) (frame_of payload)) as Hf by (by exists payload).
    rewrite <- (app_nil_r (frame_of payload)) in Hb.
    destruct (read_next s' _ _ [] (w_net v) cs m' Hf Hok Hd Hcs Hb)
      as (s1 & n1 & cs1 & Hr & _ & Hst & _ & Hb1 & _).
    apply app_eq_nil in Hb1 as [Hb1 _]. exists s1, n1. split_and!; [done|done|].
    unfold ConnectionCandidate_ready. cbn. unfold ConnectionCandidate_read, mbind, M_bind.
    rewrite Hs'. unfold io, zoom, Socket_read, mbind, M_bind. rewrite Hr. cbn.
    unfold ConnectionCandidate_done, mbind, M_bind, remove_state, modify. cbn.
    by destruct (finish _ _ _ _).
Qed.

End Finish.

(** When the registration of the socket fails, [start] does not return the
    error: it panics, because the state is still borrowed where the handler
    borrows it mutably to terminate it. *)
Theorem candidate_start_panics token s our_id their_id fin (w : World UID) e n :
  w_borrows w !! w_next_rc w = None →
  poll_reregister (EvStream (stream s)) token ready_write (w_net w) = (Err e, n) →
  ConnectionCandidate_start token (Some s) our_id their_id fin w = Panicked BorrowError.
Proof.
  intros Hb Hp. unfold ConnectionCandidate_start, rc_new, insert_state, modify, mbind, M_bind. cbn.
  unfold with_borrow, mbind, M_bind, gets. cbn. rewrite Hb. cbn. rewrite lookup_insert_eq. cbn.
  unfold io, zoom, Socket_reregister, call. cbn. rewrite Hp. cbn.
  unfold with_borrow_mut, mbind, M_bind, gets. cbn. by rewrite lookup_insert_eq.
Qed.

End Candidate.

Module CandidateWitness.

#[local] Instance wenv : Env := Script.env true false.
#[local] Existing Instance Script.msg_codec.
#[local] Existing Instance Script.msg_codec_laws.

Definition st0 : @TcpStream wenv := 0%nat.
Definition calm : @net wenv := Script.quiet.
Definition fresh : SockInner := mkSockInner st0 [] 0 [] None.
Definition chooser : ConnectionCandidate Z :=
  mkConnectionCandidate 5 (Some fresh) 9 4 (Some (ChooseConnection, 0)) (FinishListener 9 4).
Definition waiter : ConnectionCandidate Z :=
  mkConnectionCandidate 6 (Some fresh) 4 9 (Some (ChooseConnection, 0)) (FinishListener 4 9).
Definition frame : list byte := [Byte.x01; Byte.x00; Byte.x00; Byte.x00; Byte.x01].
Definition w0 : World Z := Core_new 2 calm (ConfigWrapper_new Config_default).
Definition v0 : World Z :=
  Core_new 2 (Script.set_reads [Ok (take 2 frame); Ok (drop 2 frame)] calm : @net wenv)
    (ConfigWrapper_new Config_default).

(** The handed-over socket is only counted here. *)
Definition fin (_ : CandidateFinish Z) (_ : Token) (_ : option Socket) : M (World Z) unit :=
  send_event BootstrapFailed.

Lemma candidate_agreement_witness :
  ConnectionCandidate_ready fin chooser (mkReady false true false false) w0 =
    (fin (cc_finish chooser) (cc_token chooser) (Some (Some fresh)) ;;
     mret (cc_set_socket None (cc_set_msg None chooser)))
    (set_states (delete 5 (w_states w0)) (set_net calm w0)) ∧
  ∃ s'' n'', buffered s'' = [] ∧ stream s'' = st0 ∧
    ConnectionCandidate_ready fin waiter (mkReady true false false false) v0 =
    (fin (cc_finish waiter) (cc_token waiter) (Some (Some s'')) ;;
     mret (cc_set_socket None waiter))
    (set_states (delete 6 (w_states v0)) (set_net n'' v0)).
Proof.
  apply (candidate_agreement fin chooser waiter w0 v0 fresh fresh calm [Byte.x01]
    [take 2 frame; drop 2 frame] calm); try reflexivity.
  - by split.
  - exists [Byte.x01], 5, calm. by split_and!.
  - split; vm_compute; discriminate.
  - vm_compute; discriminate.
  - do 2 (eapply delivers_cons; [done|reflexivity|]). by eapply (delivers_nil _ _ WouldBlock).
  - vm_compute. lia.
Defined.

Definition w1 : World Z :=
  Core_new 2 (Script.set_polls [Err OtherKind] calm : @net wenv) (ConfigWrapper_new Config_default).

Lemma candidate_start_panics_witness :
  ConnectionCandidate_start 5 (Some fresh) 9 4 (FinishListener 9 4) w1 = Panicked BorrowError.
Proof. eapply (candidate_start_panics 5 fresh 9 4 _ w1); reflexivity. Defined.

End CandidateWitness.
