(* ===== verification/NatUtil.v ===== *)
(** [src/src/nat/util.rs] and [src/src/nat/punch_hole.rs]: address classes, and
    the sockets of a hole punch. *)

From stdpp Require Import base tactics list gmap.
From Stdlib Require Import ZArith Lia.
From S2P Require Import Prelude Types Env Socket ConnMap World.

(** ** [std::net]: the address classes [util.rs] asks for *)

Definition v4_is_loopback (a : Ipv4Addr) : bool := v4_a a =? 127.

Definition v4_is_private (a : Ipv4Addr) : bool :=
  (v4_a a =? 10) ||
  ((v4_a a =? 172) && (16 <=? v4_b a) && (v4_b a <=? 31)) ||
  ((v4_a a =? 192) && (v4_b a =? 168)).

Definition v4_is_link_local (a : Ipv4Addr) : bool := (v4_a a =? 169) && (v4_b a =? 254).

Definition v4_is_multicast (a : Ipv4Addr) : bool := (224 <=? v4_a a) && (v4_a a <=? 239).

Definition v4_is_broadcast (a : Ipv4Addr) : bool :=
  (v4_a a =? 255) && (v4_b a =? 255) && (v4_c a =? 255) && (v4_d a =? 255).

Definition v4_is_documentation (a : Ipv4Addr) : bool :=
  ((v4_a a =? 192) && (v4_b a =? 0) && (v4_c a =? 2)) ||
  ((v4_a a =? 198) && (v4_b a =? 51) && (v4_c a =? 100)) ||
  ((v4_a a =? 203) && (v4_b a =? 0) && (v4_c a =? 113)).

Definition v6_is_loopback (a : Ipv6Addr) : bool := bool_decide (a = mkIpv6Addr 0 0 0 0 0 0 0 1).
Definition v6_is_unspecified (a : Ipv6Addr) : bool := bool_decide (a = mkIpv6Addr 0 0 0 0 0 0 0 0).

(** ** [util.rs] *)

Definition ipv4_addr_is_global (a : Ipv4Addr) : bool :=
  negb (v4_is_loopback a || v4_is_private a || v4_is_link_local a ||
        v4_is_multicast a || v4_is_broadcast a || v4_is_documentation a ||
        bool_decide (a = mkIpv4Addr 0 0 0 0)).

Definition ipv6_addr_is_global (a : Ipv6Addr) : bool :=
  negb (v6_is_loopback a || v6_is_unspecified a).

Definition ip_addr_is_global (ip : IpAddr) : bool :=
  match ip with
  | V4 a => ipv4_addr_is_global a
  | V6 a => ipv6_addr_is_global a
  end.

Section Nat.
Context {ENV : Env}.

Definition enable_so_reuseport (sock : TcpBuilder) : M net (result unit ErrorKind) :=
  if target_unix
  then _ ←? call (builder_reuse_port sock true); mret (Ok tt)
  else mret (Ok tt).

Definition new_reusably_bound_tcp_socket (local_addr : SocketAddr) :
  M net (result TcpBuilder ErrorKind) :=
  socket ←? match sa_ip local_addr with
            | V4 _ => call builder_new_v4
            | V6 _ => call builder_new_v6
            end;
  _ ←? call (builder_reuse_address socket true);
  _ ←? enable_so_reuseport socket;
  _ ←? call (builder_bind socket local_addr);
  mret (Ok socket).

(** ** [punch_hole.rs] *)

(** [?] into a [NatError]. *)
Definition nat_io {A} (m : M net (result A ErrorKind)) : M net (result A NatError) :=
  r ← m; mret (map_err NatIo r).

(** The loop [for _ in 0..required]. *)
Fixpoint unconnected_sockets (required : nat) (local_addr : SocketAddr) :
  M net (result (list StdTcpStream) NatError) :=
  match required with
  | O => mret (Ok [])
  | S required =>
      socket ←? nat_io (new_reusably_bound_tcp_socket local_addr);
      socket ←? nat_io (call (builder_to_tcp_stream socket));
      rest ←? unconnected_sockets required local_addr;
      mret (Ok (socket :: rest))
  end.

Definition get_sockets (mapped_socket : TcpBuilder) (required : nat) :
  M net (result (TcpListener * list StdTcpStream) NatError) :=
  local_addr ←? nat_io (call (builder_local_addr mapped_socket));
  sockets ←? unconnected_sockets required local_addr;
  listener ←? nat_io (call (builder_listen mapped_socket 100));
  listener ←? nat_io (call (from_listener listener local_addr));
  mret (Ok (listener, sockets)).

End Nat.
