(* ===== verification/Connect.v ===== *)
(** [src/src/main/connect/mod.rs] and [connect/exchange_msg.rs]: connecting to a
    peer over all the addresses known of it at once. *)

From stdpp Require Import base tactics list gmap.
From Stdlib Require Import ZArith Lia.
From S2P Require Import Prelude Types Env Socket ConnMap World ActiveConnection Candidate.
From S2P Require Import NatUtil.

(** In milliseconds. *)
Definition CONNECT_TIMEOUT_MS : Z := 60 * 1000.

Section ConnectExchange.
Context {ENV : Env} {UID : Type} `{!Uid UID, !Codec (Message UID)}.
Abbreviation MW := (M (World UID)).
Implicit Types (self : ConnectExchange UID).

(** ** [connect/exchange_msg.rs] *)

Definition ce_set_socket (s : Socket) (self : ConnectExchange UID) : ConnectExchange UID :=
  mkConnectExchange (ce_token self) (ce_expected_id self) (ce_expected_nh self) s (ce_msg self)
    (ce_finish self).
Definition ce_set_msg (m : option (Message UID * Priority)) (self : ConnectExchange UID) :
  ConnectExchange UID :=
  mkConnectExchange (ce_token self) (ce_expected_id self) (ce_expected_nh self) (ce_socket self) m
    (ce_finish self).

Definition ConnectExchange_start (socket : Socket) (our_id expected_id : UID)
  (name_hash : NameHash) (finish : rc) : MW (result Token CrustError) :=
  token ← get_new_token;
  r ← io (Socket_register socket token ready_write);
  match r with
  | Err e => mret (Err (CrustIo e))
  | Ok _ =>
      with_cm (cm_enter expected_id) ;;
      state ← rc_new (StConnectExchange (mkConnectExchange token expected_id name_hash socket
                        (Some (Connect our_id name_hash, 0)) finish));
      insert_state token state ;;
      mret (Ok token)
  end.

Definition ConnectExchange_terminate (self : ConnectExchange UID) : MW unit :=
  remove_state (ce_token self) ;;
  _ ← io (Socket_deregister (ce_socket self));
  with_cm (cm_leave (ce_expected_id self)).

(** [finish] runs the closure that calls [Connect::handle_exchange_msg]. *)
Section Finish.
Variable finish : rc → Token → option Socket → MW unit.

Definition ConnectExchange_handle_error (self : ConnectExchange UID) : MW (ConnectExchange UID) :=
  ConnectExchange_terminate self ;;
  finish (ce_finish self) (ce_token self) None ;;
  mret self.

Definition ConnectExchange_write (self : ConnectExchange UID)
  (msg : option (Message UID * Priority)) : MW (ConnectExchange UID) :=
  '(r, s) ← io (Socket_write (ce_socket self) (ce_token self) msg);
  let self := ce_set_socket s self in
  match r with
  | Ok _ => mret self
  | Err _ => ConnectExchange_handle_error self
  end.

Definition ConnectExchange_receive_response (self : ConnectExchange UID) :
  MW (ConnectExchange UID) :=
  '(r, s) ← io (Socket_read (T:=Message UID) (ce_socket self));
  let self := ce_set_socket s self in
  match r with
  | Ok (Some (Connect their_uid name_hash)) =>
      if negb (bool_decide (their_uid = ce_expected_id self)) ||
         negb (bool_decide (name_hash = ce_expected_nh self))
      then ConnectExchange_handle_error self
      else
        remove_state (ce_token self) ;;
        let socket := ce_socket self in
        let self := ce_set_socket Socket_default self in
        finish (ce_finish self) (ce_token self) (Some socket) ;;
        mret self
  | Ok None => mret self
  | Ok (Some _) | Err _ => ConnectExchange_handle_error self
  end.

Definition ConnectExchange_ready (self : ConnectExchange UID) (kind : Ready) :
  MW (ConnectExchange UID) :=
  if is_error kind || is_hup kind
  then ConnectExchange_handle_error self
  else
    self ← (if is_writable kind
            then let req := ce_msg self in ConnectExchange_write (ce_set_msg None self) req
            else mret self);
    if is_readable kind then ConnectExchange_receive_response self else mret self.

End Finish.
End ConnectExchange.

(** ** [connect/mod.rs] *)

Section Connect.
Context {ENV : Env} {UID : Type} `{!Uid UID, !Codec (Message UID)}.
Abbreviation MW := (M (World UID)).
Implicit Types (self : ConnectState UID).

Definition cn_set_self_weak (r : rc) (self : ConnectState UID) : ConnectState UID :=
  mkConnectState (cn_token self) (cn_timeout self) (cn_our_nh self) (cn_our_id self)
    (cn_their_id self) r (cn_listener self) (cn_children self).
Definition cn_set_listener (l : option TcpListener) (self : ConnectState UID) : ConnectState UID :=
  mkConnectState (cn_token self) (cn_timeout self) (cn_our_nh self) (cn_our_id self)
    (cn_their_id self) (cn_self_weak self) l (cn_children self).
Definition cn_set_children (c : gset Token) (self : ConnectState UID) : ConnectState UID :=
  mkConnectState (cn_token self) (cn_timeout self) (cn_our_nh self) (cn_our_id self)
    (cn_their_id self) (cn_self_weak self) (cn_listener self) c.

Definition as_connect (f : ConnectState UID → MW (ConnectState UID)) (o : StateObj UID) :
  MW (StateObj UID) :=
  match o with
  | StConnect self => self' ← f self; mret (StConnect self')
  | _ => throw IllTyped
  end.

(** [dyn_terminate r] is [r.borrow_mut().terminate(core, poll)] on a state of
    any kind. *)
Section Terminate.
Variable dyn_terminate : rc → MW unit.

(** [for child in self.children.drain()]: the order of a [HashSet] is not
    specified, the model takes that of [elements]. *)
Definition Connect_terminate_children (self : ConnectState UID) : MW (ConnectState UID) :=
  for_each (λ child,
    state ← get_state child;
    match state with
    | Some state => dyn_terminate state
    | None => mret tt
    end) (elements (cn_children self)) ;;
  mret (cn_set_children ∅ self).

Definition Connect_terminate (self : ConnectState UID) : MW (ConnectState UID) :=
  self ← Connect_terminate_children self;
  self ← match cn_listener self with
         | Some listener =>
             _ ← io (call (poll_deregister (EvListener listener)));
             mret (cn_set_listener None self)
         | None => mret self
         end;
  _ ← cancel_timeout (cn_timeout self);
  remove_state (cn_token self) ;;
  cm ← gets w_cm;
  (if bool_decide (is_Some (cm !! cn_their_id self)) then mret tt
   else send_event (ConnectFailure (cn_their_id self))) ;;
  mret self.

Definition Connect_maybe_terminate (self : ConnectState UID) : MW (ConnectState UID) :=
  if bool_decide (cn_children self = ∅) then Connect_terminate self else mret self.

Definition Connect_exchange_msg (self : ConnectState UID) (socket : Socket) :
  MW (ConnectState UID) :=
  r ← ConnectExchange_start socket (cn_our_id self) (cn_their_id self) (cn_our_nh self)
        (cn_self_weak self);
  let self := match r with
              | Ok child => cn_set_children ({[child]} ∪ cn_children self) self
              | Err _ => self
              end in
  Connect_maybe_terminate self.

Definition Connect_handle_exchange_msg (self : ConnectState UID) (child : Token)
  (res : option Socket) : MW (ConnectState UID) :=
  let self := cn_set_children (cn_children self ∖ {[child]}) self in
  self ← match res with
         | Some socket =>
             r ← ConnectionCandidate_start child socket (cn_our_id self) (cn_their_id self)
                   (FinishConnect (cn_self_weak self));
             mret match r with
                  | Ok child => cn_set_children ({[child]} ∪ cn_children self) self
                  | Err _ => self
                  end
         | None => mret self
         end;
  Connect_maybe_terminate self.

Definition Connect_handle_connection_candidate (self : ConnectState UID) (child : Token)
  (res : option Socket) : MW (ConnectState UID) :=
  let self := cn_set_children (cn_children self ∖ {[child]}) self in
  match res with
  | Some socket =>
      self ← Connect_terminate self;
      ActiveConnection_start child socket (cn_our_id self) (cn_their_id self) Node
        (ConnectSuccess (cn_their_id self)) ;;
      mret self
  | None => Connect_maybe_terminate self
  end.

Fixpoint Connect_accept (fuel : nat) (self : ConnectState UID) : MW (ConnectState UID) :=
  match fuel with
  | O => diverge
  | S fuel =>
      listener ← unwrap (cn_listener self);
      r ← io (call (tcp_accept listener));
      match r with
      | Ok socket =>
          self ← Connect_exchange_msg self (Socket_wrap socket);
          Connect_accept fuel self
      | Err _ => mret self
      end
  end.

Definition Connect_ready (self : ConnectState UID) (kind : Ready) : MW (ConnectState UID) :=
  if negb (is_error kind) && negb (is_hup kind) && is_readable kind
  then Connect_accept loop_fuel self
  else mret self.

Definition Connect_timeout (self : ConnectState UID) (_timer_id : Z) : MW (ConnectState UID) :=
  Connect_terminate self.

(** [.filter_map(|elt| Socket::connect(&elt).ok())]. *)
Fixpoint connect_all (addrs : list SocketAddr) : M net (list Socket) :=
  match addrs with
  | [] => mret []
  | a :: addrs =>
      r ← Socket_connect a;
      rest ← connect_all addrs;
      mret match r with Ok s => s :: rest | Err _ => rest end
  end.

(** [.filter_map(|elt| TcpStream::connect_stream(elt.0, &elt.1).ok()).map(Socket::wrap)]. *)
Fixpoint connect_streams (l : list (StdTcpStream * SocketAddr)) : M net (list Socket) :=
  match l with
  | [] => mret []
  | (s, a) :: l =>
      r ← call (connect_stream s a);
      rest ← connect_streams l;
      mret match r with Ok s => Socket_wrap s :: rest | Err _ => rest end
  end.

Definition Connect_start (our_ci : PrivConnectionInfo UID TcpBuilder)
  (their_ci : PubConnectionInfo UID) (our_nh : NameHash) : MW (result unit CrustError) :=
  let their_id := pub_id their_ci in
  let their_direct := pub_for_direct their_ci in
  let their_hole_punch := pub_for_hole_punch their_ci in
  if bool_decide (their_direct = []) && bool_decide (their_hole_punch = [])
  then
    send_event (ConnectFailure their_id) ;;
    mret (Err InsufficientConnectionInfo)
  else
    token ← get_new_token;
    r ← set_timeout CONNECT_TIMEOUT_MS (mkCoreTimer token 0);
    match r with
    | Err e => mret (Err (Common e))
    | Ok timeout =>
        state ← gets w_next_rc;
        _ ← rc_new (StConnect (mkConnectState token timeout our_nh (priv_id our_ci) their_id state
                                 None ∅));
        sockets ← io (connect_all their_direct);
        sockets ←? match hole_punch_socket our_ci with
                   | None => mret (Ok sockets)
                   | Some hole_punch_sock =>
                       r ← io (get_sockets hole_punch_sock (length their_hole_punch));
                       match r with
                       | Err _ => mret (Ok sockets)
                       | Ok (listener, nat_sockets) =>
                           r ← io (call (poll_register (EvListener listener) token ready_read));
                           match r with
                           | Err e => mret (Err (CrustIo e))
                           | Ok _ =>
                               with_borrow_mut state (as_connect (λ self,
                                 mret (cn_set_listener (Some listener) self))) ;;
                               more ← io (connect_streams (zip nat_sockets their_hole_punch));
                               mret (Ok (sockets ++ more))
                           end
                       end
                   end;
        for_each (λ socket,
          with_borrow_mut state (as_connect (λ self, Connect_exchange_msg self socket))) sockets ;;
        insert_state token state ;;
        mret (Ok tt)
    end.

End Terminate.
End Connect.
