(* ===== verification/Listener.v ===== *)
(** [src/src/main/connection_listener]: accepting connections, the handshake on
    the accepting side ([exchange_msg.rs]) with its access control, the check
    that a bootstrapping node is reachable ([check_reachability.rs]), and the
    listener itself ([mod.rs]). *)

From stdpp Require Import base tactics list gmap.
From Stdlib Require Import ZArith Lia.
From S2P Require Import Prelude Types Env Socket ConnMap World ActiveConnection Candidate.
From S2P Require Import NatUtil.

Definition CHECK_REACHABILITY_TIMEOUT_MS : Z := 3 * 1000.
Definition EXCHANGE_MSG_TIMEOUT_SEC : Z := 10 * 60.
Definition LISTENER_BACKLOG : Z := 100.

(** ** [check_reachability.rs] *)

Section CheckReachability.
Context {ENV : Env} {UID : Type} `{!Uid UID}.
Abbreviation MW := (M (World UID)).
Implicit Types (self : CheckReachability UID).

Definition CheckReachability_start (their_listener : SocketAddr) (t : UID) (finish : rc) :
  MW (result Token CrustError) :=
  r ← io (Socket_connect their_listener);
  match r with
  | Err e => mret (Err (Common e))
  | Ok socket =>
      token ← get_new_token;
      r ← io (Socket_register socket token ready_write);
      match r with
      | Err e => mret (Err (CrustIo e))
      | Ok _ =>
          r ← set_timeout CHECK_REACHABILITY_TIMEOUT_MS (mkCoreTimer token 0);
          match r with
          | Err e => mret (Err (Common e))
          | Ok timeout =>
              state ← rc_new (StCheckReachability
                                (mkCheckReachability token socket timeout finish t));
              insert_state token state ;;
              mret (Ok token)
          end
      end
  end.

Definition CheckReachability_terminate (self : CheckReachability UID) : MW unit :=
  _ ← cancel_timeout (cr_timeout self);
  remove_state (cr_token self) ;;
  _ ← io (Socket_deregister (cr_socket self));
  mret tt.

(** [finish] runs the closure that calls
    [ExchangeMsg::handle_check_reachability]. *)
Section Finish.
Variable finish : rc → Token → result UID unit → MW unit.

Definition CheckReachability_handle_success (self : CheckReachability UID) : MW unit :=
  CheckReachability_terminate self ;;
  finish (cr_finish self) (cr_token self) (Ok (cr_t self)).

Definition CheckReachability_handle_error (self : CheckReachability UID) : MW unit :=
  CheckReachability_terminate self ;;
  finish (cr_finish self) (cr_token self) (Err tt).

Definition CheckReachability_ready (self : CheckReachability UID) (kind : Ready) : MW unit :=
  if is_error kind || is_hup kind || negb (is_writable kind)
  then CheckReachability_handle_error self
  else CheckReachability_handle_success self.

Definition CheckReachability_timeout (self : CheckReachability UID) (_timer_id : Z) : MW unit :=
  CheckReachability_handle_error self.

End Finish.
End CheckReachability.

(** ** [exchange_msg.rs] *)

Section ListenerExchange.
Context {ENV : Env} {UID : Type} `{!Uid UID, !Codec (Message UID)}.
Abbreviation MW := (M (World UID)).
Implicit Types (self : ListenerExchange UID).

Definition le_set_socket (s : Socket) (self : ListenerExchange UID) : ListenerExchange UID :=
  mkListenerExchange (le_token self) (le_name_hash self) (le_next_state self) (le_our_uid self) s
    (le_timeout self) (le_reachability_children self) (le_accept_bootstrap self)
    (le_require_reachability self) (le_self_weak self).
Definition le_set_next_state (ns : NextState UID) (self : ListenerExchange UID) :
  ListenerExchange UID :=
  mkListenerExchange (le_token self) (le_name_hash self) ns (le_our_uid self) (le_socket self)
    (le_timeout self) (le_reachability_children self) (le_accept_bootstrap self)
    (le_require_reachability self) (le_self_weak self).
Definition le_set_children (c : gset Token) (self : ListenerExchange UID) : ListenerExchange UID :=
  mkListenerExchange (le_token self) (le_name_hash self) (le_next_state self) (le_our_uid self)
    (le_socket self) (le_timeout self) c (le_accept_bootstrap self)
    (le_require_reachability self) (le_self_weak self).

Definition ListenerExchange_start (timeout_sec : option Z) (socket : Socket)
  (accept_bootstrap : bool) (our_uid : UID) (name_hash : NameHash) :
  MW (result unit CrustError) :=
  token ← get_new_token;
  r ← io (Socket_register socket token ready_read);
  match r with
  | Err e => mret (Err (CrustIo e))
  | Ok _ =>
      r ← set_timeout (default EXCHANGE_MSG_TIMEOUT_SEC timeout_sec * 1000) (mkCoreTimer token 0);
      match r with
      | Err e => mret (Err (Common e))
      | Ok timeout =>
          config ← gets w_config;
          let require_reachability :=
            match dev (cfg config) with
            | Some dev_cfg => negb (disable_external_reachability_requirement dev_cfg)
            | None => true
            end in
          self_weak ← gets w_next_rc;
          state ← rc_new (StListenerExchange (mkListenerExchange token name_hash NextNone our_uid
                    socket timeout ∅ accept_bootstrap require_reachability self_weak));
          insert_state token state ;;
          mret (Ok tt)
      end
  end.

Definition validate_peer_uid (self : ListenerExchange UID) (their_uid : UID) : result UID unit :=
  if decide (le_our_uid self = their_uid) then Err tt else Ok their_uid.

Definition is_valid_name_hash (self : ListenerExchange UID) (name_hash : NameHash) : bool :=
  bool_decide (le_name_hash self = name_hash).

Definition try_update_crust_config : MW unit :=
  r ← io (call read_config_file);
  match r with
  | Ok cfg =>
      modify (λ w, set_config (check_for_update_and_mark_modified (w_config w) cfg) w)
  | Err _ => mret tt
  end.

(** [ips.as_ref().map_or(true, |ips| ips.contains(&peer_ip))]. *)
Definition ip_allowed (ips : option (gset IpAddr)) (ip : IpAddr) : bool :=
  match ips with
  | Some ips => bool_decide (ip ∈ ips)
  | None => true
  end.

Definition whitelist_of (peer_kind : CrustUser) (c : Config) : option (gset IpAddr) :=
  match peer_kind with
  | Node => whitelisted_node_ips c
  | Client => whitelisted_client_ips c
  end.

Definition is_peer_whitelisted (self : ListenerExchange UID) (peer_kind : CrustUser) : MW bool :=
  r ← io (Socket_peer_addr (le_socket self));
  match r with
  | Err _ => mret false
  | Ok s =>
      config ← gets w_config;
      mret (ip_allowed (whitelist_of peer_kind (cfg config)) (sa_ip s))
  end.

Definition enter_handshaking_mode (their_uid : UID) : MW unit := with_cm (cm_enter their_uid).

(** [dyn_terminate r] is [r.borrow_mut().terminate(core, poll)] on a state of
    any kind. *)
Section Terminate.
Variable dyn_terminate : rc → MW unit.

Definition terminate_childern (self : ListenerExchange UID) : MW (ListenerExchange UID) :=
  for_each (λ child,
    state ← get_state child;
    match state with
    | Some c => dyn_terminate c
    | None => mret tt
    end) (elements (le_reachability_children self)) ;;
  mret (le_set_children ∅ self).

Definition ListenerExchange_terminate (self : ListenerExchange UID) : MW (ListenerExchange UID) :=
  self ← terminate_childern self;
  remove_state (le_token self) ;;
  match le_next_state self with
  | NextConnectionCandidate their_uid | NextActiveConnection their_uid _ =>
      with_cm (cm_leave their_uid)
  | NextNone => mret tt
  end ;;
  _ ← cancel_timeout (le_timeout self);
  _ ← io (Socket_deregister (le_socket self));
  mret self.

Definition ListenerExchange_done (self : ListenerExchange UID) : MW (ListenerExchange UID) :=
  remove_state (le_token self) ;;
  _ ← cancel_timeout (le_timeout self);
  match le_next_state self with
  | NextActiveConnection their_uid peer_kind =>
      let socket := le_socket self in
      let self := le_set_socket Socket_default self in
      ActiveConnection_start (le_token self) socket (le_our_uid self) their_uid peer_kind
        (BootstrapAccept their_uid peer_kind) ;;
      mret self
  | NextConnectionCandidate their_uid =>
      let socket := le_socket self in
      let self := le_set_socket Socket_default self in
      _ ← ConnectionCandidate_start (le_token self) socket (le_our_uid self) their_uid
            (FinishListener (le_our_uid self) their_uid);
      mret self
  | NextNone => ListenerExchange_terminate self
  end.

(** The closure given to the [ConnectionCandidate] in [done]. *)
Definition listener_candidate_finish (our_uid their_uid : UID) (token : Token)
  (res : option Socket) : MW unit :=
  match res with
  | Some socket =>
      ActiveConnection_start token socket our_uid their_uid Node (ConnectSuccess their_uid)
  | None => mret tt
  end.

Definition ListenerExchange_write (self : ListenerExchange UID)
  (msg : option (Message UID * Priority)) : MW (ListenerExchange UID) :=
  cm ← gets w_cm;
  let terminate := match le_next_state self with
                   | NextActiveConnection their_uid _ => bool_decide (is_Some (cm_active their_uid cm))
                   | _ => false
                   end in
  if terminate then ListenerExchange_terminate self
  else
    '(r, s) ← io (Socket_write (le_socket self) (le_token self) msg);
    let self := le_set_socket s self in
    match r with
    | Ok true => ListenerExchange_done self
    | Ok false => mret self
    | Err _ => ListenerExchange_terminate self
    end.

Definition send_bootstrap_grant (self : ListenerExchange UID) (their_uid : UID)
  (peer_kind : CrustUser) : MW (ListenerExchange UID) :=
  enter_handshaking_mode their_uid ;;
  let our_uid := le_our_uid self in
  let self := le_set_next_state (NextActiveConnection their_uid peer_kind) self in
  ListenerExchange_write self (Some (BootstrapGranted our_uid, 0)).

Definition deny (self : ListenerExchange UID) (reason : BootstrapDenyReason) :
  MW (ListenerExchange UID) :=
  ListenerExchange_write self (Some (BootstrapDenied reason, 0)).

Definition start_check (their_uid : UID) (self : ListenerExchange UID)
  (their_listener : SocketAddr) : MW (ListenerExchange UID) :=
  r ← CheckReachability_start their_listener their_uid (le_self_weak self);
  mret match r with
       | Ok child => le_set_children ({[child]} ∪ le_reachability_children self) self
       | Err _ => self
       end.

Definition handle_bootstrap_req (self : ListenerExchange UID) (their_uid : UID)
  (name_hash : NameHash) (ext_reachability : ExternalReachability) : MW (ListenerExchange UID) :=
  if negb (is_valid_name_hash self name_hash) then deny self InvalidNameHash
  else
    try_update_crust_config ;;
    match ext_reachability with
    | Required direct_listeners =>
        ok ← is_peer_whitelisted self Node;
        if negb ok then deny self NodeNotWhitelisted
        else if negb (le_require_reachability self)
        then send_bootstrap_grant self their_uid Node
        else
          self ← fold_loop (start_check their_uid) self
                   (List.filter (λ addr, ip_addr_is_global (sa_ip addr)) direct_listeners);
          if bool_decide (le_reachability_children self = ∅)
          then deny self FailedExternalReachability
          else mret self
    | NotRequired =>
        ok ← is_peer_whitelisted self Client;
        if negb ok then deny self ClientNotWhitelisted
        else send_bootstrap_grant self their_uid Client
    end.

Definition handle_check_reachability (self : ListenerExchange UID) (child : Token)
  (res : result UID unit) : MW (ListenerExchange UID) :=
  let self := le_set_children (le_reachability_children self ∖ {[child]}) self in
  match res with
  | Ok their_uid =>
      self ← terminate_childern self;
      send_bootstrap_grant self their_uid Node
  | Err _ =>
      if bool_decide (le_reachability_children self = ∅)
      then deny self FailedExternalReachability
      else mret self
  end.

Definition handle_connect (self : ListenerExchange UID) (their_uid : UID) (name_hash : NameHash) :
  MW (ListenerExchange UID) :=
  if negb (is_valid_name_hash self name_hash) then ListenerExchange_terminate self
  else
    try_update_crust_config ;;
    ok ← is_peer_whitelisted self Node;
    if negb ok then ListenerExchange_terminate self
    else
      enter_handshaking_mode their_uid ;;
      let our_uid := le_our_uid self in
      let name_hash := le_name_hash self in
      let self := le_set_next_state (NextConnectionCandidate their_uid) self in
      ListenerExchange_write self (Some (Connect our_uid name_hash, 0)).

Definition handle_echo_addr_req (self : ListenerExchange UID) : MW (ListenerExchange UID) :=
  let self := le_set_next_state NextNone self in
  r ← io (Socket_peer_addr (le_socket self));
  match r with
  | Ok peer_addr => ListenerExchange_write self (Some (EchoAddrResp peer_addr, 0))
  | Err _ => ListenerExchange_terminate self
  end.

Definition ListenerExchange_read (self : ListenerExchange UID) : MW (ListenerExchange UID) :=
  '(r, s) ← io (Socket_read (T:=Message UID) (le_socket self));
  let self := le_set_socket s self in
  match r with
  | Ok (Some (BootstrapRequest their_uid name_hash ext_reachability)) =>
      if negb (le_accept_bootstrap self) then ListenerExchange_terminate self
      else
        match validate_peer_uid self their_uid with
        | Ok their_uid => handle_bootstrap_req self their_uid name_hash ext_reachability
        | Err _ => ListenerExchange_terminate self
        end
  | Ok (Some (Connect their_uid name_hash)) =>
      match validate_peer_uid self their_uid with
      | Ok their_uid => handle_connect self their_uid name_hash
      | Err _ => ListenerExchange_terminate self
      end
  | Ok (Some EchoAddrReq) => handle_echo_addr_req self
  | Ok (Some _) => ListenerExchange_terminate self
  | Ok None => mret self
  | Err _ => ListenerExchange_terminate self
  end.

Definition ListenerExchange_ready (self : ListenerExchange UID) (kind : Ready) :
  MW (ListenerExchange UID) :=
  if is_error kind || is_hup kind then ListenerExchange_terminate self
  else
    self ← (if is_readable kind then ListenerExchange_read self else mret self);
    if is_writable kind then ListenerExchange_write self None else mret self.

Definition ListenerExchange_timeout (self : ListenerExchange UID) (_timer_id : Z) :
  MW (ListenerExchange UID) :=
  ListenerExchange_terminate self.

End Terminate.
End ListenerExchange.

(** ** [mod.rs] *)

Section Listener.
Context {ENV : Env} {UID : Type} `{!Uid UID, !Codec (Message UID)}.
Abbreviation MW := (M (World UID)).
Implicit Types (self : ConnectionListener UID).

(** The addresses the [finish] closure of [start] publishes. *)
Definition published_addrs (force_include_port : bool) (port : Z)
  (mapped_addrs : list SocketAddr) : list SocketAddr :=
  let checker s := ip_addr_is_global (sa_ip s) && (sa_port s =? port) in
  if force_include_port && negb (port =? 0) && negb (existsb checker mapped_addrs)
  then
    let global_addrs :=
      omap (λ s, if ip_addr_is_global (sa_ip s) then Some (sa_set_port port s) else None)
        mapped_addrs in
    mapped_addrs ++ global_addrs
  else mapped_addrs.

(** [?] on an [io::Result]. *)
Definition crust_io {A} (m : M net (result A ErrorKind)) : MW (result A CrustError) :=
  r ← io m; mret (map_err CrustIo r).

Definition handle_mapped_socket (timeout_sec : option Z) (socket : TcpBuilder)
  (mapped_addrs : list SocketAddr) (our_uid : UID) (name_hash : NameHash) (token : Token) :
  MW (result unit CrustError) :=
  listener ←? crust_io (call (builder_listen socket LISTENER_BACKLOG));
  local_addr ←? crust_io (call (std_local_addr listener));
  listener ←? crust_io (call (from_listener listener local_addr));
  _ ←? crust_io (call (poll_register (EvListener listener) token ready_read));
  modify (set_listeners mapped_addrs) ;;
  state ← rc_new (StListener (mkConnectionListener token listener name_hash our_uid timeout_sec
                                false));
  insert_state token state ;;
  send_event (ListenerStarted (sa_port local_addr)) ;;
  mret (Ok tt).

(** The [finish] closure given to [MappedTcpSocket::start]. *)
Definition listener_mapped (timeout_sec : option Z) (port : Z) (force_include_port : bool)
  (our_uid : UID) (name_hash : NameHash) (token : Token) (socket : TcpBuilder)
  (mapped_addrs : list SocketAddr) : MW unit :=
  r ← handle_mapped_socket timeout_sec socket (published_addrs force_include_port port mapped_addrs)
        our_uid name_hash token;
  match r with
  | Ok _ => mret tt
  | Err _ => send_event ListenerFailed
  end.

Definition set_accept_bootstrap (accept : bool) (self : ConnectionListener UID) :
  ConnectionListener UID :=
  mkConnectionListener (cl_token self) (cl_listener self) (cl_name_hash self) (cl_our_uid self)
    (cl_timeout_sec self) accept.

Fixpoint ConnectionListener_accept (fuel : nat) (self : ConnectionListener UID) : MW unit :=
  match fuel with
  | O => diverge
  | S fuel =>
      r ← io (call (tcp_accept (cl_listener self)));
      match r with
      | Ok socket =>
          _ ← ListenerExchange_start (cl_timeout_sec self) (Socket_wrap socket)
                (cl_accept_bootstrap self) (cl_our_uid self) (cl_name_hash self);
          ConnectionListener_accept fuel self
      | Err _ => mret tt
      end
  end.

Definition ConnectionListener_terminate (self : ConnectionListener UID) : MW unit :=
  _ ← io (call (poll_deregister (EvListener (cl_listener self))));
  remove_state (cl_token self).

Definition ConnectionListener_ready (self : ConnectionListener UID) (kind : Ready) : MW unit :=
  if is_error kind || is_hup kind
  then ConnectionListener_terminate self ;; send_event ListenerFailed
  else if is_readable kind then ConnectionListener_accept loop_fuel self
  else mret tt.

End Listener.
