(* ===== verification/Refresher.v ===== *)
(** [src/src/main/config_refresher.rs]: re-reading the configuration file, and
    dropping the connections it no longer allows. *)

From stdpp Require Import base tactics list gmap.
From Stdlib Require Import ZArith Lia.
From S2P Require Import Prelude Types Env Socket ConnMap World ActiveConnection.

Definition REFRESH_INTERVAL_MS : Z := 30 * 1000.

Section Refresher.
Context {ENV : Env} {UID : Type} `{!Uid UID, !Codec (Message UID)}.
Abbreviation MW := (M (World UID)).
Implicit Types (self : @ConfigRefresher ENV).

Definition ConfigRefresher_start (token : Token) : MW (result unit CrustError) :=
  let timer := mkCoreTimer token 0 in
  r ← set_timeout REFRESH_INTERVAL_MS timer;
  match r with
  | Err e => mret (Err (Common e))
  | Ok timeout =>
      state ← rc_new (StRefresher (mkConfigRefresher token timer timeout));
      insert_state token state ;;
      mret (Ok tt)
  end.

Definition ConfigRefresher_terminate (self : @ConfigRefresher ENV) : MW unit :=
  _ ← cancel_timeout (rf_timeout self);
  remove_state (rf_token self).

(** [ips.as_ref().map_or(false, |ips| !ips.contains(&ip))]. *)
Definition ip_banned (ips : option (gset IpAddr)) (ip : IpAddr) : bool :=
  match ips with
  | Some ips => negb (bool_decide (ip ∈ ips))
  | None => false
  end.

(** The closure that decides about one connection. *)
Definition should_drop (node_ips client_ips : option (gset IpAddr)) (ac : ActiveConnection UID) :
  MW bool :=
  r ← ActiveConnection_peer_addr ac;
  match r with
  | Err _ => mret true
  | Ok s =>
      mret match ActiveConnection_peer_kind ac with
           | Node => ip_banned node_ips (sa_ip s)
           | Client => ip_banned client_ips (sa_ip s)
           end
  end.

Definition peer_to_terminate (node_ips client_ips : option (gset IpAddr)) (cid : ConnectionId) :
  MW (option rc) :=
  match active_connection cid with
  | None => mret None
  | Some token =>
      state ← get_state token;
      match state with
      | None => mret None
      | Some peer =>
          with_borrow_mut_ref peer (λ o,
            match o with
            | StActive ac =>
                drop ← should_drop node_ips client_ips ac;
                mret (if drop : bool then Some peer else None)
            | _ => mret None
            end)
      end
  end.

Fixpoint peers_to_terminate (node_ips client_ips : option (gset IpAddr))
  (cids : list ConnectionId) : MW (list rc) :=
  match cids with
  | [] => mret []
  | cid :: cids =>
      p ← peer_to_terminate node_ips client_ips cid;
      rest ← peers_to_terminate node_ips client_ips cids;
      mret match p with Some p => p :: rest | None => rest end
  end.

(** The end of [timeout]: the connections that are no longer allowed go. The
    order of [HashMap::values] is not specified, the model takes that of
    [map_to_list]. *)
Definition purge (dyn_terminate : rc → MW unit) (node_ips client_ips : option (gset IpAddr)) :
  MW unit :=
  cm ← gets w_cm;
  peers ← peers_to_terminate node_ips client_ips (map_to_list cm).*2;
  for_each dyn_terminate peers.

Definition ConfigRefresher_timeout (dyn_terminate : rc → MW unit) (self : @ConfigRefresher ENV)
  (_timer_id : Z) : MW (@ConfigRefresher ENV) :=
  r ← set_timeout REFRESH_INTERVAL_MS (rf_timer self);
  match r with
  | Err _ => ConfigRefresher_terminate self ;; mret self
  | Ok t =>
      let self := mkConfigRefresher (rf_token self) (rf_timer self) t in
      r ← io (call read_config_file);
      match r with
      | Err _ => mret self
      | Ok config =>
          let node_ips := whitelisted_node_ips config in
          let client_ips := whitelisted_client_ips config in
          c ← gets w_config;
          let '(should_refresh, c) := check_for_refresh_and_reset_modified c config in
          modify (set_config c) ;;
          if negb should_refresh || (bool_decide (node_ips = None) && bool_decide (client_ips = None))
          then mret self
          else purge dyn_terminate node_ips client_ips ;; mret self
      end
  end.

End Refresher.
