(* ===== verification/Discovery.v ===== *)
(** [src/src/service_discovery/mod.rs]: finding peers on the local network by UDP
    broadcast. *)

From stdpp Require Import base tactics list gmap.
From Stdlib Require Import ZArith Lia.
From S2P Require Import Prelude Types Env Socket ConnMap World ActiveConnection.

Definition u16_MAX : Z := 65535.

Section Discovery.
Context {ENV : Env} {UID : Type} `{!Uid UID, !Codec DiscoveryMsg}.
Abbreviation MW := (M (World UID)).
Implicit Types (self : @ServiceDiscovery ENV).

(** ** [mpsc] channels *)

(** [mpsc::channel()]: the sender and the receiver have the same name. *)
Definition channel : MW nat := λ w,
  let c := w_next_channel w in
  Done c (set_next_channel (S c) (set_channels (<[c := []]> (w_channels w)) w)).

(** [obs.send(v).is_ok()]. *)
Definition channel_send (c : nat) (v : list SocketAddr) : MW bool := λ w,
  match w_channels w !! c with
  | Some vs => Done true (set_channels (<[c := vs ++ [v]]> (w_channels w)) w)
  | None => Done false w
  end.

(** [while let Ok(v) = rx.try_recv()]: what is in the channel. *)
Definition channel_drain (c : nat) : MW (list (list SocketAddr)) := λ w,
  Done (default [] (w_channels w !! c))
    (set_channels (alter (λ _, []) c (w_channels w)) w).

(** The receiver goes out of scope. *)
Definition channel_drop (c : nat) : MW unit :=
  modify (λ w, set_channels (delete c (w_channels w)) w).

(** ** [get_socket] *)

(** The loop, with a bound on the number of ports left. *)
Fixpoint get_socket_loop (fuel : nat) (port : Z) : M net (result UdpSocket ServiceDiscoveryError) :=
  match fuel with
  | O => diverge
  | S fuel =>
      res ← call (udp_bind (SocketAddrV4 (mkIpv4Addr 0 0 0 0) port));
      if is_ok res || (port =? u16_MAX) then mret (map_err SdIo res)
      else get_socket_loop fuel (port + 1)
  end.

Definition get_socket (port : Z) : M net (result UdpSocket ServiceDiscoveryError) :=
  get_socket_loop (S (Z.to_nat (u16_MAX - port))) port.

(** ** [ServiceDiscovery] *)

Definition sd_set_listen (b : bool) (self : @ServiceDiscovery ENV) : @ServiceDiscovery ENV :=
  mkServiceDiscovery (sd_token self) (sd_socket self) (sd_remote_addr self) b
    (sd_seek_peers_req self) (sd_reply_to self) (sd_observers self) (sd_guid self).
Definition sd_set_reply_to (l : list SocketAddr) (self : @ServiceDiscovery ENV) :
  @ServiceDiscovery ENV :=
  mkServiceDiscovery (sd_token self) (sd_socket self) (sd_remote_addr self) (sd_listen self)
    (sd_seek_peers_req self) l (sd_observers self) (sd_guid self).
Definition sd_set_observers (l : list nat) (self : @ServiceDiscovery ENV) : @ServiceDiscovery ENV :=
  mkServiceDiscovery (sd_token self) (sd_socket self) (sd_remote_addr self) (sd_listen self)
    (sd_seek_peers_req self) (sd_reply_to self) l (sd_guid self).

(** [?] on an [io::Result]. *)
Definition sd_io {A} (m : M net (result A ErrorKind)) : MW (result A ServiceDiscoveryError) :=
  r ← io m; mret (map_err SdIo r).

Definition ServiceDiscovery_start (token : Token) (port : Z) :
  MW (result unit ServiceDiscoveryError) :=
  udp_socket ←? io (get_socket port);
  _ ←? sd_io (call (udp_set_broadcast udp_socket true));
  guid ← io (call random_u64);
  let remote_addr := SocketAddrV4 (mkIpv4Addr 255 255 255 255) port in
  match serialise (Request guid) with
  | None => mret (Err SdSerialisation)
  | Some seek_peers_req =>
      let service_discovery :=
        mkServiceDiscovery token udp_socket remote_addr false seek_peers_req [] [] guid in
      _ ←? sd_io (call (poll_register (EvUdp udp_socket) token ready_read));
      state ← rc_new (StServiceDiscovery service_discovery);
      insert_state token state ;;
      mret (Ok tt)
  end.

Definition set_listen (listen : bool) (self : @ServiceDiscovery ENV) : @ServiceDiscovery ENV :=
  sd_set_listen listen self.

Definition ServiceDiscovery_seek_peers (self : @ServiceDiscovery ENV) :
  MW (result unit ServiceDiscoveryError) :=
  _ ←? sd_io (call (udp_send_to (sd_socket self) (sd_seek_peers_req self) (sd_remote_addr self)));
  mret (Ok tt).

Definition register_observer (obs : nat) (self : @ServiceDiscovery ENV) : @ServiceDiscovery ENV :=
  sd_set_observers (sd_observers self ++ [obs]) self.

Definition ServiceDiscovery_terminate (self : @ServiceDiscovery ENV) : MW unit :=
  _ ← io (call (poll_deregister (EvUdp (sd_socket self))));
  remove_state (sd_token self).

Definition write_impl (self : @ServiceDiscovery ENV) :
  MW (result unit ServiceDiscoveryError * @ServiceDiscovery ENV) :=
  our_current_listeners ← gets w_listeners;
  match serialise (Response our_current_listeners) with
  | None => mret (Err SdSerialisation, self)
  | Some serialised_resp =>
      '(sent, self) ←
        match sd_reply_to self with
        | [] => mret (Ok tt, self)
        | peer_addr :: rest =>
            r ← io (call (udp_send_to (sd_socket self) serialised_resp peer_addr));
            mret match r with
                 | Ok (Some _) => (Ok tt, sd_set_reply_to rest self)
                 | Ok None => (Ok tt, sd_set_reply_to (peer_addr :: rest) self)
                 | Err k => if would_block k
                            then (Ok tt, sd_set_reply_to (peer_addr :: rest) self)
                            else (Err (SdIo k), sd_set_reply_to rest self)
                 end
        end;
      match sent with
      | Err e => mret (Err e, self)
      | Ok _ =>
          let kind := match sd_reply_to self with [] => ready_read | _ => ready_read_write end in
          r ← io (call (poll_reregister (EvUdp (sd_socket self)) (sd_token self) kind));
          mret (map_err SdIo r, self)
      end
  end.

Definition ServiceDiscovery_write (self : @ServiceDiscovery ENV) : MW (@ServiceDiscovery ENV) :=
  '(r, self) ← write_impl self;
  match r with
  | Ok _ => mret self
  | Err _ => ServiceDiscovery_terminate self ;; mret self
  end.

(** [self.observers.retain(|obs| obs.send(v.clone()).is_ok())]. *)
Fixpoint notify (observers : list nat) (v : list SocketAddr) : MW (list nat) :=
  match observers with
  | [] => mret []
  | obs :: observers =>
      ok ← channel_send obs v;
      rest ← notify observers v;
      mret (if ok : bool then obs :: rest else rest)
  end.

Definition ServiceDiscovery_read (self : @ServiceDiscovery ENV) : MW (@ServiceDiscovery ENV) :=
  r ← io (call (udp_recv_from (sd_socket self)));
  match r with
  | Ok None => mret self
  | Err Interrupted => mret self
  | Err _ => ServiceDiscovery_terminate self ;; mret self
  | Ok (Some (bytes, peer_addr)) =>
      match deserialise bytes with
      | None => mret self
      | Some (Request guid) =>
          if sd_listen self && negb (sd_guid self =? guid)
          then ServiceDiscovery_write (sd_set_reply_to (sd_reply_to self ++ [peer_addr]) self)
          else mret self
      | Some (Response peer_listeners) =>
          observers ← notify (sd_observers self) peer_listeners;
          mret (sd_set_observers observers self)
      end
  end.

Definition ServiceDiscovery_ready (self : @ServiceDiscovery ENV) (kind : Ready) :
  MW (@ServiceDiscovery ENV) :=
  if is_error kind || is_hup kind then ServiceDiscovery_terminate self ;; mret self
  else
    self ← (if is_readable kind then ServiceDiscovery_read self else mret self);
    if is_writable kind then ServiceDiscovery_write self else mret self.

(** ** Lemmas *)

Lemma notify_done observers v : ∀ w,
  NoDup observers →
  ∃ ch, notify observers v w =
        Done (filter (λ c, is_Some (w_channels w !! c)) observers) (set_channels ch w) ∧
    ∀ c, ch !! c = if decide (c ∈ observers) then (λ vs, vs ++ [v]) <$> w_channels w !! c
                   else w_channels w !! c.
Proof.
  induction observers as [|obs observers IH]; intros w Hnd.
  { exists (w_channels w). split; [by destruct w|]. intros c. by rewrite decide_False by set_solver. }
  apply NoDup_cons in Hnd as [Hobs Hnd]. cbn [notify]. unfold mbind at 1, M_bind at 1, channel_send.
  destruct (w_channels w !! obs) as [vs|] eqn:Ec; unfold mbind, M_bind.
  - destruct (IH (set_channels (<[obs := vs ++ [v]]> (w_channels w)) w) Hnd) as (ch & -> & Hch).
    exists ch. rewrite filter_cons_True by (by rewrite Ec). split.
    + cbn. do 2 f_equal. apply filter_iff_in. intros c Hc. cbn.
      by rewrite lookup_insert_ne by (intros ->; done).
    + intros c. rewrite Hch. cbn. destruct (decide (c = obs)) as [->|Hne].
      * rewrite decide_False, decide_True, lookup_insert_eq, Ec by (done || by left). done.
      * rewrite lookup_insert_ne by done. repeat case_decide; set_solver.
  - destruct (IH w Hnd) as (ch & -> & Hch). exists ch.
    rewrite filter_cons_False by (rewrite Ec; by intros []). split; [done|].
    intros c. rewrite Hch. destruct (decide (c = obs)) as [->|Hne].
    + rewrite decide_False, decide_True, Ec by (done || by left). done.
    + repeat case_decide; set_solver.
Qed.

(** All of these ports are taken: no socket can be bound to any of them. *)
Fixpoint taken (ports : list Z) (n n' : net) : Prop :=
  match ports with
  | [] => n' = n
  | port :: ports => ∃ e n1, udp_bind (SocketAddrV4 (mkIpv4Addr 0 0 0 0) port) n = (Err e, n1) ∧ taken ports n1 n'
  end.

(** ** Properties *)

(** C21: a search of the local network finds the services that listen. A service
    that receives the request of another sends its listeners' addresses to where
    the request came from, in one datagram, if it has been told to listen; a
    request of its own, or one while it does not listen, is not answered. When
    the answer arrives, every observer whose receiver is still there gets these
    addresses, and the observers that are gone are forgotten. *)
Theorem discovery_round_trip `{!CodecLaws DiscoveryMsg} a b (wa wb : World UID)
  resp addr_a addr_b len n1 n2 n3 na :
  serialise (Request (sd_guid a)) = Some (sd_seek_peers_req a) →
  udp_recv_from (sd_socket b) (w_net wb) = (Ok (Some (sd_seek_peers_req a, addr_a)), n1) →
  sd_reply_to b = [] → serialise (Response (w_listeners wb)) = Some resp →
  udp_send_to (sd_socket b) resp addr_a n1 = (Ok (Some len), n2) →
  poll_reregister (EvUdp (sd_socket b)) (sd_token b) ready_read n2 = (Ok tt, n3) →
  udp_recv_from (sd_socket a) (w_net wa) = (Ok (Some (resp, addr_b)), na) →
  NoDup (sd_observers a) →
  ServiceDiscovery_read b wb =
    Done b (set_net (if sd_listen b && negb (sd_guid b =? sd_guid a) then n3 else n1) wb) ∧
  ∃ ch, ServiceDiscovery_read a wa =
    Done (sd_set_observers (filter (λ c, is_Some (w_channels wa !! c)) (sd_observers a)) a)
         (set_channels ch (set_net na wa)) ∧
    ∀ c, ch !! c = if decide (c ∈ sd_observers a)
                   then (λ found, found ++ [w_listeners wb]) <$> w_channels wa !! c
                   else w_channels wa !! c.
Proof.
  intros Hreq Hrb Hre Hresp Hsend Hpoll Hra Hnd. split.
  - unfold ServiceDiscovery_read, mbind at 1, M_bind at 1, io at 1, zoom, call. rewrite Hrb.
    rewrite (deserialise_whole _ _ Hreq). destruct (sd_listen b && _); [|done].
    unfold ServiceDiscovery_write, write_impl, mbind, M_bind, gets. cbn -[serialise].
    rewrite Hresp, Hre. cbn. unfold io, zoom, call. cbn. rewrite Hsend. cbn. rewrite Hpoll. cbn.
    f_equal. destruct b; cbn in Hre; by subst.
  - unfold ServiceDiscovery_read, mbind at 1, M_bind at 1, io at 1, zoom, call. rewrite Hra.
    rewrite (deserialise_whole _ _ Hresp). unfold mbind, M_bind.
    destruct (notify_done (sd_observers a) (w_listeners wb) (set_net na wa) Hnd) as (ch & -> & Hch).
    exists ch. by split.
Qed.

(** C24: the search for a free port ends. From any port, [get_socket] tries the
    ports one after the other, each once and in order, until one can be had or the
    last one, 65535, has been tried; it always returns, never goes beyond that
    port, and its result is that of the last attempt: a socket bound to the first
    port that is free, or the error of the last port if none is. *)
Theorem get_socket_finds (port : Z) (n : net) :
  0 ≤ port ≤ u16_MAX →
  ∃ last n1 r n2, port ≤ last ≤ u16_MAX ∧ taken (seqZ port (last - port)) n n1 ∧
    udp_bind (SocketAddrV4 (mkIpv4Addr 0 0 0 0) last) n1 = (r, n2) ∧ (is_ok r = true ∨ last = u16_MAX) ∧
    get_socket port n = Done (map_err SdIo r) n2.
Proof.
  intros Hport. unfold get_socket. remember (Z.to_nat (u16_MAX - port)) as k eqn:Hk.
  revert port n Hport Hk. induction k as [|k IH]; intros port n Hport Hk; cbn [get_socket_loop];
    unfold mbind, M_bind, call; destruct (udp_bind _ n) as [r n1] eqn:Hb.
  - exists port, n, r, n1. rewrite Z.sub_diag. assert (port = u16_MAX) as -> by lia.
    rewrite Z.eqb_refl, orb_true_r. by split_and!; [lia|lia|..|right|].
  - destruct (is_ok r) eqn:Hok; cbn [orb].
    { exists port, n, r, n1. rewrite Z.sub_diag. by split_and!; [lia|lia|..|left|]. }
    destruct (Z.eqb_spec port u16_MAX) as [->|Hne]; [lia|].
    destruct (IH (port + 1) n1) as (last & n2 & r2 & n3 & Hle & Ht & Hlast & Hor & Hrun); [lia|lia|].
    exists last, n2, r2, n3. split; [lia|]. split; [|done].
    rewrite seqZ_cons by lia. destruct r as [|e]; [done|]. exists e, n1. split; [done|].
    by replace (Z.pred (last - port)) with (last - (port + 1)) by lia.
Qed.

End Discovery.

Module DiscoveryWitness.

#[local] Instance wenv : Env := Script.env true false.
#[local] Existing Instance Script.disc_codec.
#[local] Existing Instance Script.disc_codec_laws.

Definition udp0 : @UdpSocket wenv := 0%nat.
Definition calm : @net wenv := Script.quiet.
Definition everyone : SocketAddr := SocketAddrV4 (mkIpv4Addr 255 255 255 255) 5484.

(** The service with the guid 4 searches, the one with the guid 5 listens. *)
Definition seeker : @ServiceDiscovery wenv :=
  mkServiceDiscovery 1 udp0 everyone false [Byte.x00; Byte.x04] [] [0%nat; 1%nat] 4.
Definition listening : @ServiceDiscovery wenv :=
  mkServiceDiscovery 1 udp0 everyone true [Byte.x00; Byte.x05] [] [] 5.
Definition receives (bs : list byte) (from : SocketAddr) : @net wenv :=
  Script.set_datagrams [Ok (Some (bs, from))] calm.
Definition world (n : @net wenv) : World Z := Core_new 4 n (ConfigWrapper_new Config_default).
Definition wa : World Z :=
  set_channels {[ 0%nat := [] ]} (world (receives [Byte.x02; Byte.x09] (Script.host Byte.x02))).
Definition wb : World Z :=
  set_listeners [Script.host Byte.x09]
    (world (receives [Byte.x00; Byte.x04] (Script.host Byte.x01))).

Lemma discovery_round_trip_witness :
  ServiceDiscovery_read listening wb = Done listening (set_net calm wb) ∧
  ∃ ch, ServiceDiscovery_read seeker wa =
    Done (sd_set_observers [0%nat] seeker) (set_channels ch (set_net calm wa)) ∧
    ch !! 0%nat = Some [[Script.host Byte.x09]].
Proof.
  destruct (discovery_round_trip seeker listening wa wb [Byte.x02; Byte.x09]
    (Script.host Byte.x01) (Script.host Byte.x02) 2 calm calm calm calm) as (Hb & ch & Ha & Hch);
    try reflexivity.
  { apply NoDup_cons. split; [by intros ?%list_elem_of_singleton|apply NoDup_singleton]. }
  split; [exact Hb|]. exists ch. split; [exact Ha|]. exact (Hch 0%nat).
Defined.

(** The ports 65533 and 65534 are taken; and so are all from 65534 on. *)
Definition busy : @net wenv := Script.set_builds [Err OtherKind; Err OtherKind] calm.

Lemma get_socket_finds_witness :
  get_socket 65533 busy = Done (Ok udp0) calm ∧ get_socket 65534 busy = Done (Err (SdIo OtherKind)) calm ∧
  ∃ last, 65533 ≤ last ≤ 65535 ∧ ∃ n1, taken (seqZ 65533 (last - 65533)) busy n1.
Proof.
  split; [vm_compute; reflexivity|]. split; [vm_compute; reflexivity|].
  destruct (get_socket_finds 65533 busy ltac:(by vm_compute)) as (last & n1 & _ & _ & Hl & Ht & _).
  exists last. split; [exact Hl|]. exists n1. exact Ht.
Defined.

End DiscoveryWitness.
