(* ===== verification/Bootstrap.v ===== *)
(** [src/src/main/bootstrap]: joining the network through any of the known
    contacts, and through the peers found by service discovery. *)

From stdpp Require Import base tactics list gmap strings.
From Stdlib Require Import ZArith Lia.
From S2P Require Import Prelude Types Env Socket ConnMap World ActiveConnection Discovery.

Definition BOOTSTRAP_TIMEOUT_MS : Z := 10 * 1000.
Definition SERVICE_DISCOVERY_TIMEOUT_MS : Z := 1 * 1000.
Definition BOOTSTRAP_TIMER_ID : Z := 0.
Definition SERVICE_DISCOVERY_TIMER_ID : Z := BOOTSTRAP_TIMER_ID + 1.

(** ** [cache.rs] *)

Section Cache.
Context {ENV : Env}.

Definition get_default_file_name : M net (result string CrustError) :=
  name ←? call exe_file_stem;
  mret (Ok (name ++ ".bootstrap.cache")%string).

Definition Cache_new (name : option string) : M net (result FileHandler CrustError) :=
  name ←? match name with
          | Some name => mret (Ok name)
          | None => get_default_file_name
          end;
  call (file_handler_new name).

Definition Cache_read_file (cache : FileHandler) : M net (list SocketAddr) :=
  r ← call (file_handler_read cache);
  mret (default [] (result_ok r)).

End Cache.

(** ** [try_peer.rs] *)

Section TryPeer.
Context {ENV : Env} {UID : Type} `{!Uid UID, !Codec (Message UID)}.
Abbreviation MW := (M (World UID)).
Implicit Types (self : TryPeer UID).

(** What a [TryPeer] reports: the granted connection, or the bad peer. *)
Definition TryResult : Type :=
  result (Socket * SocketAddr * UID) (SocketAddr * option BootstrapDenyReason).

Definition tp_set_socket (s : Socket) (self : TryPeer UID) : TryPeer UID :=
  mkTryPeer (tp_token self) (tp_peer self) s (tp_request self) (tp_finish self).
Definition tp_set_request (r : option (Message UID * Priority)) (self : TryPeer UID) :
  TryPeer UID :=
  mkTryPeer (tp_token self) (tp_peer self) (tp_socket self) r (tp_finish self).

Definition TryPeer_start (peer : SocketAddr) (our_uid : UID) (name_hash : NameHash)
  (ext_reachability : ExternalReachability) (finish : rc) : MW (result Token CrustError) :=
  r ← io (Socket_connect peer);
  match r with
  | Err e => mret (Err (Common e))
  | Ok socket =>
      token ← get_new_token;
      r ← io (Socket_register socket token ready_write);
      match r with
      | Err e => mret (Err (CrustIo e))
      | Ok _ =>
          state ← rc_new (StTryPeer (mkTryPeer token peer socket
                    (Some (BootstrapRequest our_uid name_hash ext_reachability, 0)) finish));
          insert_state token state ;;
          mret (Ok token)
      end
  end.

Definition TryPeer_terminate (self : TryPeer UID) : MW unit :=
  remove_state (tp_token self) ;;
  _ ← io (Socket_deregister (tp_socket self));
  mret tt.

(** [finish] runs the closure that calls [Bootstrap::handle_result]. *)
Section Finish.
Variable finish : rc → Token → TryResult → MW unit.

Definition TryPeer_handle_error (self : TryPeer UID) (reason : option BootstrapDenyReason) :
  MW (TryPeer UID) :=
  TryPeer_terminate self ;;
  finish (tp_finish self) (tp_token self) (Err (tp_peer self, reason)) ;;
  mret self.

Definition TryPeer_write (self : TryPeer UID) (msg : option (Message UID * Priority)) :
  MW (TryPeer UID) :=
  '(r, s) ← io (Socket_write (tp_socket self) (tp_token self) msg);
  let self := tp_set_socket s self in
  match r with
  | Ok _ => mret self
  | Err _ => TryPeer_handle_error self None
  end.

Definition TryPeer_read (self : TryPeer UID) : MW (TryPeer UID) :=
  '(r, s) ← io (Socket_read (T:=Message UID) (tp_socket self));
  let self := tp_set_socket s self in
  match r with
  | Ok (Some (BootstrapGranted peer_uid)) =>
      remove_state (tp_token self) ;;
      let socket := tp_socket self in
      let self := tp_set_socket Socket_default self in
      finish (tp_finish self) (tp_token self) (Ok (socket, tp_peer self, peer_uid)) ;;
      mret self
  | Ok (Some (BootstrapDenied reason)) => TryPeer_handle_error self (Some reason)
  | Ok None => mret self
  | Ok (Some _) | Err _ => TryPeer_handle_error self None
  end.

Definition TryPeer_ready (self : TryPeer UID) (kind : Ready) : MW (TryPeer UID) :=
  if is_error kind then TryPeer_handle_error self None
  else if is_writable kind || is_readable kind
  then
    self ← (if is_writable kind
            then let req := tp_request self in TryPeer_write (tp_set_request None self) req
            else mret self);
    if is_readable kind then TryPeer_read self else mret self
  else TryPeer_handle_error self None.

End Finish.
End TryPeer.

Arguments TryResult {ENV} UID.

(** ** [mod.rs] *)

Section Bootstrap.
Context {ENV : Env} {UID : Type} `{!Uid UID, !Codec (Message UID), !Codec DiscoveryMsg}.
Abbreviation MW := (M (World UID)).
Implicit Types (self : Bootstrap UID).

Definition bs_set_peers (l : list SocketAddr) (self : Bootstrap UID) : Bootstrap UID :=
  mkBootstrap (bs_token self) l (bs_blacklist self) (bs_name_hash self)
    (bs_ext_reachability self) (bs_our_uid self) (bs_sd_meta self) (bs_timer self)
    (bs_timeout self) (bs_cache self) (bs_children self) (bs_self_weak self).
Definition bs_set_sd_meta (m : option ServiceDiscMeta) (self : Bootstrap UID) : Bootstrap UID :=
  mkBootstrap (bs_token self) (bs_peers self) (bs_blacklist self) (bs_name_hash self)
    (bs_ext_reachability self) (bs_our_uid self) m (bs_timer self)
    (bs_timeout self) (bs_cache self) (bs_children self) (bs_self_weak self).
Definition bs_set_children (c : gset Token) (self : Bootstrap UID) : Bootstrap UID :=
  mkBootstrap (bs_token self) (bs_peers self) (bs_blacklist self) (bs_name_hash self)
    (bs_ext_reachability self) (bs_our_uid self) (bs_sd_meta self) (bs_timer self)
    (bs_timeout self) (bs_cache self) c (bs_self_weak self).

Definition as_bootstrap (f : Bootstrap UID → MW (Bootstrap UID)) (o : StateObj UID) :
  MW (StateObj UID) :=
  match o with
  | StBootstrap self => self' ← f self; mret (StBootstrap self')
  | _ => throw IllTyped
  end.

(** The block of [seek_peers] in which the [ServiceDiscovery] is borrowed. *)
Definition seek_borrowed (obs : nat) (self : @ServiceDiscovery ENV) (token : Token) :
  MW (result Timeout CrustError * @ServiceDiscovery ENV) :=
  let self := register_observer obs self in
  r ← ServiceDiscovery_seek_peers self;
  match r with
  | Err e => mret (Err (ServiceDisc e), self)
  | Ok _ =>
      r ← set_timeout SERVICE_DISCOVERY_TIMEOUT_MS (mkCoreTimer token SERVICE_DISCOVERY_TIMER_ID);
      mret (map_err Common r, self)
  end.

(** A borrow whose body also returns a value. *)
Definition with_borrow_mut_val {A} (r : rc) (f : StateObj UID → MW (A * StateObj UID)) : MW A :=
  b ← gets (λ w, w_borrows w !! r);
  match b with
  | Some _ => throw BorrowError
  | None =>
      modify (λ w, set_borrows (<[r := Writing]> (w_borrows w)) w) ;;
      cell ← gets (λ w, w_heap w !! r);
      o ← deref cell;
      '(a, o') ← f o;
      modify (λ w, set_borrows (delete r (w_borrows w)) (set_heap (<[r := o']> (w_heap w)) w)) ;;
      mret a
  end.

Definition seek_peers (service_discovery_token token : Token) :
  MW (result (nat * Timeout) CrustError) :=
  state ← get_state service_discovery_token;
  match state with
  | None => mret (Err ServiceDiscNotEnabled)
  | Some state =>
      '(obs, r) ← with_borrow_mut_val state (λ o,
        match o with
        | StServiceDiscovery sd =>
            obs ← channel;
            '(r, sd) ← seek_borrowed obs sd token;
            mret ((obs, r), StServiceDiscovery sd)
        | _ => throw UnwrapNone
        end);
      match r with
      | Ok timeout => mret (Ok (obs, timeout))
      | Err e => channel_drop obs ;; mret (Err e)
      end
  end.

(** [dyn_terminate r] is [r.borrow_mut().terminate(core, poll)] on a state of
    any kind. *)
Section Terminate.
Variable dyn_terminate : rc → MW unit.

Definition Bootstrap_terminate_children (self : Bootstrap UID) : MW (Bootstrap UID) :=
  for_each (λ child,
    state ← get_state child;
    match state with
    | Some state => dyn_terminate state
    | None => mret tt
    end) (elements (bs_children self)) ;;
  mret (bs_set_children ∅ self).

Definition Bootstrap_terminate (self : Bootstrap UID) : MW (Bootstrap UID) :=
  self ← Bootstrap_terminate_children self;
  self ← match bs_sd_meta self with
         | Some sd_meta =>
             _ ← cancel_timeout (sd_timeout sd_meta);
             channel_drop (sd_rx sd_meta) ;;
             mret (bs_set_sd_meta None self)
         | None => mret self
         end;
  remove_state (bs_token self) ;;
  _ ← cancel_timeout (bs_timeout self);
  mret self.

Definition Bootstrap_maybe_terminate (self : Bootstrap UID) : MW (Bootstrap UID) :=
  if bool_decide (bs_children self = ∅)
  then
    self ← Bootstrap_terminate self;
    send_event BootstrapFailed ;;
    mret self
  else mret self.

(** The loop over the peers. *)
Definition try_peer (self : Bootstrap UID) (peer : SocketAddr) : MW (Bootstrap UID) :=
  r ← TryPeer_start peer (bs_our_uid self) (bs_name_hash self) (bs_ext_reachability self)
        (bs_self_weak self);
  mret match r with
       | Ok child => bs_set_children ({[child]} ∪ bs_children self) self
       | Err _ => self
       end.

Definition begin_bootstrap (self : Bootstrap UID) : MW (Bootstrap UID) :=
  let peers := bs_peers self in
  let self := bs_set_peers [] self in
  let peers := List.filter (λ addr, negb (bool_decide (addr ∈ bs_blacklist self))) peers in
  if bool_decide (peers = [])
  then
    send_event BootstrapFailed ;;
    Bootstrap_terminate self
  else
    peers ← io (call (shuffle peers));
    self ← fold_loop try_peer self peers;
    Bootstrap_maybe_terminate self.

Definition is_err_fatal (reason : BootstrapDenyReason) : bool :=
  match reason with
  | InvalidNameHash | FailedExternalReachability => true
  | NodeNotWhitelisted | ClientNotWhitelisted => false
  end.

(** [Cache::remove_peer_acceptor] does nothing. *)
Definition Bootstrap_handle_result (self : Bootstrap UID) (child : Token) (res : TryResult UID) :
  MW (Bootstrap UID) :=
  let self := bs_set_children (bs_children self ∖ {[child]}) self in
  match res with
  | Ok (socket, peer_addr, peer_id) =>
      self ← Bootstrap_terminate self;
      ActiveConnection_start child socket (bs_our_uid self) peer_id Node
        (BootstrapConnect peer_id peer_addr) ;;
      mret self
  | Err (bad_peer, Some reason) =>
      if is_err_fatal reason
      then
        self ← Bootstrap_terminate self;
        send_event BootstrapFailed ;;
        mret self
      else Bootstrap_maybe_terminate self
  | Err (bad_peer, None) => Bootstrap_maybe_terminate self
  end.

Definition Bootstrap_timeout (self : Bootstrap UID) (timer_id : Z) : MW (Bootstrap UID) :=
  if timer_id =? Types.timer_id (bs_timer self)
  then send_event BootstrapFailed ;; Bootstrap_terminate self
  else
    sd_meta ← unwrap (bs_sd_meta self);
    let self := bs_set_sd_meta None self in
    listeners ← channel_drain (sd_rx sd_meta);
    let self := bs_set_peers (bs_peers self ++ concat listeners) self in
    self ← begin_bootstrap self;
    channel_drop (sd_rx sd_meta) ;;
    mret self.

Definition Bootstrap_start (name_hash : NameHash) (ext_reachability : ExternalReachability)
  (our_uid : UID) (blacklist : gset SocketAddr) (token service_discovery_token : Token) :
  MW (result unit CrustError) :=
  config ← gets w_config;
  cache ←? io (Cache_new (bootstrap_cache_name (cfg config)));
  contacts ← io (Cache_read_file cache);
  let peers := contacts ++ hard_coded_contacts (cfg config) in
  let bs_timer := mkCoreTimer token BOOTSTRAP_TIMER_ID in
  r ← set_timeout BOOTSTRAP_TIMEOUT_MS bs_timer;
  match r with
  | Err e => mret (Err (Common e))
  | Ok bs_timeout =>
      r ← seek_peers service_discovery_token token;
      let start sd_meta : MW (result unit CrustError) :=
        self_weak ← gets w_next_rc;
        state ← rc_new (StBootstrap (mkBootstrap token peers blacklist name_hash ext_reachability
                  our_uid sd_meta bs_timer bs_timeout cache ∅ self_weak));
        insert_state token state ;;
        (if bool_decide (sd_meta = None)
         then with_borrow_mut state (as_bootstrap begin_bootstrap)
         else mret tt) ;;
        mret (Ok tt) in
      match r with
      | Ok (rx, timeout) => start (Some (mkServiceDiscMeta rx timeout))
      | Err ServiceDiscNotEnabled => start None
      | Err e => mret (Err e)
      end
  end.

End Terminate.
End Bootstrap.
