(* ===== verification/IfAddrs.v ===== *)
(** [src/src/common/get_if_addrs.rs]: the addresses of the host's interfaces,
    from the tables of the operating system, and [src/src/nat/mapping_context.rs],
    which looks for a gateway behind each. *)

From stdpp Require Import base tactics list strings.
From Stdlib Require Import ZArith Lia.
From S2P Require Import Prelude Types Env Socket ConnMap World NatUtil.

(** ** Conversion of a [sockaddr] *)

(** [s_addr >> k & 255] as a [u8]. *)
Definition s_addr_octet (s_addr k : Z) : Z := Z.land (Z.shiftr s_addr k) 255.

Definition s_addr_v4 (s_addr : Z) : Ipv4Addr :=
  mkIpv4Addr (s_addr_octet s_addr 0) (s_addr_octet s_addr 8) (s_addr_octet s_addr 16)
    (s_addr_octet s_addr 24).

(** [s6_addr[i]]. *)
Definition s6_byte (s6_addr : list byte) (i : nat) : Z := Z_of_byte (nth i s6_addr Byte.x00).

(** [(s6_addr[i] as u16 & 255) << 8 | s6_addr[i + 1] as u16]. *)
Definition s6_word (s6_addr : list byte) (i : nat) : Z :=
  Z.lor (Z.shiftl (Z.land (s6_byte s6_addr i) 255) 8) (s6_byte s6_addr (S i)).

Definition s6_v6 (s6_addr : list byte) : Ipv6Addr :=
  mkIpv6Addr (s6_word s6_addr 0) (s6_word s6_addr 2) (s6_word s6_addr 4) (s6_word s6_addr 6)
    (s6_word s6_addr 8) (s6_word s6_addr 10) (s6_word s6_addr 12) (s6_word s6_addr 14).

(** Addresses fe80:: are ignored. *)
Definition s6_is_link_local (s6_addr : list byte) : bool :=
  (s6_byte s6_addr 0 =? 0xfe) && (s6_byte s6_addr 1 =? 0x80).

(** [getifaddrs_posix::sockaddr_to_ipaddr]. *)
Definition sockaddr_to_ipaddr (sa : option sockaddr) : option IpAddr :=
  match sa with
  | None => None
  | Some (SaInet s_addr) => Some (V4 (s_addr_v4 s_addr))
  | Some (SaInet6 s6_addr) =>
      if s6_is_link_local s6_addr then None else Some (V6 (s6_v6 s6_addr))
  | Some SaOther => None
  end.

(** [getifaddrs_windows::sockaddr_to_ipaddr], which ignores 169.254.x.x too. *)
Definition win_sockaddr_to_ipaddr (sa : option sockaddr) : option IpAddr :=
  match sa with
  | None => None
  | Some (SaInet s_un) =>
      if Z.land s_un 65535 =? 0xfea9 then None else Some (V4 (s_addr_v4 s_un))
  | Some (SaInet6 s6_addr) =>
      if s6_is_link_local s6_addr then None else Some (V6 (s6_v6 s6_addr))
  | Some SaOther => None
  end.

Definition v4_zero : Ipv4Addr := mkIpv4Addr 0 0 0 0.
Definition v6_zero : Ipv6Addr := mkIpv6Addr 0 0 0 0 0 0 0 0.

(** ** [getifaddrs_posix] *)

Definition do_broadcast (ifaddr : posix_ifaddrs) : option IpAddr :=
  sockaddr_to_ipaddr (ifa_ifu ifaddr).

(** The body of the loop over the list. *)
Definition posix_interface (ifaddr : posix_ifaddrs) : option Interface :=
  match ifa_addr ifaddr with
  | None => None
  | Some _ =>
      let name := ifa_name ifaddr in
      let has_broadcast := negb (Z.land (ifa_flags ifaddr) 2 =? 0) in
      match sockaddr_to_ipaddr (ifa_addr ifaddr) with
      | None => None
      | Some (V4 ipv4_addr) =>
          let netmask := match sockaddr_to_ipaddr (ifa_netmask ifaddr) with
                         | Some (V4 netmask) => netmask
                         | _ => v4_zero
                         end in
          let broadcast :=
            if has_broadcast
            then match do_broadcast ifaddr with
                 | Some (V4 broadcast) => Some broadcast
                 | _ => None
                 end
            else None in
          Some (mkInterface name (IfV4 (mkIfv4Addr ipv4_addr netmask broadcast)))
      | Some (V6 ipv6_addr) =>
          let netmask := match sockaddr_to_ipaddr (ifa_netmask ifaddr) with
                         | Some (V6 netmask) => netmask
                         | _ => v6_zero
                         end in
          let broadcast :=
            if has_broadcast
            then match do_broadcast ifaddr with
                 | Some (V6 broadcast) => Some broadcast
                 | _ => None
                 end
            else None in
          Some (mkInterface name (IfV6 (mkIfv6Addr ipv6_addr netmask broadcast)))
      end
  end.

(** ** [getifaddrs_windows]: the search for a prefix *)

(** The loop over the bits of one element of the address: [w] bits, of which the
    [m]-th of the [n]-th element is compared unless it is beyond the prefix.
    [None] is [continue 'prefixloop]. *)
Fixpoint mask_bits (w n len x y : Z) (ms : list Z) (elt : Z) : option Z :=
  match ms with
  | [] => Some elt
  | m :: ms =>
      if (n * w) + m >? len then Some elt
      else
        let bit := Z.shiftl 1 m in
        if Z.land x bit =? Z.land y bit
        then mask_bits w n len x y ms (Z.lor elt bit)
        else None
  end.

(** The loop over the elements: [count] of them, the others stay zero. *)
Fixpoint mask_elts (w len : Z) (count : nat) (n : Z) (xs ys : list Z) : option (list Z) :=
  match xs, ys with
  | x :: xs, y :: ys =>
      match count with
      | O => rest ← mask_elts w len O (n + 1) xs ys; Some (0 :: rest)
      | S count =>
          elt ← mask_bits w n len x y (seqZ 0 w) 0;
          rest ← mask_elts w len count (n + 1) xs ys;
          Some (elt :: rest)
      end
  | _, _ => Some []
  end.

(** The netmask for a prefix of [len] bits, if the address [xs] matches the
    prefix's address [ys]; [take((len + w - 1) / w)]. *)
Definition prefix_netmask (w len : Z) (xs ys : list Z) : option (list Z) :=
  mask_elts w len (Z.to_nat ((len + (w - 1)) / w)) 0 xs ys.

Definition v4_octets (a : Ipv4Addr) : list Z := [v4_a a; v4_b a; v4_c a; v4_d a].
Definition v4_of_octets (l : list Z) : Ipv4Addr :=
  mkIpv4Addr (nth 0 l 0) (nth 1 l 0) (nth 2 l 0) (nth 3 l 0).
Definition v6_segments (a : Ipv6Addr) : list Z :=
  [v6_0 a; v6_1 a; v6_2 a; v6_3 a; v6_4 a; v6_5 a; v6_6 a; v6_7 a].
Definition v6_of_segments (l : list Z) : Ipv6Addr :=
  mkIpv6Addr (nth 0 l 0) (nth 1 l 0) (nth 2 l 0) (nth 3 l 0)
    (nth 4 l 0) (nth 5 l 0) (nth 6 l 0) (nth 7 l 0).

(** [broadcast[n] |= !netmask[n]] on [u8]. *)
Definition v4_broadcast (ip netmask : list Z) : list Z :=
  zip_with (λ b m, Z.lor b (Z.land (Z.lnot m) 255)) ip netmask.

(** ['prefixloopv4]. *)
Fixpoint v4_prefix_loop (ip : Ipv4Addr) (prefixes : list IpAdapterPrefix) :
  Ipv4Addr * option Ipv4Addr :=
  match prefixes with
  | [] => (v4_zero, None)
  | prefix :: prefixes =>
      match win_sockaddr_to_ipaddr (pf_address prefix) with
      | Some (V4 a) =>
          match prefix_netmask 8 (prefix_length prefix) (v4_octets ip) (v4_octets a) with
          | Some netmask =>
              (v4_of_octets netmask, Some (v4_of_octets (v4_broadcast (v4_octets ip) netmask)))
          | None => v4_prefix_loop ip prefixes
          end
      | _ => v4_prefix_loop ip prefixes
      end
  end.

(** ['prefixloopv6]. *)
Fixpoint v6_prefix_loop (ip : Ipv6Addr) (prefixes : list IpAdapterPrefix) : Ipv6Addr :=
  match prefixes with
  | [] => v6_zero
  | prefix :: prefixes =>
      match win_sockaddr_to_ipaddr (pf_address prefix) with
      | Some (V6 a) =>
          match prefix_netmask 16 (prefix_length prefix) (v6_segments ip) (v6_segments a) with
          | Some netmask => v6_of_segments netmask
          | None => v6_prefix_loop ip prefixes
          end
      | _ => v6_prefix_loop ip prefixes
      end
  end.

(** The body of the loop over the addresses of an adapter. *)
Definition win_interface (ifaddr : IpAdapterAddresses) (addr : option sockaddr) :
  option Interface :=
  let name := adapter_name ifaddr in
  match win_sockaddr_to_ipaddr addr with
  | None => None
  | Some (V4 ipv4_addr) =>
      let '(item_netmask, item_broadcast) := v4_prefix_loop ipv4_addr (prefixes ifaddr) in
      Some (mkInterface name (IfV4 (mkIfv4Addr ipv4_addr item_netmask item_broadcast)))
  | Some (V6 ipv6_addr) =>
      Some (mkInterface name (IfV6 (mkIfv6Addr ipv6_addr (v6_prefix_loop ipv6_addr (prefixes ifaddr))
        None)))
  end.

Definition win_interfaces (ifaddrs : list IpAdapterAddresses) : list Interface :=
  ifaddrs ≫= λ ifaddr, omap (win_interface ifaddr) (unicast_addresses ifaddr).

(** ** The calls *)

Section Calls.
Context {ENV : Env}.

Definition posix_get_if_addrs : M net (result (list Interface) ErrorKind) :=
  r ← call getifaddrs;
  match r with
  | Err e => mret (Err e)
  | Ok ifaddrs =>
      let ret := omap posix_interface ifaddrs in
      call freeifaddrs ;;
      mret (Ok ret)
  end.

(** [c_ulong *= 2]: 32 bits on Windows. *)
Definition ulong_double (size : Z) : M net Z :=
  if size * 2 <? u32_modulus then mret (size * 2)
  else if overflow_checks then throw ArithOverflow else mret (size * 2 mod u32_modulus).

(** The loop that finds a buffer large enough. *)
Fixpoint win_table (fuel : nat) (buffersize : Z) :
  M net (result (list IpAdapterAddresses) ErrorKind) :=
  match fuel with
  | O => diverge
  | S fuel =>
      allocated ← call (libc_malloc buffersize);
      if negb allocated then throw ExplicitPanic
      else
        '(retcode, buffersize, table) ← call (GetAdaptersAddresses buffersize);
        if retcode =? 0 then mret (Ok table)
        else if retcode =? 111
        then
          call libc_free ;;
          buffersize ← ulong_double buffersize;
          win_table fuel buffersize
        else e ← call last_os_error; mret (Err e)
  end.

Definition win_get_if_addrs : M net (result (list Interface) ErrorKind) :=
  r ← win_table loop_fuel 15000;
  match r with
  | Err e => mret (Err e)
  | Ok ifaddrs =>
      let ret := win_interfaces ifaddrs in
      call libc_free ;;
      mret (Ok ret)
  end.

Definition get_if_addrs : M net (result (list Interface) ErrorKind) :=
  if target_unix then posix_get_if_addrs else win_get_if_addrs.

(** ** [MappingContext] *)

Record MappingContext := mkMappingContext {
  our_ifv4s : list (Ipv4Addr * option Gateway);
  our_ifv6s : list Ipv6Addr;
  peer_stuns : list SocketAddr
}.

Definition if_v4 (i : Interface) : option Ipv4Addr :=
  match if_addr i with IfV4 a => Some (if4_ip a) | IfV6 _ => None end.
Definition if_v6 (i : Interface) : option Ipv6Addr :=
  match if_addr i with IfV4 _ => None | IfV6 a => Some (if6_ip a) end.

(** The threads of the scope, each of which writes the gateway of its own entry;
    the scope ends when all of them have. *)
Fixpoint search_gateways (ifv4s : list Ipv4Addr) : M net (list (Ipv4Addr * option Gateway)) :=
  match ifv4s with
  | [] => mret []
  | ip :: ifv4s =>
      gateway ← (if negb (v4_is_loopback ip)
                 then r ← call (search_gateway ip 1000); mret (result_ok r)
                 else mret None);
      rest ← search_gateways ifv4s;
      mret ((ip, gateway) :: rest)
  end.

Definition MappingContext_new : M net (result MappingContext NatError) :=
  ifs ←? nat_io get_if_addrs;
  ifv4s ← search_gateways (omap if_v4 ifs);
  mret (Ok (mkMappingContext ifv4s (omap if_v6 ifs) [])).

Definition add_peer_stuns (stun_addrs : list SocketAddr) (mc : MappingContext) : MappingContext :=
  let listeners := List.filter (λ elt, ip_addr_is_global (sa_ip elt)) stun_addrs in
  mkMappingContext (our_ifv4s mc) (our_ifv6s mc) (peer_stuns mc ++ listeners).

End Calls.

(** ** Lemmas: bits *)

Lemma land_bit x m : 0 ≤ m → Z.land x (Z.shiftl 1 m) = if Z.testbit x m then 2 ^ m else 0.
Proof.
  intros Hm. rewrite Z.shiftl_1_l. apply Z.bits_inj'. intros i Hi.
  rewrite Z.land_spec, Z.pow2_bits_eqb by done.
  destruct (Z.eqb_spec m i) as [->|Hne].
  - rewrite andb_true_r. destruct (Z.testbit x i) eqn:E; [by rewrite Z.pow2_bits_true|apply eq_sym, Z.bits_0].
  - rewrite andb_false_r. destruct (Z.testbit x m); [by rewrite Z.pow2_bits_false|by rewrite Z.bits_0].
Qed.

Lemma land_bit_eqb x y m :
  0 ≤ m → (Z.land x (Z.shiftl 1 m) =? Z.land y (Z.shiftl 1 m)) = Bool.eqb (Z.testbit x m) (Z.testbit y m).
Proof.
  intros Hm. rewrite !land_bit by done. assert (0 < 2 ^ m) by lia.
  destruct (Z.testbit x m), (Z.testbit y m); cbn [Bool.eqb]; rewrite ?Z.eqb_refl; try done;
    apply Z.eqb_neq; lia.
Qed.

Lemma lor_next_bit m : 0 ≤ m → Z.lor (2 ^ m - 1) (Z.shiftl 1 m) = 2 ^ (m + 1) - 1.
Proof.
  intros Hm. rewrite Z.shiftl_1_l.
  apply Z.bits_inj'. intros i Hi.
  replace (2 ^ m - 1) with (Z.ones m) by (rewrite Z.ones_equiv; lia).
  replace (2 ^ (m + 1) - 1) with (Z.ones (m + 1)) by (rewrite Z.ones_equiv; lia).
  rewrite Z.lor_spec, Z.pow2_bits_eqb by done.
  destruct (Z.eqb_spec m i) as [->|Hne].
  - rewrite orb_true_r, Z.ones_spec_low by lia. done.
  - rewrite orb_false_r. destruct (Z.lt_ge_cases i m).
    + by rewrite !Z.ones_spec_low by lia.
    + by rewrite !Z.ones_spec_high by lia.
Qed.

Lemma testbit_small_eq w x y :
  0 ≤ w → 0 ≤ x < 2 ^ w → 0 ≤ y < 2 ^ w →
  (∀ m, 0 ≤ m < w → Z.testbit x m = Z.testbit y m) → x = y.
Proof.
  intros Hw Hx Hy Hb. apply Z.bits_inj'. intros m Hm. destruct (Z.lt_ge_cases m w).
  - by apply Hb.
  - rewrite <- (Z.mod_small x (2 ^ w)), <- (Z.mod_small y (2 ^ w)) by done.
    by rewrite !Z.mod_pow2_bits_high by lia.
Qed.

(** ** Lemmas: the search for a prefix *)

Definition same_bit (x y m : Z) : bool := Bool.eqb (Z.testbit x m) (Z.testbit y m).

(** An element all of whose bits are in the prefix. *)
Lemma mask_bits_whole w n len x y k : ∀ m0,
  0 ≤ m0 → n * w + m0 + Z.of_nat k - 1 ≤ len →
  mask_bits w n len x y (seqZ m0 (Z.of_nat k)) (2 ^ m0 - 1) =
  if forallb (same_bit x y) (seqZ m0 (Z.of_nat k)) then Some (2 ^ (m0 + Z.of_nat k) - 1) else None.
Proof.
  induction k as [|k IH]; intros m0 Hm Hlen.
  { cbn. by rewrite Z.add_0_r. }
  rewrite seqZ_cons by lia. replace (Z.pred (Z.of_nat (S k))) with (Z.of_nat k) by lia.
  cbn [mask_bits forallb].
  destruct (Z.gtb_spec (n * w + m0) len); [lia|]. rewrite land_bit_eqb by done. fold (same_bit x y m0).
  destruct (same_bit x y m0); [|done]. rewrite lor_next_bit by done. cbn [andb].
  replace (m0 + 1) with (Z.succ m0) by lia. rewrite IH by lia.
  replace (Z.succ m0 + Z.of_nat k) with (m0 + Z.of_nat (S k)) by lia. done.
Qed.

(** Whatever the length, the lowest bit of an element that is looked at is set. *)
Lemma mask_bits_odd w n len x y e :
  0 < w → n * w ≤ len → mask_bits w n len x y (seqZ 0 w) 0 = Some e → Z.odd e = true.
Proof.
  intros Hw Hlen. rewrite seqZ_cons by done. cbn [mask_bits].
  destruct (Z.gtb_spec (n * w + 0) len); [lia|]. destruct (_ =? _); [|done].
  assert (∀ ms elt, Z.odd elt = true → (∀ m, m ∈ ms → 0 < m) →
    mask_bits w n len x y ms elt = Some e → Z.odd e = true) as Hgen.
  { induction ms as [|m ms IH]; intros elt Ho Hms; cbn [mask_bits]; [by intros [= <-]|].
    destruct (_ >? _); [by intros [= <-]|]. destruct (_ =? _); [|done]. apply IH.
    - assert (0 < m) by (apply Hms; left).
      rewrite <- Z.bit0_odd, Z.lor_spec, Z.bit0_odd, Ho. done.
    - intros m' Hm'. apply Hms. by right. }
  apply Hgen; [done|]. intros m [??]%elem_of_seqZ. lia.
Qed.

Lemma same_bits_eq w x y :
  0 ≤ w → 0 ≤ x < 2 ^ w → 0 ≤ y < 2 ^ w →
  forallb (same_bit x y) (seqZ 0 w) = bool_decide (x = y).
Proof.
  intros Hw Hx Hy. apply Bool.eq_iff_eq_true. rewrite forallb_forall, bool_decide_eq_true. split.
  - intros Hb. apply (testbit_small_eq w); try done. intros m Hm.
    apply eqb_prop, (Hb m), list_elem_of_In, elem_of_seqZ. lia.
  - intros -> m _. apply eqb_reflx.
Qed.

(** The elements of an address of elements of [w] bits. *)
Definition elts_ok (w : Z) (xs : list Z) : Prop := Forall (λ x, 0 ≤ x < 2 ^ w) xs.

Lemma mask_elts_zero w len xs : ∀ n ys,
  length xs = length ys → mask_elts w len O n xs ys = Some (replicate (length xs) 0).
Proof.
  induction xs as [|x xs IH]; intros n [|y ys] Hl; try done. cbn [mask_elts length] in *.
  rewrite IH by lia. done.
Qed.

(** The loop over the elements when the prefix ends with the [count]-th. *)
Lemma mask_elts_whole w len xs : ∀ count n ys,
  0 < w → len = (n + Z.of_nat count) * w → (count ≤ length xs)%nat → length xs = length ys →
  elts_ok w xs → elts_ok w ys →
  mask_elts w len count n xs ys =
  if decide (take count xs = take count ys)
  then Some (replicate count (2 ^ w - 1) ++ replicate (length xs - count) 0) else None.
Proof.
  induction xs as [|x xs IH]; intros [|count] n [|y ys] Hw Hlen Hc Hl Hx Hy;
    cbn [length] in Hc, Hl; try (cbn; done); try lia.
  - rewrite mask_elts_zero by (cbn; lia). cbn. done.
  - apply Forall_cons in Hx as [Hx Hxs]. apply Forall_cons in Hy as [Hy Hys]. cbn [mask_elts].
    pose proof (mask_bits_whole w n len x y (Z.to_nat w) 0) as Hm.
    rewrite Z2Nat.id in Hm by lia. cbn [Z.pow Z.sub Z.add] in Hm. change (2 ^ 0 - 1) with 0 in Hm.
    rewrite Hm by nia. rewrite same_bits_eq by (done || lia). rewrite !firstn_cons.
    case_bool_decide as Hxy; cbn [mbind option_bind].
    + subst y. rewrite (IH count (n + 1) ys) by (done || lia).
      destruct (decide (take count xs = take count ys)) as [E|E]; cbn [mbind option_bind].
      * by rewrite decide_True by (by rewrite E).
      * by rewrite decide_False by (by intros [= ?]).
    + by rewrite decide_False by (by intros [= ?]).
Qed.

(** ** Lemmas: conversion *)

(** How the operating system writes an address: in network order. *)
Definition sockaddr_of (ip : IpAddr) : sockaddr :=
  match ip with
  | V4 a => SaInet (le_value (byte_of_Z <$> v4_octets a))
  | V6 a => SaInet6 (v6_segments a ≫= λ s, [byte_of_Z (s / 256); byte_of_Z s])
  end.

Definition ip_elts (ip : IpAddr) : list Z :=
  match ip with V4 a => v4_octets a | V6 a => v6_segments a end.

Definition ip_ok (ip : IpAddr) : Prop :=
  elts_ok (match ip with V4 _ => 8 | V6 _ => 16 end) (ip_elts ip).

(** fe80::/16. *)
Definition link_local (ip : IpAddr) : bool :=
  match ip with V4 _ => false | V6 a => v6_0 a =? 0xfe80 end.

Lemma land_255 x : Z.land x 255 = x mod 256.
Proof. change 255 with (Z.ones 8). by rewrite Z.land_ones. Qed.

Lemma octet_div x k : 0 ≤ k → s_addr_octet x k = x / 2 ^ k mod 256.
Proof. intros Hk. unfold s_addr_octet. by rewrite land_255, Z.shiftr_div_pow2. Qed.

Lemma lor_bytes a b : 0 ≤ a → 0 ≤ b < 256 → Z.lor (Z.shiftl a 8) b = a * 256 + b.
Proof.
  intros Ha Hb. rewrite <- Z.lxor_lor.
  - rewrite <- Z.add_nocarry_lxor; [by rewrite Z.shiftl_mul_pow2 by lia|].
    apply Z.bits_inj'. intros i Hi. rewrite Z.land_spec, Z.bits_0.
    destruct (Z.lt_ge_cases i 8).
    + by rewrite Z.shiftl_spec_low.
    + rewrite <- (Z.mod_small b (2 ^ 8)), Z.mod_pow2_bits_high by lia. apply andb_false_r.
  - apply Z.bits_inj'. intros i Hi. rewrite Z.land_spec, Z.bits_0.
    destruct (Z.lt_ge_cases i 8).
    + by rewrite Z.shiftl_spec_low.
    + rewrite <- (Z.mod_small b (2 ^ 8)), Z.mod_pow2_bits_high by lia. apply andb_false_r.
Qed.

Lemma word_of_bytes s :
  0 ≤ s < 2 ^ 16 →
  Z.lor (Z.shiftl (Z.land (Z_of_byte (byte_of_Z (s / 256))) 255) 8) (Z_of_byte (byte_of_Z s)) = s.
Proof.
  intros Hs. rewrite !Z_of_byte_of_Z, land_255.
  rewrite lor_bytes; [|apply Z.mod_pos_bound; lia|apply Z.mod_pos_bound; lia].
  rewrite Z.mod_mod by lia. Z.to_euclidean_division_equations. lia.
Qed.

Lemma sockaddr_of_ok ip :
  ip_ok ip →
  sockaddr_to_ipaddr (Some (sockaddr_of ip)) = if link_local ip then None else Some ip.
Proof.
  destruct ip as [[a b c d]|[s0 s1 s2 s3 s4 s5 s6 s7]]; unfold ip_ok, elts_ok; cbn [ip_elts];
    unfold v4_octets, v6_segments; cbn [v4_a v4_b v4_c v4_d v6_0 v6_1 v6_2 v6_3 v6_4 v6_5 v6_6 v6_7];
    rewrite !Forall_cons; intros Hok.
  - cbn -[Z_of_byte byte_of_Z s_addr_v4]. unfold s_addr_v4. rewrite !octet_div by lia.
    rewrite !Z_of_byte_of_Z. do 2 f_equal. f_equal; Z.to_euclidean_division_equations; lia.
  - unfold sockaddr_to_ipaddr, sockaddr_of, s6_is_link_local, s6_v6, s6_word, s6_byte, link_local.
    unfold v6_segments. cbn -[Z_of_byte byte_of_Z Z.lor Z.land Z.shiftl Z.div Z.eqb].
    rewrite !word_of_bytes by tauto. rewrite !Z_of_byte_of_Z.
    destruct (Z.eqb_spec ((s0 / 256) mod 256) 254), (Z.eqb_spec (s0 mod 256) 128),
      (Z.eqb_spec s0 65152); cbn [andb]; try done;
      Z.to_euclidean_division_equations; lia.
Qed.

(** ** Properties *)

(** The netmask of [count] elements of [w] bits for a prefix of [len] bits: the
    first [len] bits are set, from the most significant one on. *)
Definition cidr_mask (w len : Z) (count : nat) : list Z :=
  (λ n, 2 ^ w - 2 ^ (w - Z.max 0 (Z.min w (len - n * w)))) <$> seqZ 0 (Z.of_nat count).

Lemma cidr_lookup w len count i :
  (i < count)%nat →
  cidr_mask w len count !! i = Some (2 ^ w - 2 ^ (w - Z.max 0 (Z.min w (len - Z.of_nat i * w)))).
Proof.
  intros Hi. unfold cidr_mask. rewrite list_lookup_fmap, lookup_seqZ_lt by lia. done.
Qed.

Lemma cidr_whole w q count :
  0 < w → (q ≤ count)%nat →
  cidr_mask w (Z.of_nat q * w) count = replicate q (2 ^ w - 1) ++ replicate (count - q) 0.
Proof.
  intros Hw Hq. apply list_eq. intros i. destruct (decide (i < count)%nat) as [Hi|Hi].
  - rewrite cidr_lookup by done. destruct (decide (i < q)%nat) as [Hiq|Hiq].
    + rewrite lookup_app_l, lookup_replicate_2 by (rewrite ?length_replicate; lia).
      rewrite Z.max_r, Z.min_l, Z.sub_diag by nia. done.
    + rewrite lookup_app_r, lookup_replicate_2 by (rewrite ?length_replicate; lia).
      rewrite Z.max_l, Z.sub_0_r, Z.sub_diag by nia. done.
  - rewrite !lookup_ge_None_2; [done| |];
      unfold cidr_mask; rewrite ?length_app, ?length_replicate, ?length_fmap, ?length_seqZ; lia.
Qed.

(** An element inside the prefix that is found has its lowest bit set. *)
Lemma mask_elts_odd w len xs : ∀ count n ys ms i e,
  0 < w → (n + Z.of_nat count - 1) * w ≤ len → mask_elts w len count n xs ys = Some ms →
  (i < count)%nat → ms !! i = Some e → Z.odd e = true.
Proof.
  induction xs as [|x xs IH]; intros [|count] n [|y ys] ms i e Hw Hlen Hm Hi He; try lia;
    cbn [mask_elts] in Hm; try (injection Hm as <-; done).
  destruct (mask_bits w n len x y (seqZ 0 w) 0) as [e0|] eqn:E0; cbn in Hm; [|done].
  destruct (mask_elts w len count (n + 1) xs ys) as [rest|] eqn:Er; cbn in Hm; [|done].
  injection Hm as <-. destruct i as [|i]; cbn in He.
  - injection He as ->. eapply (mask_bits_odd w n len x y); [done|nia|done].
  - eapply IH; [done| |exact Er| |exact He]; lia.
Qed.

Lemma mask_elts_length w len xs : ∀ count n ys ms,
  length xs = length ys → mask_elts w len count n xs ys = Some ms → length ms = length xs.
Proof.
  induction xs as [|x xs IH]; intros [|count] n [|y ys] ms Hl Hm; cbn [length] in Hl; try lia;
    cbn [mask_elts] in Hm; try (by injection Hm as <-).
  - destruct (mask_elts w len 0 (n + 1) xs ys) as [rest|] eqn:Er; cbn in Hm; [|done].
    injection Hm as <-. cbn. f_equal. eapply IH; [|exact Er]. lia.
  - destruct (mask_bits _ _ _ _ _ _ _); cbn in Hm; [|done].
    destruct (mask_elts w len count (n + 1) xs ys) as [rest|] eqn:Er; cbn in Hm; [|done].
    injection Hm as <-. cbn. f_equal. eapply IH; [|exact Er]. lia.
Qed.

(** C31: the netmask found on Windows is right for prefixes of whole elements only.
    When the length of the prefix is a multiple of the number of bits of an
    element (8 for IPv4, 16 for IPv6), the search of a prefix finds the netmask
    that has the first [len] bits set, exactly when the address starts with the
    prefix. For any other length, a netmask that it finds is a wrong one: the
    bits of the last element are compared and set from the least significant one
    on, and one too many. *)
Theorem windows_netmask w len xs ys :
  0 < w → 0 ≤ len ≤ w * Z.of_nat (length xs) → length xs = length ys →
  elts_ok w xs → elts_ok w ys →
  (len mod w = 0 →
   prefix_netmask w len xs ys =
   if decide (take (Z.to_nat (len / w)) xs = take (Z.to_nat (len / w)) ys)
   then Some (cidr_mask w len (length xs)) else None) ∧
  (len mod w ≠ 0 → ∀ ms, prefix_netmask w len xs ys = Some ms → ms ≠ cidr_mask w len (length xs)).
Proof.
  intros Hw Hlen Hl Hx Hy. pose proof (Z.div_mod len w ltac:(lia)) as Hdm.
  pose proof (Z.mod_pos_bound len w Hw) as Hr. set (q := len / w) in *. unfold prefix_netmask. split.
  - intros H0. replace ((len + (w - 1)) / w) with q.
    2: { apply (Z.div_unique _ _ _ (w - 1)); lia. }
    assert (0 ≤ q) by (unfold q; apply Z.div_pos; lia).
    assert (q ≤ Z.of_nat (length xs)) by nia.
    rewrite (mask_elts_whole w len xs) by (done || lia).
    case_decide; [|done]. f_equal.
    replace len with (Z.of_nat (Z.to_nat q) * w) by lia. symmetry. apply cidr_whole; [done|lia].
  - intros H0 ms Hms ->. assert (0 ≤ q) by (unfold q; apply Z.div_pos; lia).
    replace ((len + (w - 1)) / w) with (q + 1) in Hms.
    2: { apply (Z.div_unique _ _ _ (len mod w - 1)); lia. }
    assert (Z.to_nat q < length xs)%nat as Hq by nia.
    pose proof (cidr_lookup w len (length xs) (Z.to_nat q) Hq) as He.
    eapply mask_elts_odd in He; [|done| |exact Hms|lia]; [|nia].
    rewrite Z2Nat.id in He by done. replace (len - q * w) with (len mod w) in He by lia.
    rewrite Z.max_r, Z.min_r in He by lia.
    replace (2 ^ w) with (2 * 2 ^ (w - 1)) in He by (rewrite <- Z.pow_succ_r by lia; f_equal; lia).
    replace (2 ^ (w - len mod w)) with (2 * 2 ^ (w - len mod w - 1)) in He
      by (rewrite <- Z.pow_succ_r by lia; f_equal; lia).
    rewrite <- Z.mul_sub_distr_l, Z.odd_mul in He. done.
Qed.

(** An entry of the table of [getifaddrs] and the interface it describes; [None]
    for one that is not an interface of a usable address. *)
Definition entry_of (e : posix_ifaddrs) (o : option Interface) : Prop :=
  let shown (sa : option sockaddr) (ip : IpAddr) :=
    ip_ok ip ∧ link_local ip = false ∧ sa = Some (sockaddr_of ip) in
  let broadcasts (b : option IpAddr) :=
    match b with
    | Some b => Z.testbit (ifa_flags e) 1 = true ∧ shown (ifa_ifu e) b
    | None => Z.testbit (ifa_flags e) 1 = false ∨ ifa_ifu e = None
    end in
  match o with
  | None => ifa_addr e = None ∨ ifa_addr e = Some SaOther ∨
            ∃ ip, ip_ok ip ∧ link_local ip = true ∧ ifa_addr e = Some (sockaddr_of ip)
  | Some (mkInterface name (IfV4 (mkIfv4Addr ip netmask broadcast))) =>
      ifa_name e = name ∧ shown (ifa_addr e) (V4 ip) ∧ shown (ifa_netmask e) (V4 netmask) ∧
      broadcasts (V4 <$> broadcast)
  | Some (mkInterface name (IfV6 (mkIfv6Addr ip netmask broadcast))) =>
      ifa_name e = name ∧ shown (ifa_addr e) (V6 ip) ∧ shown (ifa_netmask e) (V6 netmask) ∧
      broadcasts (V6 <$> broadcast)
  end.

Lemma has_broadcast_bit flags : negb (Z.land flags 2 =? 0) = Z.testbit flags 1.
Proof.
  change 2 with (Z.shiftl 1 1) at 1. rewrite land_bit by lia. by destruct (Z.testbit flags 1).
Qed.

Lemma posix_interface_entry e o : entry_of e o → posix_interface e = o.
Proof.
  unfold posix_interface, do_broadcast. rewrite has_broadcast_bit.
  destruct o as [[name [[ip netmask broadcast]|[ip netmask broadcast]]]|]; cbn [entry_of].
  - intros (-> & (Hip & Hll & ->) & (Hnm & Hlm & ->) & Hb). rewrite !sockaddr_of_ok, Hll, Hlm by done.
    destruct broadcast as [b|]; cbn -[Z.testbit sockaddr_of link_local] in Hb;
      [destruct Hb as (-> & Hbok & Hbl & ->)|destruct Hb as [-> | ->]; [done|by destruct (Z.testbit _ _)]].
    by rewrite sockaddr_of_ok, Hbl by done.
  - intros (-> & (Hip & Hll & ->) & (Hnm & Hlm & ->) & Hb). rewrite !sockaddr_of_ok, Hll, Hlm by done.
    destruct broadcast as [b|]; cbn -[Z.testbit sockaddr_of link_local] in Hb;
      [destruct Hb as (-> & Hbok & Hbl & ->)|destruct Hb as [-> | ->]; [done|by destruct (Z.testbit _ _)]].
    by rewrite sockaddr_of_ok, Hbl by done.
  - intros [->|[->|(ip & Hip & Hll & ->)]]; [done|done|]. by rewrite sockaddr_of_ok, Hll by done.
Qed.

(** C32: the interfaces of a POSIX host are read back from the table: every entry
    of an IPv4 address or of an IPv6 address that is not link-local gives the
    interface it describes, in order, with its name, address, netmask, and the
    broadcast address where the flags say that there is one and it is given; the
    other entries are left out, and the table is released. *)
Theorem posix_interfaces_read {ENV : Env} table ifs n n1 :
  getifaddrs n = (Ok table, n1) → Forall2 entry_of table ifs →
  posix_get_if_addrs n = Done (Ok (omap id ifs)) (freeifaddrs n1).2.
Proof.
  intros Hget Hall. unfold posix_get_if_addrs, mbind, M_bind, call. rewrite Hget.
  assert (omap posix_interface table = omap id ifs) as ->.
  { clear -Hall. induction Hall as [|e o table' ifs' He _ IH]; [done|]. cbn.
    rewrite (posix_interface_entry e o He), IH. by destruct o. }
  by destruct (freeifaddrs n1) as [[] n2].
Qed.

Module IfAddrsWitness.

#[local] Instance wenv : Env := Script.env true false.

(** 192.168.16.5, as an address of 192.168.0.0/16 and of 192.168.16.0/20. *)
Definition addr : list Z := [192; 168; 16; 5].

Lemma windows_netmask_witness :
  prefix_netmask 8 16 addr [192; 168; 0; 0] = Some [255; 255; 0; 0] ∧
  prefix_netmask 8 20 addr [192; 168; 16; 0] = Some [255; 255; 31; 0] ∧
  cidr_mask 8 20 4 = [255; 255; 240; 0] ∧ [255; 255; 31; 0] ≠ cidr_mask 8 20 4.
Proof.
  assert (elts_ok 8 addr) as Ha by (repeat constructor; vm_compute; congruence).
  split; [|split; [reflexivity|split; [reflexivity|]]].
  - apply (proj1 (windows_netmask 8 16 addr [192; 168; 0; 0] ltac:(lia) ltac:(cbn; lia) eq_refl Ha
      ltac:(repeat constructor; vm_compute; congruence))). reflexivity.
  - apply (proj2 (windows_netmask 8 20 addr [192; 168; 16; 0] ltac:(lia) ltac:(cbn; lia) eq_refl Ha
      ltac:(repeat constructor; vm_compute; congruence))); [discriminate|reflexivity].
Defined.

Definition lo : Interface :=
  mkInterface "lo" (IfV4 (mkIfv4Addr (mkIpv4Addr 127 0 0 1) (mkIpv4Addr 255 0 0 0) None)).
Definition eth0 : Interface :=
  mkInterface "eth0" (IfV4 (mkIfv4Addr (mkIpv4Addr 10 0 0 7) (mkIpv4Addr 255 0 0 0)
    (Some (mkIpv4Addr 10 255 255 255)))).

Lemma ip4_ok a b c d :
  forallb (λ x, (0 <=? x) && (x <? 256)) [a; b; c; d] = true → ip_ok (V4 (mkIpv4Addr a b c d)).
Proof.
  intros H. apply Forall_forall. intros x Hx%list_elem_of_In.
  pose proof (proj1 (forallb_forall _ _) H x Hx). cbn in *. lia.
Qed.

Lemma ip4_shown a b c d sa :
  forallb (λ x, (0 <=? x) && (x <? 256)) [a; b; c; d] = true →
  sa = Some (sockaddr_of (V4 (mkIpv4Addr a b c d))) →
  ip_ok (V4 (mkIpv4Addr a b c d)) ∧ link_local (V4 (mkIpv4Addr a b c d)) = false ∧
  sa = Some (sockaddr_of (V4 (mkIpv4Addr a b c d))).
Proof. intros H ->. split; [by apply ip4_ok|done]. Qed.

Definition calm : @net wenv := Script.quiet.

Lemma posix_interfaces_read_witness : posix_get_if_addrs calm = Done (Ok [lo; eth0]) calm.
Proof.
  apply (posix_interfaces_read Script.interfaces [Some lo; Some eth0; None; None] calm
    calm); [reflexivity|].
  apply Forall2_cons_2; [|apply Forall2_cons_2; [|apply Forall2_cons_2; [|apply Forall2_cons_2;
    [|apply Forall2_nil_2]]]].
  - split; [reflexivity|]. split; [apply ip4_shown; reflexivity|].
    split; [apply ip4_shown; reflexivity|left; reflexivity].
  - split; [reflexivity|]. split; [apply ip4_shown; reflexivity|].
    split; [apply ip4_shown; reflexivity|]. split; [reflexivity|apply ip4_shown; reflexivity].
  - right. right. exists (V6 (mkIpv6Addr 0xfe80 0 0 0 0 0 0 0)). split_and!; [|reflexivity|reflexivity].
    repeat constructor; vm_compute; congruence.
  - right. left. reflexivity.
Defined.

End IfAddrsWitness.
