(* ===== verification/Mapped.v ===== *)
(** [src/src/nat/mapped_tcp_socket]: finding out under which addresses a socket
    can be reached, by asking the gateways of the interfaces (IGD) and other
    peers (in the manner of STUN); and [ConnectionListener::start], which maps
    its socket before it listens. *)

From stdpp Require Import base tactics list gmap.
From Stdlib Require Import ZArith Lia.
From S2P Require Import Prelude Types Env Socket ConnMap World ActiveConnection.
From S2P Require Import NatUtil IfAddrs Connect Listener.

Definition MAPPING_TIMEOUT_MS : Z := 3 * 1000.

(** ** [get_ext_addr.rs] *)

Section GetExtAddr.
Context {ENV : Env} {UID : Type} `{!Uid UID, !Codec (Message UID)}.
Abbreviation MW := (M (World UID)).

Definition ge_set_socket (s : Socket) (self : GetExtAddr UID) : GetExtAddr UID :=
  mkGetExtAddr (ge_token self) s (ge_request self) (ge_finish self).
Definition ge_set_request (r : option (Message UID * Priority)) (self : GetExtAddr UID) :
  GetExtAddr UID :=
  mkGetExtAddr (ge_token self) (ge_socket self) r (ge_finish self).

Definition GetExtAddr_start (local_addr peer_stun : SocketAddr) (finish : rc) :
  MW (result Token NatError) :=
  query_socket ←? io (nat_io (new_reusably_bound_tcp_socket local_addr));
  query_socket ←? io (nat_io (call (builder_to_tcp_stream query_socket)));
  socket ←? io (nat_io (call (connect_stream query_socket peer_stun)));
  let socket := Socket_wrap socket in
  token ← get_new_token;
  _ ←? io (nat_io (Socket_register socket token ready_write));
  state ← rc_new (StGetExtAddr (mkGetExtAddr token socket (Some (EchoAddrReq, 0)) finish));
  insert_state token state ;;
  mret (Ok token).

Definition GetExtAddr_terminate (self : GetExtAddr UID) : MW unit :=
  remove_state (ge_token self) ;;
  _ ← io (Socket_deregister (ge_socket self));
  mret tt.

(** [finish] runs the closure that calls [MappedTcpSocket::handle_stun_resp]. *)
Section Finish.
Variable finish : rc → Token → result SocketAddr unit → MW unit.

Definition GetExtAddr_handle_error (self : GetExtAddr UID) : MW (GetExtAddr UID) :=
  GetExtAddr_terminate self ;;
  finish (ge_finish self) (ge_token self) (Err tt) ;;
  mret self.

Definition GetExtAddr_write (self : GetExtAddr UID) (msg : option (Message UID * Priority)) :
  MW (GetExtAddr UID) :=
  '(r, s) ← io (Socket_write (ge_socket self) (ge_token self) msg);
  let self := ge_set_socket s self in
  match r with
  | Ok _ => mret self
  | Err _ => GetExtAddr_handle_error self
  end.

Definition GetExtAddr_receive_response (self : GetExtAddr UID) : MW (GetExtAddr UID) :=
  '(r, s) ← io (Socket_read (T:=Message UID) (ge_socket self));
  let self := ge_set_socket s self in
  match r with
  | Ok (Some (EchoAddrResp ext_addr)) =>
      GetExtAddr_terminate self ;;
      finish (ge_finish self) (ge_token self) (Ok ext_addr) ;;
      mret self
  | Ok None => mret self
  | Ok (Some _) | Err _ => GetExtAddr_handle_error self
  end.

Definition GetExtAddr_ready (self : GetExtAddr UID) (kind : Ready) : MW (GetExtAddr UID) :=
  if is_error kind || is_hup kind then GetExtAddr_handle_error self
  else
    self ← (if is_writable kind
            then let req := ge_request self in GetExtAddr_write (ge_set_request None self) req
            else mret self);
    if is_readable kind then GetExtAddr_receive_response self else mret self.

End Finish.
End GetExtAddr.

(** ** [mod.rs] *)

Section Mapped.
Context {ENV : Env} {UID : Type} `{!Uid UID, !Codec (Message UID)}.
Abbreviation MW := (M (World UID)).

Definition mt_set_socket (s : option TcpBuilder) (self : MappedTcpSocket UID) :
  MappedTcpSocket UID :=
  mkMappedTcpSocket (mt_token self) s (mt_igd_children self) (mt_stun_children self)
    (mt_mapped_addrs self) (mt_timeout self) (mt_finish self).
Definition mt_set_igd_children (k : Z) (self : MappedTcpSocket UID) : MappedTcpSocket UID :=
  mkMappedTcpSocket (mt_token self) (mt_socket self) k (mt_stun_children self)
    (mt_mapped_addrs self) (mt_timeout self) (mt_finish self).
Definition mt_set_stun_children (c : gset Token) (self : MappedTcpSocket UID) :
  MappedTcpSocket UID :=
  mkMappedTcpSocket (mt_token self) (mt_socket self) (mt_igd_children self) c
    (mt_mapped_addrs self) (mt_timeout self) (mt_finish self).
Definition mt_set_mapped_addrs (l : list SocketAddr) (self : MappedTcpSocket UID) :
  MappedTcpSocket UID :=
  mkMappedTcpSocket (mt_token self) (mt_socket self) (mt_igd_children self)
    (mt_stun_children self) l (mt_timeout self) (mt_finish self).
Definition mt_set_finish (f : option (MappedFinish UID)) (self : MappedTcpSocket UID) :
  MappedTcpSocket UID :=
  mkMappedTcpSocket (mt_token self) (mt_socket self) (mt_igd_children self)
    (mt_stun_children self) (mt_mapped_addrs self) (mt_timeout self) f.

Definition as_mapped (f : MappedTcpSocket UID → MW (MappedTcpSocket UID)) (o : StateObj UID) :
  MW (StateObj UID) :=
  match o with
  | StMapped self => self' ← f self; mret (StMapped self')
  | _ => throw IllTyped
  end.

(** The closure given to [MappedTcpSocket::start] by
    [Service::prepare_connection_info]. *)
Definition connection_info_mapped (result_token : Z) (our_uid : UID)
  (our_listeners : list SocketAddr) (socket : TcpBuilder) (addrs : list SocketAddr) : MW unit :=
  let hole_punch_addrs := List.filter (λ elt, ip_addr_is_global (sa_ip elt)) addrs in
  send_event (ConnectionInfoPrepared (mkConnectionInfoResult result_token
    (Ok (mkPrivConnectionInfo our_uid our_listeners hole_punch_addrs (Some socket))))).

Definition mapped_finish (f : MappedFinish UID) (socket : TcpBuilder) (addrs : list SocketAddr) :
  MW unit :=
  match f with
  | MapListener timeout_sec port force_include_port our_uid name_hash token =>
      listener_mapped timeout_sec port force_include_port our_uid name_hash token socket addrs
  | MapConnectionInfo result_token our_uid our_listeners =>
      connection_info_mapped result_token our_uid our_listeners socket addrs
  end.

Section Terminate.
Variable dyn_terminate : rc → MW unit.

Definition Mapped_terminate_children (self : MappedTcpSocket UID) : MW (MappedTcpSocket UID) :=
  for_each (λ child,
    state ← get_state child;
    match state with
    | Some state => dyn_terminate state
    | None => mret tt
    end) (elements (mt_stun_children self)) ;;
  mret (mt_set_stun_children ∅ self).

Definition Mapped_terminate (self : MappedTcpSocket UID) : MW (MappedTcpSocket UID) :=
  self ← Mapped_terminate_children self;
  remove_state (mt_token self) ;;
  _ ← cancel_timeout (mt_timeout self);
  socket ← unwrap (mt_socket self);
  let self := mt_set_socket None self in
  let mapped_addrs := mt_mapped_addrs self in
  let self := mt_set_mapped_addrs [] self in
  finish ← unwrap (mt_finish self);
  let self := mt_set_finish None self in
  mapped_finish finish socket mapped_addrs ;;
  mret self.

(** [if self.stun_children.is_empty() && self.igd_children == 0]. *)
Definition Mapped_complete (self : MappedTcpSocket UID) : bool :=
  bool_decide (mt_stun_children self = ∅) && (mt_igd_children self =? 0).

Definition handle_stun_resp (self : MappedTcpSocket UID) (child : Token)
  (res : result SocketAddr unit) : MW (MappedTcpSocket UID) :=
  let self := mt_set_stun_children (mt_stun_children self ∖ {[child]}) self in
  let self := match res with
              | Ok our_ext_addr =>
                  mt_set_mapped_addrs (mt_mapped_addrs self ++ [our_ext_addr]) self
              | Err _ => self
              end in
  if Mapped_complete self then Mapped_terminate self else mret self.

Definition handle_igd_resp (self : MappedTcpSocket UID) (our_ext_addr : SocketAddr) :
  MW (MappedTcpSocket UID) :=
  k ← usize_pred overflow_checks (mt_igd_children self);
  let self := mt_set_igd_children k self in
  let self := mt_set_mapped_addrs (mt_mapped_addrs self ++ [our_ext_addr]) self in
  if Mapped_complete self then Mapped_terminate self else mret self.

Definition Mapped_timeout (self : MappedTcpSocket UID) (timer_id : Z) :
  MW (MappedTcpSocket UID) :=
  Mapped_terminate self.

(** What a thread that has asked its gateway sends to the event loop. *)
Definition igd_message (token : Token) (ext_addr : SocketAddr) : MW unit :=
  state ← get_state token;
  match state with
  | None => mret tt
  | Some state =>
      with_borrow_mut state (λ o,
        match o with
        | StMapped self => self ← handle_igd_resp self ext_addr; mret (StMapped self)
        | _ => mret o
        end)
  end.

Definition igd_thread (t : @IgdThread ENV) : MW (option (MW unit)) :=
  res ← io (call (get_any_address (igd_gateway t) (igd_ip t) (igd_port t)));
  mret match res with
       | Ok (ip, port) => Some (igd_message (igd_token t) (SocketAddrV4 ip port))
       | Err _ => None
       end.

(** The loop over the interfaces: the number of threads started. *)
Fixpoint ask_gateways (token : Token) (port : Z) (ifv4s : list (Ipv4Addr * option Gateway)) : MW Z :=
  match ifv4s with
  | [] => mret 0
  | (_, None) :: ifv4s => ask_gateways token port ifv4s
  | (ip, Some gateway) :: ifv4s =>
      modify (λ w, set_threads (w_threads w ++ [mkIgdThread token gateway ip port]) w) ;;
      igd_children ← ask_gateways token port ifv4s;
      mret (igd_children + 1)
  end.

(** The loop over the peers that can tell. *)
Definition ask_stun (state : rc) (addr : SocketAddr) (stun : SocketAddr) : MW unit :=
  r ← GetExtAddr_start addr stun state;
  match r with
  | Ok child =>
      with_borrow_mut state (as_mapped (λ self,
        mret (mt_set_stun_children ({[child]} ∪ mt_stun_children self) self)))
  | Err _ => mret tt
  end.

Definition MappedTcpSocket_start (port : Z) (mc : @MappingContext ENV) (finish : MappedFinish UID) :
  MW (result unit NatError) :=
  token ← get_new_token;
  let addr := SocketAddrV4 (mkIpv4Addr 0 0 0 0) port in
  socket ←? io (nat_io (new_reusably_bound_tcp_socket addr));
  addr ←? io (nat_io (call (builder_local_addr socket)));
  igd_children ← ask_gateways token (sa_port addr) (our_ifv4s mc);
  let mapped_addrs := (λ '(ip, _), SocketAddrV4 ip (sa_port addr)) <$> our_ifv4s mc in
  r ← set_timeout MAPPING_TIMEOUT_MS (mkCoreTimer token 0);
  match r with
  | Err e => mret (Err (NatCommonError e))
  | Ok timeout =>
      state ← rc_new (StMapped (mkMappedTcpSocket token (Some socket) igd_children ∅ mapped_addrs
                timeout (Some finish)));
      for_each (ask_stun state addr) (peer_stuns mc) ;;
      complete ← with_borrow state (λ o,
        mret match o with StMapped self => Mapped_complete self | _ => false end);
      if complete : bool
      then with_borrow_mut state (as_mapped Mapped_terminate) ;; mret (Ok tt)
      else insert_state token state ;; mret (Ok tt)
  end.

(** ** [ConnectionListener::start] *)

Definition ConnectionListener_start (handshake_timeout_sec : option Z) (port : Z)
  (force_include_port : bool) (our_uid : UID) (name_hash : NameHash) (mc : @MappingContext ENV)
  (token : Token) : MW unit :=
  r ← MappedTcpSocket_start port mc
        (MapListener handshake_timeout_sec port force_include_port our_uid name_hash token);
  match r with
  | Ok _ => mret tt
  | Err _ => send_event ListenerFailed
  end.

End Terminate.
End Mapped.
