(* ===== verification/System.v ===== *)
(** The state machines put together: the [State] trait's methods on a state of
    any kind, the closures that connect a state machine with the one that
    started it, and the event loop of [src/src/common/core.rs]. *)

From stdpp Require Import base tactics list gmap.
From Stdlib Require Import ZArith Lia.
From S2P Require Import Prelude Types Env Socket ConnMap World ActiveConnection Candidate.
From S2P Require Import NatUtil Connect Listener Refresher Discovery Bootstrap IfAddrs Mapped.

Section System.
Context {ENV : Env} {UID : Type} `{!Uid UID, !Codec (Message UID), !Codec DiscoveryMsg}.
Abbreviation MW := (M (World UID)).
Implicit Types (o : StateObj UID).

(** ** [State::terminate]

    A state machine that terminates its children calls back into [terminate];
    [depth] bounds the nesting, and [dyn_terminate] gives as much as there are
    states, which is enough as every level borrows another one. *)
Fixpoint State_terminate (depth : nat) (r : rc) : MW unit :=
  match depth with
  | O => diverge
  | S depth =>
      with_borrow_mut r (λ o,
        match o with
        | StActive s => ActiveConnection_terminate s ;; mret o
        | StCandidate s => ConnectionCandidate_terminate s ;; mret o
        | StConnectExchange s => ConnectExchange_terminate s ;; mret o
        | StConnect s => s ← Connect_terminate (State_terminate depth) s; mret (StConnect s)
        | StListenerExchange s =>
            s ← ListenerExchange_terminate (State_terminate depth) s; mret (StListenerExchange s)
        | StCheckReachability s => CheckReachability_terminate s ;; mret o
        | StListener s => ConnectionListener_terminate s ;; mret o
        | StRefresher s => ConfigRefresher_terminate s ;; mret o
        | StTryPeer s => TryPeer_terminate s ;; mret o
        | StBootstrap s => s ← Bootstrap_terminate (State_terminate depth) s; mret (StBootstrap s)
        | StServiceDiscovery s => ServiceDiscovery_terminate s ;; mret o
        | StGetExtAddr s => GetExtAddr_terminate s ;; mret o
        | StMapped s => s ← Mapped_terminate (State_terminate depth) s; mret (StMapped s)
        end)
  end.

Definition dyn_terminate (r : rc) : MW unit :=
  depth ← gets (λ w, S (size (w_heap w)));
  State_terminate depth r.

(** ** The [finish] closures *)

Definition as_listener_exchange (f : ListenerExchange UID → MW (ListenerExchange UID))
  (o : StateObj UID) : MW (StateObj UID) :=
  match o with
  | StListenerExchange self => self' ← f self; mret (StListenerExchange self')
  | _ => throw IllTyped
  end.

(** [if let Some(self_rc) = self_weak.upgrade() { self_rc.borrow_mut().… }]. *)
Definition when_alive (r : rc) (m : MW unit) : MW unit :=
  alive ← upgrade r;
  if alive : bool then m else mret tt.

Definition connect_exchange_finish (parent : rc) (child : Token) (res : option Socket) : MW unit :=
  when_alive parent (with_borrow_mut parent (as_connect (λ self,
    Connect_handle_exchange_msg dyn_terminate self child res))).

Definition candidate_finish (f : CandidateFinish UID) (child : Token) (res : option Socket) :
  MW unit :=
  match f with
  | FinishConnect parent =>
      when_alive parent (with_borrow_mut parent (as_connect (λ self,
        Connect_handle_connection_candidate dyn_terminate self child res)))
  | FinishListener our_uid their_uid => listener_candidate_finish our_uid their_uid child res
  end.

Definition reachability_finish (parent : rc) (child : Token) (res : result UID unit) : MW unit :=
  when_alive parent (with_borrow_mut parent (as_listener_exchange (λ self,
    handle_check_reachability dyn_terminate self child res))).

Definition try_peer_finish (parent : rc) (child : Token) (res : TryResult UID) : MW unit :=
  when_alive parent (with_borrow_mut parent (as_bootstrap (λ self,
    Bootstrap_handle_result dyn_terminate self child res))).

Definition stun_finish (parent : rc) (child : Token) (res : result SocketAddr unit) : MW unit :=
  when_alive parent (with_borrow_mut parent (as_mapped (λ self,
    handle_stun_resp dyn_terminate self child res))).

(** ** The other methods of [State] *)

Definition State_ready (kind : Ready) (o : StateObj UID) : MW (StateObj UID) :=
  match o with
  | StActive s => s ← ActiveConnection_ready s kind; mret (StActive s)
  | StCandidate s => s ← ConnectionCandidate_ready candidate_finish s kind; mret (StCandidate s)
  | StConnectExchange s =>
      s ← ConnectExchange_ready connect_exchange_finish s kind; mret (StConnectExchange s)
  | StConnect s => s ← Connect_ready dyn_terminate s kind; mret (StConnect s)
  | StListenerExchange s =>
      s ← ListenerExchange_ready dyn_terminate s kind; mret (StListenerExchange s)
  | StCheckReachability s => CheckReachability_ready reachability_finish s kind ;; mret o
  | StListener s => ConnectionListener_ready s kind ;; mret o
  | StTryPeer s => s ← TryPeer_ready try_peer_finish s kind; mret (StTryPeer s)
  | StServiceDiscovery s => s ← ServiceDiscovery_ready s kind; mret (StServiceDiscovery s)
  | StGetExtAddr s => s ← GetExtAddr_ready stun_finish s kind; mret (StGetExtAddr s)
  | StRefresher _ | StBootstrap _ | StMapped _ => mret o
  end.

Definition State_timeout (timer_id : Z) (o : StateObj UID) : MW (StateObj UID) :=
  match o with
  | StActive s => s ← ActiveConnection_timeout s timer_id; mret (StActive s)
  | StConnect s => s ← Connect_timeout dyn_terminate s timer_id; mret (StConnect s)
  | StListenerExchange s =>
      s ← ListenerExchange_timeout dyn_terminate s timer_id; mret (StListenerExchange s)
  | StCheckReachability s => CheckReachability_timeout reachability_finish s timer_id ;; mret o
  | StRefresher s => s ← ConfigRefresher_timeout dyn_terminate s timer_id; mret (StRefresher s)
  | StBootstrap s => s ← Bootstrap_timeout dyn_terminate s timer_id; mret (StBootstrap s)
  | StMapped s => s ← Mapped_timeout dyn_terminate s timer_id; mret (StMapped s)
  | StCandidate _ | StConnectExchange _ | StListener _ | StTryPeer _ | StServiceDiscovery _
  | StGetExtAddr _ => mret o
  end.

Definition State_write (data : list byte) (priority : Priority) (o : StateObj UID) :
  MW (StateObj UID) :=
  match o with
  | StActive s => s ← ActiveConnection_write s data priority; mret (StActive s)
  | _ => mret o
  end.

(** ** [Core]: the event loop *)

Definition handle_event (token : Token) (kind : Ready) : MW unit :=
  state ← get_state token;
  match state with
  | Some state => with_borrow_mut state (State_ready kind)
  | None => mret tt
  end.

(** The body of [handle_timer]'s loop, and the loop. *)
Definition timer_event (core_timer : CoreTimer) : MW unit :=
  state ← get_state (state_id core_timer);
  match state with
  | Some state => with_borrow_mut state (State_timeout (timer_id core_timer))
  | None => mret tt
  end.

Fixpoint timer_loop (fuel : nat) : MW unit :=
  match fuel with
  | O => diverge
  | S fuel =>
      t ← io (call timer_poll);
      match t with
      | None => mret tt
      | Some core_timer => timer_event core_timer ;; timer_loop fuel
      end
  end.

Definition handle_timer (kind : Ready) : MW unit :=
  if negb (is_readable kind) then mret tt else timer_loop loop_fuel.

Definition CHANNEL_TOKEN_OFFSET : Z := 0.
Definition TIMER_TOKEN_OFFSET : Z := CHANNEL_TOKEN_OFFSET + 1.
Definition USER_TOKEN_OFFSET : Z := TIMER_TOKEN_OFFSET + 1.

(** [spawn_event_loop]: the event loop's thread starts with the world of a
    [Core] that has no states. *)
Definition spawn_event_loop (token_counter_start : Z) (config : ConfigWrapper) :
  M net (result (World UID) CommonError) :=
  let register ev offset :=
    r ← call (poll_register ev (token_counter_start + offset) ready_read);
    mret (map_err CommonIo r) in
  poll ← call poll_new;
  match poll with
  | Err e => mret (Err (CommonIo e))
  | Ok _ =>
      _ ←? register EvChannel CHANNEL_TOKEN_OFFSET;
      _ ←? register EvTimer TIMER_TOKEN_OFFSET;
      n ← gets id;
      mret (Ok (Core_new (token_counter_start + USER_TOKEN_OFFSET) n config))
  end.

(** [CoreMessage]: a closure to run on the event loop, or the order to stop. *)
Definition CoreMessage : Type := option (MW unit).

(** What [rx.try_recv()] finds: the messages in the channel, and whether all
    senders are gone when it is empty. *)
Record Channel := mkChannel { ch_msgs : list CoreMessage; ch_disconnected : bool }.

(** The inner [loop]; [true] is [break 'event_loop]. *)
Fixpoint channel_loop (msgs : list CoreMessage) (disconnected : bool) : MW (bool * Channel) :=
  match msgs with
  | [] => mret (disconnected, mkChannel [] disconnected)
  | None :: rest => mret (true, mkChannel rest disconnected)
  | Some f :: rest => f ;; channel_loop rest disconnected
  end.

(** One event of the [for event in events.iter()] loop. *)
Definition loop_event (token_counter_start : Z) (rx : Channel) (token : Token) (kind : Ready) :
  MW (bool * Channel) :=
  if token =? token_counter_start + CHANNEL_TOKEN_OFFSET
  then if negb (is_readable kind) then mret (false, rx)
       else channel_loop (ch_msgs rx) (ch_disconnected rx)
  else if token =? token_counter_start + TIMER_TOKEN_OFFSET
  then handle_timer kind ;; mret (false, rx)
  else handle_event token kind ;; mret (false, rx).

(** The events of a run of the loop, in order; [true] when it was left. *)
Fixpoint event_loop (token_counter_start : Z) (rx : Channel) (events : list (Token * Ready)) :
  MW (bool * Channel) :=
  match events with
  | [] => mret (false, rx)
  | (token, kind) :: events =>
      '(stop, rx) ← loop_event token_counter_start rx token kind;
      if stop : bool then mret (true, rx) else event_loop token_counter_start rx events
  end.

(** ** Lemmas: [terminate] returns *)

(** The states that terminate others. *)
Definition branching (o : StateObj UID) : bool :=
  match o with
  | StConnect _ | StListenerExchange _ | StBootstrap _ | StMapped _ => true
  | _ => false
  end.

Definition branches (w : World UID) : gset rc :=
  dom (filter (λ ro : rc * StateObj UID, branching ro.2 = true) (w_heap w)).

Lemma elem_of_branches r w :
  r ∈ branches w ↔ ∃ o, w_heap w !! r = Some o ∧ branching o = true.
Proof.
  unfold branches. rewrite elem_of_dom. split.
  - intros [o [Ho Hb]%map_lookup_filter_Some]. by exists o.
  - intros (o & Ho & Hb). exists o. by apply map_lookup_filter_Some.
Qed.

(** What [terminate] does to the heap: no state goes away, no state that
    terminates others comes up, and the borrows are as before. *)
Definition settled (w w' : World UID) : Prop :=
  dom (w_heap w) ⊆ dom (w_heap w') ∧ branches w' ⊆ branches w ∧ w_borrows w' = w_borrows w.

#[local] Instance settled_preorder : PreOrder settled.
Proof.
  split; [by split|]. intros w1 w2 w3 (H1 & H2 & H3) (H4 & H5 & H6).
  split; [by etrans|]. split; [by etrans|congruence].
Qed.

(** The state that is put back is of the kind it was. *)
Lemma settled_put r o o' w w' :
  w_heap w !! r = Some o → branching o' = branching o →
  settled (set_borrows (<[r := Writing]> (w_borrows w)) w) w' → w_borrows w !! r = None →
  settled w (set_borrows (delete r (w_borrows w')) (set_heap (<[r := o']> (w_heap w')) w')).
Proof.
  intros Hr Hk (Hd & Hb & Hw) Hn. split; [|split]; cbn in *.
  - rewrite dom_insert_L. set_solver.
  - intros r' (o1 & Ho1 & Hb1)%elem_of_branches. cbn in Ho1. apply elem_of_branches.
    apply lookup_insert_Some in Ho1 as [[<- <-]|[Hne Ho1]]; [exists o; by rewrite <- Hk|].
    assert (r' ∈ branches (set_borrows (<[r:=Writing]> (w_borrows w)) w)) as Hin.
    { apply Hb, elem_of_branches. by exists o1. }
    by apply elem_of_branches in Hin.
  - rewrite Hw. by rewrite delete_insert_id.
Qed.

(** A new state that terminates no others. *)
Lemma settled_new r k o w :
  branching o = false → settled w (set_next_rc k (set_heap (<[r := o]> (w_heap w)) w)).
Proof.
  intros Hk. split; [|split]; cbn; [rewrite dom_insert_L; set_solver| |done].
  intros r' (o1 & Ho1 & Hb1)%elem_of_branches. cbn in Ho1. apply elem_of_branches.
  apply lookup_insert_Some in Ho1 as [[<- <-]|[Hne Ho1]]; [congruence|by exists o1].
Qed.

Definition unborrowed (w : World UID) : nat := size (branches w ∖ dom (w_borrows w)).

Lemma settled_unborrowed w w' : settled w w' → (unborrowed w' ≤ unborrowed w)%nat.
Proof. intros (_ & H1 & H2). unfold unborrowed. rewrite H2. apply subseteq_size. set_solver. Qed.

Lemma wp_cm_leave (d : Prop) u cm (Q : unit → gmap UID ConnectionId → Prop) :
  (∀ cm', Q tt cm') → wp True d (cm_leave u) Q cm.
Proof.
  intros HQ. unfold cm_leave, usize_pred. wp_go. unfold id.
  destruct (cm !! u) as [oe|]; wp_go; [|apply HQ].
  destruct (_ =? 0); [destruct overflow_checks|]; wp_go; try done;
    (destruct (_ && _); wp_go; apply HQ).
Qed.

Lemma wp_io_deregister p d s (Q : _ → World UID → Prop) w :
  (∀ r n, Q r (set_net n w)) → wp p d (io (Socket_deregister s)) Q w.
Proof.
  intros HQ. destruct (deregister_done s w) as (r & n & H & _). unfold wp. rewrite H. apply HQ.
Qed.

Lemma wp_cancel_timeout p d t (Q : _ → World UID → Prop) w :
  (∀ r n, Q r (set_net n w)) → wp p d (cancel_timeout t) Q w.
Proof. intros HQ. unfold wp. rewrite cancel_timeout_done. apply HQ. Qed.

(** The parts of [terminate] that do not call back. *)
Ltac leaf := repeat first
  [ progress wp_go
  | apply wp_io_deregister; intros ? ?
  | apply wp_cancel_timeout; intros ? ?
  | apply wp_cm_leave; intros ?
  | progress unfold remove_state, send_event, with_cm, get_state ].

Lemma wp_mapped_finish f socket addrs w :
  wp True False (mapped_finish f socket addrs) (λ _, settled w) w.
Proof.
  destruct f; cbn [mapped_finish]; [|by unfold connection_info_mapped; leaf].
  unfold listener_mapped, handle_mapped_socket, crust_io, io. leaf.
  destruct (builder_listen _ _ _) as [[l|e] n1]; cbn [fst snd map_err]; leaf; [|done].
  destruct (std_local_addr _ _) as [[a|e] n2]; cbn [fst snd map_err]; leaf; [|done].
  destruct (from_listener _ _ _) as [[l'|e] n3]; cbn [fst snd map_err]; leaf; [|done].
  destruct (poll_register _ _ _ _) as [[[]|e] n4]; cbn [fst snd map_err]; leaf; [|done]. unfold wp at 1, rc_new. leaf.
  exact (settled_new (w_next_rc w) (S (w_next_rc w)) (StListener _) w eq_refl).
Qed.

Lemma wp_terminate_children depth l w :
  (∀ r w, unborrowed w < depth → wp True False (State_terminate depth r) (λ _, settled w) w)%nat →
  (unborrowed w < depth)%nat →
  wp True False (for_each (λ child, state ← get_state child;
       match state with Some state => State_terminate depth state | None => mret tt end) l)
     (λ _, settled w) w.
Proof.
  intros IH Hd. apply (wp_for_each _ _ _ _ (settled w)); [done|].
  intros t w' _ Hw'. unfold get_state. wp_go. destruct (w_states w' !! t) as [r|]; [|wp_go; done].
  eapply wp_mono; [apply IH; pose proof (settled_unborrowed w w' Hw'); lia|].
  intros [] w'' Hw''. by etrans.
Qed.

(** The body of [State_terminate]. *)
Lemma wp_terminate_body depth o w :
  (∀ r w, unborrowed w < depth → wp True False (State_terminate depth r) (λ _, settled w) w)%nat →
  (branching o = true → unborrowed w < depth)%nat →
  wp True False (match o with
        | StActive s => ActiveConnection_terminate s ;; mret o
        | StCandidate s => ConnectionCandidate_terminate s ;; mret o
        | StConnectExchange s => ConnectExchange_terminate s ;; mret o
        | StConnect s => s ← Connect_terminate (State_terminate depth) s; mret (StConnect s)
        | StListenerExchange s =>
            s ← ListenerExchange_terminate (State_terminate depth) s; mret (StListenerExchange s)
        | StCheckReachability s => CheckReachability_terminate s ;; mret o
        | StListener s => ConnectionListener_terminate s ;; mret o
        | StRefresher s => ConfigRefresher_terminate s ;; mret o
        | StTryPeer s => TryPeer_terminate s ;; mret o
        | StBootstrap s => s ← Bootstrap_terminate (State_terminate depth) s; mret (StBootstrap s)
        | StServiceDiscovery s => ServiceDiscovery_terminate s ;; mret o
        | StGetExtAddr s => GetExtAddr_terminate s ;; mret o
        | StMapped s => s ← Mapped_terminate (State_terminate depth) s; mret (StMapped s)
        end) (λ o' w', branching o' = branching o ∧ settled w w') w.
Proof.
  intros IH Hd. destruct o as [s|s|s|s|s|s|s|s|s|s|s|s|s]; try specialize (Hd eq_refl).
  - wp_go. destruct (terminate_done s w) as (n & H). unfold wp at 1. rewrite H. by wp_go.
  - unfold ConnectionCandidate_terminate. by leaf.
  - unfold ConnectExchange_terminate. by leaf.
  - unfold Connect_terminate, Connect_terminate_children. wp_go.
    eapply wp_mono; [by apply wp_terminate_children|]. intros [] w1 Hw1. wp_go.
    destruct (cn_listener _) as [l|]; unfold io; leaf; destruct (bool_decide _); leaf; done.
  - unfold ListenerExchange_terminate, terminate_childern. wp_go.
    eapply wp_mono; [by apply wp_terminate_children|]. intros [] w1 Hw1. leaf.
    destruct (le_next_state _); leaf; done.
  - unfold CheckReachability_terminate. by leaf.
  - unfold ConnectionListener_terminate, io. by leaf.
  - unfold ConfigRefresher_terminate. by leaf.
  - unfold TryPeer_terminate. by leaf.
  - unfold Bootstrap_terminate, Bootstrap_terminate_children, channel_drop. wp_go.
    eapply wp_mono; [by apply wp_terminate_children|]. intros [] w1 Hw1. wp_go.
    destruct (bs_sd_meta _); leaf; done.
  - unfold ServiceDiscovery_terminate, io. by leaf.
  - unfold GetExtAddr_terminate. by leaf.
  - unfold Mapped_terminate, Mapped_terminate_children. wp_go.
    eapply wp_mono; [by apply wp_terminate_children|]. intros [] w1 Hw1. leaf.
    destruct (mt_socket _); [|done]. leaf. destruct (mt_finish _); [|done]. leaf.
    eapply wp_mono; [apply wp_mapped_finish|]. intros [] w2 Hw2. leaf. split; [done|].
    etrans; [exact Hw1|exact Hw2].
Qed.

Lemma unborrowed_borrow r o w :
  w_heap w !! r = Some o → w_borrows w !! r = None → branching o = true →
  (unborrowed (set_borrows (<[r := Writing]> (w_borrows w)) w) < unborrowed w)%nat.
Proof.
  intros Hh Hb Ho. unfold unborrowed. apply subset_size. change (branches (set_borrows _ w)) with (branches w).
  cbn. rewrite dom_insert_L. split; [set_solver|].
  intros Hsub. assert (r ∈ branches w ∖ dom (w_borrows w)) as Hr.
  { apply elem_of_difference. split; [apply elem_of_branches; by exists o|by apply not_elem_of_dom]. }
  apply Hsub in Hr. set_solver.
Qed.

Lemma State_terminate_returns depth : ∀ r w,
  (unborrowed w < depth)%nat → wp True False (State_terminate depth r) (λ _, settled w) w.
Proof.
  induction depth as [|depth IH]; intros r w Hd; [lia|].
  cbn [State_terminate]. destruct (w_borrows w !! r) as [b|] eqn:Hb.
  { unfold with_borrow_mut. wp_go. by rewrite Hb. }
  destruct (w_heap w !! r) as [o|] eqn:Hh.
  2: { unfold with_borrow_mut. wp_go. rewrite Hb. wp_go. cbn. by rewrite Hh. }
  eapply wp_with_borrow_mut; [done|done|].
  eapply wp_mono.
  { apply wp_terminate_body; [exact IH|]. intros Ho. pose proof (unborrowed_borrow r o w Hh Hb Ho). lia. }
  intros o' w' [Hk Hset]. by eapply settled_put.
Qed.

(** The bound on the nesting of [terminate] is enough: however the states refer to
    each other as children, the nesting given by [dyn_terminate] is never
    exhausted. If it completes and does not panic (on a state that is borrowed, or
    has been terminated before), no state that could terminate others has been
    added, and no borrow is left behind. *)
Theorem dyn_terminate_returns r (w : World UID) :
  match dyn_terminate r w with
  | Done _ w' => dom (w_heap w) ⊆ dom (w_heap w') ∧ branches w' ⊆ branches w ∧
                 w_borrows w' = w_borrows w
  | Panicked _ => True
  | Diverged => False
  end.
Proof.
  assert (unborrowed w < S (size (w_heap w)))%nat as Hd.
  { unfold unborrowed. rewrite <- size_dom. apply Nat.lt_succ_r, subseteq_size.
    intros r' [(o & Ho & _)%elem_of_branches _]%elem_of_difference. by eapply elem_of_dom_2. }
  pose proof (State_terminate_returns _ r w Hd) as H. unfold wp, settled in H.
  unfold dyn_terminate, mbind, M_bind, gets. exact H.
Qed.

End System.
