(* ===== verification/Probes.v ===== *)
(** The short-lived states that ask one question of one peer ([TryPeer] of the
    bootstrap and [GetExtAddr] of the mapping of a socket), and how their parents
    end them. *)

From stdpp Require Import base tactics list gmap.
From Stdlib Require Import ZArith Lia.
From S2P Require Import Prelude Types Env Socket ConnMap World ActiveConnection.
From S2P Require Import Bootstrap Mapped System.

Section Probes.
Context {ENV : Env} {UID : Type} `{!Uid UID, !Codec (Message UID)}.
Implicit Types (w : World UID).

(** The socket of such a state that is registered under [t]. *)
Definition probe (t : Token) (o : StateObj UID) : option Socket :=
  match o with
  | StTryPeer s => if tp_token s =? t then Some (tp_socket s) else None
  | StGetExtAddr s => if ge_token s =? t then Some (ge_socket s) else None
  | _ => None
  end.

(** The tokens [l] are those of such states, none of them running. *)
Definition probes (l : list Token) (w : World UID) : Prop :=
  ∀ t, t ∈ l → ∃ r o, w_states w !! t = Some r ∧ w_heap w !! r = Some o ∧
    w_borrows w !! r = None ∧ is_Some (probe t o).

Lemma probe_token t o : is_Some (probe t o) → state_token o = t.
Proof.
  intros [s Hs]. destruct o; try done; cbn in *;
    destruct (_ =? t) eqn:E; try done; by apply Z.eqb_eq.
Qed.

Lemma terminate_probe d t r o w :
  w_heap w !! r = Some o → w_borrows w !! r = None → is_Some (probe t o) →
  ∃ n, State_terminate (S d) r w = Done tt (set_states (delete t (w_states w)) (set_net n w)) ∧
       (PollLaws → same_streams (w_net w) n).
Proof.
  intros Hh Hb [s Hs]. cbn [State_terminate].
  destruct (deregister_done s (set_states (delete t (w_states w))
    (set_borrows (<[r:=Writing]> (w_borrows w)) w))) as (x & n & Hn & Hf).
  exists n. split; [|exact Hf]. eapply with_borrow_mut_same; try done.
  destruct o; try done; cbn in Hs; destruct (_ =? t) eqn:E; try done; injection Hs as <-; apply Z.eqb_eq in E; subst t;
    unfold TryPeer_terminate, GetExtAddr_terminate, mbind, M_bind, remove_state, modify;
    cbn in Hn |- *; by rewrite Hn.
Qed.

(** [st'] is [st] without the tokens of [P]. *)
Definition without (P : Token → Prop) `{∀ t, Decision (P t)} (st st' : gmap Token rc) : Prop :=
  ∀ t, st' !! t = if decide (P t) then None else st !! t.

Lemma terminate_probes l : ∀ w,
  NoDup l → probes l w →
  ∃ n st, for_each (λ child, state ← get_state child;
                    match state with Some state => dyn_terminate state | None => mret tt end) l w =
          Done tt (set_states st (set_net n w)) ∧
    without (λ t, t ∈ l) (w_states w) st ∧ (PollLaws → same_streams (w_net w) n).
Proof.
  induction l as [|t l IH]; intros w Hnd Htr.
  { exists (w_net w), (w_states w). split; [by destruct w|]. split; [|done].
    intros t. by rewrite decide_False by set_solver. }
  apply NoDup_cons in Hnd as [Ht Hnd]. destruct (Htr t) as (r & o & Hs & Hh & Hb & Ho); [left|].
  cbn [for_each]. unfold mbind at 1, M_bind at 1, mbind at 1, M_bind at 1, get_state, gets at 1.
  rewrite Hs. unfold dyn_terminate at 1, mbind at 1, M_bind at 1, gets at 1.
  destruct (terminate_probe (size (w_heap w)) t r o w Hh Hb Ho) as (n & -> & Hf).
  destruct (IH (set_states (delete t (w_states w)) (set_net n w))) as (n' & st & Hrun & Hst & Hf');
    [done| |].
  { intros t' Ht'. destruct (Htr t') as (r' & o' & ? & ? & ? & ?); [by right|].
    exists r', o'. cbn. rewrite lookup_delete_ne by (by intros ->). done. }
  exists n', st. split; [exact Hrun|]. split; [|intros L; etrans; [exact (Hf L)|exact (Hf' L)]].
  intros t'. rewrite Hst. cbn. destruct (decide (t' = t)) as [->|].
  - rewrite lookup_delete_eq, decide_False by done. by rewrite decide_True by left.
  - rewrite lookup_delete_ne by done. destruct (decide (t' ∈ l)).
    + by rewrite decide_True by by right.
    + rewrite decide_False; [done|]. by intros [?|?]%elem_of_cons.
Qed.

End Probes.
