(* ===== verification/Frame.v ===== *)
(** What the handlers of the state machines leave alone: a small logic of frames
    over the state of a service, with its automation. *)

From stdpp Require Import base tactics list gmap.
From Stdlib Require Import ZArith Lia.
From S2P Require Import Prelude Types Env Socket ConnMap World ActiveConnection Candidate.
From S2P Require Import NatUtil Connect Listener Refresher Discovery Bootstrap IfAddrs Mapped System.

Section Frame.
Context {ENV : Env} {UID : Type} `{!Uid UID, !Codec (Message UID)}.
Abbreviation MW := (M (World UID)).

(** A relation that every change a handler makes respects: the handlers change
    every part of the state of a service but its configuration. *)
Class Frame (R : World UID → World UID → Prop) : Prop := {
  frame_preorder :: PreOrder R;
  frame_net : ∀ x w, R w (set_net x w);
  frame_heap : ∀ x w, R w (set_heap x w);
  frame_borrows : ∀ x w, R w (set_borrows x w);
  frame_next_rc : ∀ x w, R w (set_next_rc x w);
  frame_token_counter : ∀ x w, R w (set_token_counter x w);
  frame_states : ∀ x w, R w (set_states x w);
  frame_cm : ∀ x w, R w (set_cm x w);
  frame_events : ∀ x w, R w (set_events x w);
  frame_channels : ∀ x w, R w (set_channels x w);
  frame_listeners : ∀ x w, R w (set_listeners x w)
}.

(** The configuration is such a part. *)
Definition same_config (w w' : World UID) : Prop := w_config w' = w_config w.

#[export] Instance same_config_frame : Frame same_config.
Proof.
  split; try done. split; [done|]. intros w1 w2 w3 H1 H2. unfold same_config in *. congruence.
Qed.

Section Keeps.
Context (R : World UID → World UID → Prop) `{!Frame R}.

Definition keeps {A} (m : MW A) : Prop := ∀ w, wp True True m (λ _, R w) w.

Lemma keeps_ret {A} (a : A) : keeps (mret a).
Proof. intros w. wp_go. reflexivity. Qed.

Lemma keeps_bind {A B} (m : MW A) (k : A → MW B) :
  keeps m → (∀ a, keeps (k a)) → keeps (m ≫= k).
Proof.
  intros Hm Hk w. wp_go. eapply wp_mono; [apply Hm|]. intros a w1 H1.
  eapply wp_mono; [apply Hk|]. intros b w2 H2. exact (transitivity H1 H2).
Qed.

Lemma keeps_gets {A} (f : World UID → A) : keeps (gets f).
Proof. intros w. wp_go. reflexivity. Qed.

Lemma keeps_modify f : (∀ w, R w (f w)) → keeps (modify f).
Proof. intros Hf w. wp_go. apply Hf. Qed.

Lemma keeps_throw {A} e : keeps (throw e : MW A).
Proof. done. Qed.

Lemma keeps_diverge {A} : keeps (diverge : MW A).
Proof. done. Qed.

Lemma keeps_unwrap {A} (o : option A) : keeps (unwrap o).
Proof. destruct o; [apply keeps_ret|apply keeps_throw]. Qed.

Lemma keeps_deref o : keeps (deref o).
Proof. destruct o; [apply keeps_ret|apply keeps_throw]. Qed.

Lemma keeps_io {A} (m : M net A) : keeps (io m).
Proof. intros w. unfold wp, io, zoom. destruct (m (w_net w)); [apply frame_net|done|done]. Qed.

Lemma keeps_with_cm {A} (m : M (gmap UID ConnectionId) A) : keeps (with_cm m).
Proof. intros w. unfold wp, with_cm, zoom. destruct (m (w_cm w)); [apply frame_cm|done|done]. Qed.

Lemma keeps_send_event e : keeps (send_event e).
Proof. apply keeps_modify. intros w. apply frame_events. Qed.

Lemma keeps_rc_new o : keeps (rc_new o).
Proof.
  intros w. unfold wp, rc_new. etrans; [apply frame_heap|apply frame_next_rc].
Qed.

Lemma keeps_insert_state t r : keeps (insert_state t r).
Proof. apply keeps_modify. intros w. apply frame_states. Qed.

Lemma keeps_remove_state t : keeps (remove_state t).
Proof. apply keeps_modify. intros w. apply frame_states. Qed.

Lemma keeps_channel_drop c : keeps (channel_drop c).
Proof. apply keeps_modify. intros w. apply frame_channels. Qed.

Lemma keeps_get_state t : keeps (get_state t).
Proof. apply keeps_gets. Qed.

Lemma keeps_set_timeout i t : keeps (set_timeout i t).
Proof. apply keeps_bind; [apply keeps_io|intros r; apply keeps_ret]. Qed.

Lemma keeps_cancel_timeout t : keeps (cancel_timeout t).
Proof. apply keeps_io. Qed.

Lemma keeps_get_new_token : keeps get_new_token.
Proof.
  apply keeps_bind; [apply keeps_gets|]. intros t. apply keeps_bind.
  - unfold usize_succ. destruct (_ =? _); [destruct overflow_checks|];
      (apply keeps_ret || apply keeps_throw).
  - intros c. apply keeps_bind; [|intros; apply keeps_ret].
    apply keeps_modify. intros w. apply frame_token_counter.
Qed.

Lemma keeps_with_borrow_mut r f : (∀ o, keeps (f o)) → keeps (with_borrow_mut r f).
Proof.
  intros Hf. unfold with_borrow_mut. apply keeps_bind; [apply keeps_gets|].
  intros [b|]; [apply keeps_throw|].
  apply keeps_bind; [apply keeps_modify; intros w; apply frame_borrows|]. intros _.
  apply keeps_bind; [apply keeps_gets|]. intros o.
  apply keeps_bind; [apply keeps_deref|]. intros o'.
  apply keeps_bind; [apply Hf|]. intros o''. apply keeps_modify. intros w.
  etrans; [apply frame_heap|apply frame_borrows].
Qed.

Lemma keeps_with_borrow {A} r (f : StateObj UID → MW A) :
  (∀ o, keeps (f o)) → keeps (with_borrow r f).
Proof.
  intros Hf. unfold with_borrow. apply keeps_bind; [apply keeps_gets|].
  assert (∀ b, keeps (modify (λ w, set_borrows (<[r:=Reading]> (w_borrows w)) w);;
    cell ← gets (λ w, w_heap w !! r);
    o ← deref cell; a ← f o;
    modify (λ w, set_borrows (partial_alter (λ _, b) r (w_borrows w)) w) ;; mret a)) as H.
  { intros b. apply keeps_bind; [apply keeps_modify; intros w; apply frame_borrows|]. intros _.
    apply keeps_bind; [apply keeps_gets|]. intros o.
    apply keeps_bind; [apply keeps_deref|]. intros o'.
    apply keeps_bind; [apply Hf|]. intros a. apply keeps_bind; [|intros; apply keeps_ret].
    apply keeps_modify. intros w. apply frame_borrows. }
  intros [[]|]; [apply keeps_throw|apply H|apply H].
Qed.

Lemma keeps_for_each {A} (body : A → MW unit) l :
  (∀ a, keeps (body a)) → keeps (for_each body l).
Proof.
  intros Hb. induction l as [|x l IH]; [apply keeps_ret|].
  apply keeps_bind; [apply Hb|]. by intros _.
Qed.

Lemma keeps_fold_loop {A B} (body : B → A → MW B) l :
  (∀ b a, keeps (body b a)) → ∀ b, keeps (fold_loop body b l).
Proof.
  intros Hb. induction l as [|x l IH]; intros b; [apply keeps_ret|].
  apply keeps_bind; [apply Hb|]. apply IH.
Qed.

End Keeps.

(** The primitives, for [auto]; binds and case distinctions are followed. *)
#[local] Hint Resolve keeps_ret keeps_gets keeps_throw keeps_diverge keeps_unwrap keeps_io
  keeps_with_cm keeps_send_event keeps_rc_new keeps_insert_state keeps_remove_state
  keeps_channel_drop keeps_get_state keeps_set_timeout keeps_cancel_timeout keeps_get_new_token : crust.

Ltac keeps_step :=
  match goal with
  | |- keeps _ (_ ≫= _) => apply keeps_bind; [tc_solve| |intros ?]
  | |- keeps _ (with_borrow_mut _ _) => apply keeps_with_borrow_mut; [tc_solve|intros ?]
  | |- keeps _ (with_borrow _ _) => apply keeps_with_borrow; [tc_solve|intros ?]
  | |- keeps _ (for_each _ _) => apply keeps_for_each; [tc_solve|intros ?]
  | |- keeps _ (fold_loop _ _ _) => apply keeps_fold_loop; [tc_solve|intros ? ?]
  | |- keeps _ (match ?x with _ => _ end) => destruct x
  | |- keeps _ (let '(_, _) := ?x in _) => destruct x
  | |- keeps _ _ => solve [eauto with crust]
  end.
Ltac keeps_go := repeat (cbv zeta; keeps_step).

Section Handlers.
Context (R : World UID → World UID → Prop) `{!Frame R}.

Lemma keeps_ac_terminate s : keeps R (ActiveConnection_terminate s).
Proof. unfold ActiveConnection_terminate, Heartbeat_terminate. keeps_go. Qed.
#[local] Hint Resolve keeps_ac_terminate : crust.

Lemma keeps_reset_receive s : keeps R (reset_receive_heartbeat s).
Proof. unfold reset_receive_heartbeat, Heartbeat_reset_receive. keeps_go. Qed.
#[local] Hint Resolve keeps_reset_receive : crust.

Lemma keeps_ac_read fuel : ∀ s, keeps R (ActiveConnection_read fuel s).
Proof. induction fuel as [|fuel IH]; intros s; cbn [ActiveConnection_read]; keeps_go. Qed.
#[local] Hint Resolve keeps_ac_read : crust.

Lemma keeps_ac_start t s o u k e : keeps R (ActiveConnection_start t s o u k e).
Proof. unfold ActiveConnection_start, Heartbeat_new, as_active. keeps_go. Qed.
#[local] Hint Resolve keeps_ac_start : crust.

Lemma keeps_cc_terminate s : keeps R (ConnectionCandidate_terminate s).
Proof. unfold ConnectionCandidate_terminate. keeps_go. Qed.
#[local] Hint Resolve keeps_cc_terminate : crust.

Lemma keeps_cc_start t s o u f : keeps R (ConnectionCandidate_start t s o u f).
Proof. unfold ConnectionCandidate_start, as_candidate. keeps_go. Qed.
#[local] Hint Resolve keeps_cc_start : crust.

Lemma keeps_le_terminate dt s :
  (∀ r, keeps R (dt r)) → keeps R (ListenerExchange_terminate dt s).
Proof. intros Hdt. unfold ListenerExchange_terminate, terminate_childern. keeps_go. Qed.
#[local] Hint Resolve keeps_le_terminate : crust.

Lemma keeps_mapped_finish f socket addrs : keeps R (mapped_finish f socket addrs).
Proof.
  destruct f; cbn [mapped_finish]; unfold connection_info_mapped; [|keeps_go].
  unfold listener_mapped, handle_mapped_socket, crust_io, bind_ok. keeps_go.
  apply keeps_modify. intros w. apply frame_listeners.
Qed.
#[local] Hint Resolve keeps_mapped_finish : crust.

Lemma keeps_le_write dt s m :
  (∀ r, keeps R (dt r)) → keeps R (ListenerExchange_write dt s m).
Proof. intros Hdt. unfold ListenerExchange_write, ListenerExchange_done. keeps_go. Qed.

Lemma keeps_State_terminate depth : ∀ r, keeps R (State_terminate depth r).
Proof.
  induction depth as [|depth IH]; intros r; cbn [State_terminate]; [by eauto with crust|].
  unfold ConnectExchange_terminate, Connect_terminate, Connect_terminate_children,
    CheckReachability_terminate, ConnectionListener_terminate, ConfigRefresher_terminate,
    TryPeer_terminate, Bootstrap_terminate, Bootstrap_terminate_children,
    ServiceDiscovery_terminate, GetExtAddr_terminate, Mapped_terminate, Mapped_terminate_children.
  keeps_go.
Qed.

Lemma keeps_dyn_terminate r : keeps R (dyn_terminate r).
Proof. apply keeps_bind; [done|apply keeps_gets; done|intros; apply keeps_State_terminate]. Qed.

End Handlers.
End Frame.
