(* ===== verification/ConnectProps.v ===== *)
(** Properties of connecting to a peer ([src/src/main/connect]). *)

From stdpp Require Import base tactics list gmap.
From Stdlib Require Import ZArith Lia.
From S2P Require Import Prelude Types Env Socket ConnMap World ActiveConnection Candidate.
From S2P Require Import NatUtil Connect Listener Refresher System.

Section ConnectProps.
Context {ENV : Env} {UID : Type} `{!Uid UID, !Codec (Message UID)}.
Abbreviation MW := (M (World UID)).
Implicit Types (w : World UID) (self : ConnectState UID).

(** A state of a connection attempt to [u] that is registered under [t]. *)
Definition attempt (u : UID) (t : Token) (o : StateObj UID) : Prop :=
  match o with
  | StConnectExchange s => ce_expected_id s = u ∧ ce_token s = t
  | StCandidate s => cc_their_id s = u ∧ cc_token s = t
  | _ => False
  end.

(** The tokens [l] are those of connection attempts to [u], none of them running. *)
Definition attempts (u : UID) (l : list Token) (w : World UID) : Prop :=
  ∀ t, t ∈ l → ∃ r o, w_states w !! t = Some r ∧ w_heap w !! r = Some o ∧
    w_borrows w !! r = None ∧ attempt u t o.

(** Both kinds of attempt end in the same way. *)
Lemma leave_done t s u w :
  (∀ oe, w_cm w !! u = Some oe → 0 < currently_handshaking oe) →
  ∃ n, (remove_state t ;; _ ← io (Socket_deregister s); with_cm (cm_leave u)) w =
       Done tt (set_cm (left_one u (w_cm w)) (set_states (delete t (w_states w)) (set_net n w))) ∧
       (PollLaws → same_streams (w_net w) n).
Proof.
  intros Hcm. unfold mbind, M_bind, remove_state, modify.
  destruct (deregister_done s (set_states (delete t (w_states w)) w)) as (x & n & -> & Hf).
  exists n. split; [|exact Hf]. unfold with_cm, zoom. cbn. by rewrite cm_leave_done.
Qed.

Lemma terminate_attempt d u t r o w :
  w_heap w !! r = Some o → w_borrows w !! r = None → attempt u t o →
  (∀ oe, w_cm w !! u = Some oe → 0 < currently_handshaking oe) →
  ∃ n, State_terminate (S d) r w =
       Done tt (set_cm (left_one u (w_cm w)) (set_states (delete t (w_states w)) (set_net n w))) ∧
       (PollLaws → same_streams (w_net w) n).
Proof.
  intros Hh Hb Ho Hcm.
  destruct o as [|s|s| | | | | | | | | |]; try done; destruct Ho as [<- <-];
    cbn [State_terminate];
    [ destruct (leave_done (cc_token s) (cc_socket s) (cc_their_id s)
        (set_borrows (<[r:=Writing]> (w_borrows w)) w) Hcm) as (n & Hn & Hf)
    | destruct (leave_done (ce_token s) (ce_socket s) (ce_expected_id s)
        (set_borrows (<[r:=Writing]> (w_borrows w)) w) Hcm) as (n & Hn & Hf) ];
    exists n; (split; [|exact Hf]); eapply with_borrow_mut_same; try done;
    unfold ConnectionCandidate_terminate, ConnectExchange_terminate;
    unfold mbind at 1, M_bind at 1; rewrite Hn; done.
Qed.

(** What terminating the attempts [l] to [u] leaves, when [k] handshakes with
    [u] were under way and [a] was its active connection. *)
Definition attempts_gone (u : UID) (l : list Token) (a : option Token) (k : Z)
  (w w' : World UID) : Prop :=
  (∀ t, w_states w' !! t = if decide (t ∈ l) then None else w_states w !! t) ∧
  w_cm w' !! u = entry a (k - Z.of_nat (length l)) ∧
  (∀ v, v ≠ u → w_cm w' !! v = w_cm w !! v) ∧
  w_heap w' = w_heap w ∧ w_borrows w' = w_borrows w ∧ w_events w' = w_events w ∧
  w_next_rc w' = w_next_rc w ∧ (PollLaws → same_streams (w_net w) (w_net w')).

Lemma terminate_attempts u l : ∀ a k w,
  NoDup l → attempts u l w → w_cm w !! u = entry a k → Z.of_nat (length l) ≤ k →
  ∃ w', for_each (λ child, state ← get_state child;
                  match state with Some state => dyn_terminate state | None => mret tt end) l w =
        Done tt w' ∧ attempts_gone u l a k w w'.
Proof.
  induction l as [|t l IH]; intros a k w Hnd Hat Hcm Hk.
  { exists w. split; [done|]. cbn. split_and!; try done. by rewrite Z.sub_0_r. }
  apply NoDup_cons in Hnd as [Ht Hnd]. cbn [length] in Hk.
  destruct (Hat t) as (r & o & Hs & Hh & Hb & Ho); [left|].
  cbn [for_each]. unfold mbind at 1, M_bind at 1, mbind at 1, M_bind at 1, get_state, gets at 1.
  rewrite Hs. unfold dyn_terminate at 1, mbind at 1, M_bind at 1, gets at 1.
  destruct (terminate_attempt (size (w_heap w)) u t r o w Hh Hb Ho) as (n & -> & Hf).
  { rewrite Hcm. unfold entry. case_decide; [done|]. intros oe [= <-]. cbn. lia. }
  set (w1 := set_cm _ _).
  destruct (IH a (k - 1) w1) as (w' & Hrun & Hgone); [done| | |lia|].
  { intros t' Ht'. destruct (Hat t') as (r' & o' & ? & ? & ? & ?); [by right|].
    exists r', o'. cbn. rewrite lookup_delete_ne by set_solver. done. }
  { cbn. apply left_one_eq; [done|lia]. }
  exists w'. split; [exact Hrun|].
  destruct Hgone as (Hst & Hcu & Hcv & Hh' & Hb' & He' & Hn' & Hs'). cbn in *. split_and!; try done.
  - intros t'. rewrite Hst. destruct (decide (t' = t)) as [->|].
    + rewrite lookup_delete_eq, decide_False by done. by rewrite decide_True by left.
    + rewrite lookup_delete_ne by done. destruct (decide (t' ∈ l)).
      * by rewrite decide_True by by right.
      * rewrite decide_False; [done|]. by intros [?|?]%elem_of_cons.
  - rewrite Hcu. apply (f_equal (entry a)). cbn [length] in *. lia.
  - intros v Hv. rewrite Hcv by done. by apply left_one_ne.
  - intros L. etrans; [exact (Hf L)|exact (Hs' L)].
Qed.

(** What [Connect::terminate] does when its children are connection attempts. *)
Definition attempt_over (self : ConnectState UID) (a : option Token) (k : Z)
  (w w' : World UID) : Prop :=
  let u := cn_their_id self in
  let k' := k - Z.of_nat (size (cn_children self)) in
  (∀ t, w_states w' !! t =
        if decide (t ∈ cn_children self ∨ t = cn_token self) then None else w_states w !! t) ∧
  w_cm w' !! u = entry a k' ∧ (∀ v, v ≠ u → w_cm w' !! v = w_cm w !! v) ∧
  w_events w' = w_events w ++ (if decide (k' = 0 ∧ a = None) then [ConnectFailure u] else []) ∧
  w_heap w' = w_heap w ∧ w_borrows w' = w_borrows w ∧ w_next_rc w' = w_next_rc w ∧
  (PollLaws → TimerLaws → same_streams (w_net w) (w_net w')).

Lemma connect_terminate_spec self a k w :
  attempts (cn_their_id self) (elements (cn_children self)) w →
  w_cm w !! cn_their_id self = entry a k → Z.of_nat (size (cn_children self)) ≤ k →
  ∃ w', Connect_terminate dyn_terminate self w =
        Done (cn_set_listener None (cn_set_children ∅ self)) w' ∧ attempt_over self a k w w'.
Proof.
  intros Hat Hcm Hk.
  destruct (terminate_attempts (cn_their_id self) (elements (cn_children self)) a k w)
    as (w1 & Hrun & Hst & Hcu & Hcv & Hh & Hb & He & Hn & Hs);
    [apply NoDup_elements|done|done|done|].
  change (length (elements (cn_children self))) with (size (cn_children self)) in Hcu.
  unfold Connect_terminate, Connect_terminate_children.
  unfold mbind at 1, M_bind at 1, mbind at 1, M_bind at 1. rewrite Hrun. cbn [mret M_ret].
  set (k' := k - _) in *.
  assert (∃ n2, (match cn_listener (cn_set_children ∅ self) with
    | Some l => _ ← io (call (poll_deregister (EvListener l)));
                mret (cn_set_listener None (cn_set_children ∅ self))
    | None => mret (cn_set_children ∅ self) end) w1 =
    Done (cn_set_listener None (cn_set_children ∅ self)) (set_net n2 w1) ∧
    (PollLaws → same_streams (w_net w1) n2)) as (n2 & Hl & Hf).
  { destruct (cn_listener (cn_set_children ∅ self)) as [l|] eqn:El.
    - unfold mbind, M_bind, io, zoom, call.
      pose proof (λ L : PollLaws, deregister_frame (EvListener l) (w_net w1)) as Hf.
      destruct (poll_deregister (EvListener l) (w_net w1)) as [x n2]. by exists n2.
    - exists (w_net w1). rewrite set_net_id. split; [|done].
      destruct self; cbn in *. by rewrite El. }
  unfold mbind at 1, M_bind at 1. rewrite Hl. unfold mbind at 1, M_bind at 1.
  rewrite cancel_timeout_done. cbn -[bool_decide].
  unfold mbind, M_bind, remove_state, modify, gets. cbn -[bool_decide].
  rewrite Hcu. unfold attempt_over. fold k'. unfold entry.
  destruct (decide (k' = 0 ∧ a = None)) as [Hd|Hd]; cbn;
    eexists; (split; [done|]); cbn; rewrite ?He, ?app_nil_r; split_and!; try done;
    try (rewrite Hcu; unfold entry; by rewrite ?decide_True, ?decide_False by done);
    try (intros L TL; etrans; [exact (Hs L)|]; etrans; [exact (Hf L)|apply cancel_timeout_frame]);
    intros t; (destruct (decide (t = cn_token self)) as [->|];
      [rewrite lookup_delete_eq, decide_True by (by right); done|]);
    rewrite lookup_delete_ne, Hst by done;
    (destruct (decide (t ∈ elements (cn_children self))) as [Hin|Hin];
      rewrite elem_of_elements in Hin; [by rewrite decide_True by (by left)|]);
    by rewrite decide_False by tauto.
Qed.

(** ** Properties *)

(** C14: giving up on a peer cleans up. When the timer of a connection attempt
    fires while its children are handshaking or candidate connections to that
    peer, all of them are taken out of the event loop, their handshakes are no
    longer counted, and [ConnectFailure] is sent, once, exactly when that leaves
    no other handshake and no active connection with the peer. *)
Theorem connect_timeout_cleans self tid a k w :
  attempts (cn_their_id self) (elements (cn_children self)) w →
  w_cm w !! cn_their_id self = entry a k → Z.of_nat (size (cn_children self)) ≤ k →
  ∃ self' w', Connect_timeout dyn_terminate self tid w = Done self' w' ∧
    cn_children self' = ∅ ∧ cn_listener self' = None ∧ attempt_over self a k w w'.
Proof.
  intros Hat Hcm Hk. destruct (connect_terminate_spec self a k w) as (w' & Hrun & Hover); try done.
  eexists _, w'. split; [exact Hrun|]. by split_and!.
Qed.

(** One of the connections to the peer wins. When a candidate reports its
    socket, the other attempts are ended, the user is told [ConnectSuccess] and
    then gets the data the peer has already sent, in order; the candidate's
    token becomes the peer's active connection, and [ConnectFailure] is not
    sent. *)
Lemma candidate_wins `{!TimerLaws, !PollLaws, !CodecLaws (Message UID)}
  self child inner ms fs tail cs n' a k w :
  attempts (cn_their_id self) (elements (cn_children self ∖ {[child]})) w →
  w_cm w !! cn_their_id self = entry a k →
  Z.of_nat (size (cn_children self ∖ {[child]})) < k → k < usize_modulus →
  w_borrows w !! w_next_rc w = None →
  reader_ok inner → Forall2 fits ms fs → incomplete tail →
  delivers (stream inner) (w_net w) cs n' →
  buffered inner ++ concat cs = concat fs ++ tail →
  (length cs < loop_fuel)%nat → (length ms < loop_fuel)%nat →
  ∃ self' w', Connect_handle_connection_candidate dyn_terminate self child (Some (Some inner)) w =
              Done self' w' ∧
    w_events w' = w_events w ++ [ConnectSuccess (cn_their_id self)] ++
                  data_events (cn_their_id self) Node ms ∧
    cm_active (cn_their_id self) (w_cm w') = Some child ∧
    (∀ t, t ∈ cn_children self → t ≠ child → w_states w' !! t = None) ∧
    w_states w' !! child = Some (w_next_rc w).
Proof.
  intros Hat Hcm Hk Hmod Hbor Hok Hfs Htail Hd Hb Hcs Hms.
  unfold Connect_handle_connection_candidate.
  set (self1 := cn_set_children (cn_children self ∖ {[child]}) self).
  destruct (connect_terminate_spec self1 a k w) as (w1 & Hrun & Hover); [done|done|cbn; lia|].
  destruct Hover as (Hst & Hcu & Hcv & He & Hh & Hbo & Hn & Hs). cbn in Hcu, He.
  rewrite decide_False, app_nil_r in He by (intros [? _]; lia).
  unfold entry in Hcu. rewrite decide_False in Hcu by (intros [? _]; lia).
  destruct (Hs _ _ _ _ _ Hd) as (n1 & Hd1).
  unfold mbind, M_bind. rewrite Hrun. cbn.
  destruct (start_delivers child inner (cn_our_id self) (cn_their_id self) Node
    (ConnectSuccess (cn_their_id self)) w1 ms fs tail cs n1 a
    (k - Z.of_nat (size (cn_children self ∖ {[child]}))))
    as (w2 & s & -> & He2 & Hcm2 & Hst2 & _); try done; [by apply or_insert_some|lia|by rewrite Hbo, Hn|].
  eexists _, w2. split; [done|]. rewrite He2, He, Hcm2, Hst2, Hn. split_and!; try done.
  - unfold cm_active. by rewrite lookup_insert_eq.
  - intros t Ht Hne. rewrite lookup_insert_ne, Hst by done.
    rewrite decide_True; [done|]. left. cbn. set_solver.
  - by rewrite lookup_insert_eq.
Qed.

(** C25: the connecting side hands over a connection only to the peer it
    expects. The reply [Connect(uid, name_hash)], arriving in any pieces, makes
    the handshake hand over the socket if the identifier and the network name's
    hash are the expected ones; otherwise the handshake is ended, no longer
    counted, and reported as failed. *)
Theorem exchange_identity `{!CodecLaws (Message UID)} finish (self : ConnectExchange UID) inner
  uid name_hash f cs n' w :
  ce_socket self = Some inner → fits (Connect uid name_hash) f → reader_ok inner →
  delivers (stream inner) (w_net w) cs n' → (length cs < loop_fuel)%nat →
  buffered inner ++ concat cs = f →
  (∀ oe, w_cm w !! ce_expected_id self = Some oe → 0 < currently_handshaking oe) →
  ∃ inner' n, stream inner' = stream inner ∧
    ConnectExchange_ready finish self (mkReady true false false false) w =
    if decide (uid = ce_expected_id self ∧ name_hash = ce_expected_nh self)
    then (finish (ce_finish self) (ce_token self) (Some (Some inner')) ;;
          mret (ce_set_socket None self))
         (set_states (delete (ce_token self) (w_states w)) (set_net n w))
    else (finish (ce_finish self) (ce_token self) None ;;
          mret (ce_set_socket (Some inner') self))
         (set_cm (left_one (ce_expected_id self) (w_cm w))
            (set_states (delete (ce_token self) (w_states w)) (set_net n w))).
Proof.
  intros Hs Hf Hok Hd Hcs Hb Hcm. rewrite <- (app_nil_r f) in Hb.
  destruct (read_next inner _ _ [] (w_net w) cs n' Hf Hok Hd Hcs Hb)
    as (s1 & n1 & cs1 & Hr & _ & Hst & _ & Hb1 & _).
  unfold ConnectExchange_ready. cbn -[ConnectExchange_receive_response].
  unfold mbind, M_bind. cbn -[ConnectExchange_receive_response].
  unfold ConnectExchange_receive_response, mbind, M_bind. rewrite Hs.
  unfold io at 1, zoom at 1, Socket_read, mbind, M_bind. rewrite Hr. cbn.
  destruct (leave_done (ce_token self) (Some s1) (ce_expected_id self) (set_net n1 w))
    as (n & Hn & _); [done|].
  destruct (decide (uid = ce_expected_id self ∧ name_hash = ce_expected_nh self)) as [[-> ->]|Hne].
  - exists s1, n1. rewrite !bool_decide_true by done. cbn. split; [done|].
    unfold remove_state, modify. cbn. by destruct (finish _ _ _ _).
  - exists s1, n. replace (negb _ || negb _) with true.
    2: { destruct (decide (uid = ce_expected_id self)), (decide (name_hash = ce_expected_nh self));
         rewrite ?bool_decide_true, ?bool_decide_false by done; tauto. }
    split; [done|]. unfold ConnectExchange_handle_error, ConnectExchange_terminate.
    unfold mbind at 1, M_bind at 1. unfold mbind, M_bind in Hn |- *. cbn in Hn |- *. rewrite Hn.
    by destruct (finish _ _ _ _).
Qed.

(** The handshakes of the connecting side are balanced. Starting one counts
    it, and terminating it before anything else happens gives back exactly the
    connection map and the states there were; if the socket cannot be
    registered, neither is touched. *)
Theorem exchange_balanced socket our_id expected_id name_hash parent a k w :
  w_cm w !! expected_id = entry a k → 0 ≤ k → k + 1 < usize_modulus →
  w_token_counter w + 1 < usize_modulus → w_states w !! w_token_counter w = None →
  w_borrows w !! w_next_rc w = None →
  ∃ r w1, ConnectExchange_start socket our_id expected_id name_hash parent w = Done r w1 ∧
    match r with
    | Err _ => w_cm w1 = w_cm w ∧ w_states w1 = w_states w
    | Ok token =>
        w_cm w1 !! expected_id = entry a (k + 1) ∧
        w_states w1 = <[token := w_next_rc w]> (w_states w) ∧
        ∃ w2, dyn_terminate (w_next_rc w) w1 = Done tt w2 ∧
              w_cm w2 = w_cm w ∧ w_states w2 = w_states w
    end.
Proof.
  intros Hcm Hk Hk' Htok Hfree Hbor. unfold ConnectExchange_start, get_new_token.
  unfold mbind, M_bind, gets. rewrite usize_succ_small by done. unfold modify. cbn.
  match goal with |- context [io (Socket_register ?s ?t ?i) ?w0] =>
    destruct (register_done s t i w0) as (r & n & ->) end.
  destruct r as [[]|e]; [|by eexists _, _].
  unfold with_cm, zoom. cbn. rewrite (cm_enter_done _ _ a k) by done. cbn.
  eexists _, _. split; [done|]. cbn -[dyn_terminate]. split_and!; [|done|].
  { rewrite lookup_insert_eq. unfold entry. by rewrite decide_False by lia. }
  unfold dyn_terminate, mbind, M_bind, gets.
  match goal with |- context [State_terminate (S ?d) ?r ?w0] =>
    destruct (terminate_attempt d expected_id (w_token_counter w) r
      (StConnectExchange (mkConnectExchange (w_token_counter w) expected_id name_hash socket
         (Some (Connect our_id name_hash, 0)) parent)) w0) as (n2 & -> & _) end; try done.
  { cbn. by rewrite lookup_insert_eq. }
  { cbn. intros oe. rewrite lookup_insert_eq. intros [= <-]. cbn. lia. }
  eexists. split; [done|]. cbn. split; [|by rewrite delete_insert_id].
  apply map_eq. intros v. destruct (decide (v = expected_id)) as [->|Hv].
  - erewrite left_one_eq; [|rewrite lookup_insert_eq; unfold entry|].
    + rewrite Hcm. apply (f_equal (entry a)). instantiate (1 := k + 1). lia.
    + by rewrite decide_False by lia.
    + lia.
  - rewrite left_one_ne, lookup_insert_ne by done. done.
Qed.

(** The attempt has no other child and its new socket cannot be registered. *)
Lemma exchange_msg_gives_up self st e n w :
  cn_children self = ∅ → w_cm w !! cn_their_id self = None →
  w_token_counter w + 1 < usize_modulus →
  poll_register (EvStream st) (w_token_counter w) ready_write (w_net w) = (Err e, n) →
  ∃ w', Connect_exchange_msg dyn_terminate self (Socket_wrap st) w =
        Done (cn_set_listener None self) w' ∧
    w_net w' = (timer_cancel_timeout (cn_timeout self)
                  match cn_listener self with
                  | Some l => (poll_deregister (EvListener l) n).2
                  | None => n
                  end).2 ∧
    w_events w' = w_events w ++ [ConnectFailure (cn_their_id self)] ∧
    w_states w' = delete (cn_token self) (w_states w) ∧
    w_heap w' = w_heap w ∧ w_borrows w' = w_borrows w.
Proof.
  intros Hch Hcm Htok Hp. unfold Connect_exchange_msg, ConnectExchange_start, get_new_token.
  unfold mbind at 1, M_bind at 1, mbind at 1, M_bind at 1, mbind at 1, M_bind at 1, gets at 1.
  unfold mbind at 1, M_bind at 1. rewrite usize_succ_small by done.
  unfold mbind at 1, M_bind at 1, modify at 1. cbn [mret M_ret].
  unfold mbind at 1, M_bind at 1, io at 1, zoom at 1, Socket_register, call. cbn [w_net set_token_counter].
  cbn -[Connect_maybe_terminate]. rewrite Hp. cbn -[Connect_maybe_terminate].
  unfold Connect_maybe_terminate. rewrite Hch, bool_decide_true by done.
  unfold Connect_terminate, Connect_terminate_children. rewrite Hch, elements_empty.
  unfold mbind at 1, M_bind at 1, mbind at 1, M_bind at 1. cbn [for_each mret M_ret].
  replace (cn_set_children ∅ self) with self by (destruct self; simpl in Hch; by subst).
  unfold mbind, M_bind. destruct (cn_listener self) as [l|] eqn:El.
  - unfold io, zoom, call. cbn [w_net set_net].
    destruct (poll_deregister (EvListener l) n) as [x n2]. cbn [mret M_ret].
    rewrite cancel_timeout_done. cbn -[bool_decide].
    rewrite Hcm, bool_decide_false by (by intros []). by eexists.
  - cbn [mret M_ret]. rewrite cancel_timeout_done. cbn -[bool_decide].
    rewrite Hcm, bool_decide_false by (by intros []).
    replace (cn_set_listener None self) with self by (destruct self; simpl in El; by subst).
    eexists. split; [done|]. by split_and!.
Qed.

(** A connection attempt whose first socket cannot be registered is given
    up at once, with [ConnectFailure], and yet [start] succeeds and leaves the
    attempt in the event loop, with its timer cancelled. *)
Theorem connect_start_zombie our_ci their_ci our_nh addr st tm e n1 n2 n3 w :
  pub_for_direct their_ci = [addr] → hole_punch_socket our_ci = None →
  w_cm w !! pub_id their_ci = None → w_borrows w !! w_next_rc w = None →
  w_token_counter w + 2 < usize_modulus →
  timer_set_timeout CONNECT_TIMEOUT_MS (mkCoreTimer (w_token_counter w) 0) (w_net w) =
    (Ok tm, n1) →
  tcp_connect addr n1 = (Ok st, n2) →
  poll_register (EvStream st) (w_token_counter w + 1) ready_write n2 = (Err e, n3) →
  ∃ w' s, Connect_start dyn_terminate our_ci their_ci our_nh w = Done (Ok tt) w' ∧
    w_events w' = w_events w ++ [ConnectFailure (pub_id their_ci)] ∧
    w_net w' = (timer_cancel_timeout tm n3).2 ∧
    w_states w' !! w_token_counter w = Some (w_next_rc w) ∧
    w_heap w' !! w_next_rc w = Some (StConnect s) ∧ cn_children s = ∅.
Proof.
  intros Hdir Hhp Hcm Hbor Htok Ht Hc Hp. unfold Connect_start. rewrite Hdir, Hhp.
  rewrite (bool_decide_false ([addr] = [])) by done. cbn [andb].
  unfold mbind at 1, M_bind at 1, get_new_token, mbind at 1, M_bind at 1, gets at 1.
  unfold mbind at 1, M_bind at 1. rewrite usize_succ_small by lia.
  unfold mbind at 1, M_bind at 1, modify at 1. cbn [mret M_ret].
  unfold mbind at 1, M_bind at 1. rewrite set_timeout_done. cbn [w_net set_token_counter].
  rewrite Ht. cbn -[for_each connect_all dyn_terminate].
  unfold mbind, M_bind, gets, rc_new. cbn -[for_each connect_all dyn_terminate].
  unfold io, zoom. cbn -[for_each dyn_terminate Connect_exchange_msg].
  unfold Socket_connect, mbind, M_bind, call. cbn -[for_each dyn_terminate Connect_exchange_msg].
  rewrite Hc. cbn -[for_each dyn_terminate Connect_exchange_msg].
  unfold bind_ok, mbind, M_bind. cbn -[dyn_terminate Connect_exchange_msg].
  unfold mbind, M_bind.
  set (self := mkConnectState _ _ _ _ _ _ _ _).
  match goal with |- context [with_borrow_mut ?r (as_connect ?f) ?w0] =>
    destruct (exchange_msg_gives_up self st e n3 (set_borrows (<[r:=Writing]> (w_borrows w0)) w0))
      as (w1 & Hx & Hn & He & Hs & Hh & Hb); [done|done|cbn; lia|done|];
    rewrite (with_borrow_mut_done r (as_connect f) w0 (StConnect self)
      (StConnect (cn_set_listener None self)) w1); [|done|apply lookup_insert_eq|unfold as_connect, mbind, M_bind; rewrite Hx; done] end.
  cbn. eexists _, _. split; [done|]. cbn. rewrite He, Hn. split_and!; try done.
  - by rewrite lookup_insert_eq.
  - by rewrite lookup_insert_eq.
  - done.
Qed.

(** Accepting a connection whose socket cannot be registered, while the
    attempt has no other child, panics: the attempt terminates itself, giving up
    its listener, and the accept loop goes on to use it. *)
Theorem connect_accept_panics self l st e n1 n2 fuel w :
  cn_children self = ∅ → cn_listener self = Some l → w_cm w !! cn_their_id self = None →
  w_token_counter w + 1 < usize_modulus →
  tcp_accept l (w_net w) = (Ok st, n1) →
  poll_register (EvStream st) (w_token_counter w) ready_write n1 = (Err e, n2) →
  Connect_accept dyn_terminate (S (S fuel)) self w = Panicked UnwrapNone.
Proof.
  intros Hch Hl Hcm Htok Ha Hp. cbn [Connect_accept]. rewrite Hl. cbn [unwrap].
  unfold mbind at 1, M_bind at 1, mret at 1, M_ret at 1.
  unfold mbind at 1, M_bind at 1, io, zoom, call. rewrite Ha.
  unfold mbind at 1, M_bind at 1.
  destruct (exchange_msg_gives_up self st e n2 (set_net n1 w)) as (w' & -> & _); try done.
Qed.

(** C13: the chooser picks one connection. Of two candidates for the same peer,
    each accepted by the listener, the first whose choice goes out becomes the
    peer's active connection; when the other becomes writable after that, it
    sends nothing and is ended, no longer counted, while the first stays the
    active connection and the user is told of one connection only. *)
Theorem chooser_picks_one `{!TimerLaws, !CodecLaws (Message UID)} (c1 c2 : ConnectionCandidate UID)
  our their s n1 n2 k w :
  uid_gt our their = true →
  cc_our_id c1 = our → cc_their_id c1 = their → cc_finish c1 = FinishListener our their →
  cc_our_id c2 = our → cc_their_id c2 = their → cc_finish c2 = FinishListener our their →
  cc_token c1 ≠ cc_token c2 →
  cc_socket c1 = Some s → cc_msg c1 = Some (ChooseConnection, 0) → idle s → reader_ok s →
  buffered s = [] →
  w_cm w !! their = Some (mkConnectionId None k) → 2 ≤ k → w_borrows w !! w_next_rc w = None →
  sends_now s (cc_token c1) (ChooseConnection : Message UID) (w_net w) n1 →
  delivers (stream s) n1 [] n2 → (0 < loop_fuel)%nat →
  let writable := mkReady false true false false in
  ∃ c1' w1 c2' w2,
    ConnectionCandidate_ready candidate_finish c1 writable w = Done c1' w1 ∧
    ConnectionCandidate_ready candidate_finish c2 writable w1 = Done c2' w2 ∧
    w_cm w1 !! their = Some (mkConnectionId (Some (cc_token c1)) (k - 1)) ∧
    w_cm w2 !! their = Some (mkConnectionId (Some (cc_token c1)) (k - 2)) ∧
    w_states w2 !! cc_token c1 = Some (w_next_rc w) ∧ w_states w2 !! cc_token c2 = None ∧
    w_events w2 = w_events w ++ [ConnectSuccess their].
Proof.
  intros Hgt Ho1 Ht1 Hf1 Ho2 Ht2 Hf2 Htok Hs Hmsg Hidle Hok Hbuf Hcm Hk Hbor Hsend Hd Hfuel writable.
  unfold writable. rewrite (chooser_hands_over _ c1 w s n1); try (by rewrite ?Ho1, ?Ht1).
  2: { unfold cm_active. by rewrite Ht1, Hcm. }
  rewrite Hf1. cbn [candidate_finish listener_candidate_finish]. unfold mbind at 1, M_bind at 1.
  destruct (start_delivers (cc_token c1) s our their Node (ConnectSuccess their)
    (set_states (delete (cc_token c1) (w_states w)) (set_net n1 w)) [] [] [] [] n2 None k)
    as (w1 & x & -> & He & Hcm1 & Hst1 & _); try done.
  { by left. }
  { by rewrite Hbuf. }
  { by apply or_insert_some. }
  { lia. }
  exists (cc_set_socket None (cc_set_msg None c1)), w1. cbn in Hcm1.
  assert (w_cm w1 !! their = Some (mkConnectionId (Some (cc_token c1)) (k - 1))) as Hcm1'.
  { by rewrite Hcm1, lookup_insert_eq. }
  destruct (leave_done (cc_token c2) (cc_socket c2) their w1) as (n3 & Hl & _).
  { rewrite Hcm1'. intros oe [= <-]. cbn. lia. }
  assert (∃ c2', ConnectionCandidate_ready candidate_finish c2 (mkReady false true false false) w1 =
    Done c2' (set_cm (left_one their (w_cm w1))
                (set_states (delete (cc_token c2) (w_states w1)) (set_net n3 w1)))) as (c2' & Hr2).
  { unfold ConnectionCandidate_ready, ConnectionCandidate_write, ConnectionCandidate_handle_error,
      ConnectionCandidate_terminate. unfold mbind, M_bind, gets in Hl |- *.
    cbn -[io with_cm remove_state cm_active candidate_finish] in Hl |- *.
    replace (cm_active (cc_their_id c2) (w_cm w1)) with (Some (cc_token c1))
      by (unfold cm_active; by rewrite Ht2, Hcm1').
    rewrite Ht2, Hl, Hf2. by eexists. }
  exists c2'. eexists. split; [done|]. split; [exact Hr2|]. split; [done|]. cbn. split_and!.
  - unfold left_one. rewrite Hcm1'. cbn. rewrite andb_false_r.
    rewrite lookup_insert_eq. by replace (k - 1 - 1) with (k - 2) by lia.
  - rewrite lookup_delete_ne by done. rewrite Hst1. by rewrite lookup_insert_eq.
  - by rewrite lookup_delete_eq.
  - rewrite He. done.
Qed.

End ConnectProps.

Module ConnectWitness.

#[local] Instance wenv : Env := Script.env true false.
#[local] Existing Instance Script.msg_codec.
#[local] Existing Instance Script.msg_codec_laws.
#[local] Existing Instance ActiveConnectionWitness.timer_laws.

#[export] Instance poll_laws : PollLaws.
Proof. split. intros ev n st cs n1 Hd. by exists n1. Defined.

Definition st0 : @TcpStream wenv := 0%nat.
Definition tm0 : @Timeout wenv := 0%nat.
Definition ln0 : @TcpListener wenv := 0%nat.
Definition calm : @net wenv := Script.quiet.
Definition fresh : SockInner := mkSockInner st0 [] 0 [] None.

(** Connecting to the peer 7: a handshake under token 11, a candidate under 12. *)
Definition conn : ConnectState Z := mkConnectState 10 tm0 [] 1 7 0%nat None {[ 11; 12 ]}.
Definition exchange : ConnectExchange Z :=
  mkConnectExchange 11 7 [] (Some fresh) None 0%nat.
Definition candidate : ConnectionCandidate Z :=
  mkConnectionCandidate 12 (Some fresh) 1 7 None (FinishConnect 0%nat).

Definition world (n : @net wenv) : World Z :=
  mkWorld n {[ 0%nat := StConnect conn; 1%nat := StConnectExchange exchange;
               2%nat := StCandidate candidate ]} ∅ 3%nat 13
    {[ 10 := 0%nat; 11 := 1%nat; 12 := 2%nat ]} {[ 7 := mkConnectionId None 2 ]}
    (ConfigWrapper_new Config_default) [] [] ∅ 0%nat [].

Lemma both_attempts n : attempts 7 [11; 12] (world n).
Proof.
  intros t Ht. apply elem_of_cons in Ht as [->|Ht].
  - exists 1%nat, (StConnectExchange exchange). by split_and!.
  - apply list_elem_of_singleton in Ht as ->. exists 2%nat, (StCandidate candidate). by split_and!.
Defined.

Lemma connect_timeout_cleans_witness :
  ∃ self' w', Connect_timeout dyn_terminate conn 0 (world calm) = Done self' w' ∧
    cn_children self' = ∅ ∧ cn_listener self' = None ∧ attempt_over conn None 2 (world calm) w'.
Proof.
  apply (connect_timeout_cleans conn 0 None 2 (world calm)).
  - apply both_attempts.
  - reflexivity.
  - vm_compute. discriminate.
Defined.

(** The reply of the peer 8 where 7 was expected. *)
Definition wrong : list byte := [Byte.x02; Byte.x00; Byte.x00; Byte.x00; Byte.x04; Byte.x08].
Definition net_wrong : @net wenv := Script.set_reads [Ok wrong] calm.
Definition fin (_ : rc) (_ : Token) (_ : option Socket) : M (World Z) unit := mret tt.

Lemma exchange_identity_witness :
  ∃ inner' n, stream inner' = st0 ∧
    ConnectExchange_ready fin exchange (mkReady true false false false)
      (world net_wrong) =
    (fin 0%nat 11 None ;; mret (ce_set_socket (Some inner') exchange))
      (set_cm (left_one 7 (w_cm (world net_wrong)))
         (set_states (delete 11 (w_states (world net_wrong))) (set_net n (world net_wrong)))).
Proof.
  apply (exchange_identity fin exchange fresh 8 [] wrong [wrong] calm (world net_wrong)).
  - reflexivity.
  - eexists. split; [reflexivity|]. split; [reflexivity|]. vm_compute. discriminate.
  - split; vm_compute; discriminate.
  - eapply delivers_cons; [done|reflexivity|]. by eapply (delivers_nil _ _ WouldBlock).
  - vm_compute. lia.
  - reflexivity.
  - intros oe [= <-]. reflexivity.
Defined.

Lemma exchange_balanced_witness :
  ∃ r w1, ConnectExchange_start (Some fresh) 1 7 [] 0%nat (world calm) = Done r w1 ∧
    match r with
    | Err _ => w_cm w1 = w_cm (world calm) ∧ w_states w1 = w_states (world calm)
    | Ok token =>
        w_cm w1 !! 7 = entry None 3 ∧
        w_states w1 = <[token := 3%nat]> (w_states (world calm)) ∧
        ∃ w2, dyn_terminate 3%nat w1 = Done tt w2 ∧
              w_cm w2 = w_cm (world calm) ∧ w_states w2 = w_states (world calm)
    end.
Proof.
  apply (exchange_balanced (Some fresh) 1 7 [] 0%nat None 2 (world calm)); try reflexivity.
  discriminate.
Defined.

Definition w0 (n : @net wenv) : World Z := Core_new 2 n (ConfigWrapper_new Config_default).
Definition our_ci : PrivConnectionInfo Z TcpBuilder := mkPrivConnectionInfo 1 [] [] None.
Definition their_ci : PubConnectionInfo Z := mkPubConnectionInfo 7 [] [Script.local].
Definition no_register : @net wenv := Script.set_polls [Err OtherKind] calm.

Lemma connect_start_zombie_witness :
  ∃ w' s, Connect_start dyn_terminate our_ci their_ci [] (w0 no_register) = Done (Ok tt) w' ∧
    w_events w' = [ConnectFailure 7] ∧ w_net w' = calm ∧
    w_states w' !! 2 = Some 0%nat ∧
    w_heap w' !! 0%nat = Some (StConnect s) ∧ cn_children s = ∅.
Proof.
  eapply (connect_start_zombie our_ci their_ci [] Script.local st0 tm0 OtherKind no_register
    no_register calm (w0 no_register)); reflexivity.
Defined.

Definition lone : ConnectState Z := mkConnectState 10 tm0 [] 1 7 0%nat (Some ln0) ∅.
Definition net_acc : @net wenv := Script.set_accepts [Ok 0%nat] no_register.

Lemma connect_accept_panics_witness :
  Connect_accept dyn_terminate 2 lone (w0 net_acc) = Panicked UnwrapNone.
Proof.
  eapply (connect_accept_panics lone ln0 st0 OtherKind no_register calm 0 (w0 net_acc)); reflexivity.
Defined.

(** Two candidates for the peer 4, accepted by the listener of the peer 9. *)
Definition cand (t : Token) : ConnectionCandidate Z :=
  mkConnectionCandidate t (Some fresh) 9 4 (Some (ChooseConnection, 0)) (FinishListener 9 4).
Definition w_two : World Z :=
  mkWorld calm {[ 0%nat := StCandidate (cand 5); 1%nat := StCandidate (cand 6) ]} ∅ 2%nat 7
    {[ 5 := 0%nat; 6 := 1%nat ]} {[ 4 := mkConnectionId None 2 ]}
    (ConfigWrapper_new Config_default) [] [] ∅ 0%nat [].

Lemma chooser_picks_one_witness :
  let writable := mkReady false true false false in
  ∃ c1' w1 c2' w2,
    ConnectionCandidate_ready candidate_finish (cand 5) writable w_two = Done c1' w1 ∧
    ConnectionCandidate_ready candidate_finish (cand 6) writable w1 = Done c2' w2 ∧
    w_cm w1 !! 4 = Some (mkConnectionId (Some 5) 1) ∧
    w_cm w2 !! 4 = Some (mkConnectionId (Some 5) 0) ∧
    w_states w2 !! 5 = Some 2%nat ∧ w_states w2 !! 6 = None ∧
    w_events w2 = [ConnectSuccess 4].
Proof.
  apply (chooser_picks_one (cand 5) (cand 6) 9 4 fresh calm calm 2 w_two); try reflexivity.
  - discriminate.
  - by split.
  - split; vm_compute; discriminate.
  - exists [Byte.x01], 5, calm. by split_and!.
  - by eapply (delivers_nil _ _ WouldBlock).
  - vm_compute. lia.
Defined.

End ConnectWitness.
