(* ===== verification/ListenerProps.v ===== *)
(** Properties of the accepting side ([src/src/main/connection_listener]). *)

From stdpp Require Import base tactics list gmap.
From Stdlib Require Import ZArith Lia.
From S2P Require Import Prelude Types Env Socket ConnMap World ActiveConnection Candidate.
From S2P Require Import NatUtil Connect Listener Refresher System Frame.

Section ListenerProps.
Context {ENV : Env} {UID : Type} `{!Uid UID, !Codec (Message UID)}.
Abbreviation MW := (M (World UID)).
Implicit Types (w : World UID) (self : ListenerExchange UID).

(** ** Lemmas *)

(** A handshake that has neither admitted its peer nor started checks. *)
Definition undecided (self : ListenerExchange UID) : Prop :=
  le_next_state self = NextNone ∧ le_reachability_children self = ∅.

Lemma terminate_no_children dt self w :
  le_reachability_children self = ∅ → terminate_childern dt self w = Done self w.
Proof.
  intros Hc. unfold terminate_childern. rewrite Hc, elements_empty. cbn.
  unfold mret, M_ret. f_equal. destruct self; simpl in Hc; by subst.
Qed.

(** What the end of a handshake on [inner] asks of the outside world. *)
Definition given_up self (inner : SockInner) (n : net) : net :=
  (poll_deregister (EvStream (stream inner)) (timer_cancel_timeout (le_timeout self) n).2).2.

(** Ending an undecided handshake. *)
Lemma terminate_undecided dt self w :
  undecided self →
  ∃ n, ListenerExchange_terminate dt self w =
       Done self (set_states (delete (le_token self) (w_states w)) (set_net n w)) ∧
       ∀ inner, le_socket self = Some inner → n = given_up self inner (w_net w).
Proof.
  intros [Hn Hc]. unfold ListenerExchange_terminate.
  unfold mbind at 1, M_bind at 1. rewrite terminate_no_children by done.
  unfold mbind at 1, M_bind at 1, remove_state, modify. rewrite Hn.
  unfold mbind at 1, M_bind at 1, mret at 1, M_ret at 1.
  unfold mbind at 1, M_bind at 1. rewrite cancel_timeout_done.
  unfold mbind at 1, M_bind at 1.
  match goal with |- context [io (Socket_deregister ?s) ?w0] =>
    destruct (deregister_done s w0) as (r & n & Hd & _) end.
  exists n. rewrite Hd. split; [done|]. intros inner Hs. revert Hd. rewrite Hs. unfold given_up, io, zoom. cbn. unfold call.
  by destruct (poll_deregister _ _) as [r' n']; intros [= _ <-].
Qed.

Lemma undecided_set_socket s self : undecided self → undecided (le_set_socket s self).
Proof. done. Qed.

(** What the user and the connection map see of a handler. *)
Definition unseen (w w' : World UID) : Prop :=
  w_cm w' = w_cm w ∧ w_events w' = w_events w.

#[local] Instance unseen_preorder : PreOrder unseen.
Proof. split; [by split|]. intros w1 w2 w3 [H1 H2] [H3 H4]. split; congruence. Qed.

Lemma unseen_net n w : unseen w (set_net n w).
Proof. done. Qed.

(** The socket operations only touch the outside world. *)
Lemma wp_io p d {A} (m : M net A) (Q : A → World UID → Prop) w :
  (∀ a n, Q a (set_net n w)) → wp p d m (λ _ _, True) (w_net w) → wp p d (io m) Q w.
Proof.
  intros HQ Hm. unfold wp, io, zoom in *. destruct (m (w_net w)); [apply HQ|done|done].
Qed.

Lemma wp_any {W A} (m : M W A) (w : W) : wp True True m (λ _ _, True) w.
Proof. unfold wp. by destruct (m w). Qed.

Lemma wp_write_undecided dt self msg w :
  undecided self →
  wp True True (ListenerExchange_write dt self msg) (λ _ w', unseen w w' ∧ w_config w' = w_config w) w.
Proof.
  intros Hu. unfold ListenerExchange_write. wp_go. rewrite (proj1 Hu). cbn iota.
  wp_go. apply wp_io; [|apply wp_any]. intros [r s] n. cbn iota beta.
  pose proof (undecided_set_socket s self Hu) as Hu'.
  assert (∀ w0, unseen w w0 → w_config w0 = w_config w →
    wp True True (ListenerExchange_terminate dt (le_set_socket s self))
      (λ _ w', unseen w w' ∧ w_config w' = w_config w) w0) as Hterm.
  { intros w0 Hw0 Hc0. destruct (terminate_undecided dt _ w0 Hu') as (n' & Hn' & _).
    unfold wp. by rewrite Hn'. }
  destruct r as [[|]|e]; [|by wp_go|by apply Hterm].
  unfold ListenerExchange_done, remove_state. wp_go. apply wp_cancel_timeout. intros r n'.
  change (le_next_state (le_set_socket s self)) with (le_next_state self). rewrite (proj1 Hu).
  by apply Hterm.
Qed.

(** Starting the reachability checks admits nobody. *)
Lemma wp_get_new_token d (Q : Token → World UID → Prop) w :
  (∀ t c, Q t (set_token_counter c w)) → wp True d get_new_token Q w.
Proof.
  intros HQ. unfold get_new_token, usize_succ. wp_go.
  destruct (_ =? _); [destruct overflow_checks|]; wp_go; done.
Qed.

Lemma wp_set_timeout p d i t (Q : _ → World UID → Prop) w :
  (∀ r n, Q r (set_net n w)) → wp p d (set_timeout i t) Q w.
Proof. intros HQ. unfold wp. rewrite set_timeout_done. apply HQ. Qed.

Lemma wp_rc_new p d o (Q : rc → World UID → Prop) w :
  Q (w_next_rc w) (set_next_rc (S (w_next_rc w)) (set_heap (<[w_next_rc w := o]> (w_heap w)) w)) →
  wp p d (rc_new o) Q w.
Proof. done. Qed.

Lemma wp_check_start a u r w :
  wp True True (CheckReachability_start a u r) (λ _ w', unseen w w' ∧ w_config w' = w_config w) w.
Proof.
  unfold CheckReachability_start. wp_go. apply wp_io; [|apply wp_any]. intros [s|e] n; wp_go; [|done].
  apply wp_get_new_token. intros t c. wp_go. apply wp_io; [|apply wp_any]. intros [[]|e] n'; wp_go; [|done].
  apply wp_set_timeout. intros [tm|e] n''; wp_go; [|done].
  apply wp_rc_new. unfold insert_state. by wp_go.
Qed.

Lemma wp_start_checks u l self w :
  wp True True (fold_loop (start_check u) self l)
    (λ self' w', unseen w w' ∧ w_config w' = w_config w ∧ le_next_state self' = le_next_state self) w.
Proof.
  apply (wp_fold_loop _ _ _ _ (λ self' w', unseen w w' ∧ w_config w' = w_config w ∧
    le_next_state self' = le_next_state self)); [done|].
  intros a self' w' _ (Hw' & Hc' & Hn'). unfold start_check. wp_go.
  eapply wp_mono; [apply wp_check_start|]. intros r w'' [Hw'' Hc'']. wp_go.
  split; [by etrans|]. split; [congruence|]. by destruct r.
Qed.

(** What it takes of the outside world to listen on a bound socket: the listener,
    the address it is at, and the outside world after it. *)
Definition listening (token : Token) (socket : TcpBuilder) (n : net) : option (TcpListener * SocketAddr * net) :=
  match builder_listen socket LISTENER_BACKLOG n with
  | (Err _, _) => None
  | (Ok l, n) =>
      match std_local_addr l n with
      | (Err _, _) => None
      | (Ok a, n) =>
          match from_listener l a n with
          | (Err _, _) => None
          | (Ok l, n) =>
              match poll_register (EvListener l) token ready_read n with
              | (Err _, _) => None
              | (Ok _, n) => Some (l, a, n)
              end
          end
      end
  end.

(** If all of that is done, the listener is registered under its token, not yet
    accepting bootstrappers, its addresses are published and the user gets
    [ListenerStarted] with its port; if something fails, none of this has happened
    and the user gets [ListenerFailed]. *)
Lemma listener_mapped_spec timeout port force our_uid name_hash token socket mapped
  (w : World UID) :
  ∃ w', listener_mapped timeout port force our_uid name_hash token socket mapped w = Done tt w' ∧
    w_cm w' = w_cm w ∧
    match listening token socket (w_net w) with
    | Some (l, a, n) =>
        w_events w' = w_events w ++ [ListenerStarted (sa_port a)] ∧
        w_listeners w' = published_addrs force port mapped ∧
        w_states w' = <[token := w_next_rc w]> (w_states w) ∧
        w_heap w' !! w_next_rc w =
          Some (StListener (mkConnectionListener token l name_hash our_uid timeout false)) ∧
        w_net w' = n
    | None =>
        w_events w' = w_events w ++ [ListenerFailed] ∧ w_listeners w' = w_listeners w ∧
        w_states w' = w_states w ∧ w_heap w' = w_heap w
    end.
Proof.
  unfold listener_mapped, handle_mapped_socket, crust_io, listening.
  unfold bind_ok, mbind, M_bind, io, zoom, call.
  destruct (builder_listen socket LISTENER_BACKLOG (w_net w)) as [[l|e] n1]; cbn; [|by eexists].
  destruct (std_local_addr l n1) as [[a|e] n2]; cbn; [|by eexists].
  destruct (from_listener l a n2) as [[l'|e] n3]; cbn; [|by eexists].
  destruct (poll_register (EvListener l') token ready_read n3) as [[[]|e] n4]; cbn; [|by eexists].
  eexists. split; [done|]. cbn. by rewrite lookup_insert_eq.
Qed.

(** ** Properties *)

(** What admits the peer [u] that asks with the message [m] from the address
    [ip], by the configuration [c]. *)
Definition admitted (self : ListenerExchange UID) (c : Config) (ip : IpAddr) (m : Message UID)
  (u : UID) : Prop :=
  u ≠ le_our_uid self ∧
  match m with
  | BootstrapRequest u' name_hash er =>
      u' = u ∧ le_accept_bootstrap self = true ∧ name_hash = le_name_hash self ∧
      match er with
      | NotRequired => ip_allowed (whitelisted_client_ips c) ip = true
      | Required _ =>
          ip_allowed (whitelisted_node_ips c) ip = true ∧ le_require_reachability self = false
      end
  | Connect u' name_hash =>
      u' = u ∧ name_hash = le_name_hash self ∧ ip_allowed (whitelisted_node_ips c) ip = true
  | _ => False
  end.

(** Refusing: the handlers below admit nobody. *)
Lemma wp_terminate_refuses dt self w :
  undecided self → wp True True (ListenerExchange_terminate dt self) (λ _, unseen w) w.
Proof. intros Hu. destruct (terminate_undecided dt self w Hu) as (n & Hn & _). unfold wp. by rewrite Hn. Qed.

Lemma wp_deny_refuses dt self r w :
  le_next_state self = NextNone → le_reachability_children self = ∅ →
  wp True True (deny dt self r) (λ _, unseen w) w.
Proof.
  intros Hn Hc. eapply wp_mono; [by apply wp_write_undecided|]. by intros s w' [? _].
Qed.

(** The check of the peer's address against the configuration in force. *)
Lemma wp_whitelisted self k w (Q : bool → World UID → Prop) :
  (∀ n, Q false (set_net n w)) →
  (∀ n0 a n1, Socket_peer_addr (le_socket self) n0 = Done (Ok a) n1 →
     Q (ip_allowed (whitelist_of k (cfg (w_config w))) (sa_ip a)) (set_net n1 w)) →
  wp True True (is_peer_whitelisted self k) Q w.
Proof.
  intros Hf Ht. unfold is_peer_whitelisted. wp_go. unfold wp, io, zoom.
  destruct (Socket_peer_addr (le_socket self) (w_net w)) as [[a|e] n| |] eqn:E; try done.
  - exact (Ht _ _ _ E).
  - exact (Hf n).
Qed.

Lemma wp_update_config (Q : unit → World UID → Prop) w :
  (∀ n c, Q tt (set_config c (set_net n w))) →
  wp True True try_update_crust_config Q w.
Proof.
  intros HQ. unfold try_update_crust_config. wp_go. unfold wp, io, zoom, call.
  destruct (read_config_file (w_net w)) as [[c|e] n]; cbn; [apply HQ|].
  specialize (HQ n (w_config w)). by destruct w.
Qed.

(** Where a refusal and an admission end up. *)
Definition only_if_admitted (self : ListenerExchange UID) (m : Message UID) (s : Socket)
  (w w' : World UID) : Prop :=
  unseen w w' ∨
  ∃ u n0 a n1, Socket_peer_addr s n0 = Done (Ok a) n1 ∧
    admitted self (cfg (w_config w')) (sa_ip a) m u.

(** Once admitted, the configuration stays the one that was checked. *)
Lemma wp_admit {A} (m : MW A) (Q : World UID → Prop) w :
  keeps same_config m → (∀ w', w_config w' = w_config w → Q w') →
  wp True True m (λ _, Q) w.
Proof. intros Hm HQ. eapply wp_mono; [apply Hm|]. intros a w' Hc. by apply HQ. Qed.

Section Admission.
Context (self : ListenerExchange UID) (s : Socket) (Hu : undecided self).
Abbreviation self1 := (le_set_socket s self).

Lemma keeps_admit_tail ns msg :
  keeps same_config (ListenerExchange_write dyn_terminate (le_set_next_state ns self1) msg).
Proof. apply keeps_le_write; [apply same_config_frame|]. intros r. apply keeps_dyn_terminate, _. Qed.

Lemma keeps_grant u k : keeps same_config (send_bootstrap_grant dyn_terminate self1 u k).
Proof.
  apply keeps_bind; [apply same_config_frame|apply keeps_with_cm, same_config_frame|].
  intros []. apply keeps_admit_tail.
Qed.

Lemma wp_bootstrap_admits u h er w0 w :
  unseen w0 w → u ≠ le_our_uid self → le_accept_bootstrap self = true →
  wp True True (handle_bootstrap_req dyn_terminate self1 u h er)
    (λ _ w', only_if_admitted self (BootstrapRequest u h er) s w0 w') w.
Proof.
  intros Hw Hne Hacc. unfold handle_bootstrap_req, is_valid_name_hash.
  assert (∀ r w1, unseen w0 w1 → wp True True (deny dyn_terminate self1 r)
    (λ _ w', only_if_admitted self (BootstrapRequest u h er) s w0 w') w1) as Hdeny.
  { intros r w1 Hw1. eapply wp_mono; [apply wp_deny_refuses; apply Hu|].
    intros x w2 Hw2. left. exact (transitivity Hw1 Hw2). }
  case_bool_decide as Hh; cbn [negb]; [|by apply Hdeny].
  wp_go. apply wp_update_config. intros n c. destruct er as [|ls]; wp_go.
  - apply wp_whitelisted; [intros n'; by apply Hdeny|]. intros n0 a n1 Ha.
    destruct (ip_allowed _ _) eqn:Hip; cbn [negb]; [|by apply Hdeny].
    apply wp_admit; [apply keeps_grant|]. intros w' Hc. right. exists u, n0, a, n1.
    split; [done|]. rewrite Hc. by split_and!.
  - apply wp_whitelisted; [intros n'; by apply Hdeny|]. intros n0 a n1 Ha.
    destruct (ip_allowed _ _) eqn:Hip; cbn [negb]; [|by apply Hdeny].
    change (le_require_reachability self1) with (le_require_reachability self).
    destruct (le_require_reachability self) eqn:Hrr; cbn [negb].
    + wp_go. eapply wp_mono; [apply wp_start_checks|].
      intros self2 w2 (Hw2 & _ & Hn2). cbn beta. case_bool_decide as Hc2.
      * eapply wp_mono; [apply wp_deny_refuses; [by rewrite Hn2; apply Hu|done]|].
        intros x w3 Hw3. left. exact (transitivity Hw (transitivity Hw2 Hw3)).
      * wp_go. left. exact (transitivity Hw Hw2).
    + apply wp_admit; [apply keeps_grant|]. intros w' Hc. right. exists u, n0, a, n1.
      split; [done|]. rewrite Hc. by split_and!.
Qed.

Lemma wp_connect_admits u h w0 w :
  unseen w0 w → u ≠ le_our_uid self →
  wp True True (handle_connect dyn_terminate self1 u h)
    (λ _ w', only_if_admitted self (Connect u h) s w0 w') w.
Proof.
  intros Hw Hne. unfold handle_connect, is_valid_name_hash.
  assert (∀ w1, unseen w0 w1 → wp True True (ListenerExchange_terminate dyn_terminate self1)
    (λ _ w', only_if_admitted self (Connect u h) s w0 w') w1) as Hterm.
  { intros w1 Hw1. eapply wp_mono; [by apply wp_terminate_refuses|].
    intros x w2 Hw2. left. exact (transitivity Hw1 Hw2). }
  case_bool_decide as Hh; cbn [negb]; [|by apply Hterm].
  wp_go. apply wp_update_config. intros n c. wp_go.
  apply wp_whitelisted; [intros n'; by apply Hterm|]. intros n0 a n1 Ha.
  destruct (ip_allowed _ _) eqn:Hip; cbn [negb]; [|by apply Hterm].
  apply wp_admit.
  - apply keeps_bind; [apply same_config_frame|apply keeps_with_cm, same_config_frame|].
    intros []. apply keeps_admit_tail.
  - intros w' Hc. right. exists u, n0, a, n1. split; [done|]. rewrite Hc. by split_and!.
Qed.
End Admission.

(** C2: the accepting side admits only who the configuration allows. Whatever a
    peer that has not been admitted yet sends first, handling it changes the
    connection map or tells the user something only if it was a bootstrap
    request or a connection request that passes every check: not from ourselves,
    the hash of our network's name, the address known and allowed by the
    whitelist for its role in the configuration in force after the file was
    re-read, and for a bootstrap request, bootstrapping off us accepted and (for
    a node, until its reachability has been checked) reachability not
    required. *)
Theorem listener_admits_only_allowed self m s n (w w' : World UID) self' :
  undecided self →
  Socket_read (T:=Message UID) (le_socket self) (w_net w) = Done (Ok (Some m), s) n →
  ListenerExchange_read dyn_terminate self w = Done self' w' →
  (w_cm w' ≠ w_cm w ∨ w_events w' ≠ w_events w) →
  ∃ u n0 a n1, Socket_peer_addr s n0 = Done (Ok a) n1 ∧
    admitted self (cfg (w_config w')) (sa_ip a) m u.
Proof.
  intros Hu Hr Hrun Hseen.
  enough (wp True True (ListenerExchange_read dyn_terminate self)
    (λ _ w', only_if_admitted self m s w w') w) as H.
  { unfold wp in H. rewrite Hrun in H. destruct H as [[Hcm He]|H]; [|done].
    destruct Hseen; contradiction. }
  clear self' w' Hrun Hseen. unfold ListenerExchange_read. wp_go. unfold wp at 1.
  rewrite (io_done _ _ _ _ Hr). cbn beta iota.
  assert (wp True True (ListenerExchange_terminate dyn_terminate (le_set_socket s self))
    (λ _ w', only_if_admitted self m s w w') (set_net n w)) as Hterm.
  { eapply wp_mono; [by apply wp_terminate_refuses|]. intros x w2 Hw2. by left. }
  destruct m as [|u h er| | | | | |u h|]; try exact Hterm.
  - change (le_accept_bootstrap (le_set_socket s self)) with (le_accept_bootstrap self).
    destruct (le_accept_bootstrap self) eqn:Hacc; cbn [negb]; [|exact Hterm].
    unfold validate_peer_uid. case_decide as Hne; [exact Hterm|].
    apply wp_bootstrap_admits; done || congruence.
  - unfold handle_echo_addr_req. wp_go. apply wp_io; [|apply wp_any].
    assert (undecided (le_set_next_state NextNone (le_set_socket s self))) as Hu'
      by (split; [done|apply Hu]).
    intros [a|e] n'; eapply wp_mono;
      [by apply wp_write_undecided|by intros x w2 [Hw2 _]; left
      |by apply wp_terminate_refuses|by intros x w2 Hw2; left].
  - unfold validate_peer_uid. case_decide as Hne; [exact Hterm|].
    apply wp_connect_admits; done || congruence.
Qed.

(** An admitted bootstrapper becomes a connection. When the grant goes out
    in one piece and no connection to the peer is active, the user is told
    [BootstrapAccept] and then gets the data the peer sends, in order; the
    handshake's token becomes the peer's active connection, and the connection
    map counts no more handshakes with it than before. *)
Lemma grant_delivers `{!TimerLaws, !CodecLaws (Message UID)} self u kind inner ms fs tail cs
  n1 n2 k (w : World UID) :
  le_socket self = Some inner → idle inner → reader_ok inner →
  w_cm w !! u = entry None k → 0 ≤ k → k + 1 < usize_modulus →
  w_borrows w !! w_next_rc w = None →
  sends_now inner (le_token self) (BootstrapGranted (le_our_uid self)) (w_net w) n1 →
  delivers (stream inner) n1 cs n2 → Forall2 fits ms fs → incomplete tail →
  buffered inner ++ concat cs = concat fs ++ tail →
  (length cs < loop_fuel)%nat → (length ms < loop_fuel)%nat →
  ∃ self' w', send_bootstrap_grant dyn_terminate self u kind w = Done self' w' ∧
    w_events w' = w_events w ++ [BootstrapAccept u kind] ++ data_events u kind ms ∧
    w_cm w' = <[u := mkConnectionId (Some (le_token self)) k]> (w_cm w) ∧
    w_states w' = <[le_token self := w_next_rc w]> (w_states w).
Proof.
  intros Hs Hidle Hok Hcm Hk Hk' Hbor Hsend Hd Hfs Htail Hb Hcs Hms.
  unfold send_bootstrap_grant, enter_handshaking_mode.
  unfold mbind at 1, M_bind at 1, with_cm, zoom. rewrite (cm_enter_done _ _ None k) by done.
  unfold ListenerExchange_write. unfold mbind at 1, M_bind at 1, gets at 1. cbn [le_next_state le_set_next_state].
  unfold cm_active. cbn [w_cm set_cm]. rewrite lookup_insert_eq. cbn [active_connection].
  rewrite bool_decide_false by (by intros []).
  unfold mbind at 1, M_bind at 1.
  change (le_socket (le_set_next_state (NextActiveConnection u kind) self)) with (le_socket self).
  change (le_token (le_set_next_state (NextActiveConnection u kind) self)) with (le_token self).
  rewrite Hs. set (w1 := set_cm _ w).
  rewrite (io_done _ w1 _ _ (write_now inner (le_token self) _ 0 _ n1 Hidle Hsend)).
  cbn beta iota. unfold ListenerExchange_done, remove_state, modify.
  unfold mbind, M_bind. rewrite cancel_timeout_done. cbn -[ActiveConnection_start].
  destruct (cancel_timeout_frame (le_timeout self) n1 _ _ _ Hd) as (n3 & Hd3).
  match goal with |- context [ActiveConnection_start ?t0 ?s0 ?o0 ?u0 ?k0 ?e0 ?w2] =>
    destruct (start_delivers t0 inner o0 u0 k0 e0 w2 ms fs tail cs n3 None (k + 1)) as
      (w' & x & -> & He & Hc & Hst & _); try done end.
  { cbn. apply or_insert_some. by rewrite lookup_insert_eq. }
  { lia. }
  eexists _, w'. split; [done|]. rewrite He, Hc, Hst. cbn. split_and!; try done.
  - rewrite insert_insert_eq. by replace (k + 1 - 1) with k by lia.
  - by rewrite insert_delete_eq.
Qed.

(** An answer that ends an undecided handshake. *)
Lemma write_undecided_closes self inner msg n1 w :
  undecided self → le_socket self = Some inner → idle inner →
  sends_now inner (le_token self) msg (w_net w) n1 →
  ∃ w', ListenerExchange_write dyn_terminate self (Some (msg, 0)) w = Done self w' ∧
    unseen w w' ∧ w_states w' = delete (le_token self) (w_states w) ∧
    w_net w' = given_up self inner (timer_cancel_timeout (le_timeout self) n1).2.
Proof.
  intros Hu Hs Hidle Hsend. unfold ListenerExchange_write. unfold mbind at 1, M_bind at 1, gets at 1.
  rewrite (proj1 Hu). unfold mbind at 1, M_bind at 1. rewrite Hs.
  rewrite (io_done _ w _ _ (write_now inner (le_token self) _ 0 _ n1 Hidle Hsend)).
  cbn beta iota.
  replace (le_set_socket (Some inner) self) with self by (destruct self; simpl in Hs; by subst).
  unfold ListenerExchange_done, remove_state, modify. unfold mbind, M_bind. rewrite (proj1 Hu).
  rewrite cancel_timeout_done.
  match goal with |- context [ListenerExchange_terminate dyn_terminate self ?w1] =>
    destruct (terminate_undecided dyn_terminate self w1 Hu) as (n & -> & Hn) end.
  eexists. split; [done|]. cbn. rewrite delete_delete_eq. by rewrite (Hn inner Hs).
Qed.

(** The configuration after the file has been re-read. *)
Definition refreshed (c : ConfigWrapper) (r : result Config CrustError) : ConfigWrapper :=
  match r with
  | Ok new => check_for_update_and_mark_modified c new
  | Err _ => c
  end.

Lemma update_config_done w r n :
  read_config_file (w_net w) = (r, n) →
  try_update_crust_config w = Done tt (set_config (refreshed (w_config w) r) (set_net n w)).
Proof.
  intros Hr. unfold try_update_crust_config, mbind, M_bind, io, zoom, call. rewrite Hr.
  destruct r as [c|e]; [done|]. by destruct w.
Qed.

(** Whether a whitelist has the address of the peer, which must be known. *)
Definition on_list (ips : option (gset IpAddr)) (r : result SocketAddr ErrorKind) : bool :=
  match r with Ok a => ip_allowed ips (sa_ip a) | Err _ => false end.

Lemma whitelisted_run self inner kind r n w :
  le_socket self = Some inner → tcp_peer_addr (stream inner) (w_net w) = (r, n) →
  is_peer_whitelisted self kind w = Done (on_list (whitelist_of kind (cfg (w_config w))) r) (set_net n w).
Proof.
  intros Hs Ha. unfold is_peer_whitelisted, mbind, M_bind, io, zoom. rewrite Hs.
  unfold Socket_peer_addr, mbind, M_bind, call. rewrite Ha. by destruct r.
Qed.

Lemma whitelisted_done self inner kind a n w :
  le_socket self = Some inner → tcp_peer_addr (stream inner) (w_net w) = (Ok a, n) →
  is_peer_whitelisted self kind w =
  Done (ip_allowed (whitelist_of kind (cfg (w_config w))) (sa_ip a)) (set_net n w).
Proof. apply whitelisted_run. Qed.

(** Why the listening side refuses a request to bootstrap with the name hash [h],
    and the outside world at that time: the network is another one; or, when the
    configuration has been read again and the peer's address looked up, the peer
    is not on the whitelist for its kind, or it has to be reachable and has no
    address at which that could be tried. *)
Inductive refused self inner (h : NameHash) w : ExternalReachability → BootstrapDenyReason → net → Prop :=
| wrong_name er : h ≠ le_name_hash self → refused self inner h w er InvalidNameHash (w_net w)
| client_not_listed r n1 ra n2 :
    h = le_name_hash self → read_config_file (w_net w) = (r, n1) → tcp_peer_addr (stream inner) n1 = (ra, n2) →
    on_list (whitelisted_client_ips (cfg (refreshed (w_config w) r))) ra = false →
    refused self inner h w NotRequired ClientNotWhitelisted n2
| node_not_listed l r n1 ra n2 :
    h = le_name_hash self → read_config_file (w_net w) = (r, n1) → tcp_peer_addr (stream inner) n1 = (ra, n2) →
    on_list (whitelisted_node_ips (cfg (refreshed (w_config w) r))) ra = false →
    refused self inner h w (Required l) NodeNotWhitelisted n2
| not_reachable l r n1 ra n2 :
    h = le_name_hash self → read_config_file (w_net w) = (r, n1) → tcp_peer_addr (stream inner) n1 = (ra, n2) →
    on_list (whitelisted_node_ips (cfg (refreshed (w_config w) r))) ra = true →
    le_require_reachability self = true → Forall (λ a, ip_addr_is_global (sa_ip a) = false) l →
    refused self inner h w (Required l) FailedExternalReachability n2.

(** A refused request is denied, with the reason. *)
Lemma refused_denied self inner u h er reason n w :
  undecided self → le_socket self = Some inner → refused self inner h w er reason n →
  ∃ w0, handle_bootstrap_req dyn_terminate self u h er w = deny dyn_terminate self reason w0 ∧
    unseen w w0 ∧ w_states w0 = w_states w ∧ w_net w0 = n.
Proof.
  intros [_ Hc] Hs Hr. unfold handle_bootstrap_req, is_valid_name_hash.
  destruct Hr as [er Hh|r n1 ra n2 -> Hr Ha Hl|l r n1 ra n2 -> Hr Ha Hl|l r n1 ra n2 -> Hr Ha Hl Hq Hg];
    [rewrite bool_decide_false by done; by exists w|..];
    rewrite bool_decide_true by done; cbn [negb]; unfold mbind at 1, M_bind at 1;
    rewrite (update_config_done _ _ _ Hr); unfold mbind at 1, M_bind at 1;
    rewrite (whitelisted_run self inner _ ra n2) by done; cbn [w_config set_config whitelist_of]; rewrite Hl;
    cbn [negb]; [by eexists|by eexists|].
  rewrite Hq. cbn [negb].
  replace (List.filter (λ a, ip_addr_is_global (sa_ip a)) l) with ([] : list SocketAddr)
    by (induction Hg as [|a l Ha' _ IH]; [done|]; cbn; by rewrite Ha').
  unfold mbind at 1, M_bind at 1. cbn [fold_loop mret M_ret]. rewrite bool_decide_true by done. by eexists.
Qed.

(** C26: a refused bootstrapper is told why and let go. A request that is refused
    ([refused]: for its network name, for the whitelist of clients or of nodes, or
    for having no address to be reached at) is answered with [BootstrapDenied] and
    that reason, and the failure of the last reachability check with
    [BootstrapDenied(FailedExternalReachability)]: the frame of the answer is given
    to the stream, and then, once it is out, the timer is cancelled and the socket
    deregistered, and nothing else is asked of the outside world. The handshake is
    over, nobody has been admitted and the user has been told nothing. *)
Theorem listener_denies self inner u h er reason child n n1 n2 (w : World UID) :
  le_next_state self = NextNone → le_socket self = Some inner → idle inner →
  let let_go n := given_up self inner (timer_cancel_timeout (le_timeout self) n).2 in
  (le_reachability_children self = ∅ → refused self inner h w er reason n →
   sends_now inner (le_token self) (BootstrapDenied reason : Message UID) n n1 →
   ∃ w', handle_bootstrap_req dyn_terminate self u h er w = Done self w' ∧ unseen w w' ∧
         w_states w' = delete (le_token self) (w_states w) ∧ w_net w' = let_go n1) ∧
  (le_reachability_children self = {[child]} →
   sends_now inner (le_token self) (BootstrapDenied FailedExternalReachability : Message UID)
     (w_net w) n2 →
   ∃ self' w', handle_check_reachability dyn_terminate self child (Err tt) w = Done self' w' ∧
         unseen w w' ∧ w_states w' = delete (le_token self) (w_states w) ∧ w_net w' = let_go n2).
Proof.
  intros Hn Hs Hidle let_go. split; [intros Hc Hr Hsend1|intros Hc Hsend2].
  - destruct (refused_denied self inner u h er reason n w) as (w0 & -> & Hu & Hst & <-); try done.
    destruct (write_undecided_closes self inner _ n1 w0 (conj Hn Hc) Hs Hidle Hsend1) as (w' & Hrun & Hu' & Hst' & Hnet).
    exists w'. split; [exact Hrun|]. split; [by etrans|]. rewrite Hst', Hst. by split.
  - unfold handle_check_reachability. rewrite Hc.
    replace ({[child]} ∖ {[child]} : gset Token) with (∅ : gset Token) by set_solver.
    cbn [le_reachability_children le_set_children]. rewrite bool_decide_true by done.
    destruct (write_undecided_closes (le_set_children ∅ self) inner
      (BootstrapDenied FailedExternalReachability) n2 w) as (w' & Hrun & ?); try done.
    by exists (le_set_children ∅ self), w'.
Qed.

(** [EchoAddrReq] is answered with the address the peer is seen at, and the
    connection is closed. *)
Theorem listener_echoes self inner a n1 n2 (w : World UID) :
  le_reachability_children self = ∅ → le_socket self = Some inner → idle inner →
  tcp_peer_addr (stream inner) (w_net w) = (Ok a, n1) →
  sends_now inner (le_token self) (EchoAddrResp a : Message UID) n1 n2 →
  ∃ self' w', handle_echo_addr_req dyn_terminate self w = Done self' w' ∧
    unseen w w' ∧ w_states w' = delete (le_token self) (w_states w) ∧
    w_net w' = given_up self inner (timer_cancel_timeout (le_timeout self) n2).2.
Proof.
  intros Hc Hs Hidle Ha Hsend. unfold handle_echo_addr_req, mbind, M_bind, io, zoom.
  change (le_socket (le_set_next_state NextNone self)) with (le_socket self). rewrite Hs.
  unfold Socket_peer_addr, mbind, M_bind, call. rewrite Ha. cbn -[ListenerExchange_write].
  destruct (write_undecided_closes (le_set_next_state NextNone self) inner (EchoAddrResp a) n2
    (set_net n1 w)) as (w' & Hrun & ?); try done.
  by exists (le_set_next_state NextNone self), w'.
Qed.

Lemma candidate_start_done token inner our their fin n w :
  w_borrows w !! w_next_rc w = None →
  poll_reregister (EvStream (stream inner)) token ready_write (w_net w) = (Ok tt, n) →
  ∃ w', ConnectionCandidate_start token (Some inner) our their fin w = Done (Ok token) w' ∧
    w_states w' = <[token := w_next_rc w]> (w_states w) ∧
    w_heap w' = <[w_next_rc w := StCandidate (mkConnectionCandidate token (Some inner) our their
                                   (Some (ChooseConnection, 0)) fin)]> (w_heap w) ∧
    w_cm w' = w_cm w ∧ w_events w' = w_events w ∧ w_borrows w' = w_borrows w ∧
    w_next_rc w' = S (w_next_rc w).
Proof.
  intros Hb Hp. unfold ConnectionCandidate_start, rc_new, insert_state, modify, mbind, M_bind. cbn.
  unfold with_borrow, mbind, M_bind, gets. cbn. rewrite Hb. cbn. rewrite lookup_insert_eq. cbn.
  unfold io, zoom, Socket_reregister, call. cbn. rewrite Hp. cbn. eexists. split; [done|].
  cbn. split_and!; try done.
  apply map_eq. intros r. destruct (decide (r = w_next_rc w)) as [->|].
  - by rewrite lookup_partial_alter_eq, Hb.
  - by rewrite lookup_partial_alter_ne, lookup_insert_ne.
Qed.

(** A connecting node that is allowed becomes a candidate. When the name
    hash is right and the whitelist of the re-read configuration allows the
    peer's address, the reply goes out, the handshake is counted once, and the
    handshake's token now belongs to a candidate connection to the peer on the
    same socket; the user is told nothing yet. *)
Lemma connect_admitted self inner u a k r addr n1 n2 n3 n4 (w : World UID) :
  le_next_state self = NextNone → le_socket self = Some inner → idle inner →
  read_config_file (w_net w) = (r, n1) → tcp_peer_addr (stream inner) n1 = (Ok addr, n2) →
  ip_allowed (whitelisted_node_ips (cfg (refreshed (w_config w) r))) (sa_ip addr) = true →
  w_cm w !! u = entry a k → 0 ≤ k → k + 1 < usize_modulus →
  w_borrows w !! w_next_rc w = None →
  sends_now inner (le_token self) (Connect (le_our_uid self) (le_name_hash self)) n2 n3 →
  poll_reregister (EvStream (stream inner)) (le_token self) ready_write
    (timer_cancel_timeout (le_timeout self) n3).2 = (Ok tt, n4) →
  ∃ self' w', handle_connect dyn_terminate self u (le_name_hash self) w = Done self' w' ∧
    w_events w' = w_events w ∧ w_cm w' = <[u := mkConnectionId a (k + 1)]> (w_cm w) ∧
    w_states w' !! le_token self = Some (w_next_rc w) ∧
    w_heap w' = <[w_next_rc w :=
      StCandidate (mkConnectionCandidate (le_token self) (Some inner) (le_our_uid self) u
        (Some (ChooseConnection, 0)) (FinishListener (le_our_uid self) u))]> (w_heap w) ∧
    w_borrows w' = w_borrows w ∧ w_next_rc w' = S (w_next_rc w).
Proof.
  intros Hn Hs Hidle Hr Ha Hip Hcm Hk Hk' Hbor Hsend Hp.
  unfold handle_connect, is_valid_name_hash. rewrite bool_decide_true by done. cbn [negb].
  unfold mbind at 1, M_bind at 1. rewrite (update_config_done _ _ _ Hr).
  unfold mbind at 1, M_bind at 1.
  rewrite (whitelisted_done self inner Node addr n2) by done. cbn [w_config set_config whitelist_of].
  rewrite Hip. cbn [negb]. unfold mbind at 1, M_bind at 1, enter_handshaking_mode, with_cm, zoom.
  rewrite (cm_enter_done _ _ a k) by done.
  unfold ListenerExchange_write. unfold mbind at 1, M_bind at 1, gets at 1.
  cbn [le_next_state le_set_next_state]. cbn iota. unfold mbind at 1, M_bind at 1.
  change (le_socket (le_set_next_state (NextConnectionCandidate u) self)) with (le_socket self).
  change (le_token (le_set_next_state (NextConnectionCandidate u) self)) with (le_token self).
  rewrite Hs. set (w1 := set_cm _ _).
  rewrite (io_done _ w1 _ _ (write_now inner (le_token self) _ 0 _ n3 Hidle Hsend)).
  cbn beta iota. unfold ListenerExchange_done, remove_state, modify.
  unfold mbind, M_bind. rewrite cancel_timeout_done. cbn -[ConnectionCandidate_start].
  match goal with |- context [ConnectionCandidate_start ?t0 ?s0 ?o0 ?u0 ?f0 ?w2] =>
    destruct (candidate_start_done t0 inner o0 u0 f0 n4 w2) as
      (w' & -> & Hst & Hh & Hc & He & Hbo & Hn'); try done end.
  eexists _, w'. split; [done|]. rewrite Hst, Hh, Hc, He, Hbo, Hn'. cbn.
  by rewrite lookup_insert_eq.
Qed.

(** Entering a handshake and leaving it again. *)
Lemma enter_leave u a k (cm : gmap UID ConnectionId) :
  cm !! u = entry a k → 0 ≤ k → left_one u (<[u := mkConnectionId a (k + 1)]> cm) = cm.
Proof.
  intros Hu Hk. apply map_eq. intros v. destruct (decide (v = u)) as [->|Hv].
  - erewrite (left_one_eq _ _ a (k + 1)).
    + rewrite Hu. apply (f_equal (entry a)). lia.
    + rewrite lookup_insert_eq. unfold entry. by rewrite decide_False by lia.
    + lia.
  - by rewrite left_one_ne, lookup_insert_ne.
Qed.

(** Ending a handshake that has counted its peer. *)
Lemma terminate_decided dt self u w :
  (le_next_state self = NextConnectionCandidate u ∨
   ∃ kind, le_next_state self = NextActiveConnection u kind) →
  le_reachability_children self = ∅ →
  (∀ oe, w_cm w !! u = Some oe → 0 < currently_handshaking oe) →
  ∃ n, ListenerExchange_terminate dt self w =
       Done self (set_cm (left_one u (w_cm w))
                    (set_states (delete (le_token self) (w_states w)) (set_net n w))).
Proof.
  intros Hn Hc Hpos. unfold ListenerExchange_terminate.
  unfold mbind at 1, M_bind at 1. rewrite terminate_no_children by done.
  unfold mbind at 1, M_bind at 1, remove_state, modify.
  assert (match le_next_state self with
          | NextNone => mret tt
          | NextActiveConnection their_uid _ | NextConnectionCandidate their_uid =>
              with_cm (cm_leave their_uid)
          end (set_states (delete (le_token self) (w_states w)) w) =
          Done tt (set_cm (left_one u (w_cm w))
            (set_states (delete (le_token self) (w_states w)) w))) as Hleave.
  { assert (with_cm (cm_leave u) (set_states (delete (le_token self) (w_states w)) w) =
            Done tt (set_cm (left_one u (w_cm w))
              (set_states (delete (le_token self) (w_states w)) w))) as H.
    { unfold with_cm, zoom. cbn. by rewrite cm_leave_done. }
    destruct Hn as [->|[kind ->]]; exact H. }
  unfold mbind at 1, M_bind at 1. rewrite Hleave.
  unfold mbind at 1, M_bind at 1. rewrite cancel_timeout_done.
  unfold mbind at 1, M_bind at 1.
  match goal with |- context [io (Socket_deregister ?s) ?w0] =>
    destruct (deregister_done s w0) as (r & n & -> & _) end.
  by exists n.
Qed.

(** C39: a peer that sends a second connection request, under another
    identifier, before the reply to its first has gone out leaves a handshake
    counted for ever: the handshake remembers only the last identifier, so that
    when it times out the connection map is as before the second request, with
    the first one still counted though no handshake is left. *)
Theorem listener_forgets_handshake self inner u1 u2 a k r addr s' n1 n2 n3 (w : World UID) :
  le_next_state self = NextConnectionCandidate u1 → u1 ≠ u2 →
  le_reachability_children self = ∅ → le_socket self = Some inner →
  read_config_file (w_net w) = (r, n1) → tcp_peer_addr (stream inner) n1 = (Ok addr, n2) →
  ip_allowed (whitelisted_node_ips (cfg (refreshed (w_config w) r))) (sa_ip addr) = true →
  w_cm w !! u2 = entry a k → 0 ≤ k → k + 1 < usize_modulus →
  Socket_write (Some inner) (le_token self)
    (Some (Connect (le_our_uid self) (le_name_hash self), 0)) n2 = Done (Ok false, s') n3 →
  ∃ self1 w1 self2 w2,
    handle_connect dyn_terminate self u2 (le_name_hash self) w = Done self1 w1 ∧
    ListenerExchange_timeout dyn_terminate self1 0 w1 = Done self2 w2 ∧
    w_states w2 = delete (le_token self) (w_states w) ∧ w_cm w2 = w_cm w.
Proof.
  intros Hn Hne Hc Hs Hr Ha Hip Hcm Hk Hk' Hw.
  unfold handle_connect, is_valid_name_hash. rewrite bool_decide_true by done. cbn [negb].
  unfold mbind at 1, M_bind at 1. rewrite (update_config_done _ _ _ Hr).
  unfold mbind at 1, M_bind at 1.
  rewrite (whitelisted_done self inner Node addr n2) by done. cbn [w_config set_config whitelist_of].
  rewrite Hip. cbn [negb]. unfold mbind at 1, M_bind at 1, enter_handshaking_mode, with_cm, zoom.
  rewrite (cm_enter_done _ _ a k) by done.
  unfold ListenerExchange_write. unfold mbind at 1, M_bind at 1, gets at 1.
  cbn [le_next_state le_set_next_state]. cbn iota. unfold mbind at 1, M_bind at 1.
  change (le_socket (le_set_next_state (NextConnectionCandidate u2) self)) with (le_socket self).
  change (le_token (le_set_next_state (NextConnectionCandidate u2) self)) with (le_token self).
  rewrite Hs. set (w1 := set_cm _ _). rewrite (io_done _ w1 _ _ Hw). cbn beta iota.
  set (self1 := le_set_socket _ _).
  destruct (terminate_decided dyn_terminate self1 u2 (set_net n3 w1)) as (n & Hn').
  { by left. }
  { done. }
  { intros oe. cbn. rewrite lookup_insert_eq. intros [= <-]. cbn. lia. }
  eexists _, _, _, _. split; [done|]. split; [exact Hn'|]. cbn. split; [done|].
  by apply enter_leave.
Qed.

(** The addresses the listener publishes. They begin with the mapped ones;
    any other is a mapped global address with the configured port, added only
    when that was asked for, a port is configured, and no mapped global address
    has it already; and then, if there is a global address at all, one with the
    configured port is published. *)
Theorem published_addrs_correct force port mapped :
  (∃ extra, published_addrs force port mapped = mapped ++ extra ∧
     ∀ s, s ∈ extra → force = true ∧ port ≠ 0 ∧
       ∃ s0, s0 ∈ mapped ∧ ip_addr_is_global (sa_ip s0) = true ∧ s = sa_set_port port s0) ∧
  (force = true → port ≠ 0 →
   (∃ s0, s0 ∈ mapped ∧ ip_addr_is_global (sa_ip s0) = true) →
   ∃ s, s ∈ published_addrs force port mapped ∧ ip_addr_is_global (sa_ip s) = true ∧
        sa_port s = port).
Proof.
  assert (∀ s, sa_ip (sa_set_port port s) = sa_ip s ∧ sa_port (sa_set_port port s) = port) as Hset
    by (by intros []).
  unfold published_addrs. cbv zeta. set (chk := λ s, _ && _). set (extra := omap _ mapped).
  assert (∀ s, s ∈ extra ↔ ∃ s0, s0 ∈ mapped ∧ ip_addr_is_global (sa_ip s0) = true ∧
    s = sa_set_port port s0) as Hextra.
  { intros s. unfold extra. rewrite list_elem_of_omap. split.
    - intros (s0 & Hin & Hs). destruct (ip_addr_is_global (sa_ip s0)) eqn:Hg; [|done].
      injection Hs as <-. by exists s0.
    - intros (s0 & Hin & Hg & ->). exists s0. by rewrite Hg. }
  destruct (existsb chk mapped) eqn:Hex.
  - rewrite andb_false_r. split; [exists []; rewrite app_nil_r; split; [done|set_solver]|].
    intros _ _ _. apply existsb_exists in Hex as (s & Hin & [Hg Hp%Z.eqb_eq]%andb_true_iff).
    exists s. by rewrite list_elem_of_In.
  - rewrite andb_true_r. destruct force, (Z.eqb_spec port 0) as [Hz|Hz]; cbn.
    1, 3, 4: split; [exists []; rewrite app_nil_r; split; [done|set_solver]|done].
    split; [exists extra; split; [done|]; intros s Hs; apply Hextra in Hs; done|].
    intros _ _ (s0 & Hin & Hg). exists (sa_set_port port s0). destruct (Hset s0) as [-> ->].
    split; [|done]. apply elem_of_app. right. apply Hextra. by exists s0.
Qed.

(** The children of a handshake that checks whether its peer is reachable. *)
Definition checks (l : list Token) (w : World UID) : Prop :=
  ∀ t, t ∈ l → ∃ r s, w_states w !! t = Some r ∧ w_heap w !! r = Some (StCheckReachability s) ∧
    w_borrows w !! r = None ∧ cr_token s = t.

Lemma terminate_check d r s w :
  w_heap w !! r = Some (StCheckReachability s) → w_borrows w !! r = None →
  ∃ n, State_terminate (S d) r w = Done tt (set_states (delete (cr_token s) (w_states w)) (set_net n w)).
Proof.
  intros Hh Hb. cbn [State_terminate].
  set (w0 := set_borrows (<[r:=Writing]> (w_borrows w)) w).
  assert (∃ n, CheckReachability_terminate s w0 =
    Done tt (set_states (delete (cr_token s) (w_states w0)) (set_net n w0))) as (n & Hn).
  { unfold CheckReachability_terminate, mbind, M_bind. rewrite cancel_timeout_done.
    unfold remove_state, modify.
    match goal with |- context [io (Socket_deregister ?s) ?w1] =>
      destruct (deregister_done s w1) as (x & n & -> & _) end. by exists n. }
  exists n. eapply with_borrow_mut_same; try done. unfold mbind, M_bind. fold w0. by rewrite Hn.
Qed.

Lemma terminate_checks l : ∀ w, NoDup l → checks l w →
  ∃ st n, for_each (λ child, state ← get_state child;
                  match state with Some c => dyn_terminate c | None => mret tt end) l w =
          Done tt (set_states st (set_net n w)) ∧
    ∀ t, st !! t = if decide (t ∈ l) then None else w_states w !! t.
Proof.
  induction l as [|t l IH]; intros w Hnd Hch.
  { exists (w_states w), (w_net w). split; [by destruct w|]. intros t.
    by rewrite decide_False by apply not_elem_of_nil. }
  apply NoDup_cons in Hnd as [Ht Hnd].
  destruct (Hch t) as (r & s & Hs & Hh & Hb & Htok); [left|].
  cbn [for_each]. unfold mbind at 1, M_bind at 1, mbind at 1, M_bind at 1, get_state, gets at 1.
  rewrite Hs. unfold dyn_terminate at 1, mbind at 1, M_bind at 1, gets at 1.
  destruct (terminate_check (size (w_heap w)) r s w Hh Hb) as (n & ->). rewrite Htok.
  destruct (IH (set_states (delete t (w_states w)) (set_net n w))) as (st & n' & Hrun & Hst); [done| |].
  { intros t' Ht'. destruct (Hch t') as (r' & s' & ? & ? & ? & ?); [by right|].
    exists r', s'. cbn. rewrite lookup_delete_ne by (by intros ->). done. }
  exists st, n'. split; [exact Hrun|]. intros t'. rewrite Hst. cbn.
  destruct (decide (t' = t)) as [->|].
  - rewrite lookup_delete_eq, decide_False by done. by rewrite decide_True by left.
  - rewrite lookup_delete_ne by done. destruct (decide (t' ∈ l)).
    + by rewrite decide_True by by right.
    + rewrite decide_False; [done|]. by intros [?|?]%elem_of_cons.
Qed.

(** The first address a bootstrapping node is reachable at decides. When a
    check succeeds, the others are taken out of the event loop and the handshake
    goes on to grant the bootstrap to the node, in a state that differs only in
    those checks; while one fails and others are running, nothing happens. *)
Theorem reachability_decides self child u (w : World UID) :
  checks (elements (le_reachability_children self ∖ {[child]})) w →
  (∃ st n, handle_check_reachability dyn_terminate self child (Ok u) w =
     send_bootstrap_grant dyn_terminate (le_set_children ∅ self) u Node
       (set_states st (set_net n w)) ∧
     ∀ t, st !! t = if decide (t ∈ le_reachability_children self ∧ t ≠ child) then None
                    else w_states w !! t) ∧
  (le_reachability_children self ∖ {[child]} ≠ ∅ →
   handle_check_reachability dyn_terminate self child (Err tt) w =
   Done (le_set_children (le_reachability_children self ∖ {[child]}) self) w).
Proof.
  intros Hch. unfold handle_check_reachability. split.
  - destruct (terminate_checks (elements (le_reachability_children self ∖ {[child]})) w)
      as (st & n & Hrun & Hst); [apply NoDup_elements|done|].
    exists st, n. split.
    + unfold mbind at 1, M_bind at 1, terminate_childern. unfold mbind at 1, M_bind at 1.
      cbn [le_reachability_children le_set_children]. by rewrite Hrun.
    + intros t. rewrite Hst. destruct (decide (t ∈ elements _)) as [Hin|Hin];
        rewrite elem_of_elements, elem_of_difference, elem_of_singleton in Hin.
      * by rewrite decide_True.
      * by rewrite decide_False.
  - intros Hne. cbn [le_reachability_children le_set_children]. by rewrite bool_decide_false.
Qed.

End ListenerProps.

Module ListenerWitness.

#[local] Instance wenv : Env := Script.env true false.
#[local] Existing Instance Script.msg_codec.
#[local] Existing Instance Script.msg_codec_laws.
#[local] Existing Instance ActiveConnectionWitness.timer_laws.

Definition st0 : @TcpStream wenv := 0%nat.
Definition tm0 : @Timeout wenv := 0%nat.
Definition calm : @net wenv := Script.quiet.
Definition fresh : SockInner := mkSockInner st0 [] 0 [] None.

Definition shake (ns : NextState Z) (children : gset Token) : ListenerExchange Z :=
  mkListenerExchange 10 [] ns 1 (Some fresh) tm0 children true true 0%nat.
Definition hs0 : ListenerExchange Z := shake NextNone ∅.

Definition world (n : @net wenv) (cm : gmap Z ConnectionId) : World Z :=
  mkWorld n {[ 0%nat := StListenerExchange hs0 ]} ∅ 1%nat 11 {[ 10 := 0%nat ]} cm
    (ConfigWrapper_new Config_default) [] [] ∅ 0%nat [].

(** The peer 7 asks to bootstrap as a client. *)
Definition request : list byte := [Byte.x02; Byte.x00; Byte.x00; Byte.x00; Byte.x05; Byte.x07].
Definition net_req : @net wenv := Script.set_reads [Ok request] calm.

Definition after : World Z :=
  match ListenerExchange_read dyn_terminate hs0 (world net_req ∅) with
  | Done _ w' => w'
  | _ => world calm ∅
  end.
Definition hs1 : ListenerExchange Z :=
  match ListenerExchange_read dyn_terminate hs0 (world net_req ∅) with
  | Done s _ => s
  | _ => hs0
  end.

Lemma listener_admits_only_allowed_witness :
  ∃ u n0 a n1, Socket_peer_addr (Some fresh) n0 = Done (Ok a) n1 ∧
    admitted hs0 (cfg (w_config after)) (sa_ip a) (BootstrapRequest 7 [] NotRequired) u.
Proof.
  apply (listener_admits_only_allowed hs0 (BootstrapRequest 7 [] NotRequired) (Some fresh) calm
    (world net_req ∅) after hs1).
  - by split.
  - vm_compute. reflexivity.
  - vm_compute. reflexivity.
  - left. vm_compute. discriminate.
Defined.

(** The answer is the one write the outside world still takes at once; only the
    host 9 may come as a client. *)
Definition listed : Config :=
  mkConfig [] None false None None None (Some {[ V4 (mkIpv4Addr 192 168 0 9) ]}) None None.
Definition answering : @net wenv := Script.set_writes [Ok 6; Ok 0] calm.
Definition answered : @net wenv := Script.set_writes [Ok 0] calm.
Definition picky : World Z :=
  set_config (ConfigWrapper_new listed) (world answering ∅).

Lemma listener_denies_witness :
  (∃ w', handle_bootstrap_req dyn_terminate hs0 7 [] NotRequired picky =
         Done hs0 w' ∧ unseen picky w' ∧
         w_states w' = delete 10 (w_states picky) ∧ w_net w' = answered) ∧
  (∃ self' w', handle_check_reachability dyn_terminate (shake NextNone {[ 11 ]}) 11 (Err tt)
                 picky = Done self' w' ∧
     unseen picky w' ∧ w_states w' = delete 10 (w_states picky) ∧ w_net w' = answered).
Proof.
  split.
  - refine (proj1 (listener_denies hs0 fresh 7 [] NotRequired ClientNotWhitelisted 11 answering answered answered
      picky _ _ _) _ _ _); try reflexivity; [by split| |].
    + by eapply client_not_listed.
    + exists [Byte.x08; Byte.x03], 6, answered. by split_and!.
  - refine (proj2 (listener_denies (shake NextNone {[ 11 ]}) fresh 7 [] NotRequired ClientNotWhitelisted 11
      answering answered answered picky _ _ _) _ _); try reflexivity; [by split|].
    exists [Byte.x08; Byte.x01], 6, answered. by split_and!.
Defined.

Lemma listener_echoes_witness :
  ∃ self' w', handle_echo_addr_req dyn_terminate hs0 (world answering ∅) = Done self' w' ∧
    unseen (world answering ∅) w' ∧ w_states w' = delete 10 (w_states (world answering ∅)) ∧ w_net w' = answered.
Proof.
  apply (listener_echoes hs0 fresh (Script.host Byte.x01) answering answered); try reflexivity; [by split|].
  exists [Byte.x09; Byte.x01], 6, answered. by split_and!.
Defined.

Definition net_slow : @net wenv := Script.set_writes [Ok 2] calm.
Definition cm1 : gmap Z ConnectionId := {[ 8 := mkConnectionId None 1 ]}.

Lemma listener_forgets_handshake_witness :
  ∃ self1 w1 self2 w2,
    handle_connect dyn_terminate (shake (NextConnectionCandidate 8) ∅) 7 [] (world net_slow cm1) =
      Done self1 w1 ∧
    ListenerExchange_timeout dyn_terminate self1 0 w1 = Done self2 w2 ∧
    w_states w2 = delete 10 (w_states (world net_slow cm1)) ∧ w_cm w2 = cm1.
Proof.
  eapply (listener_forgets_handshake (shake (NextConnectionCandidate 8) ∅) fresh 8 7 None 0
    (Err ConfigFileHandler) (Script.host Byte.x01) _ net_slow net_slow calm (world net_slow cm1));
    try reflexivity; try discriminate.
Defined.

(** A router that maps the port away, at a global address. *)
Definition mapped : list SocketAddr :=
  [Script.local; SocketAddrV4 (mkIpv4Addr 8 8 8 8) 40000].

Lemma published_addrs_correct_witness :
  ∃ s, s ∈ published_addrs true 5483 mapped ∧ ip_addr_is_global (sa_ip s) = true ∧
       sa_port s = 5483.
Proof.
  refine (proj2 (published_addrs_correct true 5483 mapped) eq_refl _ _); [discriminate|].
  exists (SocketAddrV4 (mkIpv4Addr 8 8 8 8) 40000). split; [right; left|reflexivity].
Defined.

Definition check (t : Token) : CheckReachability Z :=
  mkCheckReachability t (Some fresh) tm0 0%nat 7.
Definition w_checks : World Z :=
  mkWorld calm {[ 0%nat := StListenerExchange (shake NextNone {[ 11; 12 ]});
                  1%nat := StCheckReachability (check 11); 2%nat := StCheckReachability (check 12) ]}
    ∅ 3%nat 13 {[ 10 := 0%nat; 11 := 1%nat; 12 := 2%nat ]} ∅
    (ConfigWrapper_new Config_default) [] [] ∅ 0%nat [].

Lemma reachability_decides_witness :
  ∃ st n, handle_check_reachability dyn_terminate (shake NextNone {[ 11; 12 ]}) 11 (Ok 7) w_checks =
     send_bootstrap_grant dyn_terminate (shake NextNone ∅) 7 Node (set_states st (set_net n w_checks)) ∧
     ∀ t, st !! t = if decide (t ∈ ({[ 11; 12 ]} : gset Token) ∧ t ≠ 11) then None
                    else w_states w_checks !! t.
Proof.
  refine (proj1 (reachability_decides (shake NextNone {[ 11; 12 ]}) 11 7 w_checks _)).
  intros t Ht. exists 2%nat, (check 12).
  revert Ht. vm_compute (elements _). intros Ht. apply list_elem_of_singleton in Ht as ->.
  by split_and!.
Defined.

End ListenerWitness.
