(* ===== verification/RefresherProps.v ===== *)
(** Properties of the configuration refresher
    ([src/src/main/config_refresher.rs]). *)

From stdpp Require Import base tactics list gmap.
From Stdlib Require Import ZArith Lia.
From S2P Require Import Prelude Types Env Socket ConnMap World ActiveConnection Candidate.
From S2P Require Import NatUtil Connect Listener Refresher System.

Section RefresherProps.
Context {ENV : Env} {UID : Type} `{!Uid UID, !Codec (Message UID)}.
Implicit Types (w : World UID) (s : ActiveConnection UID).

(** Asking a socket for its peer's address has no effect and always gets the
    same answer. *)
Context (addr_of : TcpStream → result SocketAddr ErrorKind).
Definition stable_addrs : Prop := ∀ st n, tcp_peer_addr st n = (addr_of st, n).

(** Whether the new whitelists let a connection live. *)
Definition dropped (node_ips client_ips : option (gset IpAddr)) (s : ActiveConnection UID) : bool :=
  match ac_socket s with
  | None => true
  | Some inner =>
      match addr_of (stream inner) with
      | Err _ => true
      | Ok a => ip_banned (match ac_their_role s with Node => node_ips | Client => client_ips end)
                  (sa_ip a)
      end
  end.

(** The connections the map calls active are those of the event loop, and none
    of them is running. *)
Definition active_ok (w : World UID) : Prop :=
  ∀ u c t, w_cm w !! u = Some c → active_connection c = Some t →
    ∃ r s, w_states w !! t = Some r ∧ w_heap w !! r = Some (StActive s) ∧
           w_borrows w !! r = None ∧ ac_token s = t ∧ ac_their_id s = u.

(** The connection of a map entry, if it has to go. *)
Definition picked node_ips client_ips (w : World UID) (c : ConnectionId) :
  option (rc * ActiveConnection UID) :=
  t ← active_connection c;
  r ← w_states w !! t;
  match w_heap w !! r with
  | Some (StActive s) => if dropped node_ips client_ips s then Some (r, s) else None
  | _ => None
  end.

Lemma should_drop_done node_ips client_ips s w :
  stable_addrs → should_drop node_ips client_ips s w = Done (dropped node_ips client_ips s) w.
Proof.
  intros Hst. unfold should_drop, ActiveConnection_peer_addr, dropped, mbind, M_bind, io, zoom.
  destruct (ac_socket s) as [inner|]; cbn.
  - unfold mbind, M_bind, call. rewrite Hst. cbn. rewrite set_net_id.
    destruct (addr_of (stream inner)); cbn; [|done]. unfold ActiveConnection_peer_kind.
    by destruct (ac_their_role s).
  - by rewrite set_net_id.
Qed.

Lemma peer_to_terminate_done node_ips client_ips w c :
  stable_addrs →
  (∀ t, active_connection c = Some t → ∃ r s, w_states w !! t = Some r ∧
     w_heap w !! r = Some (StActive s) ∧ w_borrows w !! r = None) →
  peer_to_terminate node_ips client_ips c w = Done (fst <$> picked node_ips client_ips w c) w.
Proof.
  intros Hst Hok. unfold peer_to_terminate, picked.
  destruct (active_connection c) as [t|]; [|done].
  destruct (Hok t eq_refl) as (r & s & Hs & Hh & Hb). cbn.
  unfold mbind at 1, M_bind at 1, get_state, gets at 1. rewrite Hs. cbn.
  unfold with_borrow_mut_ref, mbind, M_bind, gets, modify. rewrite Hb. cbn. rewrite Hh. cbn.
  rewrite should_drop_done by done. cbn. rewrite delete_insert_id by done.
  destruct (dropped node_ips client_ips s); cbn; f_equal; by destruct w.
Qed.

Lemma peers_to_terminate_done node_ips client_ips w cids :
  stable_addrs →
  (∀ c t, c ∈ cids → active_connection c = Some t → ∃ r s, w_states w !! t = Some r ∧
     w_heap w !! r = Some (StActive s) ∧ w_borrows w !! r = None) →
  peers_to_terminate node_ips client_ips cids w =
  Done (omap (picked node_ips client_ips w) cids).*1 w.
Proof.
  intros Hst. induction cids as [|c cids IH]; intros Hok; [done|].
  cbn [peers_to_terminate]. unfold mbind at 1, M_bind at 1.
  rewrite peer_to_terminate_done; [|done|intros t; apply Hok; left].
  unfold mbind at 1, M_bind at 1. rewrite IH by (intros c' t Hc'; apply Hok; by right).
  cbn. by destruct (picked node_ips client_ips w c).
Qed.

(** The connections [ss], at [rs], terminated one after the other. *)
Definition conns_at (w : World UID) : list rc → list (ActiveConnection UID) → Prop :=
  Forall2 (λ r s, w_heap w !! r = Some (StActive s) ∧ w_borrows w !! r = None).

Definition conns_gone (ss : list (ActiveConnection UID)) (w w' : World UID) : Prop :=
  (∀ t, w_states w' !! t = if decide (t ∈ ac_token <$> ss) then None else w_states w !! t) ∧
  (∀ u, u ∈ ac_their_id <$> ss → cm_active u (w_cm w') = None) ∧
  (∀ u, u ∉ ac_their_id <$> ss → w_cm w' !! u = w_cm w !! u) ∧
  w_events w' = w_events w ++ (LostPeer <$> (ac_their_id <$> ss)) ∧
  w_config w' = w_config w.

Lemma terminate_active d r s w :
  w_heap w !! r = Some (StActive s) → w_borrows w !! r = None →
  ∃ n, State_terminate (S d) r w =
    Done tt (set_events (w_events w ++ [LostPeer (ac_their_id s)])
              (set_cm (deactivated (ac_their_id s) (w_cm w))
                (set_states (delete (ac_token s) (w_states w)) (set_net n w)))).
Proof.
  intros Hh Hb. cbn [State_terminate].
  destruct (terminate_done s (set_borrows (<[r:=Writing]> (w_borrows w)) w)) as (n & Hn).
  exists n. eapply with_borrow_mut_same; try done. unfold mbind, M_bind. by rewrite Hn.
Qed.

Lemma deactivated_stays u v (cm : gmap UID ConnectionId) :
  cm_active v cm = None → cm_active v (deactivated u cm) = None.
Proof.
  intros Hv. destruct (decide (v = u)) as [->|Hne]; [apply deactivated_inactive|].
  unfold cm_active in *. by rewrite deactivated_other.
Qed.

Lemma terminate_all rs : ∀ ss w, conns_at w rs ss →
  ∃ w', for_each dyn_terminate rs w = Done tt w' ∧ conns_gone ss w w' ∧
    (∀ u, cm_active u (w_cm w) = None → cm_active u (w_cm w') = None).
Proof.
  induction rs as [|r rs IH]; intros ss w Hat.
  { apply Forall2_nil_inv_l in Hat as ->. exists w. split; [done|]. split; [|done].
    unfold conns_gone. cbn [fmap list_fmap]. rewrite app_nil_r. split_and!; [|..|done|done|done].
    - intros t. case_decide as Ht; [by apply elem_of_nil in Ht|done].
    - intros u Hu. by apply elem_of_nil in Hu. }
  apply Forall2_cons_inv_l in Hat as (s & ss' & [Hh Hb] & Hat & ->).
  cbn [for_each]. unfold mbind at 1, M_bind at 1, dyn_terminate at 1, mbind at 1, M_bind at 1, gets at 1.
  destruct (terminate_active (size (w_heap w)) r s w Hh Hb) as (n & ->).
  set (w1 := set_events _ _). destruct (IH ss' w1) as (w' & Hrun & (Hst & Hin & Hout & He & Hc) & Hkeep).
  { eapply Forall2_impl; [exact Hat|]. done. }
  change (w_states w1) with (delete (ac_token s) (w_states w)) in Hst.
  change (w_cm w1) with (deactivated (ac_their_id s) (w_cm w)) in *.
  change (w_events w1) with (w_events w ++ [LostPeer (ac_their_id s)]) in He.
  exists w'. split; [exact Hrun|]. unfold conns_gone. rewrite !fmap_cons. split; [split_and!|].
  - intros t. rewrite Hst. destruct (decide (t = ac_token s)) as [->|Hne].
    + rewrite lookup_delete_eq. rewrite (decide_True (P := ac_token s ∈ ac_token s :: _)) by left.
      by case_decide.
    + rewrite lookup_delete_ne by done. destruct (decide (t ∈ ac_token <$> ss')).
      * by rewrite decide_True by by right.
      * rewrite decide_False; [done|]. by intros [?|?]%elem_of_cons.
  - intros u Hu. apply elem_of_cons in Hu as [->|Hu]; [|by apply Hin].
    apply Hkeep, deactivated_inactive.
  - intros u Hu. rewrite not_elem_of_cons in Hu. destruct Hu as [Hne Hu].
    rewrite Hout by done. by apply deactivated_other.
  - by rewrite He, <- app_assoc.
  - done.
  - intros u Hu. apply Hkeep. by apply deactivated_stays.
Qed.

(** The peers of the connections that have to go, once each. *)
Lemma picked_peers node_ips client_ips w l :
  (∀ u c t, (u, c) ∈ l → active_connection c = Some t →
    ∃ r s, w_states w !! t = Some r ∧ w_heap w !! r = Some (StActive s) ∧ ac_their_id s = u) →
  NoDup l.*1 →
  let ss := (omap (picked node_ips client_ips w) l.*2).*2 in
  NoDup (ac_their_id <$> ss) ∧
  ∀ u, u ∈ ac_their_id <$> ss ↔
       ∃ c t r s, (u, c) ∈ l ∧ active_connection c = Some t ∧ w_states w !! t = Some r ∧
         w_heap w !! r = Some (StActive s) ∧ dropped node_ips client_ips s = true.
Proof.
  induction l as [|[u c] l IH]; intros Hok Hnd.
  { split; [constructor|]. intros u. split; [by intros ?%elem_of_nil|].
    intros (c & t & r & s & Hin & _). by apply elem_of_nil in Hin. }
  cbn [fmap list_fmap fst] in Hnd. apply NoDup_cons in Hnd as [Hu Hnd].
  destruct IH as [IHnd IHin]; [intros; eapply Hok; [by right|done]|done|].
  cbn [fmap list_fmap snd omap list_omap]. cbv zeta in *.
  assert (∀ v, v ∈ ac_their_id <$> (omap (picked node_ips client_ips w) l.*2).*2 → v ≠ u) as Hne.
  { intros v (c' & t & r & s & Hin & _)%IHin ->. apply Hu.
    apply list_elem_of_fmap. by exists (u, c'). }
  destruct (picked node_ips client_ips w c) as [[r s]|] eqn:Hp; unfold picked in Hp.
  - destruct (active_connection c) as [t|] eqn:Ht; [|done].
    destruct (Hok u c t) as (r' & s' & Hs & Hh & Hid); [left|done|].
    cbn in Hp. rewrite Hs in Hp. cbn in Hp. rewrite Hh in Hp.
    destruct (dropped node_ips client_ips s') eqn:Hd; [|done]. injection Hp as <- <-.
    rewrite !fmap_cons. cbn [snd]. rewrite Hid. split.
    + constructor; [|done]. intros Hin. by apply (Hne u).
    + intros v. rewrite elem_of_cons, IHin. split.
      * intros [->|(c' & t' & r1 & s1 & Hin & ?)].
        -- exists c, t, r', s'. split_and!; try done. left.
        -- exists c', t', r1, s1. split; [by right|done].
      * intros (c' & t' & r1 & s1 & [[= -> ->]|Hin]%elem_of_cons & ?); [by left|].
        right. by exists c', t', r1, s1.
  - split; [done|]. intros v. rewrite IHin. split.
    + intros (c' & t' & r1 & s1 & Hin & ?). exists c', t', r1, s1. split; [by right|done].
    + intros (c' & t' & r1 & s1 & [[= -> ->]|Hin]%elem_of_cons & Ht & Hs & Hh & Hd).
      * rewrite Ht in Hp. cbn in Hp. rewrite Hs in Hp. cbn in Hp. rewrite Hh, Hd in Hp. done.
      * by exists c', t', r1, s1.
Qed.

Lemma picked_elem node_ips client_ips w l s :
  s ∈ (omap (picked node_ips client_ips w) l).*2 →
  ∃ c t r, c ∈ l ∧ active_connection c = Some t ∧ w_states w !! t = Some r ∧
    w_heap w !! r = Some (StActive s) ∧ dropped node_ips client_ips s = true.
Proof.
  intros ([r s'] & -> & (c & Hc & Hp)%list_elem_of_omap)%list_elem_of_fmap. unfold picked in Hp.
  destruct (active_connection c) as [t|] eqn:Ht; [|done]. cbn in Hp.
  destruct (w_states w !! t) as [r'|] eqn:Hs; [|done]. cbn in Hp.
  destruct (w_heap w !! r') as [[s''| | | | | | | | | | | |]|] eqn:Hh; try done.
  destruct (dropped node_ips client_ips s'') eqn:Hd; [|done]. injection Hp as -> ->.
  by exists c, t, r.
Qed.

(** What a purge leaves of a world with the connection [s] to [u] at [t]. *)
Definition purged node_ips client_ips (us : list UID) (w w' : World UID) : Prop :=
  ∀ u c t r s, w_cm w !! u = Some c → active_connection c = Some t →
    w_states w !! t = Some r → w_heap w !! r = Some (StActive s) →
    if dropped node_ips client_ips s
    then u ∈ us ∧ cm_active u (w_cm w') = None ∧ w_states w' !! t = None
    else u ∉ us ∧ w_cm w' !! u = Some c ∧ w_states w' !! t = Some r.

(** The connections to drop are registered and not running. *)
Lemma picked_conns node_ips client_ips w (l : list ConnectionId)
  (ps := omap (picked node_ips client_ips w) l) :
  (∀ c t, c ∈ l → active_connection c = Some t →
     ∃ r s, w_states w !! t = Some r ∧ w_heap w !! r = Some (StActive s) ∧ w_borrows w !! r = None) →
  conns_at w ps.*1 ps.*2.
Proof.
  intros Hl. unfold conns_at. apply Forall2_fmap, Forall_Forall2_diag, Forall_forall. intros [r s] Hp.
  unfold ps in Hp. apply list_elem_of_omap in Hp as (c & Hc & Hp). unfold picked in Hp.
  destruct (active_connection c) as [t|] eqn:Ht; [|done].
  destruct (Hl c t Hc Ht) as (r' & s' & Hs & Hh & Hb). cbn in Hp.
  rewrite Hs in Hp. cbn in Hp. rewrite Hh in Hp.
  destruct (dropped _ _ s'); [|done]. by injection Hp as <- <-.
Qed.

Lemma purge_spec node_ips client_ips w :
  stable_addrs → active_ok w →
  ∃ us w', purge dyn_terminate node_ips client_ips w = Done tt w' ∧ NoDup us ∧
    w_events w' = w_events w ++ (LostPeer <$> us) ∧ w_config w' = w_config w ∧
    purged node_ips client_ips us w w'.
Proof.
  intros Hst Hok. unfold purge. unfold mbind at 1, M_bind at 1, gets at 1.
  set (l := map_to_list (w_cm w)).
  assert (∀ u c t, (u, c) ∈ l → active_connection c = Some t →
    ∃ r s, w_states w !! t = Some r ∧ w_heap w !! r = Some (StActive s) ∧
      w_borrows w !! r = None ∧ ac_token s = t ∧ ac_their_id s = u) as Hl.
  { intros u c t Hin. apply elem_of_map_to_list in Hin. by apply Hok. }
  assert (∀ c t, c ∈ l.*2 → active_connection c = Some t →
    ∃ u r s, (u, c) ∈ l ∧ w_states w !! t = Some r ∧ w_heap w !! r = Some (StActive s) ∧
      w_borrows w !! r = None ∧ ac_token s = t ∧ ac_their_id s = u) as Hl2.
  { intros c t ([u c'] & -> & Hin)%list_elem_of_fmap Ht.
    destruct (Hl u c' t Hin Ht) as (r & s & ?). by exists u, r, s. }
  unfold mbind, M_bind. rewrite peers_to_terminate_done; [|done|].
  2: { intros c t Hc Ht. destruct (Hl2 c t Hc Ht) as (u & r & s & ? & ? & ? & ? & ?). by exists r, s. }
  destruct (picked_peers node_ips client_ips w l) as [Hnd Hin].
  { intros u c t Hc Ht. destruct (Hl u c t Hc Ht) as (r & s & ? & ? & _ & _ & ?). by exists r, s. }
  { apply NoDup_fst_map_to_list. }
  set (ps := omap (picked node_ips client_ips w) l.*2) in *. cbv zeta in Hnd, Hin.
  destruct (terminate_all ps.*1 ps.*2 w) as (w' & Hrun & (Hst' & Hgone & Hkept & He & Hc) & _).
  { apply picked_conns. intros c t Hc Ht.
    destruct (Hl2 c t Hc Ht) as (u & r & s & _ & ? & ? & ? & _). by exists r, s. }
  exists (ac_their_id <$> ps.*2), w'. split; [exact Hrun|]. do 3 (split; [done|]).
  intros u c t r s Hu Ht Hs Hh. destruct (Hok u c t Hu Ht) as (r' & s' & Hs' & Hh' & _ & Htok & Hid).
  rewrite Hs in Hs'. injection Hs' as <-. rewrite Hh in Hh'. injection Hh' as <-.
  apply elem_of_map_to_list in Hu as Hul.
  destruct (dropped node_ips client_ips s) eqn:Hd.
  - assert (u ∈ ac_their_id <$> ps.*2) as Hus by (apply Hin; by exists c, t, r, s).
    split; [done|]. split; [by apply Hgone|]. rewrite Hst', decide_True; [done|].
    apply list_elem_of_fmap in Hus as (s1 & Hid1 & Hs1).
    apply picked_elem in Hs1 as Hp. destruct Hp as (c1 & t1 & r1 & Hc1 & Ht1 & Hst1 & Hh1 & _).
    destruct (Hl2 c1 t1 Hc1 Ht1) as (u1 & r2 & s2 & Hu1 & Hst2 & Hh2 & _ & Htok2 & Hid2).
    rewrite Hst1 in Hst2. injection Hst2 as <-. rewrite Hh1 in Hh2. injection Hh2 as <-.
    assert (u1 = u) as -> by congruence.
    apply elem_of_map_to_list in Hu1, Hul. assert (c1 = c) as -> by congruence.
    apply list_elem_of_fmap. exists s1. split; [congruence|done].
  - assert (u ∉ ac_their_id <$> ps.*2) as Hus.
    { rewrite Hin. intros (c1 & t1 & r1 & s1 & Hu1 & Ht1 & Hs1 & Hh1 & Hd1).
      apply elem_of_map_to_list in Hu1. congruence. }
    split; [done|]. split; [by rewrite Hkept|]. rewrite Hst', decide_False; [done|].
    intros (s1 & Htok1 & Hs1)%list_elem_of_fmap.
    apply picked_elem in Hs1 as (c1 & t1 & r1 & Hc1 & Ht1 & Hst1 & Hh1 & Hd1).
    destruct (Hl2 c1 t1 Hc1 Ht1) as (u1 & r2 & s2 & _ & Hst2 & Hh2 & _ & Htok2 & _).
    congruence.
Qed.

(** C15: the refresher enforces a changed whitelist. When the configuration it
    reads differs from the last one in force and has a whitelist, its timer is
    set again, the new configuration is in force, and every active connection is
    looked at: those whose peer's address the whitelist for their role does not
    contain (or whose address cannot be had) are closed and reported lost,
    exactly once each; every other connection stays. *)
Theorem refresher_purges (self : @ConfigRefresher ENV) tid t n1 n2 new w :
  stable_addrs → active_ok w →
  timer_set_timeout REFRESH_INTERVAL_MS (rf_timer self) (w_net w) = (Ok t, n1) →
  read_config_file n1 = (Ok new, n2) →
  (check_for_refresh_and_reset_modified (w_config w) new).1 = true →
  ¬ (whitelisted_node_ips new = None ∧ whitelisted_client_ips new = None) →
  ∃ us w', ConfigRefresher_timeout dyn_terminate self tid w =
           Done (mkConfigRefresher (rf_token self) (rf_timer self) t) w' ∧
    w_config w' = ConfigWrapper_new new ∧
    w_events w' = w_events w ++ (LostPeer <$> us) ∧ NoDup us ∧
    purged (whitelisted_node_ips new) (whitelisted_client_ips new) us w w'.
Proof.
  intros Hst Hok Ht Hr Href Hsome. unfold ConfigRefresher_timeout.
  unfold mbind at 1, M_bind at 1. rewrite set_timeout_done, Ht. cbn [map_err fst snd].
  unfold mbind at 1, M_bind at 1, io, zoom, call. cbn [w_net set_net]. rewrite Hr.
  unfold mbind at 1, M_bind at 1, gets at 1. cbn [w_config set_net].
  assert ((check_for_refresh_and_reset_modified (w_config w) new).2 = ConfigWrapper_new new) as Hnew.
  { unfold check_for_refresh_and_reset_modified, ConfigWrapper_new.
    case_decide; cbn; congruence. }
  destruct (check_for_refresh_and_reset_modified (w_config w) new) as [b c]. cbn in Href, Hnew.
  subst b c.
  unfold mbind at 1, M_bind at 1, modify at 1. cbn [negb orb].
  rewrite <- bool_decide_and, bool_decide_false by done.
  set (w1 := set_config _ _).
  destruct (purge_spec (whitelisted_node_ips new) (whitelisted_client_ips new) w1)
    as (us & w' & Hrun & Hnd & He & Hc & Hp); [done|done|].
  unfold mbind, M_bind. rewrite Hrun. by exists us, w'.
Qed.

End RefresherProps.

Module RefresherWitness.

#[local] Instance wenv : Env := Script.env true false.
#[local] Existing Instance Script.msg_codec.

Definition tm0 : @Timeout wenv := 0%nat.
Definition addr_of (i : @TcpStream wenv) : result SocketAddr ErrorKind :=
  Ok (Script.host (byte_of_Z (Z.of_nat i + 1))).

Lemma stable : stable_addrs addr_of.
Proof. by intros st n. Defined.

(** Two nodes, at the hosts 1 and 2; the new whitelist has the first only. *)
Definition conn (t u : Z) (st : @TcpStream wenv) : ActiveConnection Z :=
  mkActiveConnection t (Some (mkSockInner st [] 0 [] None)) 1 u Node
    (mkHeartbeatTimers tm0 (mkCoreTimer t 0) tm0 (mkCoreTimer t 1)).
Definition new : Config :=
  mkConfig [] None false None None (Some {[ V4 (mkIpv4Addr 192 168 0 1) ]}) None None None.
Definition net0 : @net wenv := Script.set_configs [Ok new] Script.quiet.
Definition w0 : World Z :=
  mkWorld net0 {[ 0%nat := StActive (conn 10 7 0%nat); 1%nat := StActive (conn 11 8 1%nat) ]} ∅
    2%nat 12 {[ 10 := 0%nat; 11 := 1%nat ]}
    {[ 7 := mkConnectionId (Some 10) 0; 8 := mkConnectionId (Some 11) 0 ]}
    (ConfigWrapper_new Config_default) [] [] ∅ 0%nat [].
Definition refresher : @ConfigRefresher wenv := mkConfigRefresher 3 (mkCoreTimer 3 0) tm0.

Lemma w0_active_ok : active_ok w0.
Proof.
  intros u c t Hu Ht. cbn in Hu. apply lookup_insert_Some in Hu as [[<- <-]|[Hne Hu]].
  - injection Ht as <-. exists 0%nat, (conn 10 7 0%nat). by split_and!.
  - apply lookup_singleton_Some in Hu as [<- <-]. injection Ht as <-.
    exists 1%nat, (conn 11 8 1%nat). by split_and!.
Defined.

Lemma refresher_purges_witness :
  ∃ us w', ConfigRefresher_timeout dyn_terminate refresher 0 w0 = Done refresher w' ∧
    w_config w' = ConfigWrapper_new new ∧
    w_events w' = LostPeer <$> us ∧ NoDup us ∧
    purged addr_of (Some {[ V4 (mkIpv4Addr 192 168 0 1) ]}) None us w0 w'.
Proof.
  apply (refresher_purges addr_of refresher 0 tm0 net0 Script.quiet new w0).
  - exact stable.
  - exact w0_active_ok.
  - reflexivity.
  - reflexivity.
  - vm_compute. reflexivity.
  - intros [Hn _]. discriminate Hn.
Defined.

End RefresherWitness.
