(* ===== verification/BootstrapProps.v ===== *)
(** Properties of joining the network ([src/src/main/bootstrap]). *)

From stdpp Require Import base tactics list gmap strings.
From Stdlib Require Import ZArith Lia.
From S2P Require Import Prelude Types Env Socket ConnMap World ActiveConnection Candidate.
From S2P Require Import NatUtil Connect Listener Refresher Discovery Bootstrap System Probes.

Section BootstrapProps.
Context {ENV : Env} {UID : Type} `{!Uid UID, !Codec (Message UID), !Codec DiscoveryMsg}.
Abbreviation MW := (M (World UID)).
Implicit Types (w : World UID) (self bs : Bootstrap UID) (tp : TryPeer UID).

(** The channel of the attempt to find peers on the local network is closed. *)
Definition sd_closed (self : Bootstrap UID) (w : World UID) : gmap nat (list (list SocketAddr)) :=
  match bs_sd_meta self with
  | Some m => delete (sd_rx m) (w_channels w)
  | None => w_channels w
  end.

Lemma bootstrap_terminate_spec self w :
  probes (elements (bs_children self)) w →
  ∃ n st, Bootstrap_terminate dyn_terminate self w =
    Done (bs_set_sd_meta None (bs_set_children ∅ self))
         (set_channels (sd_closed self w) (set_states st (set_net n w))) ∧
    without (λ t, t ∈ bs_children self ∨ t = bs_token self) (w_states w) st ∧
    (PollLaws → TimerLaws → same_streams (w_net w) n).
Proof.
  intros Htr. destruct (terminate_probes (elements (bs_children self)) w)
    as (n1 & st & Hrun & Hst & Hf); [apply NoDup_elements|done|].
  unfold Bootstrap_terminate, Bootstrap_terminate_children.
  unfold mbind at 1, M_bind at 1, mbind at 1, M_bind at 1. rewrite Hrun. cbn [mret M_ret].
  assert (without (λ t, t ∈ bs_children self ∨ t = bs_token self) (w_states w)
    (delete (bs_token self) st)) as Hst'.
  { intros t. destruct (decide (t = bs_token self)) as [->|].
    { by rewrite lookup_delete_eq, decide_True by (by right). }
    rewrite lookup_delete_ne, Hst by done.
    destruct (decide (t ∈ elements (bs_children self))) as [Hin|Hin];
      rewrite elem_of_elements in Hin; [by rewrite decide_True by (by left)|].
    by rewrite decide_False by tauto. }
  unfold sd_closed, mbind, M_bind. cbn [bs_sd_meta bs_set_children].
  destruct (bs_sd_meta self) as [m|] eqn:Em.
  - rewrite cancel_timeout_done. cbn. rewrite cancel_timeout_done. cbn.
    eexists _, _. split; [done|]. split; [done|]. intros L TL. etrans; [exact (Hf L)|].
    etrans; apply cancel_timeout_frame.
  - cbn. rewrite cancel_timeout_done. cbn.
    replace (bs_set_sd_meta None (bs_set_children ∅ self)) with (bs_set_children ∅ self)
      by (destruct self; cbn in Em; by subst).
    exists (timer_cancel_timeout (bs_timeout self) n1).2, (delete (bs_token self) st).
    split; [by destruct w|]. split; [done|]. intros L TL. etrans; [exact (Hf L)|]. apply cancel_timeout_frame.
Qed.

(** A bootstrap [bs] that is trying the peer of [tp], neither of them running. *)
Record bootstrapping (rb : rc) (bs : Bootstrap UID) (rt : rc) (tp : TryPeer UID) (w : World UID) :
  Prop := {
  bg_bs : w_states w !! bs_token bs = Some rb;
  bg_bs_heap : w_heap w !! rb = Some (StBootstrap bs);
  bg_bs_idle : w_borrows w !! rb = None;
  bg_try : w_states w !! tp_token tp = Some rt;
  bg_try_heap : w_heap w !! rt = Some (StTryPeer tp);
  bg_try_idle : w_borrows w !! rt = None;
  bg_finish : tp_finish tp = rb;
  bg_others : probes (elements (bs_children bs ∖ {[tp_token tp]})) w
}.

(** What [handle_result] finds when [tp] reports: the state of [tp] is removed,
    and both states are running. *)
Definition reporting (rb rt : rc) (tp : TryPeer UID) (n : net) (w : World UID) : World UID :=
  set_borrows (<[rb := Writing]> (<[rt := Writing]> (w_borrows w)))
    (set_states (delete (tp_token tp) (w_states w)) (set_net n w)).

Section Reporting.
Context (rb : rc) (bs : Bootstrap UID) (rt : rc) (tp : TryPeer UID) (w : World UID).
Context (BG : bootstrapping rb bs rt tp w).

Lemma bg_distinct : rb ≠ rt ∧ bs_token bs ≠ tp_token tp.
Proof.
  destruct BG as [H1 H2 _ H3 H4 _ _ _]. assert (rb ≠ rt) by congruence. split; congruence.
Qed.

Lemma tries_reporting n : probes (elements (bs_children bs ∖ {[tp_token tp]})) (reporting rb rt tp n w).
Proof.
  intros t Ht. destruct (bg_others _ _ _ _ _ BG t Ht) as (r & o & Hs & Hh & Hb & Ho).
  pose proof (probe_token t o Ho) as Htok.
  apply elem_of_elements, elem_of_difference in Ht as [_ Hne%not_elem_of_singleton].
  destruct BG as [H1 H2 _ H3 H4 _ _ _]. exists r, o. cbn.
  assert (r ≠ rb) by (intros ->; rewrite H2 in Hh; injection Hh as <-; by destruct Ho).
  assert (r ≠ rt) by (intros ->; rewrite H4 in Hh; injection Hh as <-; done).
  rewrite lookup_delete_ne, !lookup_insert_ne by congruence. done.
Qed.

Lemma finish_reports n res bs' w' :
  Bootstrap_handle_result dyn_terminate bs (tp_token tp) res (reporting rb rt tp n w) = Done bs' w' →
  try_peer_finish (tp_finish tp) (tp_token tp) res
    (set_states (delete (tp_token tp) (w_states w))
       (set_net n (set_borrows (<[rt := Writing]> (w_borrows w)) w))) =
  Done tt (set_borrows (delete rb (w_borrows w')) (set_heap (<[rb := StBootstrap bs']> (w_heap w')) w')).
Proof.
  intros Hrun. destruct bg_distinct as [Hr Ht]. rewrite (bg_finish _ _ _ _ _ BG).
  unfold try_peer_finish, when_alive, upgrade. unfold mbind at 1, M_bind at 1, gets at 1.
  rewrite (bool_decide_true (rb ∈ _)).
  2: { apply list_elem_of_fmap. exists (bs_token bs, rb). split; [done|].
       apply elem_of_map_to_list. cbn. rewrite lookup_delete_ne by done. apply BG. }
  cbn [orb]. eapply with_borrow_mut_done.
  - cbn. rewrite lookup_insert_ne by done. apply BG.
  - apply BG.
  - unfold as_bootstrap, mbind at 1, M_bind at 1.
    match goal with |- context [Bootstrap_handle_result _ _ _ _ ?w0] =>
      change w0 with (reporting rb rt tp n w) end.
    by rewrite Hrun.
Qed.

(** The event of [tp]'s socket, when what the peer has sent is [m] and more. *)
Lemma try_reads `{!CodecLaws (Message UID)} inner m f rest cs n' :
  tp_socket tp = Some inner → fits m f → reader_ok inner →
  delivers (stream inner) (w_net w) cs n' → (length cs < loop_fuel)%nat →
  buffered inner ++ concat cs = f ++ rest →
  ∃ s1 n1 cs1, reader_ok s1 ∧ stream s1 = stream inner ∧ delivers (stream s1) n1 cs1 n' ∧
    buffered s1 ++ concat cs1 = rest ∧ (length cs1 ≤ length cs)%nat ∧
    Socket_read (T:=Message UID) (tp_socket tp) (w_net w) = Done (Ok (Some m), Some s1) n1.
Proof.
  intros Hs Hf Hok Hd Hcs Hb.
  destruct (read_next inner m f rest (w_net w) cs n' Hf Hok Hd Hcs Hb)
    as (s1 & n1 & cs1 & Hr & Hok1 & Hst1 & Hd1 & Hb1 & Hle).
  exists s1, n1, cs1. rewrite Hst1. split_and!; try done.
  rewrite Hs. unfold Socket_read, mbind, M_bind. by rewrite Hr.
Qed.

End Reporting.

(** The handler of [tp]'s socket ends in the report. *)
Lemma granted_event rb bs rt tp w s1 n1 uid bs' w' :
  bootstrapping rb bs rt tp w →
  Socket_read (T:=Message UID) (tp_socket tp) (w_net w) =
    Done (Ok (Some (BootstrapGranted uid)), Some s1) n1 →
  Bootstrap_handle_result dyn_terminate bs (tp_token tp) (Ok (Some s1, tp_peer tp, uid))
    (reporting rb rt tp n1 w) = Done bs' w' →
  ∃ w'', handle_event (tp_token tp) (mkReady true false false false) w = Done tt w'' ∧
    w_events w'' = w_events w' ∧ w_cm w'' = w_cm w' ∧ w_states w'' = w_states w'.
Proof.
  intros BG Hr Hrun. unfold handle_event, mbind at 1, M_bind at 1, get_state, gets at 1.
  rewrite (bg_try _ _ _ _ _ BG).
  pose proof (finish_reports rb bs rt tp w BG n1 _ bs' w' Hrun) as Hfin.
  set (w1 := set_borrows (delete rb (w_borrows w')) _) in Hfin.
  erewrite (with_borrow_mut_done _ _ _ _ _ w1); [by eexists|apply BG|apply BG|].
  unfold State_ready, TryPeer_ready. cbn -[TryPeer_read]. unfold mbind, M_bind. cbn -[TryPeer_read].
  unfold TryPeer_read, mbind, M_bind. erewrite io_done by exact Hr. cbn -[try_peer_finish].
  match goal with |- context [try_peer_finish ?p ?c ?r ?w0] =>
    replace (try_peer_finish p c r w0) with (Done tt w1) by (symmetry; exact Hfin) end.
  done.
Qed.

(** What the peer's answer [m] is, other than a grant. *)
Definition refusal (m : Message UID) : option BootstrapDenyReason :=
  match m with BootstrapDenied reason => Some reason | _ => None end.

Definition fatal (m : Message UID) : bool :=
  match refusal m with Some reason => is_err_fatal reason | None => false end.

Lemma refused_event rb bs rt tp w s1 n1 m :
  bootstrapping rb bs rt tp w →
  (∀ uid, m ≠ BootstrapGranted uid) →
  Socket_read (T:=Message UID) (tp_socket tp) (w_net w) = Done (Ok (Some m), Some s1) n1 →
  ∃ n2, ∀ bs' w',
    Bootstrap_handle_result dyn_terminate bs (tp_token tp) (Err (tp_peer tp, refusal m))
      (reporting rb rt tp n2 w) = Done bs' w' →
    ∃ o, handle_event (tp_token tp) (mkReady true false false false) w =
    Done tt (set_borrows (delete rt (delete rb (w_borrows w')))
      (set_heap (<[rt := o]> (<[rb := StBootstrap bs']> (w_heap w'))) w')).
Proof.
  intros BG Hm Hr.
  set (wt := set_borrows (<[rt := Writing]> (w_borrows w)) w).
  destruct (deregister_done (Some s1)
    (set_states (delete (tp_token tp) (w_states w)) (set_net n1 wt))) as (x & n2 & Hde & _).
  exists n2. intros bs' w' Hrun. exists (StTryPeer (tp_set_socket (Some s1) tp)).
  unfold handle_event, mbind at 1, M_bind at 1, get_state, gets at 1.
  rewrite (bg_try _ _ _ _ _ BG).
  pose proof (finish_reports rb bs rt tp w BG n2 _ bs' w' Hrun) as Hfin.
  set (w1 := set_borrows (delete rb (w_borrows w')) _) in Hfin.
  rewrite (with_borrow_mut_done rt _ w (StTryPeer tp) (StTryPeer (tp_set_socket (Some s1) tp)) w1);
    [done|apply BG|apply BG|].
  unfold State_ready, TryPeer_ready. cbn -[TryPeer_read]. unfold mbind, M_bind. cbn -[TryPeer_read].
  unfold TryPeer_read, mbind, M_bind. erewrite io_done by exact Hr. cbn -[TryPeer_handle_error].
  assert (TryPeer_handle_error try_peer_finish (tp_set_socket (Some s1) tp) (refusal m)
    (set_net n1 wt) = Done (tp_set_socket (Some s1) tp) w1) as Herr.
  { unfold TryPeer_handle_error, TryPeer_terminate, remove_state, modify, mbind, M_bind.
    cbn -[try_peer_finish io Socket_deregister] in Hde |- *. rewrite Hde. cbn -[try_peer_finish].
    match goal with |- context [try_peer_finish ?p ?c ?r ?w0] =>
      replace (try_peer_finish p c r w0) with (Done tt w1) by (symmetry; exact Hfin) end.
    done. }
  fold wt. destruct m; try (cbn [refusal] in Herr; by rewrite Herr).
  by destruct (Hm uid).
Qed.

(** [handle_result] on a failure, when [self] is the bootstrap without the child. *)
Lemma failure_handled bs child peer reason w (self := bs_set_children (bs_children bs ∖ {[child]}) bs)
  (over := bool_decide (bs_children self = ∅) ||
           match reason with Some r => is_err_fatal r | None => false end) :
  probes (elements (bs_children self)) w →
  ∃ bs' w', Bootstrap_handle_result dyn_terminate bs child (Err (peer, reason)) w = Done bs' w' ∧
    w_cm w' = w_cm w ∧ w_heap w' = w_heap w ∧ w_borrows w' = w_borrows w ∧
    w_events w' = w_events w ++ (if over then [BootstrapFailed] else []) ∧
    (if over then without (λ t, t ∈ bs_children self ∨ t = bs_token bs) (w_states w) (w_states w')
     else w_states w' = w_states w ∧ bs' = self).
Proof.
  intros Htr. destruct (bootstrap_terminate_spec self w Htr) as (n & st & Hterm & Hst & _).
  unfold Bootstrap_handle_result, Bootstrap_maybe_terminate. fold self. subst over.
  destruct (bool_decide (bs_children self = ∅)) eqn:Eb; cbn [orb];
    destruct reason as [reason|]; [destruct (is_err_fatal reason)| |destruct (is_err_fatal reason)|];
    unfold mbind, M_bind; rewrite ?Hterm; cbn; rewrite ?app_nil_r;
    eexists _, _; (split; [done|]); by split_and!.
Qed.

(** ** Trying the peers *)

Definition try_of (self : Bootstrap UID) (t : Token) (p : SocketAddr) (s : Socket) : StateObj UID :=
  StTryPeer (mkTryPeer t p s
    (Some (BootstrapRequest (bs_our_uid self) (bs_name_hash self) (bs_ext_reachability self), 0))
    (bs_self_weak self)).

(** From [w] to [w'], exactly the peers in [l] were tried, under their tokens. *)
Record launched (self : Bootstrap UID) (l : list (Token * SocketAddr)) (w w' : World UID) : Prop := {
  la_new : ∀ t p, (t, p) ∈ l → w_token_counter w ≤ t ∧ ∃ r s, w_states w' !! t = Some r ∧
             w_heap w' !! r = Some (try_of self t p s);
  la_states : ∀ t, t ∉ l.*1 → w_states w' !! t = w_states w !! t;
  la_only : ∀ r o, w_heap w' !! r = Some o →
              w_heap w !! r = Some o ∨ ∃ t p s, (t, p) ∈ l ∧ o = try_of self t p s;
  la_heap : ∀ r, (r < w_next_rc w)%nat → w_heap w' !! r = w_heap w !! r;
  la_frame : w_events w' = w_events w ∧ w_cm w' = w_cm w ∧ w_borrows w' = w_borrows w
}.

(** Connecting and registering do not fail at once. *)
Definition connectable : Prop :=
  (∀ p n, ∃ st n', tcp_connect p n = (Ok st, n')) ∧
  (∀ ev t i n, ∃ n', poll_register ev t i n = (Ok tt, n')).

(** One round of the loop: it is either tried, or it is passed over. *)
Lemma try_peer_done self peer w :
  w_token_counter w + 1 < usize_modulus →
  (∃ s n, try_peer self peer w =
     Done (bs_set_children ({[w_token_counter w]} ∪ bs_children self) self)
       (set_states (<[w_token_counter w := w_next_rc w]> (w_states w))
         (set_next_rc (S (w_next_rc w))
           (set_heap (<[w_next_rc w := try_of self (w_token_counter w) peer s]> (w_heap w))
             (set_net n (set_token_counter (w_token_counter w + 1) w)))))) ∨
  (¬ connectable ∧ ∃ n c, w_token_counter w ≤ c ≤ w_token_counter w + 1 ∧
     try_peer self peer w = Done self (set_net n (set_token_counter c w))).
Proof.
  intros Htok. unfold try_peer, TryPeer_start, Socket_connect, get_new_token, Socket_register.
  unfold mbind, M_bind, io, zoom, call. cbn.
  destruct (tcp_connect peer (w_net w)) as [[st|e] n1] eqn:Ec; cbn.
  2: { right. split; [intros [Hc _]; destruct (Hc peer (w_net w)) as (? & ? & ?); congruence|].
       exists n1, (w_token_counter w). split; [lia|]. by destruct w. }
  rewrite usize_succ_small by done. cbn.
  destruct (poll_register (EvStream st) (w_token_counter w) ready_write n1) as [[[]|e] n2] eqn:Er; cbn.
  2: { right. split; [intros [_ Hc]; destruct (Hc (EvStream st) (w_token_counter w) ready_write n1)
         as (? & ?); congruence|].
       exists n2, (w_token_counter w + 1). split; [lia|done]. }
  left. by eexists _, n2.
Qed.

Lemma try_peers peers : ∀ self w,
  w_token_counter w + Z.of_nat (length peers) < usize_modulus →
  ∃ l w', fold_loop try_peer self peers w =
          Done (bs_set_children (list_to_set l.*1 ∪ bs_children self) self) w' ∧
    l.*2 `sublist_of` peers ∧ (connectable → l.*2 = peers) ∧ launched self l w w'.
Proof.
  induction peers as [|peer peers IH]; intros self w Htok; cbn [length] in Htok.
  { exists [], w. cbn. rewrite union_empty_l_L. split; [by destruct self|]. split_and!; try done.
    split; try done; [set_solver|]. intros r o Ho. by left. }
  cbn [fold_loop]. unfold mbind, M_bind.
  destruct (try_peer_done self peer w) as [(s & n & ->)|(Hnc & n & c & Hc & ->)]; [lia| |].
  - set (self1 := bs_set_children _ self). set (t := w_token_counter w) in *. set (w1 := set_states _ _).
    destruct (IH self1 w1) as (l & w' & -> & Hsub & Hall & [Hnew Hst Honly Hheap Hfr]); [cbn; lia|].
    exists ((t, peer) :: l), w'. rewrite !fmap_cons. cbn [fst snd]. rewrite list_to_set_cons.
    split; [f_equal; destruct self; unfold bs_set_children; cbn; f_equal; set_solver|].
    split; [by constructor|]. split; [intros Hcon; by rewrite Hall|].
    assert (t ∉ l.*1) as Hfresh.
    { intros ([t' p'] & Heq & Hin)%list_elem_of_fmap. cbn in Heq. subst t'.
      destruct (Hnew _ _ Hin) as [Hle _]. cbn in Hle. lia. }
    split.
    + intros t' p' [[= -> ->]|Hin]%elem_of_cons.
      * split; [done|]. exists (w_next_rc w), s. rewrite Hst by done. rewrite Hheap by (cbn; lia).
        cbn. by rewrite !lookup_insert_eq.
      * destruct (Hnew _ _ Hin) as [Hle H]. cbn in Hle. split; [lia|exact H].
    + intros t' Hnin. rewrite Hst by set_solver. cbn. by rewrite lookup_insert_ne by set_solver.
    + intros r o Ho. destruct (Honly r o Ho) as [H|(t' & p' & s' & Hin & ->)].
      * cbn in H. apply lookup_insert_Some in H as [[<- <-]|[_ H]]; [|by left].
        right. exists t, peer, s. split; [left|done].
      * right. exists t', p', s'. split; [by right|done].
    + intros r Hr. rewrite Hheap by (cbn; lia). cbn. by rewrite lookup_insert_ne by lia.
    + exact Hfr.
  - destruct (IH self (set_net n (set_token_counter c w)))
      as (l & w' & -> & Hsub & Hall & [Hnew Hst Honly Hheap Hfr]); [cbn; lia|].
    exists l, w'. split; [done|]. split; [by constructor|]. split; [done|]. split; try done.
    intros t p Hin. destruct (Hnew t p Hin) as [Hle H]. cbn in Hle. split; [lia|exact H].
Qed.

(** Giving up with no peer left to hear from. *)
Lemma give_up_done self w :
  bs_children self = ∅ →
  ∃ n, Bootstrap_terminate dyn_terminate self w =
    Done (bs_set_sd_meta None (bs_set_children ∅ self))
         (set_channels (sd_closed self w)
           (set_states (delete (bs_token self) (w_states w)) (set_net n w))).
Proof.
  intros Hch. destruct (bootstrap_terminate_spec self w) as (n & st & Hterm & Hst & _).
  { intros t. rewrite Hch, elements_empty. by intros ?%not_elem_of_nil. }
  exists n. rewrite Hterm. do 3 f_equal. apply map_eq. intros t. rewrite Hst, Hch.
  destruct (decide (t = bs_token self)) as [->|].
  - rewrite decide_True by (by right). by rewrite lookup_delete_eq.
  - rewrite decide_False by set_solver. by rewrite lookup_delete_ne.
Qed.

(** Whom the bootstrap [self] may try. *)
Definition usable (self : Bootstrap UID) : list SocketAddr :=
  List.filter (λ a, negb (bool_decide (a ∈ bs_blacklist self))) (bs_peers self).

Lemma elem_of_usable self a : a ∈ usable self ↔ a ∈ bs_peers self ∧ a ∉ bs_blacklist self.
Proof.
  unfold usable. rewrite !list_elem_of_In, filter_In, negb_true_iff, bool_decide_eq_false. done.
Qed.

Lemma length_usable self : (length (usable self) ≤ length (bs_peers self))%nat.
Proof. apply List.filter_length_le. Qed.

(** What was tried was usable. *)
Lemma launched_usable self self1 ps l n w w1 :
  ps ≡ₚ usable self → l.*2 `sublist_of` ps → launched self1 l (set_net n w) w1 →
  l.*2 ⊆+ usable self ∧
  ∀ r o, w_heap w1 !! r = Some o → w_heap w !! r = Some o ∨
    ∃ t p s, p ∈ bs_peers self ∧ p ∉ bs_blacklist self ∧ o = try_of self1 t p s.
Proof.
  intros Hsh Hsub Hl. rewrite <- Hsh at 1. split; [by apply sublist_submseteq|].
  intros r o Ho. destruct (la_only _ _ _ _ Hl r o Ho) as [H|(t & p & s & Hin & ->)]; [by left|].
  right. exists t, p, s. assert (p ∈ usable self) as [Hp Hb]%elem_of_usable; [|by split_and!].
  rewrite <- Hsh. eapply elem_of_sublist; [|exact Hsub]. apply list_elem_of_fmap. by exists (t, p).
Qed.

(** [m], started in [w], tries the peers that [self] may try: [l] are the ones it
    could begin to connect to, with their tokens. *)
Definition tries_usable (self : Bootstrap UID) (m : MW (Bootstrap UID)) (w : World UID) : Prop :=
  ∃ l self' w', m w = Done self' w' ∧
    l.*2 ⊆+ usable self ∧ (connectable → l.*2 ≡ₚ usable self) ∧
    bs_children self' = list_to_set l.*1 ∧
    (∀ t p, (t, p) ∈ l → ∃ r s, w_states w' !! t = Some r ∧
       w_heap w' !! r = Some (try_of self t p s)) ∧
    (∀ r o, w_heap w' !! r = Some o → w_heap w !! r = Some o ∨
       ∃ t p s, p ∈ bs_peers self ∧ p ∉ bs_blacklist self ∧ o = try_of self t p s) ∧
    w_events w' = w_events w ++ (if decide (l = []) then [BootstrapFailed] else []) ∧
    (l = [] → w_states w' = delete (bs_token self) (w_states w)).

Lemma begin_tries self w :
  (∀ l n, (shuffle l n).1 ≡ₚ l) → bs_children self = ∅ →
  w_token_counter w + Z.of_nat (length (bs_peers self)) < usize_modulus →
  tries_usable self (begin_bootstrap dyn_terminate self) w.
Proof.
  intros Hsh Hch Htok. unfold tries_usable, begin_bootstrap.
  set (self1 := bs_set_peers [] self).
  change (List.filter _ (bs_peers self)) with (usable self). case_bool_decide as Hu.
  { unfold mbind at 1, M_bind at 1, send_event, modify.
    destruct (give_up_done self1 (set_events (w_events w ++ [BootstrapFailed]) w)) as (n & ->); [done|].
    eexists [], _, _. split; [done|]. rewrite Hu. cbn. split_and!; try done; [set_solver|].
    intros r o Ho. by left. }
  unfold mbind at 1, M_bind at 1, io, zoom, call.
  specialize (Hsh (usable self) (w_net w)). destruct (shuffle (usable self) (w_net w)) as [ps n]. cbn in Hsh.
  destruct (try_peers ps self1 (set_net n w)) as (l & w1 & Hrun & Hsub & Hall & Hla).
  { cbn. pose proof (length_usable self). rewrite Hsh. lia. }
  destruct (launched_usable self self1 ps l n w w1 Hsh Hsub Hla) as [Hsub' Honly].
  destruct Hla as [Hnew Hst _ _ (He & Hc & Hb)].
  unfold mbind at 1, M_bind at 1. rewrite Hrun. set (self2 := bs_set_children _ self1).
  assert (bs_children self2 = list_to_set l.*1) as Hch2 by (cbn; set_solver).
  assert (connectable → l.*2 ≡ₚ usable self) as Hall' by (intros C; by rewrite (Hall C)).
  cbn in He. unfold Bootstrap_maybe_terminate.
  destruct (decide (l = [])) as [->|Hl].
  - rewrite bool_decide_true by (by rewrite Hch2). unfold mbind, M_bind.
    destruct (give_up_done self2 w1) as (n2 & ->); [by rewrite Hch2|].
    eexists [], _, _. split; [done|]. cbn. rewrite He. split_and!; try done; [set_solver|].
    intros _. f_equal. apply map_eq. intros t. apply Hst. set_solver.
  - rewrite bool_decide_false.
    2: { rewrite Hch2. destruct l as [|[t p] l]; [done|]. cbn. set_solver. }
    eexists l, _, _. split; [done|]. rewrite decide_False, app_nil_r by done.
    split_and!; try done. intros t p Hin. by destruct (Hnew t p Hin).
Qed.

(** One granted request makes the bootstrap succeed. When the answer of a
    peer that is being tried is [BootstrapGranted], arriving in any pieces, the
    event on its socket ends the bootstrap and everything else it was trying;
    the user is told [BootstrapConnect] with the peer's identifier and address,
    and then gets the data the peer has sent along, in order; the connection is
    registered under the token of the attempt and is the peer's active
    connection; no other state is touched. *)
Lemma bootstrap_granted `{!TimerLaws, !PollLaws, !CodecLaws (Message UID)}
  rb bs rt tp inner uid f ms fs tail cs n' a k w :
  bootstrapping rb bs rt tp w →
  w_heap w !! w_next_rc w = None → w_borrows w !! w_next_rc w = None →
  cm_or_insert uid (mkConnectionId None 1) (w_cm w) = mkConnectionId a k → 0 < k →
  tp_socket tp = Some inner → reader_ok inner →
  fits (BootstrapGranted uid) f → Forall2 fits ms fs → incomplete (T:=Message UID) tail →
  delivers (stream inner) (w_net w) cs n' →
  buffered inner ++ concat cs = f ++ concat fs ++ tail →
  (length cs < loop_fuel)%nat → (length ms < loop_fuel)%nat →
  ∃ w', handle_event (tp_token tp) (mkReady true false false false) w = Done tt w' ∧
    w_events w' = w_events w ++ [BootstrapConnect uid (tp_peer tp)] ++ data_events uid Node ms ∧
    w_cm w' = <[uid := mkConnectionId (Some (tp_token tp)) (k - 1)]> (w_cm w) ∧
    w_states w' !! tp_token tp = Some (w_next_rc w) ∧
    ∀ t, t ≠ tp_token tp →
      w_states w' !! t = if decide (t ∈ bs_children bs ∨ t = bs_token bs)
                         then None else w_states w !! t.
Proof.
  intros BG Hnh Hnb Hcm Hk Hs Hok Hf Hfs Htail Hd Hb Hcs Hms.
  destruct (try_reads tp w inner _ f _ cs n' Hs Hf Hok Hd Hcs Hb)
    as (s1 & n1 & cs1 & Hok1 & _ & Hd1 & Hb1 & Hle & Hr).
  set (child := tp_token tp) in *.
  set (self1 := bs_set_children (bs_children bs ∖ {[child]}) bs).
  set (w1 := reporting rb rt tp n1 w).
  destruct (bootstrap_terminate_spec self1 w1) as (n2 & st & Hterm & Hst & Hsame);
    [by apply tries_reporting|].
  set (w2 := set_channels _ _) in Hterm.
  destruct (Hsame _ _ _ _ _ Hd1) as (n3 & Hd3).
  destruct (start_delivers child s1 (bs_our_uid bs) uid Node (BootstrapConnect uid (tp_peer tp))
    w2 ms fs tail cs1 n3 a k) as (w3 & x & Hrun & He & Hc & Hst3 & _); try done; [lia| |].
  { cbn. destruct BG. rewrite !lookup_insert_ne by congruence. done. }
  destruct (granted_event rb bs rt tp w s1 n1 uid (bs_set_sd_meta None (bs_set_children ∅ self1)) w3)
    as (w' & Hev & He' & Hc' & Hst'); [done|done| |].
  { unfold Bootstrap_handle_result. fold child self1 w1. unfold mbind, M_bind. rewrite Hterm. cbn -[w2].
    by rewrite Hrun. }
  exists w'. split; [exact Hev|]. rewrite He', Hc', Hst', He, Hc, Hst3. split_and!; try done.
  - by rewrite lookup_insert_eq.
  - intros t Ht. rewrite lookup_insert_ne by done. cbn. rewrite Hst. cbn.
    rewrite lookup_delete_ne by done. fold child.
    destruct (decide (t ∈ bs_children bs ∖ {[child]} ∨ t = bs_token bs)),
      (decide (t ∈ bs_children bs ∨ t = bs_token bs)); try done; set_solver.
Qed.

(** ** Properties *)

(** C20: any other answer is a failure of that peer. The attempt is ended; the
    bootstrap goes on with the other peers, and says nothing, if there are any
    and the answer is not one of the two fatal denials (another network, or not
    reachable from outside); otherwise the bootstrap and all that it was trying
    are gone, and [BootstrapFailed] is sent once. The connection map is not
    touched. *)
Theorem bootstrap_refused `{!CodecLaws (Message UID)} rb bs rt tp inner m f rest cs n' w
  (others := bs_children bs ∖ {[tp_token tp]}) (over := bool_decide (others = ∅) || fatal m) :
  bootstrapping rb bs rt tp w → (∀ uid, m ≠ BootstrapGranted uid) →
  tp_socket tp = Some inner → reader_ok inner → fits m f →
  delivers (stream inner) (w_net w) cs n' → (length cs < loop_fuel)%nat →
  buffered inner ++ concat cs = f ++ rest →
  ∃ w', handle_event (tp_token tp) (mkReady true false false false) w = Done tt w' ∧
    w_events w' = w_events w ++ (if over then [BootstrapFailed] else []) ∧
    w_cm w' = w_cm w ∧ w_states w' !! tp_token tp = None ∧
    (∀ t, t ≠ tp_token tp →
       w_states w' !! t = if decide (over = true ∧ (t ∈ others ∨ t = bs_token bs))
                          then None else w_states w !! t) ∧
    (over = false → w_heap w' !! rb = Some (StBootstrap (bs_set_children others bs))).
Proof.
  intros BG Hm Hs Hok Hf Hd Hcs Hb.
  destruct (try_reads tp w inner _ f _ cs n' Hs Hf Hok Hd Hcs Hb) as (s1 & n1 & _ & _ & _ & _ & _ & _ & Hr).
  destruct (refused_event rb bs rt tp w s1 n1 m BG Hm Hr) as (n2 & Hev).
  destruct (failure_handled bs (tp_token tp) (tp_peer tp) (refusal m) (reporting rb rt tp n2 w))
    as (bs' & w' & Hrun & Hc & Hh & Hb' & He & Hst); [by apply tries_reporting|].
  change (w_events w' = w_events w ++ if over then [BootstrapFailed] else []) in He.
  destruct (Hev bs' w' Hrun) as (o & ->). eexists. split; [done|]. cbn. rewrite He, Hc.
  pose proof (bg_distinct rb bs rt tp w BG) as [Hr' Ht'].
  split_and!; [done|done| | |].
  - destruct (_ || _); [|destruct Hst as [-> _]; apply lookup_delete_eq].
    rewrite Hst. case_decide; [done|apply lookup_delete_eq].
  - intros t Ht. change (bool_decide _ || _) with over in Hst. destruct over.
    + rewrite Hst. cbn. rewrite lookup_delete_ne by done. unfold others. repeat case_decide; tauto.
    + destruct Hst as [-> _]. cbn. rewrite lookup_delete_ne by done. by rewrite decide_False by (by intros []).
  - intros Ho. change (bool_decide _ || _) with over in Hst. rewrite Ho in Hst.
    destruct Hst as [_ ->]. rewrite lookup_insert_ne by done. by rewrite lookup_insert_eq.
Qed.


(** When the broadcast of the search of the local network fails,
    [Bootstrap::start] fails without cancelling the bootstrap timer it has set:
    it registers nothing and makes no further call. A bootstrap that is started
    under the same token before the timer fires is ended by it early. *)
Theorem bootstrap_start_keeps_timer nh er our_uid bl token sdt sd rs cache contacts n0 n1 tm n2 e n3 w :
  Cache_new (bootstrap_cache_name (cfg (w_config w))) (w_net w) = Done (Ok cache) n0 →
  Cache_read_file cache n0 = Done contacts n1 →
  timer_set_timeout BOOTSTRAP_TIMEOUT_MS (mkCoreTimer token BOOTSTRAP_TIMER_ID) n1 = (Ok tm, n2) →
  w_states w !! sdt = Some rs → w_heap w !! rs = Some (StServiceDiscovery sd) →
  w_borrows w !! rs = None →
  udp_send_to (sd_socket sd) (sd_seek_peers_req sd) (sd_remote_addr sd) n2 = (Err e, n3) →
  (∃ w', Bootstrap_start dyn_terminate nh er our_uid bl token sdt w =
         Done (Err (ServiceDisc (SdIo e))) w' ∧ w_net w' = n3 ∧ w_states w' = w_states w) ∧
  ∀ bs w2, bs_timer bs = mkCoreTimer token BOOTSTRAP_TIMER_ID → probes (elements (bs_children bs)) w2 →
    ∃ o w3, State_timeout BOOTSTRAP_TIMER_ID (StBootstrap bs) w2 = Done o w3 ∧
      w_events w3 = w_events w2 ++ [BootstrapFailed] ∧ w_states w3 !! bs_token bs = None.
Proof.
  intros Hc Hr Ht Hs Hh Hb Hsend. split.
  - unfold Bootstrap_start. unfold mbind at 1, M_bind at 1, gets at 1. unfold bind_ok, mbind at 1, M_bind at 1.
    rewrite (io_done _ _ _ _ Hc). unfold mbind at 1, M_bind at 1.
    rewrite (io_done _ (set_net n0 w) _ _ Hr). unfold mbind at 1, M_bind at 1.
    rewrite set_timeout_done. cbn [w_net set_net]. rewrite Ht. cbn [map_err fst snd].
    unfold seek_peers, mbind, M_bind, get_state, gets. cbn. rewrite Hs.
    unfold with_borrow_mut_val, mbind, M_bind, gets, modify. cbn. rewrite Hb. cbn. rewrite Hh. cbn.
    unfold seek_borrowed, ServiceDiscovery_seek_peers, sd_io, bind_ok, io, zoom, call, mbind, M_bind. cbn.
    rewrite Hsend. cbn. by eexists.
  - intros bs w2 Htm Htr. unfold State_timeout, Bootstrap_timeout. rewrite Htm. cbn [Types.timer_id Z.eqb].
    rewrite Z.eqb_refl. unfold send_event, modify. unfold mbind, M_bind.
    destruct (bootstrap_terminate_spec bs (set_events (w_events w2 ++ [BootstrapFailed]) w2) Htr)
      as (n & st & -> & Hst & _).
    eexists _, _. split; [done|]. cbn. split; [done|]. rewrite Hst. by rewrite decide_True by (by right).
Qed.

End BootstrapProps.

Module BootstrapWitness.

#[local] Instance wenv : Env := Script.env true false.
#[local] Existing Instance Script.msg_codec.
#[local] Existing Instance Script.msg_codec_laws.
#[local] Existing Instance Script.disc_codec.
#[local] Existing Instance ActiveConnectionWitness.timer_laws.

#[local] Instance still_poll : PollLaws.
Proof. split. intros ev n st cs n1 Hd. by exists n1. Defined.

Definition st0 : @TcpStream wenv := 0%nat.
Definition tm0 : @Timeout wenv := 0%nat.
Definition file0 : @FileHandler wenv := 0%nat.
Definition calm : @net wenv := Script.quiet.
Definition fresh : SockInner := mkSockInner st0 [] 0 [] None.

(** A bootstrap that is trying the hosts 1 and 2. *)
Definition trying (t : Token) (b : byte) : TryPeer Z :=
  mkTryPeer t (Script.host b) (Some fresh) None 0%nat.
Definition boot (peers : list SocketAddr) (sd : option ServiceDiscMeta) (children : gset Token) :
  Bootstrap Z :=
  mkBootstrap 0 peers {[ Script.host Byte.x03 ]} [] NotRequired 1 sd (mkCoreTimer 0 0) tm0 file0
    children 0%nat.
Definition world (n : @net wenv) : World Z :=
  mkWorld n {[ 0%nat := StBootstrap (boot [] None {[ 10; 11 ]});
               1%nat := StTryPeer (trying 10 Byte.x01);
               2%nat := StTryPeer (trying 11 Byte.x02) ]} ∅ 3%nat 12
    {[ 0 := 0%nat; 10 := 1%nat; 11 := 2%nat ]} ∅ (ConfigWrapper_new Config_default) [] [] ∅ 0%nat [].

Lemma others_tried n : probes (elements ({[ 10; 11 ]} ∖ {[ 10 ]} : gset Token)) (world n).
Proof.
  intros t [Ht Hne%not_elem_of_singleton]%elem_of_elements%elem_of_difference.
  assert (t = 11) as -> by set_solver. exists 2%nat, (StTryPeer (trying 11 Byte.x02)).
  split_and!; try reflexivity. by exists (Some fresh).
Defined.

Lemma world_bootstrapping n :
  bootstrapping 0%nat (boot [] None {[ 10; 11 ]}) 1%nat (trying 10 Byte.x01) (world n).
Proof. split; try reflexivity. apply others_tried. Defined.

Definition rx (bs : list byte) : @net wenv := Script.set_reads [Ok bs] calm.

(** The network's name is another one: nothing else is tried. *)
Definition denied : list byte := [Byte.x02; Byte.x00; Byte.x00; Byte.x00; Byte.x08; Byte.x00].

Lemma bootstrap_refused_witness :
  ∃ w', handle_event 10 (mkReady true false false false) (world (rx denied)) = Done tt w' ∧
    w_events w' = [BootstrapFailed] ∧ w_states w' !! 0 = None ∧ w_states w' !! 11 = None.
Proof.
  destruct (bootstrap_refused 0%nat (boot [] None {[ 10; 11 ]}) 1%nat (trying 10 Byte.x01) fresh
    (BootstrapDenied InvalidNameHash) denied [] [denied] calm (world (rx denied)))
    as (w' & Hrun & He & _ & _ & Hst & _); try reflexivity.
  - apply world_bootstrapping.
  - discriminate.
  - split; vm_compute; discriminate.
  - eexists. split; [reflexivity|]. split; [reflexivity|]. vm_compute. discriminate.
  - eapply delivers_cons; [done|reflexivity|]. by eapply (delivers_nil _ _ WouldBlock).
  - vm_compute. lia.
  - exists w'. split_and!; [exact Hrun|exact He|exact (Hst 0 ltac:(discriminate))|].
    exact (Hst 11 ltac:(discriminate)).
Defined.

(** The hosts 1 and 3 are known, 3 is blacklisted; the host 4 has been found. *)
Definition known : list SocketAddr := [Script.host Byte.x01; Script.host Byte.x03].
Definition searching : Bootstrap Z := boot known (Some (mkServiceDiscMeta 0%nat tm0)) ∅.
Definition w_found : World Z :=
  set_channels {[ 0%nat := [[Script.host Byte.x04]] ]}
    (Core_new 4 calm (ConfigWrapper_new Config_default)).


(** The broadcast cannot be sent. *)
Definition sd0 : @ServiceDiscovery wenv :=
  mkServiceDiscovery 1 (0%nat : @UdpSocket wenv) Script.local false [] [] [] 4.
Definition w_unsent : World Z :=
  mkWorld (Script.set_sendings [Err OtherKind] calm) {[ 0%nat := StServiceDiscovery sd0 ]} ∅ 1%nat 4
    {[ 1 := 0%nat ]} ∅ (ConfigWrapper_new Config_default) [] [] ∅ 0%nat [].

Lemma bootstrap_start_keeps_timer_witness :
  ∃ w', Bootstrap_start dyn_terminate [] NotRequired 1 ∅ 0 1 w_unsent =
        Done (Err (ServiceDisc (SdIo OtherKind))) w' ∧ w_net w' = calm ∧ w_states w' = w_states w_unsent.
Proof.
  refine (proj1 (bootstrap_start_keeps_timer [] NotRequired 1 ∅ 0 1 sd0 0%nat file0 []
    (w_net w_unsent) (w_net w_unsent) tm0 (w_net w_unsent) OtherKind calm w_unsent
    _ _ _ _ _ _ _)); reflexivity.
Defined.

End BootstrapWitness.
