(* ===== verification/EndToEnd.v ===== *)
(** The two ends of a bootstrap, run against each other: a node that is trying
    a peer ([src/src/main/bootstrap]) and the handshake that has accepted its
    connection ([src/src/main/connection_listener]). Each end is a [World] of its
    own; what the one writes to its socket is what the other reads. *)

From stdpp Require Import base tactics list gmap strings.
From Stdlib Require Import ZArith Lia.
From S2P Require Import Prelude Types Env Socket ConnMap World ActiveConnection Candidate.
From S2P Require Import NatUtil Connect Listener Refresher Discovery Bootstrap System Probes.
From S2P Require Import ListenerProps BootstrapProps.

Definition readable_now : Ready := mkReady true false false false.
Definition writable_now : Ready := mkReady false true false false.

Section EndToEnd.
Context {ENV : Env} {UID : Type} `{!Uid UID, !Codec (Message UID), !Codec DiscoveryMsg}.
Context `{!TimerLaws, !PollLaws, !CodecLaws (Message UID)}.
Implicit Types (w : World UID) (bs : Bootstrap UID) (tp : TryPeer UID) (self : ListenerExchange UID).

(** ** The asking end *)

(** Once the connection is established, the request goes out. *)
Lemma try_asks rb bs rt tp inner req p n1 w :
  bootstrapping rb bs rt tp w → tp_socket tp = Some inner → idle inner →
  tp_request tp = Some (req, p) → sends_now inner (tp_token tp) req (w_net w) n1 →
  handle_event (tp_token tp) writable_now w =
    Done tt (set_heap (<[rt := StTryPeer (tp_set_request None tp)]> (w_heap w)) (set_net n1 w)).
Proof.
  intros BG Hs Hidle Hreq Hsend. unfold handle_event, mbind at 1, M_bind at 1, get_state, gets at 1.
  rewrite (bg_try _ _ _ _ _ BG). set (w1 := set_borrows (<[rt := Writing]> (w_borrows w)) w).
  erewrite (with_borrow_mut_done rt _ w (StTryPeer tp) (StTryPeer (tp_set_request None tp))
    (set_net n1 w1)); [|apply BG|apply BG|].
  { cbn. rewrite delete_insert_id by apply BG. by destruct w. }
  unfold State_ready, TryPeer_ready. cbn -[TryPeer_write]. rewrite Hreq.
  unfold mbind, M_bind, TryPeer_write. cbn -[Socket_write io]. rewrite Hs.
  unfold mbind, M_bind. fold w1. rewrite (io_done _ w1 _ _ (write_now inner (tp_token tp) req p _ n1 Hidle Hsend)).
  cbn. by destruct tp; cbn in *; subst.
Qed.

(** It is still being tried then, and its request is not sent again. *)
Lemma bootstrapping_asked rb bs rt tp n w :
  bootstrapping rb bs rt tp w →
  bootstrapping rb bs rt (tp_set_request None tp)
    (set_heap (<[rt := StTryPeer (tp_set_request None tp)]> (w_heap w)) (set_net n w)).
Proof.
  intros BG. pose proof (bg_distinct _ _ _ _ _ BG) as [Hr _]. destruct BG as [? ? ? ? Ht ? ? Ho].
  split; try done; cbn; [by rewrite lookup_insert_ne|by rewrite lookup_insert_eq|].
  intros t Hin. destruct (Ho t Hin) as (r & o & Hs & Hh & Hb & Hp). exists r, o. cbn.
  destruct (decide (r = rt)) as [->|]; [|by rewrite lookup_insert_ne].
  rewrite Ht in Hh. injection Hh as <-. apply probe_token in Hp as Htok.
  apply elem_of_elements in Hin. cbn in *. set_solver.
Qed.

(** ** The answering end *)

(** The handshake [self], in [r], has accepted a connection on which [req], a
    request to join its network, arrives from the peer [u]; it will admit
    [u] as a client and its answer leaves the outside world at [n]. *)
Record admits (r : rc) (self : ListenerExchange UID) (inner : SockInner) (u : UID)
  (f : list byte) (n : net) (w : World UID) : Prop := {
  ad_state : w_states w !! le_token self = Some r;
  ad_heap : w_heap w !! r = Some (StListenerExchange self);
  ad_idle : w_borrows w !! r = None;
  ad_fresh : w_borrows w !! w_next_rc w = None ∧ w_heap w !! w_next_rc w = None;
  ad_socket : le_socket self = Some inner ∧ idle inner ∧ reader_ok inner;
  ad_accepts : le_accept_bootstrap self = true ∧ le_our_uid self ≠ u;
  ad_receives : ∃ cs n1 res n2 a n3,
    delivers (stream inner) (w_net w) cs n1 ∧ (length cs < loop_fuel)%nat ∧
    buffered inner ++ concat cs = f ∧
    read_config_file n1 = (res, n2) ∧ tcp_peer_addr (stream inner) n2 = (Ok a, n3) ∧
    ip_allowed (whitelisted_client_ips (cfg (refreshed (w_config w) res))) (sa_ip a) = true ∧
    sends_now inner (le_token self) (BootstrapGranted (le_our_uid self)) n3 n ∧
    delivers (stream inner) n [] n
}.

Lemma delivers_no_bytes st n cs n' : delivers st n cs n' → concat cs = [] → cs = [] ∧ n' = n.
Proof. intros Hd Hc. destruct Hd as [|? c ? ? ? Hne]; [done|]. by apply app_eq_nil in Hc as [? _]. Qed.

Lemma sends_now_stream s s' token (m : Message UID) n n' :
  stream s' = stream s → sends_now s token m n n' → sends_now s' token m n n'.
Proof. unfold sends_now. by intros ->. Qed.

(** Reading the one message that has come leaves the socket as it was. *)
Lemma read_only_message inner (m : Message UID) f n cs n' :
  fits m f → reader_ok inner → idle inner → delivers (stream inner) n cs n' →
  (length cs < loop_fuel)%nat → buffered inner ++ concat cs = f →
  ∃ s1, Socket_read (T:=Message UID) (Some inner) n = Done (Ok (Some m), Some s1) n' ∧
    reader_ok s1 ∧ idle s1 ∧ stream s1 = stream inner ∧ buffered s1 = [].
Proof.
  intros Hf Hok [Hi1 Hi2] Hd Hcs Hb. rewrite <- (app_nil_r f) in Hb.
  destruct (read_next inner m f [] n cs n' Hf Hok Hd Hcs Hb)
    as (s1 & n1 & cs1 & Hr & Hok1 & Hst1 & Hd1 & Hb1 & _).
  apply app_eq_nil in Hb1 as [Hb1 Hc1]. destruct (delivers_no_bytes _ _ _ _ Hd1 Hc1) as [-> ->].
  destruct (read_writer _ _ _ _ _ Hr) as [Hw1 Hw2]. exists s1.
  split; [|split_and!; try done; split; congruence].
  unfold Socket_read, mbind, M_bind. by rewrite Hr.
Qed.

(** The steps of the answer. *)
Lemma read_request self s u h er n w :
  Socket_read (T:=Message UID) (le_socket self) (w_net w) =
    Done (Ok (Some (BootstrapRequest u h er)), s) n →
  le_accept_bootstrap self = true → le_our_uid self ≠ u →
  ListenerExchange_read dyn_terminate self w =
  handle_bootstrap_req dyn_terminate (le_set_socket s self) u h er (set_net n w).
Proof.
  intros Hr Hacc Hne. unfold ListenerExchange_read, mbind, M_bind. rewrite (io_done _ _ _ _ Hr).
  cbn -[handle_bootstrap_req]. rewrite Hacc. unfold validate_peer_uid. by rewrite decide_False.
Qed.

Lemma client_granted self inner u res a n1 n2 w :
  le_socket self = Some inner → read_config_file (w_net w) = (res, n1) →
  tcp_peer_addr (stream inner) n1 = (Ok a, n2) →
  ip_allowed (whitelisted_client_ips (cfg (refreshed (w_config w) res))) (sa_ip a) = true →
  handle_bootstrap_req dyn_terminate self u (le_name_hash self) NotRequired w =
  send_bootstrap_grant dyn_terminate self u Client
    (set_net n2 (set_config (refreshed (w_config w) res) (set_net n1 w))).
Proof.
  intros Hs Hc Ha Hip. unfold handle_bootstrap_req, is_valid_name_hash.
  rewrite bool_decide_true by done. cbn [negb]. unfold mbind, M_bind.
  rewrite (update_config_done _ _ _ Hc), (whitelisted_done self inner Client a n2) by done.
  cbn [w_config set_config whitelist_of]. by rewrite Hip.
Qed.

Lemma listener_admits r self inner u f k n w :
  admits r self inner u f n w → fits (BootstrapRequest u (le_name_hash self) NotRequired) f →
  w_cm w !! u = entry None k → 0 ≤ k → k + 1 < usize_modulus →
  ∃ w', handle_event (le_token self) readable_now w = Done tt w' ∧
    w_events w' = w_events w ++ [BootstrapAccept u Client] ∧
    w_cm w' = <[u := mkConnectionId (Some (le_token self)) k]> (w_cm w) ∧
    w_states w' !! le_token self = Some (w_next_rc w).
Proof.
  intros AD Hf Hcm Hk Hk'. destruct AD as [Hst Hh Hbor [Hfr1 Hfr2] (Hs & Hi & Hok) [Hacc Hne]
    (cs & n1 & res & n2 & a & n3 & Hd & Hcs & Hb & Hc & Ha & Hip & Hsend & Hd0)].
  destruct (read_only_message inner _ f _ cs n1 Hf Hok Hi Hd Hcs Hb)
    as (s1 & Hr & Hok1 & Hi1 & Hst1 & Hb1).
  set (w1 := set_borrows (<[r := Writing]> (w_borrows w)) w).
  set (self1 := le_set_socket (Some s1) self).
  set (w2 := set_net n3 (set_config (refreshed (w_config (set_net n1 w1)) res)
              (set_net n2 (set_net n1 w1)))).
  destruct (grant_delivers self1 u Client s1 [] [] [] [] n n k w2)
    as (self' & w' & Hrun & He & Hcm' & Hst'); try done.
  { cbn. rewrite lookup_insert_ne by congruence. done. }
  { by eapply sends_now_stream. }
  { by rewrite Hst1. }
  { by left. }
  { by rewrite Hb1. }
  { simpl. lia. }
  { simpl. lia. }
  unfold handle_event, mbind at 1, M_bind at 1, get_state, gets at 1. rewrite Hst.
  erewrite (with_borrow_mut_done r _ w (StListenerExchange self) (StListenerExchange self') w');
    [eexists; split_and!; try done; cbn; by rewrite Hst', lookup_insert_eq|done|done|].
  unfold State_ready, ListenerExchange_ready, readable_now. cbn -[ListenerExchange_read].
  unfold mbind, M_bind. fold w1.
  rewrite (read_request self (Some s1) u (le_name_hash self) NotRequired n1 w1) by (by rewrite ?Hs).
  fold self1. change (le_name_hash self) with (le_name_hash self1).
  rewrite (client_granted self1 s1 u res a n2 n3 (set_net n1 w1)) by (by rewrite ?Hst1).
  fold w2. by rewrite Hrun.
Qed.

(** ** Property *)

(** C6: a bootstrap runs to the end on both sides. A node that is not required
    to be reachable has begun to connect to a peer, which has accepted the
    connection on the same network, and whose configuration allows the node's
    address. When the socket of the node is writable, the request goes out; when
    it has arrived, in any pieces, the peer answers, and its user is told
    [BootstrapAccept]; when the answer has arrived, in any pieces and with any
    data behind it, the user of the node is told [BootstrapConnect] and then gets
    the data in order. Each side now has the other as an active connection,
    registered under the token of the handshake, and the node's other attempts
    and the bootstrap itself are gone. *)
Theorem bootstrap_end_to_end rb bs rt tp innerA u a kA wA nA1 nA2 csA nA3
  r self innerB kB wB nB f g ms fs tail :
  bootstrapping rb bs rt tp wA →
  tp_request tp = Some (BootstrapRequest u (le_name_hash self) NotRequired, 0) →
  tp_socket tp = Some innerA → idle innerA → reader_ok innerA →
  w_heap wA !! w_next_rc wA = None → w_borrows wA !! w_next_rc wA = None →
  cm_or_insert (le_our_uid self) (mkConnectionId None 1) (w_cm wA) = mkConnectionId a kA → 0 < kA →
  admits r self innerB u f nB wB →
  w_cm wB !! u = entry None kB → 0 ≤ kB → kB + 1 < usize_modulus →
  fits (BootstrapRequest u (le_name_hash self) NotRequired) f →
  fits (BootstrapGranted (le_our_uid self)) g → Forall2 fits ms fs → incomplete (T:=Message UID) tail →
  sends_now innerA (tp_token tp) (BootstrapRequest u (le_name_hash self) NotRequired) (w_net wA) nA1 →
  delivers (stream innerA) nA2 csA nA3 →
  buffered innerA ++ concat csA = g ++ concat fs ++ tail →
  (length csA < loop_fuel)%nat → (length ms < loop_fuel)%nat →
  ∃ wA1 wB1 wA2,
    handle_event (tp_token tp) writable_now wA = Done tt wA1 ∧ w_net wA1 = nA1 ∧
    handle_event (le_token self) readable_now wB = Done tt wB1 ∧
    handle_event (tp_token tp) readable_now (set_net nA2 wA1) = Done tt wA2 ∧
    w_events wB1 = w_events wB ++ [BootstrapAccept u Client] ∧
    w_events wA2 = w_events wA ++ [BootstrapConnect (le_our_uid self) (tp_peer tp)] ++
                   data_events (le_our_uid self) Node ms ∧
    w_cm wB1 = <[u := mkConnectionId (Some (le_token self)) kB]> (w_cm wB) ∧
    w_cm wA2 = <[le_our_uid self := mkConnectionId (Some (tp_token tp)) (kA - 1)]> (w_cm wA) ∧
    w_states wB1 !! le_token self = Some (w_next_rc wB) ∧
    w_states wA2 !! tp_token tp = Some (w_next_rc wA) ∧
    ∀ t, t ≠ tp_token tp → t ∈ bs_children bs ∨ t = bs_token bs → w_states wA2 !! t = None.
Proof.
  intros BG Hreq Hs Hi Hok Hfh Hfb Hcm Hk AD HcmB HkB HkB' Hf Hg Hfs Htail Hsend Hd Hb Hcs Hms.
  pose proof (try_asks _ _ _ _ _ _ _ _ _ BG Hs Hi Hreq Hsend) as Hask.
  set (wA1 := set_heap _ _) in Hask.
  destruct (listener_admits r self innerB u f kB nB wB AD Hf HcmB HkB HkB')
    as (wB1 & HrunB & HeB & HcB & HsB).
  assert (rt ≠ w_next_rc wA) as Hrt by (intros ->; pose proof (bg_try_heap _ _ _ _ _ BG); congruence).
  destruct (bootstrap_granted rb bs rt (tp_set_request None tp) innerA (le_our_uid self) g ms fs tail csA
    nA3 a kA (set_net nA2 wA1)) as (wA2 & HrunA & HeA & HcA & HsA & Hgone); try done.
  { exact (bootstrapping_asked _ _ _ _ nA2 _ BG). }
  { cbn. by rewrite lookup_insert_ne. }
  exists wA1, wB1, wA2. split_and!; try done.
  intros t Ht Hin. rewrite (Hgone t Ht). by rewrite decide_True.
Qed.

End EndToEnd.

Module EndToEndWitness.
Import BootstrapWitness.

#[local] Existing Instance BootstrapWitness.wenv.
#[local] Existing Instance Script.msg_codec.
#[local] Existing Instance Script.msg_codec_laws.
#[local] Existing Instance Script.disc_codec.
#[local] Existing Instance ActiveConnectionWitness.timer_laws.
#[local] Existing Instance BootstrapWitness.still_poll.

(** The node 1 is trying the hosts 1 and 2, and has not asked the first yet. *)
Definition asker : TryPeer Z :=
  mkTryPeer 10 (Script.host Byte.x01) (Some fresh) (Some (BootstrapRequest 1 [] NotRequired, 0)) 0%nat.
Definition w_asker : World Z :=
  set_heap (<[1%nat := StTryPeer asker]> (w_heap (world calm))) (world calm).

Lemma asker_bootstrapping :
  bootstrapping 0%nat (boot [] None {[ 10; 11 ]}) 1%nat asker w_asker.
Proof.
  split; try reflexivity. intros t [Ht Hne%not_elem_of_singleton]%elem_of_elements%elem_of_difference.
  cbn in Hne. assert (t = 11) as -> by set_solver. exists 2%nat, (StTryPeer (trying 11 Byte.x02)).
  split_and!; try reflexivity. by exists (Some fresh).
Defined.

(** The node 7 has accepted the connection; the request comes in two pieces. *)
Definition request : list byte := [Byte.x02; Byte.x00; Byte.x00; Byte.x00; Byte.x05; Byte.x01].
Definition granted : list byte := [Byte.x02; Byte.x00; Byte.x00; Byte.x00; Byte.x07; Byte.x07].
Definition hello : list byte := [Byte.x02; Byte.x00; Byte.x00; Byte.x00; Byte.x03; Byte.x41].
Definition answerer : ListenerExchange Z :=
  mkListenerExchange 20 [] NextNone 7 (Some fresh) tm0 ∅ true true 0%nat.
Definition w_answerer : World Z :=
  mkWorld (Script.set_reads [Ok (take 3 request); Ok (drop 3 request)] calm)
    {[ 0%nat := StListenerExchange answerer ]} ∅ 1%nat 21 {[ 20 := 0%nat ]} ∅
    (ConfigWrapper_new Config_default) [] [] ∅ 0%nat [].

Lemma answerer_admits : admits 0%nat answerer fresh 1 request calm w_answerer.
Proof.
  split; try reflexivity; [by split|by split_and!|by split|].
  exists [take 3 request; drop 3 request], calm, (Err ConfigFileHandler), calm,
    (Script.host Byte.x01), calm. split_and!; try reflexivity.
  - do 2 (eapply delivers_cons; [done|reflexivity|]). by eapply (delivers_nil _ _ WouldBlock).
  - vm_compute. lia.
  - exists [Byte.x07; Byte.x07], 6, calm. by split_and!.
  - by eapply (delivers_nil _ _ WouldBlock).
Defined.

Lemma bootstrap_end_to_end_witness :
  ∃ wA1 wB1 wA2,
    handle_event 10 writable_now w_asker = Done tt wA1 ∧
    handle_event 20 readable_now w_answerer = Done tt wB1 ∧
    handle_event 10 readable_now (set_net (rx (granted ++ hello)) wA1) = Done tt wA2 ∧
    w_events wB1 = [BootstrapAccept 1 Client] ∧
    w_events wA2 = [BootstrapConnect 7 (Script.host Byte.x01); NewMessage 7 Node [Byte.x41]] ∧
    w_cm wB1 = {[ 1 := mkConnectionId (Some 20) 0 ]} ∧
    w_cm wA2 = {[ 7 := mkConnectionId (Some 10) 0 ]} ∧
    w_states wA2 !! 0 = None ∧ w_states wA2 !! 11 = None.
Proof.
  destruct (bootstrap_end_to_end 0%nat (boot [] None {[ 10; 11 ]}) 1%nat asker fresh 1 None 1 w_asker
    calm (rx (granted ++ hello)) [granted ++ hello] calm 0%nat answerer fresh 0 w_answerer calm
    request granted [Data [Byte.x41]] [hello] [])
    as (wA1 & wB1 & wA2 & H1 & _ & H2 & H3 & H4 & H5 & H6 & H7 & _ & _ & Hst); try reflexivity.
  - apply asker_bootstrapping.
  - by split.
  - split; vm_compute; discriminate.
  - apply answerer_admits.
  - eexists. split; [reflexivity|]. split; [reflexivity|]. vm_compute. discriminate.
  - eexists. split; [reflexivity|]. split; [reflexivity|]. vm_compute. discriminate.
  - repeat constructor. eexists. split; [reflexivity|]. split; [reflexivity|]. vm_compute. discriminate.
  - by left.
  - exists [Byte.x05; Byte.x01], 6, calm. by split_and!.
  - eapply delivers_cons; [done|reflexivity|]. by eapply (delivers_nil _ _ WouldBlock).
  - vm_compute. lia.
  - vm_compute. lia.
  - exists wA1, wB1, wA2. split_and!; try done; apply Hst; try discriminate; [by right|].
    left. vm_compute. reflexivity.
Defined.

End EndToEndWitness.
