(* ===== verification/Reachability.v ===== *)
(** The two ends of the bootstrap of a node that has to be reachable from outside,
    run against each other: before it is admitted, the peer connects to an address
    the node says it listens on ([src/src/main/connection_listener]). *)

From stdpp Require Import base tactics list gmap strings.
From Stdlib Require Import ZArith Lia.
From S2P Require Import Prelude Types Env Socket ConnMap World ActiveConnection Candidate.
From S2P Require Import NatUtil Connect Listener Refresher Discovery Bootstrap System Probes.
From S2P Require Import ListenerProps BootstrapProps EndToEnd.

Section Reachability.
Context {ENV : Env} {UID : Type} `{!Uid UID, !Codec (Message UID), !Codec DiscoveryMsg}.
Context `{!TimerLaws, !PollLaws, !CodecLaws (Message UID)}.
Implicit Types (w : World UID) (self : ListenerExchange UID).

(** ** The check is started *)

Lemma check_started addr u r st n1 n2 w (t := w_token_counter w) :
  t < usize_modulus - 1 → tcp_connect addr (w_net w) = (Ok st, n1) →
  poll_register (EvStream st) t ready_write n1 = (Ok tt, n2) →
  ∃ tm n3, CheckReachability_start addr u r w = Done (Ok t)
    (set_states (<[t := w_next_rc w]> (w_states w)) (set_next_rc (S (w_next_rc w)) (set_heap
      (<[w_next_rc w := StCheckReachability (mkCheckReachability t (Socket_wrap st) tm r u)]> (w_heap w))
      (set_token_counter (t + 1) (set_net n3 w))))).
Proof.
  intros Ht Hc Hp. unfold CheckReachability_start, mbind at 1, M_bind at 1.
  assert (Socket_connect addr (w_net w) = Done (Ok (Socket_wrap st)) n1) as Hs.
  { unfold Socket_connect, mbind, M_bind, call. by rewrite Hc. }
  rewrite (io_done _ _ _ _ Hs). unfold get_new_token, usize_succ, mbind at 1, M_bind at 1, mbind at 1, M_bind at 1,
    gets at 1. cbn [w_token_counter set_net]. fold t.
  destruct (Z.eqb_spec t (usize_modulus - 1)) as [|_]; [lia|]. unfold mbind at 1, M_bind at 1, mret at 1, M_ret at 1.
  unfold mbind at 1, M_bind at 1, modify at 1, mret at 1, M_ret at 1.
  destruct (set_timeout_succeeds CHECK_REACHABILITY_TIMEOUT_MS (mkCoreTimer t 0) n2) as (tm & n3 & Htm & _).
  exists tm, n3. unfold mbind at 1, M_bind at 1, io, zoom, Socket_register, Socket_wrap, mbind at 1, M_bind at 1,
    call. cbn [stream w_net set_net set_token_counter]. rewrite Hp. cbn [map_err].
  unfold mret at 1, M_ret at 1. cbn beta iota. unfold mbind at 1, M_bind at 1. rewrite set_timeout_done.
  cbn [w_net set_net]. rewrite Htm. reflexivity.
Qed.

(** The handshake [self], in [r], has accepted a connection on which a request to
    join its network, as a node that listens on [l], arrives from the peer [u];
    [addr] is the one address of [l] that can be reached from outside, and a
    connection to it can be begun. *)
Record checks_node (r : rc) self (inner : SockInner) (u : UID) (l : list SocketAddr) (addr : SocketAddr)
  (f : list byte) w : Prop := {
  cn_state : w_states w !! le_token self = Some r;
  cn_heap : w_heap w !! r = Some (StListenerExchange self);
  cn_idle : w_borrows w !! r = None;
  cn_fresh : ∀ r', (w_next_rc w ≤ r')%nat → w_heap w !! r' = None ∧ w_borrows w !! r' = None;
  cn_counter : w_token_counter w < usize_modulus - 1 ∧ w_states w !! w_token_counter w = None;
  cn_socket : le_socket self = Some inner ∧ idle inner ∧ reader_ok inner;
  cn_accepts : le_accept_bootstrap self = true ∧ le_our_uid self ≠ u;
  cn_requires : le_require_reachability self = true ∧ le_reachability_children self = ∅ ∧ le_self_weak self = r;
  cn_listens : List.filter (λ a, ip_addr_is_global (sa_ip a)) l = [addr];
  cn_receives : ∃ cs n1 res n2 a n3 st n4 n5,
    delivers (stream inner) (w_net w) cs n1 ∧ (length cs < loop_fuel)%nat ∧ buffered inner ++ concat cs = f ∧
    read_config_file n1 = (res, n2) ∧ tcp_peer_addr (stream inner) n2 = (Ok a, n3) ∧
    ip_allowed (whitelisted_node_ips (cfg (refreshed (w_config w) res))) (sa_ip a) = true ∧
    tcp_connect addr n3 = (Ok st, n4) ∧
    poll_register (EvStream st) (w_token_counter w) ready_write n4 = (Ok tt, n5)
}.

(** What the handshake and its check are then. *)
Record checking (r : rc) self (s1 : SockInner) (u : UID) (t : Token) (st : TcpStream) (tm : Timeout)
  w w1 : Prop := {
  ck_states : w_states w1 = <[t := w_next_rc w]> (w_states w);
  ck_heap : w_heap w1 =
    <[r := StListenerExchange (le_set_children {[t]} (le_set_socket (Some s1) self))]>
      (<[w_next_rc w := StCheckReachability (mkCheckReachability t (Socket_wrap st) tm r u)]> (w_heap w));
  ck_borrows : w_borrows w1 = w_borrows w;
  ck_next : w_next_rc w1 = S (w_next_rc w);
  ck_cm : w_cm w1 = w_cm w;
  ck_events : w_events w1 = w_events w
}.

(** The request of a node that is allowed makes the peer check the address. *)
Lemma node_checked self s1 u l addr res a n2 n3 st n4 n5 w (t := w_token_counter w) :
  le_socket self = Some s1 → le_require_reachability self = true → le_reachability_children self = ∅ →
  List.filter (λ a, ip_addr_is_global (sa_ip a)) l = [addr] → t < usize_modulus - 1 →
  read_config_file (w_net w) = (res, n2) → tcp_peer_addr (stream s1) n2 = (Ok a, n3) →
  ip_allowed (whitelisted_node_ips (cfg (refreshed (w_config w) res))) (sa_ip a) = true →
  tcp_connect addr n3 = (Ok st, n4) → poll_register (EvStream st) t ready_write n4 = (Ok tt, n5) →
  ∃ tm n6, handle_bootstrap_req dyn_terminate self u (le_name_hash self) (Required l) w =
    Done (le_set_children {[t]} self)
      (set_states (<[t := w_next_rc w]> (w_states w)) (set_next_rc (S (w_next_rc w)) (set_heap
        (<[w_next_rc w :=
           StCheckReachability (mkCheckReachability t (Socket_wrap st) tm (le_self_weak self) u)]> (w_heap w))
        (set_token_counter (t + 1) (set_net n6 (set_config (refreshed (w_config w) res) w)))))).
Proof.
  intros Hs Hreq Hch Hl Ht Hc Ha Hip Hcon Hreg. unfold handle_bootstrap_req, is_valid_name_hash.
  rewrite bool_decide_true by done. cbn [negb]. unfold mbind at 1, M_bind at 1.
  rewrite (update_config_done _ _ _ Hc). unfold mbind at 1, M_bind at 1.
  rewrite (whitelisted_done self s1 Node a n3) by done. cbn [w_config set_config whitelist_of].
  rewrite Hip, Hreq, Hl. cbn [negb]. unfold mbind at 1, M_bind at 1. cbn [fold_loop].
  unfold start_check at 1. unfold mbind at 1, M_bind at 1, mbind at 1, M_bind at 1.
  set (w1 := set_net n3 _).
  destruct (check_started addr u (le_self_weak self) st n4 n5 w1) as (tm & n6 & Hrun); [done|done|done|].
  exists tm, n6. rewrite Hrun. unfold mret, M_ret. cbn [le_reachability_children le_set_children].
  rewrite Hch, union_empty_r_L. rewrite bool_decide_false by set_solver. reflexivity.
Qed.

Lemma node_asks r self inner u l addr f w (t := w_token_counter w) :
  checks_node r self inner u l addr f w → fits (BootstrapRequest u (le_name_hash self) (Required l)) f →
  ∃ s1 st tm w1, handle_event (le_token self) readable_now w = Done tt w1 ∧
    checking r self s1 u t st tm w w1 ∧
    stream s1 = stream inner ∧ idle s1 ∧ reader_ok s1 ∧ buffered s1 = [].
Proof.
  intros CN Hf. destruct CN as [Hst Hh Hbor _ [Ht Hfree] (Hs & Hi & Hok) [Hacc Hne]
    (Hreq & Hch & Hself) Hl (cs & n1 & res & n2 & a & n3 & st & n4 & n5 & Hd & Hcs & Hb & Hc & Ha & Hip & Hcon & Hreg)].
  destruct (read_only_message inner _ f _ cs n1 Hf Hok Hi Hd Hcs Hb)
    as (s1 & Hr & Hok1 & Hi1 & Hst1 & Hb1).
  set (w1 := set_borrows (<[r := Writing]> (w_borrows w)) w).
  destruct (node_checked (le_set_socket (Some s1) self) s1 u l addr res a n2 n3 st n4 n5 (set_net n1 w1))
    as (tm & n6 & Hrun); try done; [by rewrite Hst1|].
  unfold handle_event, mbind at 1, M_bind at 1, get_state, gets at 1. rewrite Hst.
  erewrite (with_borrow_mut_done r _ w (StListenerExchange self)); [|done|done|].
  2: { unfold State_ready, ListenerExchange_ready, readable_now. cbn -[ListenerExchange_read].
       unfold mbind, M_bind. fold w1.
       rewrite (read_request self (Some s1) u (le_name_hash self) (Required l) n1 w1) by (by rewrite ?Hs).
       change (le_name_hash self) with (le_name_hash (le_set_socket (Some s1) self)). rewrite Hrun. reflexivity. }
  exists s1, st, tm. eexists. split; [reflexivity|]. split; [|done]. split; try reflexivity; cbn.
  - by rewrite Hself.
  - by rewrite delete_insert_id.
Qed.

(** ** The address is reached *)

(** After a check has ended, the socket of the handshake takes the answer at once,
    and nothing has arrived on it. *)
Definition answers (inner : SockInner) (token : Token) (m : Message UID) (n : net) : Prop :=
  ∀ st tm, ∃ n', sends_now inner token m (poll_deregister (EvStream st) (timer_cancel_timeout tm n).2).2 n' ∧
    delivers (stream inner) n' [] n'.

Lemma check_terminates (cr : CheckReachability UID) st w :
  cr_socket cr = Socket_wrap st →
  CheckReachability_terminate cr w =
  Done tt (set_states (delete (cr_token cr) (w_states w))
    (set_net (poll_deregister (EvStream st) (timer_cancel_timeout (cr_timeout cr) (w_net w)).2).2 w)).
Proof.
  intros Hs. unfold CheckReachability_terminate, mbind at 1, M_bind at 1. rewrite cancel_timeout_done.
  unfold remove_state, modify, mbind, M_bind. rewrite Hs. unfold io, zoom, Socket_deregister, Socket_wrap, call, mbind, M_bind.
  cbn. by destruct (poll_deregister _ _).
Qed.

(** The last check that succeeds makes the handshake grant the bootstrap. *)
Lemma last_check self t u w :
  le_reachability_children self = {[t]} →
  handle_check_reachability dyn_terminate self t (Ok u) w =
  send_bootstrap_grant dyn_terminate (le_set_children ∅ self) u Node w.
Proof.
  intros Hc. unfold handle_check_reachability. rewrite Hc, difference_diag_L.
  unfold terminate_childern. cbn [le_reachability_children le_set_children]. by rewrite elements_empty.
Qed.

Lemma upgrade_registered t r w : w_states w !! t = Some r → upgrade r w = Done true w.
Proof.
  intros Ht. unfold upgrade, gets. rewrite bool_decide_true; [done|].
  apply list_elem_of_fmap. exists (t, r). split; [done|]. by apply elem_of_map_to_list.
Qed.

Lemma node_reached r self inner s1 u l addr f st tm k n w w1 (t := w_token_counter w) :
  checks_node r self inner u l addr f w → checking r self s1 u t st tm w w1 →
  stream s1 = stream inner → idle s1 → reader_ok s1 → buffered s1 = [] →
  answers inner (le_token self) (BootstrapGranted (le_our_uid self)) n →
  w_cm w !! u = entry None k → 0 ≤ k → k + 1 < usize_modulus →
  ∃ w2, handle_event t writable_now (set_net n w1) = Done tt w2 ∧
    w_events w2 = w_events w ++ [BootstrapAccept u Node] ∧
    w_cm w2 = <[u := mkConnectionId (Some (le_token self)) k]> (w_cm w) ∧
    w_states w2 !! le_token self = Some (S (w_next_rc w)) ∧ w_states w2 !! t = None.
Proof.
  intros CN CK Hst1 Hi1 Hok1 Hb1 Hans Hcm Hk Hk'.
  destruct CN as [Hst Hh Hbor Hfr [_ Hfree] _ _ _ _ (cs & ? & ? & ? & ? & ? & ? & ? & ? & _ & Hcs & _)].
  destruct (Hfr (w_next_rc w) ltac:(lia)) as [Hfr1 Hfr2].
  destruct (Hfr (S (w_next_rc w)) ltac:(lia)) as [Hfr3 Hfr4].
  destruct CK as [Cs Ch Cb Cn Cc Ce].
  assert (w_next_rc w ≠ r) as Hnr by congruence.
  assert (t ≠ le_token self) as Htok by (intros E; unfold t in E; congruence).
  destruct (Hans st tm) as (n' & Hsend & Hd). set (m := (poll_deregister _ _).2) in Hsend.
  set (self2 := le_set_children {[t]} (le_set_socket (Some s1) self)) in *.
  set (wa := set_borrows (<[w_next_rc w := Writing]> (w_borrows w)) (set_net n w1)).
  set (wb := set_states (delete t (w_states w1)) (set_net m wa)).
  set (wc := set_borrows (<[r := Writing]> (w_borrows wb)) wb).
  destruct (grant_delivers (le_set_children ∅ self2) u Node s1 [] [] [] [] n' n' k wc)
    as (self' & w' & Hrun & He & Hcm' & Hst'); try done.
  { cbn. by rewrite Cc. }
  { cbn. rewrite Cn, !lookup_insert_ne by (first [lia|congruence]). done. }
  { by eapply sends_now_stream. }
  { by rewrite Hst1. }
  { by left. }
  { by rewrite Hb1. }
  { simpl. lia. }
  { simpl. lia. }
  assert (reachability_finish r t (Ok u) wb =
    Done tt (set_borrows (delete r (w_borrows w')) (set_heap (<[r := StListenerExchange self']> (w_heap w')) w')))
    as Hfin.
  { unfold reachability_finish, when_alive, mbind at 1, M_bind at 1. rewrite (upgrade_registered (le_token self) r).
    - apply (with_borrow_mut_done r _ wb (StListenerExchange self2)).
      + cbn. by rewrite lookup_insert_ne.
      + cbn. by rewrite Ch, lookup_insert_eq.
      + cbn [as_listener_exchange]. unfold mbind, M_bind. rewrite last_check by done. fold wc. by rewrite Hrun.
    - cbn. by rewrite lookup_delete_ne, Cs, lookup_insert_ne. }
  eexists. split.
  - unfold handle_event, mbind at 1, M_bind at 1, get_state, gets at 1. cbn [w_states set_net].
    rewrite Cs, lookup_insert_eq.
    eapply (with_borrow_mut_done (w_next_rc w) _ _ (StCheckReachability (mkCheckReachability t (Socket_wrap st) tm r u))).
    + cbn. by rewrite Cb.
    + cbn. by rewrite Ch, lookup_insert_ne, lookup_insert_eq.
    + cbn [State_ready]. cbn [w_borrows set_net]. rewrite Cb. fold wa. unfold CheckReachability_ready, writable_now.
      cbn [is_error is_hup is_writable orb negb]. unfold mbind, M_bind, CheckReachability_handle_success.
      unfold mbind, M_bind. rewrite (check_terminates _ st) by done.
      cbn [cr_token cr_timeout cr_finish cr_t]. change (w_net wa) with n. fold m. change (w_states wa) with (w_states w1).
      fold wb. rewrite Hfin. reflexivity.
  - cbn. rewrite He, Hcm', Hst'. cbn. rewrite Ce, Cc, Cn. split_and!; try done.
    + by rewrite lookup_insert_eq.
    + rewrite lookup_insert_ne by done. by rewrite lookup_delete_eq.
Qed.

(** ** Property *)

(** C7: a node that has to be reachable from outside is admitted once it was
    reached, and then the bootstrap is complete on both sides. The node has begun
    to connect to a peer and asks to join, with the addresses it listens on, one
    of which is global. When the request has arrived, in any pieces, the peer
    tells its user nothing, and begins to connect to that address. When that
    connection is established, the peer closes it, answers with the grant, and
    its user is told [BootstrapAccept]. When the answer has arrived, in any pieces
    and with any data behind it, the user of the node is told [BootstrapConnect]
    and then gets the data in order. Each side now has the other as an active
    connection, registered under the token of the handshake; the check, the node's
    other attempts and the bootstrap itself are gone. *)
Theorem node_bootstrap_end_to_end rb bs rt tp innerA u l a kA wA nA1 nA2 csA nA3
  r self innerB addr kB wB nB f g ms fs tail (t := w_token_counter wB) :
  bootstrapping rb bs rt tp wA →
  tp_request tp = Some (BootstrapRequest u (le_name_hash self) (Required l), 0) →
  tp_socket tp = Some innerA → idle innerA → reader_ok innerA →
  w_heap wA !! w_next_rc wA = None → w_borrows wA !! w_next_rc wA = None →
  cm_or_insert (le_our_uid self) (mkConnectionId None 1) (w_cm wA) = mkConnectionId a kA → 0 < kA →
  checks_node r self innerB u l addr f wB →
  w_cm wB !! u = entry None kB → 0 ≤ kB → kB + 1 < usize_modulus →
  answers innerB (le_token self) (BootstrapGranted (le_our_uid self)) nB →
  fits (BootstrapRequest u (le_name_hash self) (Required l)) f →
  fits (BootstrapGranted (le_our_uid self)) g → Forall2 fits ms fs → incomplete (T:=Message UID) tail →
  sends_now innerA (tp_token tp) (BootstrapRequest u (le_name_hash self) (Required l)) (w_net wA) nA1 →
  delivers (stream innerA) nA2 csA nA3 →
  buffered innerA ++ concat csA = g ++ concat fs ++ tail →
  (length csA < loop_fuel)%nat → (length ms < loop_fuel)%nat →
  ∃ wA1 wB1 wB2 wA2,
    handle_event (tp_token tp) writable_now wA = Done tt wA1 ∧ w_net wA1 = nA1 ∧
    handle_event (le_token self) readable_now wB = Done tt wB1 ∧
    w_events wB1 = w_events wB ∧ w_cm wB1 = w_cm wB ∧
    handle_event t writable_now (set_net nB wB1) = Done tt wB2 ∧
    handle_event (tp_token tp) readable_now (set_net nA2 wA1) = Done tt wA2 ∧
    w_events wB2 = w_events wB ++ [BootstrapAccept u Node] ∧
    w_events wA2 = w_events wA ++ [BootstrapConnect (le_our_uid self) (tp_peer tp)] ++
                   data_events (le_our_uid self) Node ms ∧
    w_cm wB2 = <[u := mkConnectionId (Some (le_token self)) kB]> (w_cm wB) ∧
    w_cm wA2 = <[le_our_uid self := mkConnectionId (Some (tp_token tp)) (kA - 1)]> (w_cm wA) ∧
    w_states wB2 !! le_token self = Some (S (w_next_rc wB)) ∧ w_states wB2 !! t = None ∧
    w_states wA2 !! tp_token tp = Some (w_next_rc wA) ∧
    ∀ t, t ≠ tp_token tp → t ∈ bs_children bs ∨ t = bs_token bs → w_states wA2 !! t = None.
Proof.
  intros BG Hreq Hs Hi Hok Hfh Hfb Hcm Hk CN HcmB HkB HkB' Hans Hf Hg Hfs Htail Hsend Hd Hb Hcs Hms.
  pose proof (try_asks _ _ _ _ _ _ _ _ _ BG Hs Hi Hreq Hsend) as Hask.
  set (wA1 := set_heap _ _) in Hask.
  destruct (node_asks r self innerB u l addr f wB CN Hf) as (s1 & st & tm & wB1 & HrunB1 & CK & Hst1 & Hi1 & Hok1 & Hb1).
  destruct (node_reached r self innerB s1 u l addr f st tm kB nB wB wB1)
    as (wB2 & HrunB2 & HeB & HcB & HsB & HtB); try done.
  assert (rt ≠ w_next_rc wA) as Hrt by (intros ->; pose proof (bg_try_heap _ _ _ _ _ BG); congruence).
  destruct (bootstrap_granted rb bs rt (tp_set_request None tp) innerA (le_our_uid self) g ms fs tail csA
    nA3 a kA (set_net nA2 wA1)) as (wA2 & HrunA & HeA & HcA & HsA & Hgone); try done.
  { exact (bootstrapping_asked _ _ _ _ nA2 _ BG). }
  { cbn. by rewrite lookup_insert_ne. }
  exists wA1, wB1, wB2, wA2. split_and!; try done; [apply CK|apply CK|].
  intros t' Ht Hin. rewrite (Hgone t' Ht). by rewrite decide_True.
Qed.

End Reachability.

Module ReachabilityWitness.
Import BootstrapWitness EndToEndWitness.

#[local] Existing Instance BootstrapWitness.wenv.
#[local] Existing Instance Script.msg_codec.
#[local] Existing Instance Script.msg_codec_laws.
#[local] Existing Instance Script.disc_codec.
#[local] Existing Instance ActiveConnectionWitness.timer_laws.
#[local] Existing Instance BootstrapWitness.still_poll.

(** The node 1, which listens on a public address, is trying the hosts 1 and 2. *)
Definition node_asker : TryPeer Z :=
  mkTryPeer 10 (Script.host Byte.x01) (Some fresh)
    (Some (BootstrapRequest 1 [] (Required [Script.public]), 0)) 0%nat.
Definition w_node : World Z :=
  set_heap (<[1%nat := StTryPeer node_asker]> (w_heap (world calm))) (world calm).

Lemma node_bootstrapping : bootstrapping 0%nat (boot [] None {[ 10; 11 ]}) 1%nat node_asker w_node.
Proof.
  split; try reflexivity. intros t [Ht Hne%not_elem_of_singleton]%elem_of_elements%elem_of_difference.
  cbn in Hne. assert (t = 11) as -> by set_solver. exists 2%nat, (StTryPeer (trying 11 Byte.x02)).
  split_and!; try reflexivity. by exists (Some fresh).
Qed.

(** The node 7 has accepted the connection; the request comes in two pieces. *)
Definition node_request : list byte := [Byte.x02; Byte.x00; Byte.x00; Byte.x00; Byte.x0a; Byte.x01].
Definition w_peer : World Z :=
  set_net (Script.set_reads [Ok (take 3 node_request); Ok (drop 3 node_request)] calm) w_answerer.

Lemma peer_checks : checks_node 0%nat answerer fresh 1 [Script.public] Script.public node_request w_peer.
Proof.
  split; try reflexivity; [|by split|by split_and!|by split|by split_and!|].
  - intros r' Hr'. change (1 ≤ r')%nat in Hr'. cbn. split; [apply lookup_singleton_ne; lia|done].
  - exists [take 3 node_request; drop 3 node_request], calm, (Err ConfigFileHandler), calm,
      (Script.host Byte.x01), calm, 0%nat, calm, calm. split_and!; try reflexivity.
    + do 2 (eapply delivers_cons; [done|reflexivity|]). by eapply (delivers_nil _ _ WouldBlock).
    + vm_compute. lia.
Qed.

Lemma node_bootstrap_end_to_end_witness :
  ∃ wA1 wB1 wB2 wA2,
    handle_event 10 writable_now w_node = Done tt wA1 ∧
    handle_event 20 readable_now w_peer = Done tt wB1 ∧ w_events wB1 = [] ∧
    handle_event 21 writable_now (set_net calm wB1) = Done tt wB2 ∧
    handle_event 10 readable_now (set_net (rx (granted ++ hello)) wA1) = Done tt wA2 ∧
    w_events wB2 = [BootstrapAccept 1 Node] ∧
    w_events wA2 = [BootstrapConnect 7 (Script.host Byte.x01); NewMessage 7 Node [Byte.x41]] ∧
    w_cm wB2 = {[ 1 := mkConnectionId (Some 20) 0 ]} ∧
    w_cm wA2 = {[ 7 := mkConnectionId (Some 10) 0 ]} ∧ w_states wB2 !! 21 = None.
Proof.
  destruct (node_bootstrap_end_to_end 0%nat (boot [] None {[ 10; 11 ]}) 1%nat node_asker fresh 1
    [Script.public] None 1 w_node calm (rx (granted ++ hello)) [granted ++ hello] calm 0%nat answerer fresh
    Script.public 0 w_peer calm node_request granted [Data [Byte.x41]] [hello] [])
    as (wA1 & wB1 & wB2 & wA2 & H1 & _ & H2 & H3 & _ & H4 & H5 & H6 & H7 & H8 & H9 & _ & H10 & _); try reflexivity.
  - apply node_bootstrapping.
  - by split.
  - split; vm_compute; discriminate.
  - apply peer_checks.
  - intros st tm. exists calm. split; [|by eapply (delivers_nil _ _ WouldBlock)].
    exists [Byte.x07; Byte.x07], 6, calm. by split_and!.
  - eexists. split; [reflexivity|]. split; [reflexivity|]. vm_compute. discriminate.
  - eexists. split; [reflexivity|]. split; [reflexivity|]. vm_compute. discriminate.
  - repeat constructor. eexists. split; [reflexivity|]. split; [reflexivity|]. vm_compute. discriminate.
  - by left.
  - exists [Byte.x0a; Byte.x01], 6, calm. by split_and!.
  - eapply delivers_cons; [done|reflexivity|]. by eapply (delivers_nil _ _ WouldBlock).
  - vm_compute. lia.
  - vm_compute. lia.
  - exists wA1, wB1, wB2, wA2. split_and!; done.
Defined.

End ReachabilityWitness.
