(* ===== verification/Handshake.v ===== *)
(** The two ends of a connection, run against each other: a node that connects
    to a peer ([src/src/main/connect]), the handshake that has accepted its
    connection ([src/src/main/connection_listener]), and the candidates both
    become ([src/src/main/connection_candidate.rs]). *)

From stdpp Require Import base tactics list gmap strings.
From Stdlib Require Import ZArith Lia.
From S2P Require Import Prelude Types Env Socket ConnMap World ActiveConnection Candidate.
From S2P Require Import NatUtil Connect Listener Refresher Discovery Bootstrap System Probes.
From S2P Require Import ConnectProps ListenerProps BootstrapProps EndToEnd.

Section Handshake.
Context {ENV : Env} {UID : Type} `{!Uid UID, !Codec (Message UID), !Codec DiscoveryMsg}.
Context `{!TimerLaws, !PollLaws, !CodecLaws (Message UID)}.
Implicit Types (w : World UID) (c : ConnectionCandidate UID) (p : ConnectState UID)
  (x : ConnectExchange UID) (self : ListenerExchange UID).

(** ** States that stay where they are *)

(** The next state to be allocated, and those after it, are not there yet. *)
Definition unallocated (w : World UID) : Prop :=
  ∀ r, (w_next_rc w ≤ r)%nat → w_heap w !! r = None ∧ w_borrows w !! r = None.

Lemma attempts_frame u l w w' :
  attempts u l w →
  (∀ t r o, t ∈ l → w_states w !! t = Some r → w_heap w !! r = Some o →
     w_borrows w !! r = None → attempt u t o →
     w_states w' !! t = Some r ∧ w_heap w' !! r = Some o ∧ w_borrows w' !! r = None) →
  attempts u l w'.
Proof.
  intros Hat Hsame t Ht. destruct (Hat t Ht) as (r & o & Hs & Hh & Hb & Ho).
  destruct (Hsame t r o Ht Hs Hh Hb Ho) as (? & ? & ?). by exists r, o.
Qed.

Lemma attempt_token (u : UID) t t' o : attempt u t o → attempt u t' o → t = t'.
Proof. destruct o; try done; cbn; intros [_ <-] [_ <-]; done. Qed.

(** A state that is registered has not been dropped. *)
Lemma alive_done r t (m : M (World UID) unit) w w' :
  w_states w !! t = Some r → m w = Done tt w' → when_alive r m w = Done tt w'.
Proof.
  intros Ht Hm. unfold when_alive, upgrade, mbind, M_bind, gets. rewrite (bool_decide_true (r ∈ _)); [done|].
  apply list_elem_of_fmap. exists (t, r). split; [done|]. by apply elem_of_map_to_list.
Qed.

(** ** The candidates *)

(** [p], in [rp], is connecting to its peer and is not running; its attempts
    other than the one under [t] are not running either. There are [k]
    handshakes with the peer under way, and no active connection. *)
Record connecting (rp : rc) (p : ConnectState UID) (t : Token) (k : Z) (w : World UID) : Prop := {
  cg_state : w_states w !! cn_token p = Some rp;
  cg_heap : w_heap w !! rp = Some (StConnect p);
  cg_idle : w_borrows w !! rp = None;
  cg_weak : cn_self_weak p = rp;
  cg_token : cn_token p ≠ t;
  cg_others : attempts (cn_their_id p) (elements (cn_children p ∖ {[t]})) w;
  cg_count : Z.of_nat (size (cn_children p ∖ {[t]})) < k
}.

(** [c], in [r], is a candidate that has not been writable yet. *)
Record candidate_at (r : rc) c (inner : SockInner) (k : Z) (w : World UID) : Prop := {
  ca_state : w_states w !! cc_token c = Some r;
  ca_heap : w_heap w !! r = Some (StCandidate c);
  ca_idle : w_borrows w !! r = None;
  ca_fresh : unallocated w;
  ca_socket : cc_socket c = Some inner ∧ idle inner ∧ reader_ok inner ∧ buffered inner = [];
  ca_msg : cc_msg c = Some (ChooseConnection, 0);
  ca_cm : w_cm w !! cc_their_id c = Some (mkConnectionId None k);
  ca_bounds : 0 < k < usize_modulus;
  ca_finish : match cc_finish c with
              | FinishListener our their => our = cc_our_id c ∧ their = cc_their_id c
              | FinishConnect rp => ∃ p, connecting rp p (cc_token c) k w ∧
                  cn_our_id p = cc_our_id c ∧ cn_their_id p = cc_their_id c
              end
}.

(** The connection is made: the user is told, and gets the data [ms]; it is the
    active connection with the peer; whoever else was trying is gone. *)
Record connected c (ms : list (Message UID)) (w w' : World UID) : Prop := {
  co_events : w_events w' = w_events w ++ [ConnectSuccess (cc_their_id c)] ++
                            data_events (cc_their_id c) Node ms;
  co_active : cm_active (cc_their_id c) (w_cm w') = Some (cc_token c);
  co_state : w_states w' !! cc_token c = Some (w_next_rc w);
  co_others : ∀ rp p t, cc_finish c = FinishConnect rp → w_heap w !! rp = Some (StConnect p) →
                t ∈ cn_children p → t ≠ cc_token c → w_states w' !! t = None
}.

(** A world in which the candidate [c] is running and has left the event loop. *)
Definition handing_over (r : rc) c (n : net) (w : World UID) : World UID :=
  set_states (delete (cc_token c) (w_states w))
    (set_net n (set_borrows (<[r := Writing]> (w_borrows w)) w)).

Lemma hand_over r c inner k w s n ms fs tail cs n' :
  candidate_at r c inner k w → reader_ok s → Forall2 fits ms fs → incomplete (T:=Message UID) tail →
  delivers (stream s) n cs n' → buffered s ++ concat cs = concat fs ++ tail →
  (length cs < loop_fuel)%nat → (length ms < loop_fuel)%nat →
  ∃ w', candidate_finish (cc_finish c) (cc_token c) (Some (Some s)) (handing_over r c n w) = Done tt w' ∧
    connected c ms w w'.
Proof.
  intros [Hst Hh Hb Hfr _ _ Hcm Hk Hfin] Hok Hfs Htail Hd Hbuf Hcs Hms.
  assert (r ≠ w_next_rc w) as Hne by (intros ->; destruct (Hfr (w_next_rc w)); [lia|congruence]).
  assert (w_borrows w !! w_next_rc w = None) as Hbn by (apply Hfr; lia).
  destruct (cc_finish c) as [rp|our their] eqn:Ef; cbn [candidate_finish].
  - destruct Hfin as (p & CG & Ho & Ht). destruct CG as [Hps Hph Hpb Hw Htok Hoth Hcount].
    assert (rp ≠ r) as Hrp by congruence.
    assert (rp ≠ w_next_rc w) as Hrn by (intros ->; destruct (Hfr (w_next_rc w)); [lia|congruence]).
    set (w0 := set_borrows (<[rp := Writing]> (w_borrows (handing_over r c n w))) (handing_over r c n w)).
    destruct (candidate_wins p (cc_token c) s ms fs tail cs n' None k w0)
      as (p' & w' & Hrun & He & Hc & Hgone & Hs); try done.
    { apply (attempts_frame _ _ w); [done|]. intros t r' o Hin Hs Ho' Hb' Hat. cbn.
      apply elem_of_elements, elem_of_difference in Hin as [_ Hin%not_elem_of_singleton].
      assert (r' ≠ rp) by (intros ->; rewrite Hph in Ho'; by injection Ho' as <-).
      assert (r' ≠ r).
      { intros ->. rewrite Hh in Ho'. injection Ho' as <-. destruct Hat as [_ <-]. done. }
      by rewrite lookup_delete_ne, !lookup_insert_ne. }
    { rewrite Ht. unfold entry. by rewrite decide_False by lia. }
    { lia. }
    { cbn. by rewrite !lookup_insert_ne. }
    rewrite Ht in *. eexists. split.
    + apply (alive_done rp (cn_token p)); [cbn; by rewrite lookup_delete_ne|].
      eapply (with_borrow_mut_done rp _ _ (StConnect p)); [cbn; by rewrite lookup_insert_ne|done|].
      unfold as_connect, mbind, M_bind. fold w0. by rewrite Hrun.
    + split; cbn; try done. intros rp' p0 t Hf Hp0. assert (rp' = rp) as -> by congruence.
      rewrite Hph in Hp0. injection Hp0 as <-. apply Hgone.
  - destruct Hfin as [-> ->]. unfold listener_candidate_finish.
    destruct (start_delivers (cc_token c) s (cc_our_id c) (cc_their_id c) Node
      (ConnectSuccess (cc_their_id c)) (handing_over r c n w) ms fs tail cs n' None k)
      as (w' & y & Hrun & He & Hc & Hs & _); try done.
    { by apply or_insert_some. }
    { lia. }
    { cbn. by rewrite lookup_insert_ne. }
    exists w'. split; [exact Hrun|]. split.
    + by rewrite He.
    + rewrite Hc. unfold cm_active. by rewrite lookup_insert_eq.
    + rewrite Hs. by rewrite lookup_insert_eq.
    + congruence.
Qed.

(** The outside world of the end that chooses: its choice goes out at once. *)
Definition chooses (inner : SockInner) (t : Token) (n : net) : Prop :=
  ∃ n', sends_now inner t (ChooseConnection : Message UID) n n' ∧ delivers (stream inner) n' [] n'.

(** The outside world of the other end: [bytes] have arrived, in any pieces. *)
Definition receives (inner : SockInner) (t : Token) (bytes : list byte) (n : net) : Prop :=
  ∃ n1 cs n2, poll_reregister (EvStream (stream inner)) t ready_read n = (Ok tt, n1) ∧
    delivers (stream inner) n1 cs n2 ∧ concat cs = bytes ∧ (length cs < loop_fuel)%nat.

Lemma chooser_event r c inner k w n :
  candidate_at r c inner k w → uid_gt (cc_our_id c) (cc_their_id c) = true →
  chooses inner (cc_token c) n → (0 < loop_fuel)%nat →
  ∃ w', handle_event (cc_token c) writable_now (set_net n w) = Done tt w' ∧ connected c [] w w'.
Proof.
  intros CA Hgt (n1 & Hsend & Hd) Hfuel.
  destruct (ca_socket _ _ _ _ _ CA) as (Hs & Hidle & Hok & Hbuf).
  destruct (hand_over r c inner k w inner n1 [] [] [] [] n1 CA Hok) as (w' & Hrun & [? ? ? ?]); try done.
  { by left. }
  { by rewrite Hbuf. }
  eexists. split.
  2: { instantiate (1 := set_borrows _ (set_heap _ w')). by split. }
  unfold handle_event, mbind at 1, M_bind at 1, get_state, gets at 1. cbn [w_states set_net].
  rewrite (ca_state _ _ _ _ _ CA). eapply with_borrow_mut_done; [apply CA|apply CA|].
  cbn [State_ready]. unfold mbind at 1, M_bind at 1.
  rewrite (chooser_hands_over _ c _ inner n1); try done; [|apply CA|].
  2: { unfold cm_active. cbn. by rewrite (ca_cm _ _ _ _ _ CA). }
  unfold mbind at 1, M_bind at 1. 
  match goal with |- context [candidate_finish ?f ?t ?s ?w0] =>
    change (candidate_finish f t s w0) with (candidate_finish f t s (handing_over r c n1 w)) end.
  by rewrite Hrun.
Qed.

Lemma waiter_event r c inner k w n g ms fs tail :
  candidate_at r c inner k w → uid_gt (cc_our_id c) (cc_their_id c) = false →
  fits (ChooseConnection : Message UID) g → Forall2 fits ms fs → incomplete (T:=Message UID) tail →
  receives inner (cc_token c) (g ++ concat fs ++ tail) n → (length ms < loop_fuel)%nat →
  ∃ w', handle_event (cc_token c) writable_now (set_net n w) = Done tt w' ∧ connected c ms w w'.
Proof.
  intros CA Hgt Hg Hfs Htail (n1 & cs & n2 & Hp & Hd & Hb & Hcs) Hms.
  destruct (ca_socket _ _ _ _ _ CA) as (Hs & Hidle & Hok & Hbuf).
  destruct (read_next inner _ g (concat fs ++ tail) n1 cs n2 Hg Hok Hd Hcs)
    as (s1 & n3 & cs1 & Hr & Hok1 & Hst1 & Hd1 & Hb1 & Hle); [by rewrite Hbuf|].
  destruct (hand_over r c inner k w s1 n3 ms fs tail cs1 n2 CA Hok1) as (w' & Hrun & [? ? ? ?]); try done.
  { by rewrite Hst1. }
  { lia. }
  eexists. split.
  2: { instantiate (1 := set_borrows _ (set_heap _ w')). by split. }
  unfold handle_event, mbind at 1, M_bind at 1, get_state, gets at 1. cbn [w_states set_net].
  rewrite (ca_state _ _ _ _ _ CA). eapply with_borrow_mut_done; [apply CA|apply CA|].
  cbn [State_ready]. unfold mbind at 1, M_bind at 1.
  rewrite (waiter_hands_over _ c _ inner s1 n1 n3); try done.
  2: { unfold cm_active. cbn. by rewrite (ca_cm _ _ _ _ _ CA). }
  unfold mbind at 1, M_bind at 1.
  match goal with |- context [candidate_finish ?f ?t ?s ?w0] =>
    change (candidate_finish f t s w0) with (candidate_finish f t s (handing_over r c n3 w)) end.
  by rewrite Hrun.
Qed.

(** ** The connecting end *)

(** [x], in [r], is a handshake of [p] with its peer. *)
Record exchanging (rp : rc) p (r : rc) x (inner : SockInner) (k : Z) (w : World UID) : Prop := {
  ex_parent : connecting rp p (ce_token x) k w;
  ex_state : w_states w !! ce_token x = Some r;
  ex_heap : w_heap w !! r = Some (StConnectExchange x);
  ex_idle : w_borrows w !! r = None;
  ex_finish : ce_finish x = rp;
  ex_expects : ce_expected_id x = cn_their_id p ∧ ce_expected_nh x = cn_our_nh p;
  ex_cm : w_cm w !! cn_their_id p = Some (mkConnectionId None k);
  ex_bound : k < usize_modulus;
  ex_fresh : unallocated w;
  ex_socket : ce_socket x = Some inner ∧ idle inner ∧ reader_ok inner
}.

(** Once the connection is established, the node makes itself known. *)
Lemma exchange_asks rp p r x inner k req n1 w :
  exchanging rp p r x inner k w → ce_msg x = Some (req, 0) →
  sends_now inner (ce_token x) req (w_net w) n1 →
  handle_event (ce_token x) writable_now w =
    Done tt (set_heap (<[r := StConnectExchange (ce_set_msg None x)]> (w_heap w)) (set_net n1 w)).
Proof.
  intros EX Hreq Hsend. destruct (ex_socket _ _ _ _ _ _ _ EX) as (Hs & Hidle & _).
  unfold handle_event, mbind at 1, M_bind at 1, get_state, gets at 1.
  rewrite (ex_state _ _ _ _ _ _ _ EX). set (w1 := set_borrows (<[r := Writing]> (w_borrows w)) w).
  erewrite (with_borrow_mut_done r _ w (StConnectExchange x) (StConnectExchange (ce_set_msg None x))
    (set_net n1 w1)); [|apply EX|apply EX|].
  { cbn. rewrite delete_insert_id by apply EX. by destruct w. }
  unfold State_ready, ConnectExchange_ready. cbn -[ConnectExchange_write]. rewrite Hreq.
  unfold mbind, M_bind, ConnectExchange_write. cbn -[Socket_write io]. rewrite Hs.
  unfold mbind, M_bind. fold w1.
  rewrite (io_done _ w1 _ _ (write_now inner (ce_token x) req 0 _ n1 Hidle Hsend)).
  cbn. by destruct x; cbn in *; subst.
Qed.

(** The handshake's own state is not one that its parent counts on. *)
Lemma connecting_put rp p r x t k o n w :
  connecting rp p t k w → w_heap w !! r = Some (StConnectExchange x) → ce_token x = t →
  connecting rp p t k (set_heap (<[r := o]> (w_heap w)) (set_net n w)).
Proof.
  intros [? Hp ? ? ? Ho ?] Hx Ht. split; try done; cbn; [by rewrite lookup_insert_ne by congruence|].
  apply (attempts_frame _ _ w); [done|]. intros t' r' o' Hin ? Ho' ? Hat. cbn.
  split; [done|]. split; [|done]. rewrite lookup_insert_ne; [done|]. intros <-.
  rewrite Hx in Ho'. injection Ho' as <-. destruct Hat as [_ Hat].
  apply elem_of_elements in Hin. set_solver.
Qed.

Lemma exchanging_asked rp p r x inner k n w :
  exchanging rp p r x inner k w →
  exchanging rp p r (ce_set_msg None x) inner k
    (set_heap (<[r := StConnectExchange (ce_set_msg None x)]> (w_heap w)) (set_net n w)).
Proof.
  intros EX. pose proof EX as [CG Hs Hh Hi Hf He Hcm Hk Hfr Hso]. split; try done.
  - by eapply connecting_put.
  - cbn. by rewrite lookup_insert_eq.
  - intros r' Hr'. destruct (Hfr r' Hr') as [? ?]. cbn. split; [|done].
    rewrite lookup_insert_ne; [done|congruence].
Qed.

(** What becomes of the handshake when the peer's reply is the expected one. *)
Definition candidate_of p (t : Token) (s : SockInner) : ConnectionCandidate UID :=
  mkConnectionCandidate t (Some s) (cn_our_id p) (cn_their_id p) (Some (ChooseConnection, 0))
    (FinishConnect (cn_self_weak p)).

Definition renewed p (t : Token) : ConnectState UID :=
  cn_set_children ({[t]} ∪ cn_children p ∖ {[t]}) p.

(** The world then, once the handlers of [p] and [x] have returned. *)
Definition reply_taken (rp : rc) p (r : rc) x (s : SockInner) (w w' : World UID) : Prop :=
  w_states w' = <[ce_token x := w_next_rc w]> (w_states w) ∧
  w_heap w' = <[r := StConnectExchange (ce_set_socket None x)]>
                (<[rp := StConnect (renewed p (ce_token x))]>
                  (<[w_next_rc w := StCandidate (candidate_of p (ce_token x) s)]> (w_heap w))) ∧
  w_borrows w' = w_borrows w ∧ w_cm w' = w_cm w ∧ w_events w' = w_events w ∧
  w_next_rc w' = S (w_next_rc w).

Lemma reply_event rp p r x inner k f cs n1 n2 w :
  exchanging rp p r x inner k w → fits (Connect (cn_their_id p) (cn_our_nh p)) f →
  delivers (stream inner) (w_net w) cs n1 → (length cs < loop_fuel)%nat →
  buffered inner ++ concat cs = f →
  poll_reregister (EvStream (stream inner)) (ce_token x) ready_write n1 = (Ok tt, n2) →
  ∃ s w', handle_event (ce_token x) readable_now w = Done tt w' ∧ reply_taken rp p r x s w w' ∧
    reader_ok s ∧ idle s ∧ stream s = stream inner ∧ buffered s = [].
Proof.
  intros EX Hf Hd Hcs Hb Hp. pose proof EX as [CG Hst Hh Hi Hfin [He1 He2] Hcm Hk Hfr (Hs & Hidle & Hok)].
  pose proof CG as [Hps Hph Hpi Hw Htok Hoth Hcount].
  assert (rp ≠ r) as Hrp by congruence.
  destruct (Hfr (w_next_rc w)) as [Hnh Hnb]; [lia|].
  assert (r ≠ w_next_rc w ∧ rp ≠ w_next_rc w) as [Hrn Hpn] by (split; congruence).
  destruct (read_only_message inner _ f _ cs n1 Hf Hok Hidle Hd Hcs Hb)
    as (s & Hr & Hok1 & Hi1 & Hst1 & Hb1).
  set (t := ce_token x) in *. set (w1 := set_borrows (<[r := Writing]> (w_borrows w)) w).
  set (w2 := set_states (delete t (w_states w)) (set_net n1 w1)).
  set (w3 := set_borrows (<[rp := Writing]> (w_borrows w2)) w2).
  destruct (candidate_start_done t s (cn_our_id p) (cn_their_id p) (FinishConnect (cn_self_weak p)) n2 w3)
    as (w4 & Hrun & Hst4 & Hh4 & Hc4 & He4 & Hb4 & Hn4).
  { cbn. by rewrite !lookup_insert_ne. }
  { by rewrite Hst1. }
  assert (connect_exchange_finish rp t (Some (Some s)) w2 =
    Done tt (set_borrows (delete rp (w_borrows w4))
      (set_heap (<[rp := StConnect (renewed p t)]> (w_heap w4)) w4))) as Hfinish.
  { unfold connect_exchange_finish. apply (alive_done rp (cn_token p)); [cbn; by rewrite lookup_delete_ne|].
    eapply with_borrow_mut_done; [cbn; by rewrite lookup_insert_ne|exact Hph|].
    unfold as_connect, Connect_handle_exchange_msg, mbind, M_bind. fold w3.
    cbn -[ConnectionCandidate_start Connect_maybe_terminate]. rewrite Hrun. cbn -[Connect_maybe_terminate].
    unfold Connect_maybe_terminate. cbn [cn_children cn_set_children].
    rewrite bool_decide_false by set_solver. done. }
  exists s. eexists. split.
  { unfold handle_event, mbind at 1, M_bind at 1, get_state, gets at 1. rewrite Hst.
    eapply (with_borrow_mut_done r _ w (StConnectExchange x) (StConnectExchange (ce_set_socket None x)));
      [done|done|].
    unfold State_ready, ConnectExchange_ready. cbn -[ConnectExchange_receive_response].
    unfold mbind, M_bind. cbn -[ConnectExchange_receive_response].
    unfold ConnectExchange_receive_response, mbind, M_bind. rewrite Hs. fold w1.
    erewrite io_done by exact Hr. cbn -[connect_exchange_finish].
    rewrite He1, He2, !bool_decide_true by done. cbn -[connect_exchange_finish].
    unfold remove_state, modify. cbn -[connect_exchange_finish]. rewrite Hfin.
    match goal with |- context [connect_exchange_finish ?a ?b ?c ?w0] =>
      change (connect_exchange_finish a b c w0) with (connect_exchange_finish rp t (Some (Some s)) w2) end.
    by rewrite Hfinish. }
  split; [|done]. unfold reply_taken. cbn. rewrite Hst4, Hh4, Hc4, He4, Hb4, Hn4. cbn. split_and!; try done.
  - by rewrite insert_delete_eq.
  - rewrite delete_insert_id by (by rewrite lookup_insert_ne). by rewrite delete_insert_id.
Qed.

(** The handshake has become a candidate. *)
Lemma reply_candidate rp p r x inner k s w w' :
  exchanging rp p r x inner k w → reply_taken rp p r x s w w' →
  reader_ok s → idle s → buffered s = [] →
  candidate_at (w_next_rc w) (candidate_of p (ce_token x) s) s k w'.
Proof.
  intros EX (Hst' & Hh' & Hb' & Hc' & _ & Hn') Hok Hidle Hbuf.
  pose proof EX as [CG Hst Hh Hi Hfin _ Hcm Hk Hfr _]. pose proof CG as [Hps Hph Hpi Hw Htok Hoth Hcount].
  destruct (Hfr (w_next_rc w)) as [Hnh Hnb]; [lia|]. set (t := ce_token x) in *.
  assert (rp ≠ r ∧ r ≠ w_next_rc w ∧ rp ≠ w_next_rc w) as (Hrp & Hrn & Hpn) by (split_and!; congruence).
  assert (cn_children (renewed p t) ∖ {[t]} = cn_children p ∖ {[t]}) as Hch by (cbn; set_solver).
  split; try done; cbn -[renewed].
  - by rewrite Hst', lookup_insert_eq.
  - by rewrite Hh', !lookup_insert_ne, lookup_insert_eq by done.
  - by rewrite Hb'.
  - intros r' Hr'. rewrite Hn' in Hr'. destruct (Hfr r') as [H1 H2]; [lia|].
    rewrite Hh', Hb', !lookup_insert_ne by (congruence || lia). done.
  - by rewrite Hc'.
  - split; [|done]. assert (0 ≤ Z.of_nat (size (cn_children p ∖ {[t]}))) by lia. lia.
  - exists (renewed p t). rewrite Hw. split; [|done]. split; try done.
    + rewrite Hst'. cbn. by rewrite lookup_insert_ne.
    + by rewrite Hh', lookup_insert_ne, lookup_insert_eq by done.
    + by rewrite Hb'.
    + rewrite Hch. apply (attempts_frame _ _ w); [done|]. intros t' r' o' Hin Hs' Ho' Hbo' Hat.
      apply elem_of_elements, elem_of_difference in Hin as [_ Hin%not_elem_of_singleton].
      assert (r' ≠ w_next_rc w) by congruence.
      assert (r' ≠ rp) by (intros ->; rewrite Hph in Ho'; injection Ho' as <-; done).
      assert (r' ≠ r) by (intros ->; rewrite Hh in Ho'; injection Ho' as <-; by destruct Hat as [_ <-]).
      rewrite Hst', Hh', Hb', !lookup_insert_ne by done. done.
    + by rewrite Hch.
Qed.

(** ** The accepting end *)

(** The handshake [self], in [r], has accepted a connection on which the bytes
    [f] arrive; it will let its peer connect and its answer leaves the outside
    world at [n]. *)
Record lets_connect (r : rc) self (inner : SockInner) (f : list byte) (n : net) (w : World UID) :
  Prop := {
  lc_state : w_states w !! le_token self = Some r;
  lc_heap : w_heap w !! r = Some (StListenerExchange self);
  lc_idle : w_borrows w !! r = None;
  lc_fresh : unallocated w;
  lc_next : le_next_state self = NextNone;
  lc_socket : le_socket self = Some inner ∧ idle inner ∧ reader_ok inner;
  lc_receives : ∃ cs n1 res n2 a n3 n4,
    delivers (stream inner) (w_net w) cs n1 ∧ (length cs < loop_fuel)%nat ∧
    buffered inner ++ concat cs = f ∧
    read_config_file n1 = (res, n2) ∧ tcp_peer_addr (stream inner) n2 = (Ok a, n3) ∧
    ip_allowed (whitelisted_node_ips (cfg (refreshed (w_config w) res))) (sa_ip a) = true ∧
    sends_now inner (le_token self) (Connect (le_our_uid self) (le_name_hash self)) n3 n4 ∧
    poll_reregister (EvStream (stream inner)) (le_token self) ready_write
      (timer_cancel_timeout (le_timeout self) n4).2 = (Ok tt, n)
}.

Definition accepted self (u : UID) (s : SockInner) : ConnectionCandidate UID :=
  mkConnectionCandidate (le_token self) (Some s) (le_our_uid self) u (Some (ChooseConnection, 0))
    (FinishListener (le_our_uid self) u).

Lemma read_connect self s u n w :
  Socket_read (T:=Message UID) (le_socket self) (w_net w) =
    Done (Ok (Some (Connect u (le_name_hash self))), s) n → le_our_uid self ≠ u →
  ListenerExchange_read dyn_terminate self w =
  handle_connect dyn_terminate (le_set_socket s self) u (le_name_hash self) (set_net n w).
Proof.
  intros Hr Hne. unfold ListenerExchange_read, mbind, M_bind. rewrite (io_done _ _ _ _ Hr).
  cbn -[handle_connect]. unfold validate_peer_uid. by rewrite decide_False.
Qed.

Lemma accept_event r self inner u f k n w :
  lets_connect r self inner f n w → fits (Connect u (le_name_hash self)) f → le_our_uid self ≠ u →
  w_cm w !! u = entry None k → 0 ≤ k → k + 1 < usize_modulus →
  ∃ s w', handle_event (le_token self) readable_now w = Done tt w' ∧ w_events w' = w_events w ∧
    stream s = stream inner ∧ candidate_at (w_next_rc w) (accepted self u s) s (k + 1) w'.
Proof.
  intros LC Hf Hne Hcm Hk Hk'. destruct LC as [Hst Hh Hbor Hfr Hnx (Hs & Hi & Hok)
    (cs & n1 & res & n2 & a & n3 & n4 & Hd & Hcs & Hb & Hc & Ha & Hip & Hsend & Hp)].
  destruct (Hfr (w_next_rc w)) as [Hnh Hnb]; [lia|].
  assert (r ≠ w_next_rc w) as Hrn by congruence.
  destruct (read_only_message inner _ f _ cs n1 Hf Hok Hi Hd Hcs Hb)
    as (s & Hr & Hok1 & Hi1 & Hst1 & Hb1).
  set (w1 := set_borrows (<[r := Writing]> (w_borrows w)) w).
  set (self1 := le_set_socket (Some s) self).
  destruct (connect_admitted self1 s u None k res a n2 n3 n4 n (set_net n1 w1))
    as (self' & w' & Hrun & He & Hc' & Hs' & Hh' & Hb' & Hn'); try done.
  { by rewrite Hst1. }
  { cbn. by rewrite lookup_insert_ne. }
  { by eapply sends_now_stream. }
  { by rewrite Hst1. }
  exists s, (set_borrows (delete r (w_borrows w'))
    (set_heap (<[r := StListenerExchange self']> (w_heap w')) w')). split; [|split; [exact He|]].
  { unfold handle_event, mbind at 1, M_bind at 1, get_state, gets at 1. rewrite Hst.
    eapply (with_borrow_mut_done r _ w (StListenerExchange self) (StListenerExchange self') w'); [done|done|].
    unfold State_ready, ListenerExchange_ready, readable_now. cbn -[ListenerExchange_read].
    unfold mbind, M_bind. fold w1. rewrite (read_connect self (Some s) u n1 w1) by (by rewrite ?Hs).
    fold self1. change (le_name_hash self) with (le_name_hash self1). by rewrite Hrun. }
  split; [done|]. cbn in Hb', Hh', Hn', Hs', Hc'.
  split; try done; cbn.
  - by rewrite Hh', lookup_insert_ne, lookup_insert_eq by done.
  - rewrite Hb', delete_insert_id by done. done.
  - intros r' Hr'. cbn in *. rewrite Hn' in Hr'. destruct (Hfr r') as [H1 H2]; [lia|].
    rewrite Hh', Hb', delete_insert_id, !lookup_insert_ne by (congruence || lia || done). done.
  - by rewrite Hc', lookup_insert_eq.
  - lia.
Qed.

(** ** Property *)

(** The outside world [n] of one end of the connection, when its candidate is
    writable: the end with the greater identifier chooses, the other finds the
    bytes the chooser has sent. *)
Definition settling (greater : bool) (inner : SockInner) (t : Token) (bytes : list byte) (n : net) : Prop :=
  if greater then chooses inner t n else receives inner t bytes n.

Lemma settle_event r c inner s k w n g ms fs tail :
  candidate_at r c s k w → stream s = stream inner →
  fits (ChooseConnection : Message UID) g → Forall2 fits ms fs → incomplete (T:=Message UID) tail →
  settling (uid_gt (cc_our_id c) (cc_their_id c)) inner (cc_token c) (g ++ concat fs ++ tail) n →
  (length ms < loop_fuel)%nat →
  ∃ w', handle_event (cc_token c) writable_now (set_net n w) = Done tt w' ∧
    connected c (if uid_gt (cc_our_id c) (cc_their_id c) then [] else ms) w w'.
Proof.
  intros CA Hst Hg Hfs Htail Hset Hms. unfold settling in Hset.
  destruct (uid_gt (cc_our_id c) (cc_their_id c)) eqn:Egt.
  - apply (chooser_event r c s k); [done|done| |lia]. destruct Hset as (n' & Hsend & Hd).
    exists n'. rewrite Hst. split; [by eapply sends_now_stream|done].
  - apply (waiter_event r c s k w n g ms fs tail); try done. unfold receives. by rewrite Hst.
Qed.

(** C5: two peers that connect get one connection each, to each other. The node
    has begun to connect to a peer, which has accepted the connection, on
    the same network, and allows the node's address. The node makes itself known
    when its socket is writable, with exactly the write of its [Connect]; when that has arrived, in any pieces, the peer
    answers, and has a candidate; when the answer has arrived, the node has one
    too; so far neither user is told anything. Then, whichever of the two has the
    greater identifier, when its candidate is writable it chooses, and when the
    choice has arrived at the other, with any data behind it, both users are told
    [ConnectSuccess], each has the other as its active connection under the token
    of the handshake, the one that has not chosen gets the data in order, and the
    node's other attempts are gone. *)
Theorem connection_end_to_end rp p rA x innerA kA wA nA1 nA2 csA nA3 nA4 nA5
  rB self innerB kB wB nB1 nB2 fA fB g ms fs tail
  (uA := cn_our_id p) (uB := le_our_uid self) (nh := le_name_hash self)
  (msA := if uid_gt uA uB then [] else ms) (msB := if uid_gt uB uA then [] else ms) :
  exchanging rp p rA x innerA kA wA → lets_connect rB self innerB fA nB1 wB →
  cn_their_id p = uB → cn_our_nh p = nh → uB ≠ uA →
  w_cm wB !! uA = entry None kB → 0 ≤ kB → kB + 1 < usize_modulus →
  ce_msg x = Some (Connect uA nh, 0) →
  fits (Connect uA nh) fA → fits (Connect uB nh) fB → fits (ChooseConnection : Message UID) g →
  Forall2 fits ms fs → incomplete (T:=Message UID) tail → (length ms < loop_fuel)%nat →
  sends_now innerA (ce_token x) (Connect uA nh) (w_net wA) nA1 →
  delivers (stream innerA) nA2 csA nA3 → (length csA < loop_fuel)%nat →
  buffered innerA ++ concat csA = fB →
  poll_reregister (EvStream (stream innerA)) (ce_token x) ready_write nA3 = (Ok tt, nA4) →
  settling (uid_gt uA uB) innerA (ce_token x) (g ++ concat fs ++ tail) nA5 →
  settling (uid_gt uB uA) innerB (le_token self) (g ++ concat fs ++ tail) nB2 →
  ∃ wA1 wA2 wA3 wB1 wB2,
    handle_event (ce_token x) writable_now wA = Done tt wA1 ∧ w_net wA1 = nA1 ∧
    handle_event (le_token self) readable_now wB = Done tt wB1 ∧
    handle_event (ce_token x) readable_now (set_net nA2 wA1) = Done tt wA2 ∧
    w_events wA2 = w_events wA ∧ w_events wB1 = w_events wB ∧
    handle_event (ce_token x) writable_now (set_net nA5 wA2) = Done tt wA3 ∧
    handle_event (le_token self) writable_now (set_net nB2 wB1) = Done tt wB2 ∧
    w_events wA3 = w_events wA ++ [ConnectSuccess uB] ++ data_events uB Node msA ∧
    w_events wB2 = w_events wB ++ [ConnectSuccess uA] ++ data_events uA Node msB ∧
    cm_active uB (w_cm wA3) = Some (ce_token x) ∧ cm_active uA (w_cm wB2) = Some (le_token self) ∧
    is_Some (w_states wA3 !! ce_token x) ∧ is_Some (w_states wB2 !! le_token self) ∧
    ∀ t, t ∈ cn_children p → t ≠ ce_token x → w_states wA3 !! t = None.
Proof.
  intros EX LC Hu Hnh Hne HcmB HkB HkB' Hmsg HfA HfB Hg Hfs Htail Hms Hsend Hd Hcs Hb Hp HsA HsB.
  pose proof (exchange_asks _ _ _ _ _ _ _ _ _ EX Hmsg Hsend) as Hask.
  pose proof (exchanging_asked _ _ _ _ _ _ nA2 _ EX) as EX1.
  set (wA1 := set_heap _ (set_net nA1 _)) in Hask. set (wA1' := set_heap _ _) in EX1.
  destruct (accept_event _ _ _ _ _ _ _ _ LC HfA Hne HcmB HkB HkB') as (sB & wB1 & HrB & HeB & HsB1 & CB).
  destruct (reply_event _ _ _ _ _ _ fB csA nA3 nA4 _ EX1) as
    (sA & wA2 & HrA & Htaken & Hok & Hidle & HsA1 & Hbuf); try done; [by rewrite Hu, Hnh|].
  pose proof (reply_candidate _ _ _ _ _ _ _ _ _ EX1 Htaken Hok Hidle Hbuf) as CA.
  pose proof Htaken as (_ & HhA & _ & _ & HeA & _).
  set (cA := candidate_of p _ sA) in CA. set (cB := accepted self _ sB) in CB.
  destruct (settle_event _ cA innerA sA _ wA2 nA5 g ms fs tail CA) as (wA3 & HrA3 & [HA1 HA2 HA3 HA4]);
    try done; [by cbn; rewrite Hu|].
  destruct (settle_event _ cB innerB sB _ wB1 nB2 g ms fs tail CB) as (wB2 & HrB2 & [HB1 HB2 HB3 HB4]); try done.
  cbn in HeA, HA1, HA2, HA3, HA4, HB1, HB2, HB3. rewrite Hu in HA1, HA2. rewrite HeA in HA1. rewrite HeB in HB1.
  exists wA1, wA2, wA3, wB1, wB2. split_and!; try done.
  intros t Ht Htne. eapply HA4; [done| | |done].
  - pose proof EX as [[_ Hh1 _ Hw _ _ _] _ Hh2 _ _ _ _ _ _ _].
    rewrite HhA, Hw, lookup_insert_ne by congruence. by rewrite lookup_insert_eq.
  - cbn. destruct (decide (t = ce_token x)); set_solver.
Qed.

End Handshake.

Module HandshakeWitness.
Import ConnectWitness.

#[local] Existing Instance ConnectWitness.wenv.
#[local] Existing Instance Script.msg_codec.
#[local] Existing Instance Script.msg_codec_laws.
#[local] Existing Instance Script.disc_codec.
#[local] Existing Instance ActiveConnectionWitness.timer_laws.
#[local] Existing Instance ConnectWitness.poll_laws.

Definition rx (bs : list byte) : @net wenv := Script.set_reads [Ok bs] calm.

(** The node 1 connects to the peer 7; it has not made itself known yet. *)
Definition known_as : ConnectExchange Z :=
  mkConnectExchange 11 7 [] (Some fresh) (Some (Connect 1 [], 0)) 0%nat.
Definition w_node : World Z :=
  set_heap (<[1%nat := StConnectExchange known_as]> (w_heap (world calm))) (world calm).

Lemma node_exchanging : exchanging 0%nat conn 1%nat known_as fresh 2 w_node.
Proof.
  split; try reflexivity; [split; try reflexivity| | |].
  - discriminate.
  - intros t [Ht Hne%not_elem_of_singleton]%elem_of_elements%elem_of_difference.
    cbn in Hne. assert (t = 12) as -> by set_solver.
    exists 2%nat, (StCandidate candidate). by split_and!.
  - by split.
  - intros r Hr. unfold w_node, world in *. cbn [w_heap w_borrows w_next_rc set_heap] in *.
    rewrite !lookup_insert_ne by lia. split; [|done]. apply lookup_singleton_ne. lia.
  - by split_and!.
Defined.

(** The peer has accepted the connection. *)
Definition named : list byte := [Byte.x02; Byte.x00; Byte.x00; Byte.x00; Byte.x04; Byte.x01].
Definition reply : list byte := [Byte.x02; Byte.x00; Byte.x00; Byte.x00; Byte.x04; Byte.x07].
Definition choice : list byte := [Byte.x01; Byte.x00; Byte.x00; Byte.x00; Byte.x01].
Definition hello : list byte := [Byte.x02; Byte.x00; Byte.x00; Byte.x00; Byte.x03; Byte.x41].
Definition accepting : ListenerExchange Z :=
  mkListenerExchange 20 [] NextNone 7 (Some fresh) tm0 ∅ true true 0%nat.
Definition w_peer : World Z :=
  mkWorld (rx named) {[ 0%nat := StListenerExchange accepting ]} ∅ 1%nat 21 {[ 20 := 0%nat ]} ∅
    (ConfigWrapper_new Config_default) [] [] ∅ 0%nat [].

Lemma peer_lets_connect : lets_connect 0%nat accepting fresh named calm w_peer.
Proof.
  split; try reflexivity; [|by split_and!|].
  - intros r Hr. cbn [w_heap w_borrows w_next_rc w_peer] in *. split; [|done].
    apply lookup_singleton_ne. lia.
  - exists [named], calm, (Err ConfigFileHandler), calm, (Script.host Byte.x01), calm, calm.
    split_and!; try reflexivity.
    + eapply delivers_cons; [done|reflexivity|]. by eapply (delivers_nil _ _ WouldBlock).
    + vm_compute. lia.
    + exists [Byte.x04; Byte.x07], 6, calm. by split_and!.
Defined.

Lemma connection_end_to_end_witness :
  ∃ wA1 wA2 wA3 wB1 wB2,
    handle_event 11 writable_now w_node = Done tt wA1 ∧
    handle_event 20 readable_now w_peer = Done tt wB1 ∧
    handle_event 11 readable_now (set_net (rx reply) wA1) = Done tt wA2 ∧
    handle_event 11 writable_now (set_net (rx (choice ++ hello)) wA2) = Done tt wA3 ∧
    handle_event 20 writable_now (set_net calm wB1) = Done tt wB2 ∧
    w_events wA3 = [ConnectSuccess 7; NewMessage 7 Node [Byte.x41]] ∧
    w_events wB2 = [ConnectSuccess 1] ∧
    cm_active 7 (w_cm wA3) = Some 11 ∧ cm_active 1 (w_cm wB2) = Some 20 ∧ w_states wA3 !! 12 = None.
Proof.
  destruct (connection_end_to_end 0%nat conn 1%nat known_as fresh 2 w_node calm (rx reply) [reply] calm
    calm (rx (choice ++ hello)) 0%nat accepting fresh 0 w_peer calm calm named reply choice
    [Data [Byte.x41]] [hello] [])
    as (wA1 & wA2 & wA3 & wB1 & wB2 & H1 & _ & H2 & H3 & _ & _ & H4 & H5 & H6 & H7 & H8 & H9 & _ & _ & H10);
    try reflexivity.
  - apply node_exchanging.
  - apply peer_lets_connect.
  - discriminate.
  - eexists. split; [reflexivity|]. split; [reflexivity|]. vm_compute. discriminate.
  - eexists. split; [reflexivity|]. split; [reflexivity|]. vm_compute. discriminate.
  - eexists. split; [reflexivity|]. split; [reflexivity|]. vm_compute. discriminate.
  - repeat constructor. eexists. split; [reflexivity|]. split; [reflexivity|]. vm_compute. discriminate.
  - by left.
  - vm_compute. lia.
  - exists [Byte.x04; Byte.x01], 6, calm. by split_and!.
  - eapply delivers_cons; [done|reflexivity|]. by eapply (delivers_nil _ _ WouldBlock).
  - vm_compute. lia.
  - exists (rx (choice ++ hello)), [choice ++ hello], calm. split_and!; try reflexivity.
    + eapply delivers_cons; [done|reflexivity|]. by eapply (delivers_nil _ _ WouldBlock).
    + vm_compute. lia.
  - exists calm. split; [|by eapply (delivers_nil _ _ WouldBlock)].
    exists [Byte.x01], 5, calm. by split_and!.
  - exists wA1, wA2, wA3, wB1, wB2. split_and!; try done. apply H10; [vm_compute; reflexivity|discriminate].
Defined.

End HandshakeWitness.
