(* ===== verification/MappedProps.v ===== *)
(** Properties of the mapping of sockets ([src/src/nat/mapped_tcp_socket]). *)

From stdpp Require Import base tactics list gmap.
From Stdlib Require Import ZArith Lia.
From S2P Require Import Prelude Types Env Socket ConnMap World ActiveConnection Candidate.
From S2P Require Import NatUtil IfAddrs Connect Listener Mapped System Probes.

Section MappedProps.
Context {ENV : Env} {UID : Type} `{!Uid UID, !Codec (Message UID), !Codec DiscoveryMsg}.
Abbreviation MW := (M (World UID)).
Implicit Types (w : World UID) (self : MappedTcpSocket UID).

(** What a mapping is told: by one of the peers it asked, or by a gateway. *)
Inductive Report :=
| Stun (child : Token) (res : result SocketAddr unit)
| Igd (ext_addr : SocketAddr).

Definition report (self : MappedTcpSocket UID) (r : Report) : MW (MappedTcpSocket UID) :=
  match r with
  | Stun child res => handle_stun_resp dyn_terminate self child res
  | Igd ext_addr => handle_igd_resp dyn_terminate self ext_addr
  end.

Definition report_addr (r : Report) : option SocketAddr :=
  match r with Stun _ res => result_ok res | Igd a => Some a end.

(** The reports a mapping can get: one of each peer that was asked, and at most
    one of each gateway. *)
Fixpoint expected (stun : gset Token) (igd : Z) (rs : list Report) : Prop :=
  match rs with
  | [] => True
  | Stun child _ :: rs => child ∈ stun ∧ expected (stun ∖ {[child]}) igd rs
  | Igd _ :: rs => 0 < igd ∧ expected stun (igd - 1) rs
  end.

(** What is left to be told after [rs]. *)
Fixpoint stun_left (stun : gset Token) (rs : list Report) : gset Token :=
  match rs with
  | [] => stun
  | Stun child _ :: rs => stun_left (stun ∖ {[child]}) rs
  | Igd _ :: rs => stun_left stun rs
  end.

Fixpoint igd_left (igd : Z) (rs : list Report) : Z :=
  match rs with
  | [] => igd
  | Stun _ _ :: rs => igd_left igd rs
  | Igd _ :: rs => igd_left (igd - 1) rs
  end.

(** The mapping after the reports [rs]. *)
Definition told (self : MappedTcpSocket UID) (rs : list Report) : MappedTcpSocket UID :=
  mt_set_mapped_addrs (mt_mapped_addrs self ++ omap report_addr rs)
    (mt_set_igd_children (igd_left (mt_igd_children self) rs)
      (mt_set_stun_children (stun_left (mt_stun_children self) rs) self)).

Lemma told_nil self : told self [] = self.
Proof. destruct self. unfold told. cbn. unfold mt_set_mapped_addrs. cbn. by rewrite app_nil_r. Qed.

Lemma told_cons self r rs : told self (r :: rs) = told (told self [r]) rs.
Proof.
  unfold told. destruct self; cbn; destruct r as [child [a|e]|a]; cbn; unfold mt_set_mapped_addrs; cbn;
    rewrite ?app_nil_r, <- ?app_assoc; done.
Qed.

Lemma told_app self rs1 rs2 : told self (rs1 ++ rs2) = told (told self rs1) rs2.
Proof.
  revert self. induction rs1 as [|r rs1 IH]; intros self; cbn [app]; [by rewrite told_nil|].
  rewrite told_cons, IH. by rewrite (told_cons self r rs1).
Qed.

Lemma complete_no_stun self : Mapped_complete self = true → mt_stun_children self = ∅.
Proof. by intros [H%bool_decide_eq_true _]%andb_prop. Qed.

(** One report: the mapping ends if it was the last that is expected. *)
Lemma report_one self r :
  expected (mt_stun_children self) (mt_igd_children self) [r] →
  ∀ w, report self r w =
  (if Mapped_complete (told self [r]) then Mapped_terminate dyn_terminate (told self [r])
   else mret (told self [r])) w.
Proof.
  destruct r as [child res|a]; intros He w; cbn [report].
  - unfold handle_stun_resp, told. destruct res; cbn; rewrite ?app_nil_r; by destruct self.
  - destruct He as [Hk _]. unfold handle_igd_resp, mbind, M_bind. rewrite usize_pred_pos by done.
    unfold told. cbn. by destruct self.
Qed.

(** Something is still expected after each proper part of [rs]. *)
Lemma expected_app stun igd rs1 rs2 :
  expected stun igd (rs1 ++ rs2) →
  expected stun igd rs1 ∧ expected (stun_left stun rs1) (igd_left igd rs1) rs2.
Proof.
  revert stun igd. induction rs1 as [|[child res|a] rs1 IH]; intros stun igd; cbn; [done| |].
  - intros [H1 H2]. destruct (IH _ _ H2). done.
  - intros [H1 H2]. destruct (IH _ _ H2). done.
Qed.

Lemma still_waiting self rs r :
  expected (mt_stun_children self) (mt_igd_children self) (rs ++ [r]) →
  Mapped_complete (told self rs) = false.
Proof.
  intros [_ H]%expected_app. unfold Mapped_complete, told. cbn. apply andb_false_iff.
  destruct r as [c res|a]; cbn in H.
  - left. apply bool_decide_eq_false. set_solver.
  - right. apply Z.eqb_neq. lia.
Qed.

Lemma reports_collected rs : ∀ self r w,
  expected (mt_stun_children self) (mt_igd_children self) (rs ++ [r]) →
  fold_loop report self rs w = Done (told self rs) w.
Proof.
  induction rs as [|r1 rs IH]; intros self r w He; [by rewrite told_nil|].
  cbn [fold_loop]. unfold mbind, M_bind. pose proof (still_waiting self [r1] (hd r1 (rs ++ [r]))) as Hw.
  rewrite report_one.
  2: { change ((r1 :: rs) ++ [r]) with ([r1] ++ (rs ++ [r])) in He. by apply expected_app in He as [? _]. }
  change ((r1 :: rs) ++ [r]) with ([r1] ++ (rs ++ [r])) in He.
  rewrite Hw.
  2: { destruct (rs ++ [r]) as [|r2 rest] eqn:E; [by destruct rs|]. cbn [hd].
       change (r2 :: rest) with ([r2] ++ rest) in He. rewrite app_assoc in He.
       by apply expected_app in He as [? _]. }
  cbn [mret M_ret]. rewrite (told_cons self r1 rs). apply (IH _ r). apply expected_app in He as [_ He].
  destruct r1; exact He.
Qed.

(** A mapping that has been ended. *)
Definition mapped_done (self : MappedTcpSocket UID) : MappedTcpSocket UID :=
  mt_set_finish None (mt_set_mapped_addrs [] (mt_set_socket None (mt_set_stun_children ∅ self))).

(** [MappedTcpSocket::terminate]: the rest of the questions is ended, and the
    closure is called. *)
Lemma mapped_terminate_spec self b f w :
  mt_socket self = Some b → mt_finish self = Some f → probes (elements (mt_stun_children self)) w →
  ∃ n st, Mapped_terminate dyn_terminate self w =
    (mapped_finish f b (mt_mapped_addrs self) ;; mret (mapped_done self))
      (set_states st (set_net n w)) ∧
    without (λ t, t ∈ mt_stun_children self ∨ t = mt_token self) (w_states w) st.
Proof.
  intros Hb Hf Hp. destruct (terminate_probes (elements (mt_stun_children self)) w)
    as (n1 & st & Hrun & Hst & _); [apply NoDup_elements|done|].
  unfold Mapped_terminate, Mapped_terminate_children.
  unfold mbind at 1, M_bind at 1, mbind at 1, M_bind at 1. rewrite Hrun. cbn [mret M_ret].
  unfold mbind at 1, M_bind at 1, remove_state, modify.
  unfold mbind at 1, M_bind at 1. rewrite cancel_timeout_done.
  cbn [mt_socket mt_finish mt_set_stun_children mt_set_socket mt_set_mapped_addrs].
  rewrite Hb, Hf. unfold unwrap. unfold mbind at 1, M_bind at 1. cbn [mret M_ret].
  unfold mbind at 1, M_bind at 1. cbn [mret M_ret].
  eexists _, (delete (mt_token self) st). split; [reflexivity|].
  intros t. destruct (decide (t = mt_token self)) as [->|].
  { by rewrite lookup_delete_eq, decide_True by (by right). }
  rewrite lookup_delete_ne, Hst by done.
  destruct (decide (t ∈ elements (mt_stun_children self))) as [Hin|Hin];
    rewrite elem_of_elements in Hin; [by rewrite decide_True by (by left)|].
  by rewrite decide_False by tauto.
Qed.

(** The same when there are no questions left. *)
Lemma mapped_terminate_alone self b f w :
  mt_socket self = Some b → mt_finish self = Some f → mt_stun_children self = ∅ →
  Mapped_terminate dyn_terminate self w =
  (mapped_finish f b (mt_mapped_addrs self) ;; mret (mapped_done self))
    (set_net (timer_cancel_timeout (mt_timeout self) (w_net w)).2
      (set_states (delete (mt_token self) (w_states w)) w)).
Proof.
  intros Hb Hf Hc. unfold Mapped_terminate, Mapped_terminate_children. rewrite Hc, elements_empty. cbn [for_each].
  unfold mbind at 1, M_bind at 1, mbind at 1, M_bind at 1. cbn [mret M_ret].
  unfold mbind at 1, M_bind at 1, remove_state, modify.
  unfold mbind at 1, M_bind at 1. rewrite cancel_timeout_done.
  cbn [mt_socket mt_finish mt_set_stun_children mt_set_socket mt_set_mapped_addrs].
  rewrite Hb, Hf. reflexivity.
Qed.

(** ** The answer of a peer *)

(** A mapping [mt] that has asked the peer of [ge], neither of them running. *)
Record asking (rm : rc) (mt : MappedTcpSocket UID) (rg : rc) (ge : GetExtAddr UID) (w : World UID) :
  Prop := {
  ak_mt : w_states w !! mt_token mt = Some rm;
  ak_mt_heap : w_heap w !! rm = Some (StMapped mt);
  ak_mt_idle : w_borrows w !! rm = None;
  ak_ge : w_states w !! ge_token ge = Some rg;
  ak_ge_heap : w_heap w !! rg = Some (StGetExtAddr ge);
  ak_ge_idle : w_borrows w !! rg = None;
  ak_finish : ge_finish ge = rm
}.

(** What the answer [m] says about our address. *)
Definition answer (m : Message UID) : result SocketAddr unit :=
  match m with EchoAddrResp a => Ok a | _ => Err tt end.

(** What the mapping finds when [ge] reports. *)
Definition answering (rm rg : rc) (ge : GetExtAddr UID) (n : net) (w : World UID) : World UID :=
  set_borrows (<[rm := Writing]> (<[rg := Writing]> (w_borrows w)))
    (set_states (delete (ge_token ge) (w_states w)) (set_net n w)).

Section Answer.
Context (rm : rc) (mt : MappedTcpSocket UID) (rg : rc) (ge : GetExtAddr UID) (w : World UID).
Context (AK : asking rm mt rg ge w).

Lemma ak_distinct : rm ≠ rg ∧ mt_token mt ≠ ge_token ge.
Proof. destruct AK as [H1 H2 _ H3 H4 _ _]. assert (rm ≠ rg) by congruence. split; congruence. Qed.

Lemma stun_finish_reports n res :
  stun_finish (ge_finish ge) (ge_token ge) res
    (set_states (delete (ge_token ge) (w_states w))
       (set_net n (set_borrows (<[rg := Writing]> (w_borrows w)) w))) =
  match report mt (Stun (ge_token ge) res) (answering rm rg ge n w) with
  | Done mt' w' =>
      Done tt (set_borrows (delete rm (w_borrows w')) (set_heap (<[rm := StMapped mt']> (w_heap w')) w'))
  | Panicked e => Panicked e
  | Diverged => Diverged
  end.
Proof.
  destruct ak_distinct as [Hr Ht]. rewrite (ak_finish _ _ _ _ _ AK).
  unfold stun_finish, when_alive, upgrade. unfold mbind at 1, M_bind at 1, gets at 1.
  rewrite (bool_decide_true (rm ∈ _)).
  2: { apply list_elem_of_fmap. exists (mt_token mt, rm). split; [done|].
       apply elem_of_map_to_list. cbn. rewrite lookup_delete_ne by done. apply AK. }
  cbn [orb]. rewrite (with_borrow_mut_run rm _ _ (StMapped mt)); [|by cbn; rewrite lookup_insert_ne by done; apply AK|apply AK].
  unfold as_mapped, mbind, M_bind. cbn [report].
  match goal with |- context [handle_stun_resp _ _ _ _ ?w0] =>
    change w0 with (answering rm rg ge n w) end.
  by destruct (handle_stun_resp _ _ _ _ _).
Qed.

(** The event of [ge]'s socket, when what the peer has sent begins with [m]. *)
Lemma answer_event s1 n1 m :
  Socket_read (T:=Message UID) (ge_socket ge) (w_net w) = Done (Ok (Some m), Some s1) n1 →
  ∃ n2 o, handle_event (ge_token ge) (mkReady true false false false) w =
  match report mt (Stun (ge_token ge) (answer m)) (answering rm rg ge n2 w) with
  | Done mt' w' =>
      Done tt (set_borrows (delete rg (delete rm (w_borrows w')))
        (set_heap (<[rg := o]> (<[rm := StMapped mt']> (w_heap w'))) w'))
  | Panicked e => Panicked e
  | Diverged => Diverged
  end.
Proof.
  intros Hr. set (wg := set_borrows (<[rg := Writing]> (w_borrows w)) w).
  destruct (deregister_done (Some s1)
    (set_states (delete (ge_token ge) (w_states w)) (set_net n1 wg))) as (x & n2 & Hde & _).
  exists n2, (StGetExtAddr (ge_set_socket (Some s1) ge)).
  unfold handle_event, mbind at 1, M_bind at 1, get_state, gets at 1. rewrite (ak_ge _ _ _ _ _ AK).
  rewrite (with_borrow_mut_run rg _ _ (StGetExtAddr ge)) by apply AK.
  cbn [State_ready]. unfold GetExtAddr_ready. cbn -[GetExtAddr_receive_response report].
  unfold mbind, M_bind. cbn -[GetExtAddr_receive_response report].
  unfold GetExtAddr_receive_response, mbind, M_bind. erewrite io_done by exact Hr. fold wg.
  assert (∀ res, (GetExtAddr_terminate (ge_set_socket (Some s1) ge) ;;
      stun_finish (ge_finish ge) (ge_token ge) res ;;
      mret (ge_set_socket (Some s1) ge)) (set_net n1 wg) =
    match report mt (Stun (ge_token ge) res) (answering rm rg ge n2 w) with
    | Done mt' w' => Done (ge_set_socket (Some s1) ge)
        (set_borrows (delete rm (w_borrows w')) (set_heap (<[rm := StMapped mt']> (w_heap w')) w'))
    | Panicked e => Panicked e
    | Diverged => Diverged
    end) as Hfin.
  { intros res. unfold GetExtAddr_terminate, remove_state, modify, mbind, M_bind.
    cbn -[stun_finish io Socket_deregister report] in Hde |- *. rewrite Hde.
    cbn -[stun_finish report]. unfold wg.
    pose proof (stun_finish_reports n2 res) as Hrep.
    match goal with |- context [stun_finish ?p ?c ?r ?w0] =>
      match type of Hrep with ?l = _ => change l with (stun_finish p c r w0) in Hrep end end.
    rewrite Hrep. by destruct (report _ _ _). }
  specialize (Hfin (answer m)). unfold mbind, M_bind in Hfin. revert Hfin.
  destruct m; cbn -[stun_finish GetExtAddr_terminate report]; intros Hfin;
    unfold GetExtAddr_handle_error, mbind, M_bind;
    cbn -[stun_finish GetExtAddr_terminate report]; rewrite Hfin;
    by destruct (report _ _ _).
Qed.

End Answer.

(** ** Properties *)

(** C16: a mapping collects what it is told. Whatever the order in which the
    peers and the gateways it asked report, the mapping only notes the addresses
    while a report is missing; the report after which nothing is missing makes it
    hand its socket to the closure that wants it, with the addresses of the
    interfaces and all those reported, in the order of the reports, and the
    mapping leaves the event loop. If its timer comes first, it ends the
    questions that are still open and does the same with the addresses it has. *)
Theorem mapping_collects self b f rs r w :
  mt_socket self = Some b → mt_finish self = Some f →
  expected (mt_stun_children self) (mt_igd_children self) (rs ++ [r]) →
  fold_loop report self rs w = Done (told self rs) w ∧
  (Mapped_complete (told self (rs ++ [r])) = true →
   ∃ n, fold_loop report self (rs ++ [r]) w =
     (mapped_finish f b (mt_mapped_addrs self ++ omap report_addr (rs ++ [r])) ;;
      mret (mapped_done (told self (rs ++ [r]))))
       (set_states (delete (mt_token self) (w_states w)) (set_net n w))) ∧
  (probes (elements (stun_left (mt_stun_children self) rs)) w →
   ∃ n st, Mapped_timeout dyn_terminate (told self rs) 0 w =
     (mapped_finish f b (mt_mapped_addrs self ++ omap report_addr rs) ;;
      mret (mapped_done (told self rs))) (set_states st (set_net n w)) ∧
     without (λ t, t ∈ stun_left (mt_stun_children self) rs ∨ t = mt_token self) (w_states w) st).
Proof.
  intros Hb Hf He. pose proof (reports_collected rs self r w He) as Hrun. split; [exact Hrun|]. split.
  - intros Hc. rewrite fold_loop_app. unfold mbind, M_bind at 1. rewrite Hrun. cbn [fold_loop].
    rewrite told_app in Hc |- *. unfold mbind at 1, M_bind at 1.
    rewrite report_one by (by apply expected_app in He as [_ ?]). rewrite Hc.
    destruct (mapped_terminate_spec (told (told self rs) [r]) b f w) as (n & st & -> & Hst);
      [done|done| |].
    { apply complete_no_stun in Hc. rewrite Hc. intros t. rewrite elements_empty. set_solver. }
    apply complete_no_stun in Hc. exists n. rewrite Hc in Hst.
    replace st with (delete (mt_token self) (w_states w)).
    2: { apply map_eq. intros t. rewrite Hst. destruct (decide (t = mt_token self)) as [->|].
         - by rewrite lookup_delete_eq, decide_True by (by right).
         - by rewrite lookup_delete_ne, decide_False by set_solver. }
    rewrite <- told_app. cbn [told mt_mapped_addrs mt_set_mapped_addrs].
    unfold mbind, M_bind. by destruct (mapped_finish _ _ _ _).
  - intros Hp. exact (mapped_terminate_spec (told self rs) b f w Hb Hf Hp).
Qed.

(** C17: what a peer says about our address reaches the user. A peer that was
    asked answers, in any pieces, with [EchoAddrResp] (or with anything else,
    which tells nothing): the question leaves the event loop, and while another
    report is missing the mapping only notes the address. When it was the last
    report for a connection info, the mapping leaves too, and the user gets the
    connection info with our socket, our listeners, and for hole punching exactly
    the global ones of the addresses of our interfaces and those reported, the
    one just reported included. *)
Theorem answer_reaches_user `{!CodecLaws (Message UID)} rm mt rg ge inner m f rest cs n' w
  (child := ge_token ge) (mt' := told mt [Stun child (answer m)]) :
  asking rm mt rg ge w → child ∈ mt_stun_children mt →
  ge_socket ge = Some inner → reader_ok inner → fits m f →
  delivers (stream inner) (w_net w) cs n' → (length cs < loop_fuel)%nat →
  buffered inner ++ concat cs = f ++ rest →
  (Mapped_complete mt' = false →
   ∃ w', handle_event child (mkReady true false false false) w = Done tt w' ∧
     w_heap w' !! rm = Some (StMapped mt') ∧ w_states w' = delete child (w_states w) ∧
     w_events w' = w_events w) ∧
  (∀ b token uid ls, Mapped_complete mt' = true → mt_socket mt = Some b →
   mt_finish mt = Some (MapConnectionInfo token uid ls) →
   ∃ w', handle_event child (mkReady true false false false) w = Done tt w' ∧
     w_states w' = delete (mt_token mt) (delete child (w_states w)) ∧
     w_events w' = w_events w ++ [ConnectionInfoPrepared (mkConnectionInfoResult token
       (Ok (mkPrivConnectionInfo uid ls
         (List.filter (λ a, ip_addr_is_global (sa_ip a))
           (mt_mapped_addrs mt ++ option_list (result_ok (answer m)))) (Some b))))]).
Proof.
  intros AK Hin Hs Hok Hf Hd Hcs Hb.
  destruct (read_next inner m f rest (w_net w) cs n' Hf Hok Hd Hcs Hb) as (s1 & n1 & cs1 & Hr & _).
  destruct (answer_event rm mt rg ge w AK s1 n1 m) as (n2 & o & Hev).
  { rewrite Hs. unfold Socket_read, mbind, M_bind. by rewrite Hr. }
  rewrite report_one in Hev by by split. fold child mt' in Hev.
  pose proof (ak_distinct rm mt rg ge w AK) as [Hne _].
  assert (mt_mapped_addrs mt' = mt_mapped_addrs mt ++ option_list (result_ok (answer m))) as Hma.
  { unfold mt', told. cbn. by destruct (result_ok (answer m)). }
  split.
  - intros Hc. rewrite Hc in Hev. eexists. split; [exact Hev|]. cbn.
    rewrite lookup_insert_ne, lookup_insert_eq by done. by split_and!.
  - intros b token uid ls Hc Hsock Hfin. rewrite Hc in Hev.
    destruct (mapped_terminate_spec mt' b _ (answering rm rg ge n2 w) Hsock Hfin) as (n3 & st & Hrun & Hst).
    { rewrite (complete_no_stun _ Hc), elements_empty. intros t. set_solver. }
    rewrite Hrun in Hev. eexists. split; [exact Hev|]. cbn [mapped_finish] in *.
    rewrite (complete_no_stun _ Hc) in Hst. split; [|by rewrite <- Hma].
    cbn. apply map_eq. intros t. rewrite Hst. cbn. destruct (decide (t = mt_token mt)) as [->|].
    + by rewrite lookup_delete_eq, decide_True by (by right).
    + rewrite (lookup_delete_ne _ (mt_token mt)) by done. by rewrite decide_False by by intros [?%elem_of_empty|?].
Qed.

End MappedProps.

Module MappedWitness.

#[local] Instance wenv : Env := Script.env true false.
#[local] Existing Instance Script.msg_codec.
#[local] Existing Instance Script.msg_codec_laws.
#[local] Existing Instance Script.disc_codec.

Definition tm0 : @Timeout wenv := 0%nat.
Definition sock0 : @TcpBuilder wenv := 0%nat.
Definition ext (d : Z) : SocketAddr := SocketAddrV4 (mkIpv4Addr 203 0 114 d) 5483.

(** One gateway and one peer have been asked. *)
Definition asked : MappedTcpSocket Z :=
  mkMappedTcpSocket 4 (Some sock0) 1 {[5]} [Script.local] tm0 (Some (MapConnectionInfo 9 1 [])).
Definition st0 : @TcpStream wenv := 0%nat.
Definition fresh : SockInner := mkSockInner st0 [] 0 [] None.
Definition question : GetExtAddr Z := mkGetExtAddr 5 (Some fresh) None 0%nat.
Definition w0 : World Z :=
  mkWorld (Script.quiet : @net wenv) {[ 0%nat := StMapped asked; 1%nat := StGetExtAddr question ]}
    {[ 0%nat := Writing ]} 2%nat 6 {[ 4 := 0%nat; 5 := 1%nat ]} ∅
    (ConfigWrapper_new Config_default) [] [] ∅ 0%nat [].

Lemma mapping_collects_witness :
  fold_loop report asked [Igd (ext 1)] w0 = Done (told asked [Igd (ext 1)]) w0 ∧
  (∃ n, fold_loop report asked [Igd (ext 1); Stun 5 (Ok (ext 2))] w0 =
    (mapped_finish (MapConnectionInfo 9 1 []) sock0 [Script.local; ext 1; ext 2] ;;
     mret (mapped_done (told asked [Igd (ext 1); Stun 5 (Ok (ext 2))])))
      (set_states (delete 4 (w_states w0)) (set_net n w0))) ∧
  (∃ n st, Mapped_timeout dyn_terminate (told asked [Igd (ext 1)]) 0 w0 =
    (mapped_finish (MapConnectionInfo 9 1 []) sock0 [Script.local; ext 1] ;;
     mret (mapped_done (told asked [Igd (ext 1)]))) (set_states st (set_net n w0)) ∧
    without (λ t, t ∈ ({[5]} : gset Token) ∨ t = 4) (w_states w0) st).
Proof.
  destruct (mapping_collects asked sock0 (MapConnectionInfo 9 1 []) [Igd (ext 1)]
              (Stun 5 (Ok (ext 2))) w0 eq_refl eq_refl) as (H1 & H2 & H3).
  - cbn. split; [lia|]. split; [set_solver|done].
  - split; [exact H1|]. split; [exact (H2 eq_refl)|]. apply H3.
    intros t. cbn [stun_left mt_stun_children asked]. rewrite elements_singleton.
    intros ->%list_elem_of_singleton. by exists 1%nat, (StGetExtAddr question).
Defined.

(** The peer's answer, in two pieces. *)
Definition info : MappedTcpSocket Z :=
  mkMappedTcpSocket 4 (Some sock0) 0 {[5]} [] tm0 (Some (MapConnectionInfo 9 1 [])).
Definition wire : list byte := frame_of [Byte.x09; Byte.x03].
Definition w1 : World Z :=
  mkWorld (Script.set_reads [Ok (take 3 wire); Ok (drop 3 wire)] Script.quiet : @net wenv)
    {[ 0%nat := StMapped info; 1%nat := StGetExtAddr question ]}
    ∅ 2%nat 6 {[ 4 := 0%nat; 5 := 1%nat ]} ∅ (ConfigWrapper_new Config_default) [] [] ∅ 0%nat [].

Lemma answer_reaches_user_witness :
  ∃ w', handle_event 5 (mkReady true false false false) w1 = Done tt w' ∧
    w_states w' = delete 4 (delete 5 (w_states w1)) ∧
    w_events w' = [ConnectionInfoPrepared (mkConnectionInfoResult 9
      (Ok (mkPrivConnectionInfo 1 []
        (List.filter (λ a, ip_addr_is_global (sa_ip a)) [Script.host Byte.x03]) (Some sock0))))].
Proof.
  destruct (answer_reaches_user 0%nat info 1%nat question fresh
    (EchoAddrResp (Script.host Byte.x03)) wire [] [take 3 wire; drop 3 wire] (Script.quiet : @net wenv) w1)
    as [_ H].
  - by split.
  - set_solver.
  - reflexivity.
  - by split.
  - exists [Byte.x09; Byte.x03]. by split_and!.
  - eapply delivers_cons; [done|reflexivity|]. eapply delivers_cons; [done|reflexivity|].
    by apply (delivers_nil _ _ WouldBlock).
  - cbn. lia.
  - reflexivity.
  - exact (H sock0 9 1 [] eq_refl eq_refl eq_refl).
Defined.

End MappedWitness.
