(* ===== verification/Service.v ===== *)
(** [src/src/main/service.rs]: the user's handle on the event loop. What an
    operation posts is a computation on the state of the service, queued in the
    event loop's channel. *)

From stdpp Require Import base tactics list gmap strings.
From Stdlib Require Import ZArith Lia.
From S2P Require Import Prelude Types Env Socket ConnMap World ActiveConnection Candidate.
From S2P Require Import NatUtil Connect Listener Refresher Discovery Bootstrap IfAddrs Mapped System.

Definition BOOTSTRAP_TOKEN : Token := 0.
Definition SERVICE_DISCOVERY_TOKEN : Token := 1.
Definition LISTENER_TOKEN : Token := 2.
Definition CONFIG_REFRESHER_TOKEN : Token := 3.
Definition SERVICE_DISCOVERY_DEFAULT_PORT : Z := 5484.
Definition DISABLE_NAT : bool := true.

Section Service.
Context {ENV : Env} {UID : Type} `{!Uid UID, !Codec (Message UID), !Codec DiscoveryMsg}.
(** [tiny_keccak::sha3_256] of a string's bytes. *)
Context (sha3_256 : string → NameHash).
Abbreviation MW := (M (World UID)).

(** The service and its event loop: what they share, the messages in the
    channel, and whether the loop is still there to receive them. *)
Record Service := mkService {
  sv_our_uid : UID;
  sv_name_hash : NameHash;
  sv_world : World UID;
  sv_msgs : list (@CoreMessage ENV UID _);
  sv_alive : bool;
  sv_mc : @MappingContext ENV
}.
Abbreviation SM := (M Service).

Definition sv_set_world x s := mkService (sv_our_uid s) (sv_name_hash s) x (sv_msgs s) (sv_alive s)
  (sv_mc s).
Definition sv_set_msgs x s := mkService (sv_our_uid s) (sv_name_hash s) (sv_world s) x (sv_alive s)
  (sv_mc s).
Definition sv_stop s := mkService (sv_our_uid s) (sv_name_hash s) (sv_world s) [] false (sv_mc s).

(** A computation on what the service shares with the loop. *)
Definition shared {A} (m : MW A) : SM A := zoom sv_world sv_set_world m.

(** [name_hash]. *)
Definition name_hash (network_name : option string) : NameHash :=
  match network_name with
  | Some name => sha3_256 name
  | None => replicate HASH_SIZE Byte.x00
  end.

Definition post (f : MW unit) : SM (result unit CrustError) :=
  alive ← gets sv_alive;
  if alive : bool
  then modify (λ s, sv_set_msgs (sv_msgs s ++ [Some f]) s) ;; mret (Ok tt)
  else mret (Err (Common CommonCoreMsgTx)).

(** The loop's turn: it runs what is in the channel, up to the order to stop. *)
Definition pump : SM unit :=
  msgs ← gets sv_msgs;
  '(stop, ch) ← shared (channel_loop msgs false);
  if stop : bool then modify sv_stop else modify (sv_set_msgs (ch_msgs ch)).

(** An operation that posts a closure and waits ([rx.recv()]) for the first value
    the closure sends: the loop runs what was queued before it, and then it. *)
Definition post_and_wait {A} (f : MW (list A)) : SM (result A CrustError) :=
  alive ← gets sv_alive;
  if negb alive then mret (Err ChannelRecv)
  else
    pump ;;
    alive ← gets sv_alive;
    if negb alive then mret (Err ChannelRecv)
    else
      sent ← shared f;
      mret match sent with
           | v :: _ => Ok v
           | [] => Err ChannelRecv
           end.

(** ** The closures run by the event loop *)

Definition post_start_config_refresher : MW (list (result unit CrustError)) :=
  state ← get_state CONFIG_REFRESHER_TOKEN;
  sent ← match state with
         | None => r ← ConfigRefresher_start CONFIG_REFRESHER_TOKEN; mret [r]
         | Some _ => mret []
         end;
  mret (sent ++ [Ok tt]).

Definition post_set_accept_bootstrap (accept : bool) : MW (list (result unit CrustError)) :=
  state ← get_state LISTENER_TOKEN;
  match state with
  | None => mret [Err ListenerNotIntialised]
  | Some state =>
      found ← with_borrow_mut_ref state (λ o,
        mret match o with StListener _ => true | _ => false end);
      if found : bool
      then
        with_borrow_mut state (λ o,
          mret match o with
               | StListener l => StListener (set_accept_bootstrap accept l)
               | _ => o
               end) ;;
        mret [Ok tt]
      else mret []
  end.

Definition post_peer_addr (token : Token) : MW (list (option (result SocketAddr CrustError))) :=
  state ← get_state token;
  match state with
  | None => mret [None]
  | Some state =>
      with_borrow_mut_ref state (λ o,
        match o with
        | StActive ac => a ← ActiveConnection_peer_addr ac; mret [Some a]
        | _ => mret [None]
        end)
  end.

(** [if let Some(state) = core.get_state(token) { state.borrow_mut().terminate(core, poll) }]. *)
Definition post_terminate (token : Token) : MW unit :=
  state ← get_state token;
  match state with
  | Some state => dyn_terminate state
  | None => mret tt
  end.

Definition post_write (token : Token) (msg : list byte) (priority : Priority) : MW unit :=
  state ← get_state token;
  match state with
  | Some state => with_borrow_mut state (State_write msg priority)
  | None => mret tt
  end.

Definition post_start_service_discovery (port : Z) : MW unit :=
  state ← get_state SERVICE_DISCOVERY_TOKEN;
  match state with
  | None => _ ← ServiceDiscovery_start SERVICE_DISCOVERY_TOKEN port; mret tt
  | Some _ => mret tt
  end.

Definition post_set_service_discovery_listen (listen : bool) : MW unit :=
  state ← get_state SERVICE_DISCOVERY_TOKEN;
  match state with
  | None => mret tt
  | Some state =>
      with_borrow_mut state (λ o,
        mret match o with
             | StServiceDiscovery sd => StServiceDiscovery (set_listen listen sd)
             | _ => o
             end)
  end.

Definition post_seek_peers (obs : nat) : MW unit :=
  state ← get_state SERVICE_DISCOVERY_TOKEN;
  match state with
  | None => mret tt
  | Some state =>
      with_borrow_mut state (λ o,
        match o with
        | StServiceDiscovery sd =>
            let sd := register_observer obs sd in
            _ ← ServiceDiscovery_seek_peers sd;
            mret (StServiceDiscovery sd)
        | _ => mret o
        end)
  end.

Definition post_start_bootstrap (name_hash : NameHash) (ext_reachability : ExternalReachability)
  (our_uid : UID) (blacklist : gset SocketAddr) : MW unit :=
  state ← get_state BOOTSTRAP_TOKEN;
  match state with
  | Some _ => mret tt
  | None =>
      r ← Bootstrap_start dyn_terminate name_hash ext_reachability our_uid blacklist
            BOOTSTRAP_TOKEN SERVICE_DISCOVERY_TOKEN;
      match r with
      | Ok _ => mret tt
      | Err _ => send_event BootstrapFailed
      end
  end.

Definition post_start_listening_tcp (port : Z) (force_include_port : bool) (our_uid : UID)
  (name_hash : NameHash) (mc : @MappingContext ENV) : MW unit :=
  state ← get_state LISTENER_TOKEN;
  match state with
  | None => ConnectionListener_start dyn_terminate None port force_include_port our_uid name_hash mc
              LISTENER_TOKEN
  | Some _ => mret tt
  end.

Definition post_prepare_connection_info (result_token : Z) (our_uid : UID)
  (our_listeners : list SocketAddr) (mc : @MappingContext ENV) : MW unit :=
  r ← MappedTcpSocket_start dyn_terminate 0 mc
        (MapConnectionInfo result_token our_uid our_listeners);
  match r with
  | Ok _ => mret tt
  | Err e => send_event (ConnectionInfoPrepared (mkConnectionInfoResult result_token (Err (Nat e))))
  end.

(** ** The operations *)

(** The result of [rx.recv()?]. *)
Definition flatten_result {A} (r : result (result A CrustError) CrustError) :
  result A CrustError :=
  match r with Ok r => r | Err e => Err e end.

Definition start_config_refresher : SM (result unit CrustError) :=
  alive ← gets sv_alive;
  if negb alive then mret (Err (Common CommonCoreMsgTx))
  else r ← post_and_wait post_start_config_refresher; mret (flatten_result r).

Definition Service_set_accept_bootstrap (accept : bool) : SM (result unit CrustError) :=
  r ← post_and_wait (post_set_accept_bootstrap accept);
  mret (flatten_result r).

Definition get_peer_socket_addr (peer_uid : UID) : SM (result SocketAddr CrustError) :=
  cm ← gets (λ s, w_cm (sv_world s));
  match cm_active peer_uid cm with
  | None => mret (Err PeerNotFound)
  | Some token =>
      r ← post_and_wait (post_peer_addr token);
      mret match r with
           | Ok (Some ip) => ip
           | Ok None => Err PeerNotFound
           | Err e => Err e
           end
  end.

Definition get_peer_ip_addr (peer_uid : UID) : SM (result IpAddr CrustError) :=
  r ← get_peer_socket_addr peer_uid;
  mret match r with Ok s => Ok (sa_ip s) | Err e => Err e end.

Definition is_peer_hard_coded (peer_uid : UID) : SM bool :=
  r ← get_peer_socket_addr peer_uid;
  match r with
  | Ok s =>
      c ← gets (λ s, w_config (sv_world s));
      mret (existsb (λ addr, bool_decide (sa_ip addr = sa_ip s)) (hard_coded_contacts (cfg c)))
  | Err _ => mret false
  end.

Definition start_service_discovery : SM unit :=
  c ← gets (λ s, w_config (sv_world s));
  let port := default SERVICE_DISCOVERY_DEFAULT_PORT (service_discovery_port (cfg c)) in
  _ ← post (post_start_service_discovery port);
  mret tt.

Definition set_service_discovery_listen (listen : bool) : SM unit :=
  _ ← post (post_set_service_discovery_listen listen);
  mret tt.

(** [meanwhile] is what the event loop does in the second of [thread::sleep]. *)
Definition has_peers_on_lan (meanwhile : MW unit) : SM bool :=
  obs ← shared channel;
  _ ← post (post_seek_peers obs);
  pump ;;
  shared meanwhile ;;
  found ← shared (channel_drain obs);
  shared (channel_drop obs) ;;
  mret (negb (bool_decide (found = []))).

Definition start_bootstrap (blacklist : gset SocketAddr) (crust_user : CrustUser) :
  SM (result unit CrustError) :=
  our_uid ← gets sv_our_uid;
  name_hash ← gets sv_name_hash;
  our_listeners ← gets (λ s, w_listeners (sv_world s));
  let ext_reachability := match crust_user with
                          | Node => Required our_listeners
                          | Client => NotRequired
                          end in
  post (post_start_bootstrap name_hash ext_reachability our_uid blacklist).

Definition stop_bootstrap : SM (result unit CrustError) := post (post_terminate BOOTSTRAP_TOKEN).

Definition start_listening_tcp : SM (result unit CrustError) :=
  mc ← gets sv_mc;
  c ← gets (λ s, w_config (sv_world s));
  let port := default 0 (tcp_acceptor_port (cfg c)) in
  let force_include_port := force_acceptor_port_in_ext_ep (cfg c) in
  our_uid ← gets sv_our_uid;
  name_hash ← gets sv_name_hash;
  post (post_start_listening_tcp port force_include_port our_uid name_hash mc).

Definition stop_tcp_listener : SM (result unit CrustError) := post (post_terminate LISTENER_TOKEN).

(** The addresses of [their_ci] the whitelist allows. *)
Definition whitelisted_ci (c : Config) (their_ci : PubConnectionInfo UID) : PubConnectionInfo UID :=
  match whitelisted_node_ips c with
  | None => their_ci
  | Some ips =>
      let ok s := bool_decide (sa_ip s ∈ ips) in
      mkPubConnectionInfo (pub_id their_ci) (List.filter ok (pub_for_hole_punch their_ci))
        (List.filter ok (pub_for_direct their_ci))
  end.

Definition Service_connect (our_ci : PrivConnectionInfo UID TcpBuilder)
  (their_ci : PubConnectionInfo UID) : SM (result unit CrustError) :=
  our_uid ← gets sv_our_uid;
  if decide (pub_id their_ci = our_uid) then mret (Err RequestedConnectToSelf)
  else
    w ← gets sv_world;
    if bool_decide (is_Some (w_cm w !! pub_id their_ci)) then mret (Ok tt)
    else
      our_nh ← gets sv_name_hash;
      let their_ci := whitelisted_ci (cfg (w_config w)) their_ci in
      post (_ ← Connect_start dyn_terminate our_ci their_ci our_nh; mret tt).

Definition Service_disconnect (peer_uid : UID) : SM bool :=
  cm ← gets (λ s, w_cm (sv_world s));
  match cm_active peer_uid cm with
  | None => mret false
  | Some token => _ ← post (post_terminate token); mret true
  end.

Definition Service_send (peer_uid : UID) (msg : list byte) (priority : Priority) :
  SM (result unit CrustError) :=
  cm ← gets (λ s, w_cm (sv_world s));
  match cm_active peer_uid cm with
  | None => mret (Err PeerNotFound)
  | Some token => post (post_write token msg priority)
  end.

Definition prepare_connection_info (result_token : Z) : SM unit :=
  our_listeners ← gets (λ s, w_listeners (sv_world s));
  our_uid ← gets sv_our_uid;
  if DISABLE_NAT
  then
    shared (send_event (ConnectionInfoPrepared (mkConnectionInfoResult result_token
      (Ok (mkPrivConnectionInfo our_uid our_listeners [] None)))))
  else
    mc ← gets sv_mc;
    r ← post (post_prepare_connection_info result_token our_uid our_listeners mc);
    match r with
    | Ok _ => mret tt
    | Err e =>
        shared (send_event (ConnectionInfoPrepared (mkConnectionInfoResult result_token (Err e))))
    end.

Definition is_connected (peer_uid : UID) : SM bool :=
  cm ← gets (λ s, w_cm (sv_world s));
  mret (bool_decide (is_Some (cm_active peer_uid cm))).

Definition Service_id : SM UID := gets sv_our_uid.

(** A thread that asks a gateway comes to its end: what it sends to the event
    loop is queued like any message. *)
Definition igd_thread_ends (t : @IgdThread ENV) : SM unit :=
  msg ← shared (igd_thread dyn_terminate t);
  match msg with
  | Some f => _ ← post f; mret tt
  | None => mret tt
  end.

(** The last steps of [with_config]: if the configuration refresher cannot be
    started, the service is dropped. *)
Definition new_service (our_uid : UID) (nh : NameHash) (w : World UID) (mc : @MappingContext ENV) :
  M net (result Service CrustError) := λ _,
  match start_config_refresher (mkService our_uid nh w [] true mc) with
  | Done (Ok _) service => Done (Ok service) (w_net (sv_world service))
  | Done (Err e) service => Done (Err e) (w_net (sv_world service))
  | Panicked p => Panicked p
  | Diverged => Diverged
  end.

Definition with_config (config : Config) (our_uid : UID) : M net (result Service CrustError) :=
  let nh := name_hash (network_name config) in
  r ← MappingContext_new;
  match r with
  | Err e => mret (Err (Nat e))
  | Ok mc =>
      let mc := add_peer_stuns (hard_coded_contacts config) mc in
      r ← spawn_event_loop 4 (ConfigWrapper_new config);
      match r with
      | Err e => mret (Err (Common e))
      | Ok w => new_service our_uid nh w mc
      end
  end.

Definition Service_new (our_uid : UID) : M net (result Service CrustError) :=
  r ← call read_config_file;
  match r with
  | Err e => mret (Err e)
  | Ok config => with_config config our_uid
  end.

(** [Drop for EventLoop]: the order to stop is queued like any message. *)
Definition EventLoop_drop : SM unit :=
  modify (λ s, if sv_alive s then sv_set_msgs (sv_msgs s ++ [None]) s else s).

(** ** Lemmas *)

Lemma channel_loop_run (fs : list (MW unit)) rest w w' :
  for_each id fs w = Done tt w' →
  channel_loop ((Some <$> fs) ++ rest) false w = channel_loop rest false w'.
Proof.
  revert w. induction fs as [|f fs IH]; intros w; cbn.
  - by intros [= ->].
  - unfold mbind, M_bind. destruct (f w) as [[] w1| |]; try done. apply IH.
Qed.

(** The loop's turn when one message is waiting. *)
Lemma pump_one f (sv : Service) w' :
  sv_msgs sv = [Some f] → f (sv_world sv) = Done tt w' →
  pump sv = Done tt (sv_set_msgs [] (sv_set_world w' sv)).
Proof.
  intros Hm Hf. unfold pump, mbind, M_bind, gets, shared, zoom, modify. rewrite Hm. cbn.
  unfold mbind, M_bind. by rewrite Hf.
Qed.

(** A connection [s] to [u] that is registered and not running. *)
Definition connected (u : UID) (t : Token) (r : rc) (s : ActiveConnection UID) (w : World UID) :
  Prop :=
  cm_active u (w_cm w) = Some t ∧ w_states w !! t = Some r ∧ w_heap w !! r = Some (StActive s) ∧
  w_borrows w !! r = None ∧ ac_their_id s = u ∧ ac_token s = t.

Definition waiting_for_work (sv : Service) : Prop := sv_msgs sv = [] ∧ sv_alive sv = true.

(** ** Properties *)

Lemma disconnect_posts u t (sv : Service) :
  waiting_for_work sv → cm_active u (w_cm (sv_world sv)) = Some t →
  Service_disconnect u sv = Done true (sv_set_msgs [Some (post_terminate t)] sv).
Proof. intros [Hm Ha] Ht. unfold Service_disconnect, post, mbind, M_bind, gets, modify. by rewrite Ht, Ha, Hm. Qed.

(** C28: what [disconnect] does, once the event loop has had its turn. If the
    connection map names no connection to the peer, it says so and nothing happens.
    If the connection it names is registered with the event loop, the connection is
    closed: it is neither registered nor named any more, the peer is not connected
    and the user has been told that it is lost, once. If the map names a connection
    that is not registered (which the handshake that ends under the token of its own
    connection can leave behind), [disconnect] says that there was a connection and
    does nothing: the peer stays connected, and the user is told nothing. *)
Theorem disconnect_closes u (sv : Service) :
  waiting_for_work sv →
  let w := sv_world sv in
  let run := (b ← Service_disconnect u; pump ;; c ← is_connected u; mret (b, c)) sv in
  match cm_active u (w_cm w) with
  | None => run = Done (false, false) sv
  | Some t =>
      (∀ r s, connected u t r s w →
       ∃ sv', run = Done (true, false) sv' ∧ w_events (sv_world sv') = w_events w ++ [LostPeer u] ∧
         w_states (sv_world sv') = delete t (w_states w) ∧ cm_active u (w_cm (sv_world sv')) = None) ∧
      (w_states w !! t = None → run = Done (true, true) sv)
  end.
Proof.
  intros Hsv w run. pose proof Hsv as [Hm Ha]. destruct (cm_active u (w_cm w)) as [t|] eqn:Hact.
  - assert (run = (pump ;; c ← is_connected u; mret (true, c)) (sv_set_msgs [Some (post_terminate t)] sv)) as ->.
    { unfold run, mbind at 1, M_bind at 1. by rewrite (disconnect_posts u t sv Hsv Hact). }
    split.
    + intros r s (_ & Hs & Hh & Hb & Hid & Htok).
      destruct (terminate_closed s (set_borrows (<[r:=Writing]> (w_borrows w)) w))
        as (w1 & Ht & He & Hst & Hca & _ & Hheap & Hbor).
      assert (dyn_terminate r w = Done tt (set_borrows (w_borrows w) w1)) as Hdyn.
      { unfold dyn_terminate, mbind, M_bind, gets. cbn [State_terminate].
        eapply with_borrow_mut_same; try done.
        unfold mbind, M_bind. rewrite Ht. cbn [mret M_ret]. f_equal.
        cbn in Hbor. rewrite <- Hbor. by destruct w1. }
      unfold mbind at 1, M_bind at 1. erewrite pump_one; [|done|].
      2: { cbn. unfold post_terminate, mbind, M_bind, get_state, gets. fold w. rewrite Hs. exact Hdyn. }
      eexists. unfold is_connected, mbind, M_bind, gets. cbn -[bool_decide cm_active]. rewrite <- Hid, Hca.
      split; [done|]. split; [exact He|]. rewrite <- Htok. by split.
    + intros Hs. unfold mbind at 1, M_bind at 1. erewrite pump_one; [|done|].
      2: { cbn. unfold post_terminate, mbind, M_bind, get_state, gets. fold w. by rewrite Hs. }
      unfold is_connected, mbind, M_bind, gets. cbn -[bool_decide cm_active]. fold w. rewrite Hact. cbn.
      f_equal. unfold w. destruct sv; cbn in *. by subst.
  - unfold run, Service_disconnect, pump, is_connected. unfold mbind, M_bind, gets, shared, zoom. fold w. rewrite Hact.
    cbn [mret M_ret]. rewrite Hm. cbn. fold w. rewrite Hact. cbn. f_equal. unfold w. destruct sv; cbn in *. by subst.
Qed.

(** C30: [connect] is guarded. A service refuses to connect to itself; it posts
    nothing when there already is a connection to the peer or a handshake with
    it; otherwise it posts one connection attempt, to exactly the addresses of
    the peer that the whitelist of nodes allows. *)
Theorem connect_guarded our_ci their_ci (sv : Service) :
  sv_alive sv = true →
  ∃ r sv', Service_connect our_ci their_ci sv = Done r sv' ∧
    sv_world sv' = sv_world sv ∧
    ((pub_id their_ci = sv_our_uid sv ∧ r = Err RequestedConnectToSelf ∧ sv' = sv) ∨
     (pub_id their_ci ≠ sv_our_uid sv ∧ is_Some (w_cm (sv_world sv) !! pub_id their_ci) ∧
      r = Ok tt ∧ sv' = sv) ∨
     (pub_id their_ci ≠ sv_our_uid sv ∧ w_cm (sv_world sv) !! pub_id their_ci = None ∧ r = Ok tt ∧
      ∃ ci, sv_msgs sv' = sv_msgs sv ++
              [Some (_ ← Connect_start dyn_terminate our_ci ci (sv_name_hash sv); mret tt)] ∧
            pub_id ci = pub_id their_ci ∧
            ∀ a, let allowed := match whitelisted_node_ips (cfg (w_config (sv_world sv))) with
                                | Some ips => sa_ip a ∈ ips
                                | None => True
                                end in
                 (a ∈ pub_for_direct ci ↔ a ∈ pub_for_direct their_ci ∧ allowed) ∧
                 (a ∈ pub_for_hole_punch ci ↔ a ∈ pub_for_hole_punch their_ci ∧ allowed))).
Proof.
  intros Ha. unfold Service_connect. unfold mbind at 1, M_bind at 1, gets at 1.
  case_decide as Hself; [eexists _, _; split; [done|]; split; [done|]; by left|].
  unfold mbind at 1, M_bind at 1, gets at 1. case_bool_decide as Hin.
  { eexists _, _. split; [done|]. split; [done|]. right. by left. }
  unfold mbind at 1, M_bind at 1, gets at 1, post, mbind at 1, M_bind at 1, gets at 1. rewrite Ha.
  unfold mbind at 1, M_bind at 1, modify. eexists _, _. split; [done|]. split; [done|].
  right. right. split; [done|]. split; [by apply eq_None_not_Some|]. split; [done|].
  exists (whitelisted_ci (cfg (w_config (sv_world sv))) their_ci). split; [done|].
  unfold whitelisted_ci. destruct (whitelisted_node_ips _) as [ips|].
  - split; [done|]. intros a. cbn [pub_for_direct pub_for_hole_punch].
    rewrite !list_elem_of_In, !filter_In, !bool_decide_eq_true. done.
  - split; [done|]. intros a. tauto.
Qed.

(** C29: [send] writes. For a connected peer whose socket has nothing left to
    write and takes the frame of the message whole, the event loop writes it in
    its next turn: the connection stays as it is, with its heartbeat put off,
    and the user is told nothing. For a peer that is not connected, the result is
    [PeerNotFound] and nothing is posted. *)
Theorem send_writes u data p (sv : Service) :
  waiting_for_work sv →
  match cm_active u (w_cm (sv_world sv)) with
  | None => Service_send u data p sv = Done (Err PeerNotFound) sv
  | Some t => ∀ r s inner n1 tm n2,
      connected u t r s (sv_world sv) → ac_socket s = Some inner → idle inner →
      sends_now inner t (Data data : Message UID) (w_net (sv_world sv)) n1 →
      timer_set_timeout HEARTBEAT_PERIOD_MS (send_timer (ac_heartbeat s))
        (timer_cancel_timeout (send_timeout (ac_heartbeat s)) n1).2 = (Ok tm, n2) →
      ∃ sv' h, (r ← Service_send u data p; pump ;; mret r) sv = Done (Ok tt) sv' ∧
        w_heap (sv_world sv') =
          <[r := StActive (ac_set_heartbeat h s)]> (w_heap (sv_world sv)) ∧
        w_net (sv_world sv') = n2 ∧ w_events (sv_world sv') = w_events (sv_world sv) ∧
        w_cm (sv_world sv') = w_cm (sv_world sv) ∧ w_states (sv_world sv') = w_states (sv_world sv)
  end.
Proof.
  intros [Hm Ha]. destruct (cm_active u (w_cm (sv_world sv))) as [t|] eqn:Hact; unfold Service_send.
  2: { unfold mbind, M_bind, gets. by rewrite Hact. }
  intros r s inner n1 tm n2 (_ & Hs & Hh & Hb & Hid & Htok) Hsock Hidle Hsend Htm.
  unfold mbind at 1, M_bind at 1, mbind at 1, M_bind at 1, gets at 1. rewrite Hact.
  unfold post. unfold mbind at 1, M_bind at 1, gets at 1. rewrite Ha.
  unfold mbind at 1, M_bind at 1, modify at 1. cbn [mret M_ret]. rewrite Hm.
  set (w0 := set_borrows (<[r:=Writing]> (w_borrows (sv_world sv))) (sv_world sv)).
  set (h := mkHeartbeatTimers (recv_timeout (ac_heartbeat s)) (recv_timer (ac_heartbeat s)) tm
              (send_timer (ac_heartbeat s))).
  assert (State_write data p (StActive s) w0 =
    Done (StActive (ac_set_heartbeat h s)) (set_net n2 w0)) as Hwr.
  { cbn [State_write]. unfold ActiveConnection_write, ActiveConnection_write_msg, mbind, M_bind.
    rewrite Hsock, Htok. change (w_net (sv_world sv)) with (w_net w0) in Hsend.
    rewrite (io_done _ w0 _ _ (write_now inner t _ p _ n1 Hidle Hsend)). cbn [mret M_ret].
    replace (ac_set_socket (Some inner) s) with s by (clear -Hsock; destruct s; simpl in Hsock; by subst).
    unfold reset_send_heartbeat, Heartbeat_reset_send, mbind, M_bind.
    rewrite cancel_timeout_done, set_timeout_done. cbn [w_net set_net]. by rewrite Htm. }
  unfold mbind at 1, M_bind at 1. erewrite pump_one; [|done|].
  2: { cbn. unfold post_write, mbind, M_bind, get_state, gets. rewrite Hs.
       rewrite (with_borrow_mut_done _ _ _ _ _ _ Hb Hh Hwr). done. }
  eexists _, h. by split_and!.
Qed.

(** Dropping the event loop's handle loses nothing that was posted before:
    the loop runs all of it, in the order it was posted, and then stops, so that
    a later post is refused. *)
Theorem drop_runs_what_was_posted (fs : list (MW unit)) f (sv : Service) w' :
  sv_alive sv = true → sv_msgs sv = Some <$> fs → for_each id fs (sv_world sv) = Done tt w' →
  ∃ sv', (EventLoop_drop ;; pump ;; post f) sv = Done (Err (Common CommonCoreMsgTx)) sv' ∧
         sv_world sv' = w' ∧ sv_msgs sv' = [].
Proof.
  intros Ha Hm Hrun. unfold EventLoop_drop, mbind at 1, M_bind at 1, modify at 1. rewrite Ha.
  unfold pump. unfold mbind at 1, M_bind at 1, mbind at 1, M_bind at 1, gets at 1.
  unfold mbind at 1, M_bind at 1, shared, zoom. cbn [sv_msgs sv_set_msgs sv_world]. rewrite Hm.
  rewrite (channel_loop_run fs [None] _ w' Hrun). cbn. by eexists.
Qed.

End Service.

Module ServiceWitness.

#[local] Instance wenv : Env := Script.env true false.
#[local] Existing Instance Script.msg_codec.

Definition st0 : @TcpStream wenv := 0%nat.
Definition tm0 : @Timeout wenv := 0%nat.
Definition calm : @net wenv := Script.quiet.
Definition fresh : SockInner := mkSockInner st0 [] 0 [] None.
Definition conn : ActiveConnection Z :=
  mkActiveConnection 10 (Some fresh) 1 7 Node
    (mkHeartbeatTimers tm0 (mkCoreTimer 10 0) tm0 (mkCoreTimer 10 1)).
Definition w0 : World Z :=
  mkWorld calm {[ 0%nat := StActive conn ]} ∅ 1%nat 11 {[ 10 := 0%nat ]}
    {[ 7 := mkConnectionId (Some 10) 0 ]} (ConfigWrapper_new Config_default) [] [] ∅ 0%nat [].
Definition sv0 : @Service wenv Z _ := mkService 1 [] w0 [] true (mkMappingContext [] [] []).

Lemma conn_connected : connected 7 10 0%nat conn w0.
Proof. by split_and!. Defined.

(** Nothing is registered under the token of the connection. *)
Definition left_behind : @Service wenv Z _ := sv_set_world (set_states ∅ w0) sv0.

Lemma disconnect_closes_witness :
  (∃ sv', (b ← Service_disconnect 7; pump ;; c ← is_connected 7; mret (b, c)) sv0 = Done (true, false) sv' ∧
    w_events (sv_world sv') = [LostPeer 7]) ∧
  (b ← Service_disconnect 8; pump ;; c ← is_connected 8; mret (b, c)) sv0 = Done (false, false) sv0 ∧
  (b ← Service_disconnect 7; pump ;; c ← is_connected 7; mret (b, c)) left_behind = Done (true, true) left_behind.
Proof.
  split; [|split].
  - destruct (proj1 (disconnect_closes 7 sv0 (conj eq_refl eq_refl)) 0%nat conn conn_connected)
      as (sv' & Hrun & He & _). exists sv'. split; [exact Hrun|exact He].
  - exact (disconnect_closes 8 sv0 (conj eq_refl eq_refl)).
  - exact (proj2 (disconnect_closes 7 left_behind (conj eq_refl eq_refl)) eq_refl).
Defined.

Definition our_ci : PrivConnectionInfo Z (@TcpBuilder wenv) := mkPrivConnectionInfo 1 [] [] None.
Definition their_ci : PubConnectionInfo Z := mkPubConnectionInfo 8 [] [Script.local].

Lemma connect_guarded_witness :
  ∃ r sv', Service_connect our_ci their_ci sv0 = Done r sv' ∧ sv_world sv' = w0.
Proof.
  destruct (connect_guarded our_ci their_ci sv0 eq_refl) as (r & sv' & Hrun & Hw & _).
  exists r, sv'. split; [exact Hrun|exact Hw].
Defined.

Lemma send_writes_witness :
  ∃ sv' h, (r ← Service_send 7 [Byte.x41] 0; pump ;; mret r) sv0 = Done (Ok tt) sv' ∧
    w_heap (sv_world sv') = <[0%nat := StActive (ac_set_heartbeat h conn)]> (w_heap w0) ∧
    w_net (sv_world sv') = calm ∧ w_events (sv_world sv') = [] ∧
    w_cm (sv_world sv') = w_cm w0 ∧ w_states (sv_world sv') = w_states w0.
Proof.
  refine (send_writes 7 [Byte.x41] 0 sv0 _ 0%nat conn fresh calm tm0 calm _ _ _ _ _).
  - by split.
  - exact conn_connected.
  - reflexivity.
  - by split.
  - exists [Byte.x03; Byte.x41], 6, calm. by split_and!.
  - reflexivity.
Defined.

Definition job : M (World Z) unit := send_event BootstrapFailed.
Definition sv1 : @Service wenv Z _ := mkService 1 [] w0 [Some job; Some job] true (mkMappingContext [] [] []).

Lemma drop_runs_what_was_posted_witness :
  ∃ sv', (EventLoop_drop ;; pump ;; post job) sv1 = Done (Err (Common CommonCoreMsgTx)) sv' ∧
         sv_world sv' = set_events [BootstrapFailed; BootstrapFailed] w0 ∧ sv_msgs sv' = [].
Proof. apply (drop_runs_what_was_posted [job; job] job sv1); reflexivity. Defined.

End ServiceWitness.
