(* ===== verification/ListeningProps.v ===== *)
(** Listening, from the user's call to the event that reports it: the service,
    the mapping of the socket and the listener put together. *)

From stdpp Require Import base tactics list gmap strings.
From Stdlib Require Import ZArith Lia.
From S2P Require Import Prelude Types Env Socket ConnMap World ActiveConnection.
From S2P Require Import NatUtil Connect Listener IfAddrs Mapped System Probes ListenerProps MappedProps Service.

Section ListeningProps.
Context {ENV : Env} {UID : Type} `{!Uid UID, !Codec (Message UID), !Codec DiscoveryMsg}.
Abbreviation MW := (M (World UID)).
Implicit Types (w : World UID) (sv : @Service ENV UID _).

Lemma reusably_bound_done a (n : net) :
  ∃ r n', new_reusably_bound_tcp_socket a n = Done r n'.
Proof.
  unfold new_reusably_bound_tcp_socket, enable_so_reuseport, bind_ok, mbind, M_bind, call.
  destruct (sa_ip a); [destruct (builder_new_v4 n) as [[b|e] n1]|destruct (builder_new_v6 n) as [[b|e] n1]];
    cbn; eauto; (destruct (builder_reuse_address b true n1) as [[[]|e] n2]; cbn; [|by eauto]);
    destruct target_unix; cbn;
    try (destruct (builder_reuse_port b true n2) as [[[]|e] n3]; cbn; [|by eauto]);
    match goal with |- context [builder_bind ?b ?a ?n] =>
      destruct (builder_bind b a n) as [[[]|e'] n4]; cbn; by eauto end.
Qed.

(** Nobody can be asked: no interface has a gateway, and no peer is known. *)
Definition nobody_to_ask (mc : @MappingContext ENV) : Prop :=
  Forall (λ i, i.2 = None) (our_ifv4s mc) ∧ peer_stuns mc = [].

Lemma ask_no_gateways token port l w :
  Forall (λ i : Ipv4Addr * option Gateway, i.2 = None) l → ask_gateways token port l w = Done 0 w.
Proof. induction 1 as [|[ip g] l Hg _ IH]; [done|]. cbn in Hg. subst g. exact IH. Qed.

(** The addresses of the interfaces, for a socket bound to [a]. *)
Definition interface_addrs (mc : @MappingContext ENV) (a : SocketAddr) : list SocketAddr :=
  (λ '(ip, _), SocketAddrV4 ip (sa_port a)) <$> our_ifv4s mc.

(** What it takes of the outside world to get a socket to map: a socket bound to
    the port, its address, and a timer. *)
Definition mapping_socket (port : Z) (token : Token) (n : net) : option (TcpBuilder * SocketAddr * Timeout * net) :=
  match new_reusably_bound_tcp_socket (SocketAddrV4 (mkIpv4Addr 0 0 0 0) port) n with
  | Done (Ok b) n =>
      match builder_local_addr b n with
      | (Err _, _) => None
      | (Ok a, n) =>
          match timer_set_timeout MAPPING_TIMEOUT_MS (mkCoreTimer token 0) n with
          | (Ok tm, n) => Some (b, a, tm, n)
          | (Err _, _) => None
          end
      end
  | _ => None
  end.

(** And to have a listener on it: the address of the mapped socket, the listener,
    its address, and the outside world after all of this. *)
Definition opening (port : Z) (token : Token) (n : net) : option (SocketAddr * TcpListener * SocketAddr * net) :=
  match mapping_socket port token n with
  | None => None
  | Some (b, a, tm, n) =>
      match listening LISTENER_TOKEN b (timer_cancel_timeout tm n).2 with
      | None => None
      | Some (l, a', n) => Some (a, l, a', n)
      end
  end.

(** A mapping that has nobody to ask ends before it is registered: it has
    failed, or its closure has run on the addresses of the interfaces. *)
Lemma mapping_alone port mc f w :
  nobody_to_ask mc → w_token_counter w + 1 < usize_modulus →
  w_states w !! w_token_counter w = None → w_borrows w !! w_next_rc w = None →
  match mapping_socket port (w_token_counter w) (w_net w) with
  | None =>
      ∃ e n, MappedTcpSocket_start dyn_terminate port mc f w =
        Done (Err e) (set_net n (set_token_counter (w_token_counter w + 1) w))
  | Some (b, a, tm, n) =>
      let r := w_next_rc w in
      ∃ o o', MappedTcpSocket_start dyn_terminate port mc f w =
        match mapped_finish f b (interface_addrs mc a)
                (set_borrows (<[r := Writing]> (w_borrows w)) (set_next_rc (S r)
                  (set_heap (<[r := o]> (w_heap w))
                    (set_net (timer_cancel_timeout tm n).2 (set_token_counter (w_token_counter w + 1) w))))) with
        | Done _ w' => Done (Ok tt) (set_borrows (delete r (w_borrows w'))
                                      (set_heap (<[r := o']> (w_heap w')) w'))
        | Panicked e => Panicked e
        | Diverged => Diverged
        end
  end.
Proof.
  intros [Hg Hp] Hk Hs Hb. unfold mapping_socket. cbv zeta.
  remember (MappedTcpSocket_start dyn_terminate port mc f w) as run eqn:E.
  unfold MappedTcpSocket_start in E.
  unfold mbind at 1, M_bind at 1, get_new_token at 1 in E.
  unfold mbind at 1, M_bind at 1, gets at 1 in E.
  unfold mbind at 1, M_bind at 1 in E. rewrite usize_succ_small in E by done.
  unfold mbind at 1, M_bind at 1, modify at 1 in E. cbn [mret M_ret] in E.
  set (w1 := set_token_counter _ w) in *.
  unfold bind_ok at 1, mbind at 1, M_bind at 1 in E.
  destruct (reusably_bound_done (SocketAddrV4 (mkIpv4Addr 0 0 0 0) port) (w_net w)) as (rb & n1 & H1). rewrite H1.
  change (w_net w) with (w_net w1) in H1.
  erewrite (io_done _ w1) in E; [|unfold nat_io, mbind, M_bind; by rewrite H1].
  destruct rb as [b|e]; cbn [map_err] in E; [|by eexists _, _].
  unfold bind_ok at 1, mbind at 1, M_bind at 1 in E.
  destruct (builder_local_addr b n1) as [ra n2] eqn:H2.
  erewrite (io_done _ (set_net n1 w1)) in E; [|unfold nat_io, mbind, M_bind, call; cbn; by rewrite H2].
  destruct ra as [a|e]; cbn [map_err] in E; [|by eexists _, _].
  unfold mbind at 1, M_bind at 1 in E. rewrite ask_no_gateways in E by done.
  unfold mbind at 1, M_bind at 1 in E. rewrite set_timeout_done in E. cbn [set_net w_net] in E.
  destruct (timer_set_timeout _ _ n2) as [[tm|[]] n3]; cbn [map_err fst snd] in E; [|by eexists _, _].
  rewrite Hp in E.
  unfold mbind at 1, M_bind at 1, rc_new at 1 in E. cbn [for_each] in E.
  unfold mbind at 1, M_bind at 1, mret at 1, M_ret at 1 in E.
  unfold mbind at 1, M_bind at 1 in E.
  erewrite with_borrow_look in E; [|done|apply lookup_insert_eq|done].
  change (Mapped_complete _) with true in E. cbn iota in E.
  unfold mbind at 1, M_bind at 1 in E.
  erewrite with_borrow_mut_run in E; [|done|apply lookup_insert_eq]. cbn [as_mapped] in E.
  unfold mbind at 1, M_bind at 1 in E.
  match type of E with context [Mapped_terminate _ ?s ?w2] =>
    rewrite (mapped_terminate_alone s b f w2 eq_refl eq_refl eq_refl) in E; set (self := s) in * end.
  cbn [mt_token mt_timeout self] in E. cbn [w_states set_borrows set_next_rc set_heap set_net w1 set_token_counter] in E.
  rewrite delete_id in E by done.
  exists (StMapped self), (StMapped (mapped_done self)). rewrite E. unfold mbind, M_bind.
  match goal with |- _ = match ?rhs with Done _ _ => _ | _ => _ end =>
    match goal with |- context [mapped_finish f b (mt_mapped_addrs self) ?w2] =>
      change (mapped_finish f b (mt_mapped_addrs self) w2) with rhs; by destruct rhs end end.
Qed.

(** ** Properties *)

(** C18: a listener starts exactly when the outside world lets it, and the user is
    told. When no gateway and no peer can be asked for our address, what the event
    loop's next turn after [start_listening_tcp] does is decided by what the
    outside world answers ([opening]: a socket bound to the configured port, or to
    any, its address [a], a timer, a listener [l] on it, its address [a'], its
    registration). If all of it is granted, the listener [l] is registered under
    its token and does not accept bootstrappers yet, the published addresses are
    those of the interfaces with the port of [a] (and with the configured port, if
    that is forced), the user gets [ListenerStarted] with the port of [a'], and
    nothing else has been asked of the outside world. If any of it is refused,
    nothing is registered or published and the user gets [ListenerFailed]. *)
Theorem listening_starts sv :
  let w := sv_world sv in
  waiting_for_work sv → nobody_to_ask (sv_mc sv) → w_token_counter w + 1 < usize_modulus →
  w_states w !! w_token_counter w = None → w_borrows w !! w_next_rc w = None →
  w_states w !! LISTENER_TOKEN = None →
  ∃ sv', (start_listening_tcp ;; pump) sv = Done tt sv' ∧ sv_msgs sv' = [] ∧
    let w' := sv_world sv' in
    let c := cfg (w_config w) in
    let port := default 0 (tcp_acceptor_port c) in
    w_cm w' = w_cm w ∧
    match opening port (w_token_counter w) (w_net w) with
    | Some (a, l, a', n) =>
        w_events w' = w_events w ++ [ListenerStarted (sa_port a')] ∧
        w_listeners w' = published_addrs (force_acceptor_port_in_ext_ep c) port (interface_addrs (sv_mc sv) a) ∧
        w_net w' = n ∧
        ∃ r, w_states w' = <[LISTENER_TOKEN := r]> (w_states w) ∧
          w_heap w' !! r = Some (StListener (mkConnectionListener LISTENER_TOKEN l
            (sv_name_hash sv) (sv_our_uid sv) None false))
    | None =>
        w_events w' = w_events w ++ [ListenerFailed] ∧ w_listeners w' = w_listeners w ∧
        w_states w' = w_states w
    end.
Proof.
  intros w [Hm Ha] Hask Hk Hs Hb Hl. unfold start_listening_tcp, post.
  unfold mbind at 1, M_bind at 1, mbind at 1, M_bind at 1, gets at 1.
  unfold mbind at 1, M_bind at 1, gets at 1. unfold mbind at 1, M_bind at 1, gets at 1.
  unfold mbind at 1, M_bind at 1, gets at 1. unfold mbind at 1, M_bind at 1, gets at 1.
  rewrite Ha. unfold mbind at 1, M_bind at 1, modify at 1. rewrite Hm. cbn [mret M_ret app].
  fold w. set (c := cfg (w_config w)). set (port := default 0 _).
  set (f := MapListener None port (force_acceptor_port_in_ext_ep c) (sv_our_uid sv) (sv_name_hash sv)
              LISTENER_TOKEN).
  assert (∀ w', ConnectionListener_start dyn_terminate None port (force_acceptor_port_in_ext_ep c)
    (sv_our_uid sv) (sv_name_hash sv) (sv_mc sv) LISTENER_TOKEN w = Done tt w' →
    pump (sv_set_msgs [Some (post_start_listening_tcp port (force_acceptor_port_in_ext_ep c)
      (sv_our_uid sv) (sv_name_hash sv) (sv_mc sv))] sv) =
    Done tt (sv_set_msgs [] (sv_set_world w' (sv_set_msgs [Some (post_start_listening_tcp port
      (force_acceptor_port_in_ext_ep c) (sv_our_uid sv) (sv_name_hash sv) (sv_mc sv))] sv)))) as Hpump.
  { intros w' Hw'. eapply pump_one; [done|]. cbn. fold w.
    unfold post_start_listening_tcp, mbind, M_bind, get_state, gets. by rewrite Hl. }
  unfold opening. pose proof (mapping_alone port (sv_mc sv) f w Hask Hk Hs Hb) as Hrun.
  destruct (mapping_socket port (w_token_counter w) (w_net w)) as [[[[b a] tm] n]|].
  - cbv zeta in Hrun. destruct Hrun as (o & o' & Hrun). cbn [mapped_finish f] in Hrun.
    match type of Hrun with context [listener_mapped ?t ?p ?fo ?u ?nh ?tk ?b ?l ?w1] =>
      destruct (listener_mapped_spec t p fo u nh tk b l w1) as (w2 & H2 & Hcm & Hor);
      rewrite H2 in Hrun end.
    eexists. split; [apply Hpump|].
    { unfold ConnectionListener_start, mbind, M_bind. fold f. by rewrite Hrun. }
    split; [done|]. split; [exact Hcm|]. cbn [w_net set_borrows set_next_rc set_heap set_net] in Hor.
    destruct (listening LISTENER_TOKEN b (timer_cancel_timeout tm n).2) as [[[l a'] n']|].
    + destruct Hor as (He & Hli & Hst & Hh & Hn). split_and!; [exact He|exact Hli|exact Hn|].
      exists (S (w_next_rc w)). split; [exact Hst|]. cbn in Hh |- *. rewrite lookup_insert_ne by lia. exact Hh.
    + destruct Hor as (He & Hli & Hst & _). by split_and!.
  - destruct Hrun as (e & n & Hrun). eexists. split; [apply Hpump|].
    { unfold ConnectionListener_start, mbind, M_bind. fold f. by rewrite Hrun. }
    by split_and!.
Qed.

(** C38: [stop_tcp_listener] comes too late for a listener whose socket is still
    being mapped. The listener is not registered yet, so that the event loop's
    turn after [stop_tcp_listener] changes nothing at all; and when the mapping's
    timer then fires, the listener starts all the same (or fails), and says so. *)
Theorem stop_misses_mapping sv t r self b timeout port force uid nh :
  let w := sv_world sv in
  waiting_for_work sv → w_states w !! LISTENER_TOKEN = None →
  w_states w !! t = Some r → w_heap w !! r = Some (StMapped self) → w_borrows w !! r = None →
  mt_token self = t → mt_socket self = Some b →
  mt_finish self = Some (MapListener timeout port force uid nh LISTENER_TOKEN) →
  probes (elements (mt_stun_children self)) w → r ≠ w_next_rc w →
  (stop_tcp_listener ;; pump) sv = Done tt sv ∧
  ∃ w', timer_event (mkCoreTimer t 0) w = Done tt w' ∧
    ((∃ l p rl, w_events w' = w_events w ++ [ListenerStarted p] ∧
        w_states w' !! LISTENER_TOKEN = Some rl ∧
        w_heap w' !! rl =
          Some (StListener (mkConnectionListener LISTENER_TOKEN l nh uid timeout false))) ∨
     w_events w' = w_events w ++ [ListenerFailed]).
Proof.
  intros w [Hm Ha] Hl Ht Hh Hb Htok Hsock Hfin Hp Hr. split.
  { unfold stop_tcp_listener, post. unfold mbind, M_bind, gets, modify. rewrite Ha, Hm. cbn [mret M_ret app].
    erewrite pump_one; [|done|].
    2: { cbn. unfold post_terminate, mbind, M_bind, get_state, gets. fold w. by rewrite Hl. }
    f_equal. unfold w. destruct sv; cbn in *. by subst. }
  unfold timer_event, mbind at 1, M_bind at 1, get_state, gets at 1. cbn [state_id timer_id]. rewrite Ht.
  erewrite with_borrow_mut_run by done. cbn [State_timeout]. unfold mbind at 1, M_bind at 1, Mapped_timeout.
  set (w1 := set_borrows _ w).
  destruct (mapped_terminate_spec self b _ w1 Hsock Hfin) as (n & st & -> & Hst).
  { intros t' Ht'. destruct (Hp t' Ht') as (r' & o & H1 & H2 & H3 & H4). exists r', o.
    split_and!; try done. cbn. rewrite lookup_insert_ne; [done|]. intros <-.
    rewrite Hh in H2. injection H2 as <-. by destruct H4. }
  cbn [mapped_finish]. unfold mbind at 1, M_bind at 1.
  match goal with |- context [listener_mapped ?t ?p ?fo ?u ?nh ?tk ?b ?l ?w1] =>
    destruct (listener_mapped_spec t p fo u nh tk b l w1) as (w2 & -> & Hcm & Hor) end.
  cbn [mret M_ret]. eexists. split; [done|]. cbn in Hor |- *.
  destruct (listening _ _ _) as [[[l a] n']|]; [left|by right; apply Hor].
  destruct Hor as (He & _ & -> & Hheap & _). exists l, (sa_port a), (w_next_rc w).
  rewrite lookup_insert_eq, lookup_insert_ne by done. done.
Qed.

End ListeningProps.

Module ListeningWitness.

#[local] Instance wenv : Env := Script.env true false.
#[local] Existing Instance Script.msg_codec.
#[local] Existing Instance Script.disc_codec.

Definition calm : @net wenv := Script.quiet.
Definition no_mc : @MappingContext wenv :=
  mkMappingContext [(mkIpv4Addr 10 0 0 7, None)] [] [].
Definition world (h : gmap nat (StateObj Z)) (st : gmap Token nat) : World Z :=
  mkWorld calm h ∅ 5%nat 10 st ∅ (ConfigWrapper_new Config_default) [] [] ∅ 0%nat [].
Definition service (w : World Z) : @Service wenv Z _ := mkService 1 [] w [] true no_mc.

(** The port is free; and the port cannot be had. *)
Definition refusing : @net wenv := Script.set_builds [Err OtherKind] calm.

Definition free : @Service wenv Z _ := service (world ∅ ∅).
Definition taken : @Service wenv Z _ := service (set_net refusing (world ∅ ∅)).

Lemma listening_starts_witness :
  (∃ sv', (start_listening_tcp ;; pump) free = Done tt sv' ∧
    w_events (sv_world sv') = [ListenerStarted 5483] ∧
    w_listeners (sv_world sv') = [SocketAddrV4 (mkIpv4Addr 10 0 0 7) 5483]) ∧
  (∃ sv', (start_listening_tcp ;; pump) taken = Done tt sv' ∧
    w_events (sv_world sv') = [ListenerFailed] ∧ w_listeners (sv_world sv') = []).
Proof.
  assert (nobody_to_ask no_mc) as Hask by (split; [by repeat constructor|done]).
  split.
  - destruct (listening_starts free (conj eq_refl eq_refl) Hask ltac:(by vm_compute) eq_refl eq_refl eq_refl)
      as (sv' & Hrun & _ & _ & H).
    assert (opening (default 0 (tcp_acceptor_port (cfg (w_config (sv_world free)))))
      (w_token_counter (sv_world free)) (w_net (sv_world free)) =
      Some (Script.local, 0%nat, Script.local, calm)) as Ho by (vm_compute; reflexivity).
    rewrite Ho in H. destruct H as (He & Hli & _). exists sv'. split; [exact Hrun|]. split; [exact He|exact Hli].
  - destruct (listening_starts taken (conj eq_refl eq_refl) Hask ltac:(by vm_compute) eq_refl eq_refl eq_refl)
      as (sv' & Hrun & _ & _ & H).
    assert (opening (default 0 (tcp_acceptor_port (cfg (w_config (sv_world taken)))))
      (w_token_counter (sv_world taken)) (w_net (sv_world taken)) = None) as Ho by (vm_compute; reflexivity).
    rewrite Ho in H. destruct H as (He & Hli & _). exists sv'. split; [exact Hrun|]. split; [exact He|exact Hli].
Defined.

Definition pending : MappedTcpSocket Z :=
  mkMappedTcpSocket 9 (Some (0%nat : @TcpBuilder wenv)) 1 ∅ [] (0%nat : @Timeout wenv)
    (Some (MapListener None 0 false 1 [] LISTENER_TOKEN)).
Definition sv1 := service (world {[ 4%nat := StMapped pending ]} {[ 9 := 4%nat ]}).

Lemma stop_misses_mapping_witness :
  (stop_tcp_listener ;; pump) sv1 = Done tt sv1 ∧
  ∃ w', timer_event (mkCoreTimer 9 0) (sv_world sv1) = Done tt w' ∧
    ((∃ l p rl, w_events w' = [ListenerStarted p] ∧ w_states w' !! LISTENER_TOKEN = Some rl ∧
        w_heap w' !! rl =
          Some (StListener (mkConnectionListener LISTENER_TOKEN l [] 1 None false))) ∨
     w_events w' = [ListenerFailed]).
Proof.
  apply (stop_misses_mapping sv1 9 4%nat pending 0%nat None 0 false 1 []); try reflexivity.
  - by split.
  - intros t. cbn. rewrite elements_empty. by intros ?%not_elem_of_nil.
  - done.
Defined.

End ListeningWitness.
