(* ===== verification/Clean.v ===== *)
(** Computations that do not go wrong by themselves: they may panic where the code
    does, but never because a pointer has the wrong type; the operations on
    sockets, files and the connection map are all of this kind. *)

From stdpp Require Import base tactics list gmap.
From Stdlib Require Import ZArith Lia.
From S2P Require Import Prelude Types Env Socket ConnMap World ActiveConnection Candidate.
From S2P Require Import NatUtil Connect Listener Refresher Discovery Bootstrap IfAddrs Mapped.

Definition clean {W A} (m : M W A) : Prop := ∀ w, m w ≠ Panicked IllTyped.

Section Clean.
Context {W : Type}.

Lemma clean_ret {A} (a : A) : clean (mret a : M W A).
Proof. done. Qed.

Lemma clean_bind {A B} (m : M W A) (k : A → M W B) :
  clean m → (∀ a, clean (k a)) → clean (m ≫= k).
Proof.
  intros Hm Hk w. unfold mbind, M_bind. specialize (Hm w). destruct (m w); [apply Hk|congruence|done].
Qed.

Lemma clean_bind_ok {A B E} (m : M W (result A E)) (k : A → M W (result B E)) :
  clean m → (∀ a, clean (k a)) → clean (bind_ok m k).
Proof. intros Hm Hk. apply clean_bind; [done|]. intros [a|e]; [apply Hk|apply clean_ret]. Qed.

Lemma clean_call {A} (f : W → A * W) : clean (call f).
Proof. intros w. unfold call. by destruct (f w). Qed.

Lemma clean_gets {A} (f : W → A) : clean (gets f).
Proof. done. Qed.

Lemma clean_modify (f : W → W) : clean (modify f).
Proof. done. Qed.

Lemma clean_diverge {A} : clean (diverge : M W A).
Proof. done. Qed.

Lemma clean_throw {A} e : e ≠ IllTyped → clean (throw e : M W A).
Proof. intros He w. unfold throw. congruence. Qed.

Lemma clean_usize_succ b a : clean (usize_succ b a : M W Z).
Proof. unfold usize_succ. destruct (_ =? _), b; first [apply clean_ret|by apply clean_throw]. Qed.

Lemma clean_usize_pred b a : clean (usize_pred b a : M W Z).
Proof. unfold usize_pred. destruct (_ =? _), b; first [apply clean_ret|by apply clean_throw]. Qed.

End Clean.

Create HintDb clean.
#[export] Hint Resolve clean_ret clean_call clean_gets clean_modify clean_diverge
  clean_usize_succ clean_usize_pred : clean.
#[export] Hint Extern 1 (clean (throw _)) => by apply clean_throw : clean.

Ltac clean_step :=
  match goal with
  | |- clean (_ ≫= _) => apply clean_bind; [|intros ?]
  | |- clean (bind_ok _ _) => apply clean_bind_ok; [|intros ?]
  | |- clean (match ?x with _ => _ end) => destruct x
  | |- clean _ => solve [eauto with clean]
  end.
Ltac clean_go := repeat (cbv zeta; clean_step).

Section CleanIo.
Context {ENV : Env}.

Lemma clean_connect a : clean (Socket_connect a).
Proof. unfold Socket_connect. clean_go. Qed.
Lemma clean_peer_addr s : clean (Socket_peer_addr s).
Proof. unfold Socket_peer_addr. clean_go. Qed.
Lemma clean_register s t i : clean (Socket_register s t i).
Proof. unfold Socket_register. clean_go. Qed.
Lemma clean_reregister s t i : clean (Socket_reregister s t i).
Proof. unfold Socket_reregister. clean_go. Qed.
Lemma clean_deregister s : clean (Socket_deregister s).
Proof. unfold Socket_deregister. clean_go. Qed.

Lemma clean_read_loop {T} `{Codec T} fuel : ∀ b s, clean (read_loop (T:=T) fuel b s).
Proof. induction fuel as [|fuel IH]; intros b s; cbn [read_loop]; clean_go. Qed.
#[local] Hint Resolve clean_read_loop : clean.

Lemma clean_read {T} `{Codec T} s : clean (Socket_read (T:=T) s).
Proof. unfold Socket_read, SockInner_read. clean_go. Qed.

Lemma clean_write {T} `{Codec T} s t m : clean (Socket_write (T:=T) s t m).
Proof. unfold Socket_write, SockInner_write, write_data, finish_write. clean_go. Qed.

Lemma clean_reusably_bound a : clean (new_reusably_bound_tcp_socket a).
Proof. unfold new_reusably_bound_tcp_socket, enable_so_reuseport. clean_go. Qed.

Lemma clean_nat_io {A} (m : M net (result A ErrorKind)) : clean m → clean (nat_io m).
Proof. intros Hm. unfold nat_io. clean_go. Qed.
#[local] Hint Resolve clean_reusably_bound clean_nat_io : clean.

Lemma clean_unconnected k a : clean (unconnected_sockets k a).
Proof. induction k; cbn [unconnected_sockets]; clean_go. Qed.
#[local] Hint Resolve clean_unconnected : clean.

Lemma clean_get_sockets b k : clean (get_sockets b k).
Proof. unfold get_sockets. clean_go. Qed.

#[local] Hint Resolve clean_connect : clean.
Lemma clean_connect_all l : clean (connect_all l).
Proof. induction l; cbn [connect_all]; clean_go. Qed.

Lemma clean_connect_streams l : clean (connect_streams l).
Proof. induction l as [|[]]; cbn [connect_streams]; clean_go. Qed.

Lemma clean_cache_new name : clean (Cache_new name).
Proof. unfold Cache_new, get_default_file_name. clean_go. Qed.

Lemma clean_cache_read c : clean (Cache_read_file c).
Proof. unfold Cache_read_file. clean_go. Qed.

Lemma clean_get_socket_loop fuel : ∀ p, clean (get_socket_loop fuel p).
Proof. induction fuel; intros p; cbn [get_socket_loop]; clean_go. Qed.

Lemma clean_get_socket p : clean (get_socket p).
Proof. apply clean_get_socket_loop. Qed.

End CleanIo.

#[export] Hint Resolve clean_connect clean_peer_addr clean_register clean_reregister
  clean_deregister clean_read clean_write clean_reusably_bound clean_nat_io clean_get_sockets
  clean_connect_all clean_connect_streams clean_cache_new clean_cache_read clean_get_socket : clean.

Lemma clean_cm {ENV : Env} {UID : Type} `{!Uid UID} (u : UID) t :
  clean (cm_enter u) ∧ clean (cm_leave u) ∧ clean (cm_activate u t) ∧ clean (cm_deactivate u).
Proof. unfold cm_enter, cm_leave, cm_activate, cm_deactivate. split_and!; clean_go. Qed.

Lemma clean_run_op {ENV : Env} {UID : Type} `{!Uid UID} (o : conn_op UID) : clean (run_op o).
Proof. destruct o; cbn; [apply (clean_cm u 0)|apply (clean_cm u 0)|apply clean_cm|apply (clean_cm u 0)]. Qed.
