(* ===== verification/HeapTyping.v ===== *)
(** A typing of the heap of states: what a pointer of one state machine to
    another must point to, which peer a token stands for, and when the state of a
    service is well typed. *)

From stdpp Require Import base tactics list gmap.
From Stdlib Require Import ZArith Lia.
From S2P Require Import Prelude Types Env Socket ConnMap World Traces ActiveConnection Candidate.
From S2P Require Import NatUtil Connect Listener Refresher Discovery Bootstrap IfAddrs Mapped System.

(** The kinds of states. *)
Inductive Kind :=
| KActive | KCandidate | KConnectExchange | KConnect | KListenerExchange | KCheckReachability
| KListener | KRefresher | KTryPeer | KBootstrap | KServiceDiscovery | KGetExtAddr | KMapped.

#[export] Instance Kind_eq_dec : EqDecision Kind.
Proof. solve_decision. Defined.

(** The states that learn from a message which peer they have to do with. *)
Definition learns (k : Kind) : bool :=
  match k with KListenerExchange | KTryPeer => true | _ => false end.

(** What never changes about a state: its kind, its token, the pointer it has to
    itself, and the peer it was made for. *)
Record Shape {UID : Type} := mkShape {
  sh_kind : Kind;
  sh_token : Token;
  sh_self : option rc;
  sh_peer : option UID
}.
Arguments Shape UID : clear implicits.
Arguments mkShape {UID}.

(** The type of a heap: the shapes of its states, a bound on the tokens that were
    handed out, what the user has been told at least, and the peer that a token
    stands for, once that is known. *)
Record HeapType {ENV : Env} {UID : Type} := mkHeapType {
  ht_shapes : gmap rc (Shape UID);
  ht_bound : Z;
  ht_told : list (Event UID TcpBuilder);
  ht_peers : gmap Token UID
}.
Arguments HeapType {ENV} UID.

Section HeapTypes.
Context {ENV : Env} {UID : Type}.
Implicit Types (Σ : HeapType UID) (s : Shape UID).

#[export] Instance HeapType_lookup : Lookup rc (Shape UID) (HeapType UID) := λ r Σ, ht_shapes Σ !! r.
#[export] Instance HeapType_insert : Insert rc (Shape UID) (HeapType UID) :=
  λ r s Σ, @mkHeapType ENV UID (<[r := s]> (ht_shapes Σ)) (ht_bound Σ) (ht_told Σ) (ht_peers Σ).

(** How the type of a heap grows: states keep their shapes, tokens are handed out
    in order, the user is told more, and a token that stands for a peer stands for
    it for ever. *)
Record ht_grows Σ Σ' : Prop := {
  hg_shapes : ht_shapes Σ ⊆ ht_shapes Σ';
  hg_bound : ht_bound Σ ≤ ht_bound Σ';
  hg_told : ht_told Σ `prefix_of` ht_told Σ';
  hg_peers : overflow_checks = true → ∀ t u, t < ht_bound Σ →
    ht_peers Σ !! t = Some u → ht_peers Σ' !! t = Some u
}.

(** What every step of a handler respects: no new state is to learn its peer
    under a token that was handed out before. *)
Record ht_goes Σ Σ' : Prop := {
  ho_grows : ht_grows Σ Σ';
  ho_learners : overflow_checks = true → ∀ r s, Σ' !! r = Some s →
    learns (sh_kind s) = true → sh_token s < ht_bound Σ → Σ !! r = Some s
}.

(** What nearly every step respects: it leaves the tokens alone that were handed
    out before and do not stand for a peer yet. *)
Record ht_keeps Σ Σ' : Prop := {
  hk_goes : ht_goes Σ Σ';
  hk_peers : overflow_checks = true → ∀ t, t < ht_bound Σ → ht_peers Σ' !! t = ht_peers Σ !! t
}.

#[export] Instance HeapType_sqsubseteq : SqSubsetEq (HeapType UID) := ht_grows.
#[export] Instance HeapType_subseteq : SubsetEq (HeapType UID) := ht_keeps.

#[export] Instance ht_grows_preorder : PreOrder (⊑@{HeapType UID}).
Proof.
  split; [by intros Σ|]. intros Σ1 Σ2 Σ3 [A1 B1 C1 D1] [A2 B2 C2 D2].
  split; [by etrans|lia|by etrans|]. intros Hc t u Ht Hu. apply D2; [done|lia|]. by apply D1.
Qed.

#[export] Instance ht_goes_preorder : PreOrder ht_goes.
Proof.
  split; [by intros Σ; split|]. intros Σ1 Σ2 Σ3 [A1 B1] [A2 B2]. pose proof (hg_bound _ _ A1).
  split; [by etrans|]. intros Hc r s Hr Hl Ht. apply B1; [done| |done|done]. apply B2; [done|done|done|lia].
Qed.

#[export] Instance ht_keeps_preorder : PreOrder (⊆@{HeapType UID}).
Proof.
  split; [by intros Σ|]. intros Σ1 Σ2 Σ3 [A1 B1] [A2 B2]. pose proof (hg_bound _ _ (ho_grows _ _ A1)).
  split; [by etrans|]. intros Hc t Ht. rewrite B2 by (done || lia). by apply B1.
Qed.

Lemma ht_goes_grows Σ Σ' : ht_goes Σ Σ' → Σ ⊑ Σ'.
Proof. by intros []. Qed.
Lemma ht_keeps_goes Σ Σ' : Σ ⊆ Σ' → ht_goes Σ Σ'.
Proof. by intros []. Qed.
Lemma ht_keeps_grows Σ Σ' : Σ ⊆ Σ' → Σ ⊑ Σ'.
Proof. by intros [[]]. Qed.

Lemma ht_weaken Σ Σ' r s : Σ !! r = Some s → Σ ⊑ Σ' → Σ' !! r = Some s.
Proof. intros Hr [Hs _]. by eapply (lookup_weaken (ht_shapes Σ)). Qed.

Lemma ht_insert_eq Σ r s : <[r := s]> Σ !! r = Some s.
Proof. unfold lookup, HeapType_lookup. apply lookup_insert_eq. Qed.

Lemma ht_insert_inv Σ r s r' s' : <[r := s]> Σ !! r' = Some s' → r' = r ∧ s' = s ∨ Σ !! r' = Some s'.
Proof. intros [[<- <-]|[_ Hr]]%(lookup_insert_Some (ht_shapes Σ)); auto. Qed.

Lemma ht_insert_grows Σ r s : Σ !! r = None → Σ ⊑ <[r := s]> Σ.
Proof. intros Hr. by split; [apply insert_subseteq|..]. Qed.

Lemma ht_insert_keeps Σ r s : Σ !! r = None → learns (sh_kind s) = false → Σ ⊆ <[r := s]> Σ.
Proof.
  intros Hr Hl. split; [|done]. split; [by apply ht_insert_grows|]. intros _ r' s' [[-> ->]|Hr']%ht_insert_inv; [congruence|done].
Qed.

End HeapTypes.
Arguments mkHeapType {ENV UID}.

(** ** Well-typed states *)

Section HeapTyping.
Context {ENV : Env} {UID : Type} `{!Uid UID, !Codec (Message UID), !Codec DiscoveryMsg}.
Abbreviation MW := (M (World UID)).
Implicit Types (w : World UID) (o : StateObj UID) (Σ : HeapType UID) (s : Shape UID).

Definition kind o : Kind :=
  match o with
  | StActive _ => KActive
  | StCandidate _ => KCandidate
  | StConnectExchange _ => KConnectExchange
  | StConnect _ => KConnect
  | StListenerExchange _ => KListenerExchange
  | StCheckReachability _ => KCheckReachability
  | StListener _ => KListener
  | StRefresher _ => KRefresher
  | StTryPeer _ => KTryPeer
  | StBootstrap _ => KBootstrap
  | StServiceDiscovery _ => KServiceDiscovery
  | StGetExtAddr _ => KGetExtAddr
  | StMapped _ => KMapped
  end.

(** [self_weak]. *)
Definition self_weak o : option rc :=
  match o with
  | StConnect x => Some (cn_self_weak x)
  | StListenerExchange x => Some (le_self_weak x)
  | StBootstrap x => Some (bs_self_weak x)
  | _ => None
  end.

(** The peer a state was made for. *)
Definition peer o : option UID :=
  match o with
  | StActive x => Some (ac_their_id x)
  | StConnect x => Some (cn_their_id x)
  | _ => None
  end.

Definition shape o : Shape UID := mkShape (kind o) (state_token o) (self_weak o) (peer o).

(** A pointer to a state of the kind [k]. *)
Definition points_to Σ (r : rc) (k : Kind) : Prop := ∃ s, Σ !! r = Some s ∧ sh_kind s = k.

(** A pointer to an attempt to connect to [u]. *)
Definition leads_to Σ (r : rc) (u : UID) : Prop :=
  ∃ s, Σ !! r = Some s ∧ sh_kind s = KConnect ∧ sh_peer s = Some u.

(** A token that a state can have: one of those that are fixed, or one that was
    handed out; not those of the event loop itself. *)
Definition tok Σ (t : Token) : Prop :=
  overflow_checks = true → 0 ≤ t < 4 ∨ 6 ≤ t < ht_bound Σ.

(** A token that stands for [u], and one that does not stand for a peer yet. *)
Definition assigned Σ (t : Token) (u : UID) : Prop :=
  overflow_checks = true → t < ht_bound Σ ∧ ht_peers Σ !! t = Some u.
Definition unassigned Σ (t : Token) : Prop :=
  overflow_checks = true → t < ht_bound Σ ∧ ht_peers Σ !! t = None.

(** What is to be done with a mapped socket, under a token if it is to listen. *)
Definition finish_ok Σ (f : MappedFinish UID) : Prop :=
  match f with
  | MapListener _ _ _ _ _ t => tok Σ t
  | MapConnectionInfo _ _ _ => True
  end.

(** Whom a candidate for a connection to [u] reports to. *)
Definition candidate_ok Σ (u : UID) (f : CandidateFinish UID) : Prop :=
  match f with
  | FinishConnect parent => leads_to Σ parent u
  | FinishListener _ v => v = u
  end.

(** The pointers of a state: of a child to its parent, and to itself. The peer of
    a connection was announced to the user, and the token of a connection, or of
    what is to become one, stands for its peer. *)
Definition pointers_ok Σ o : Prop :=
  match o with
  | StActive x => announced (ht_told Σ) (ac_their_id x) (ac_their_role x) ∧
                  assigned Σ (ac_token x) (ac_their_id x)
  | StCandidate x => assigned Σ (cc_token x) (cc_their_id x) ∧
                     candidate_ok Σ (cc_their_id x) (cc_finish x)
  | StConnectExchange x => assigned Σ (ce_token x) (ce_expected_id x) ∧
                           leads_to Σ (ce_finish x) (ce_expected_id x)
  | StConnect x => leads_to Σ (cn_self_weak x) (cn_their_id x)
  | StListenerExchange x => points_to Σ (le_self_weak x) KListenerExchange
  | StCheckReachability x => points_to Σ (cr_finish x) KListenerExchange
  | StTryPeer x => points_to Σ (tp_finish x) KBootstrap
  | StBootstrap x => points_to Σ (bs_self_weak x) KBootstrap
  | StGetExtAddr x => points_to Σ (ge_finish x) KMapped
  | StMapped x => from_option (finish_ok Σ) True (mt_finish x)
  | _ => True
  end.

(** As long as a state that learns its peer has its socket, its token does not
    stand for a peer. *)
Definition unspent Σ o : Prop :=
  match o with
  | StListenerExchange x => le_socket x ≠ None → unassigned Σ (le_token x)
  | StTryPeer x => tp_socket x ≠ None → unassigned Σ (tp_token x)
  | _ => True
  end.

(** The state [o] has the shape [s]. *)
Definition has Σ s o : Prop := shape o = s ∧ pointers_ok Σ o ∧ tok Σ (sh_token s) ∧ unspent Σ o.

(** The connection map names connections that were made to the peer. *)
Definition active_ok Σ (cm : gmap UID ConnectionId) : Prop := ∀ u t, cm_active u cm = Some t →
  ∃ r s, Σ !! r = Some s ∧ sh_kind s = KActive ∧ sh_token s = t ∧ sh_peer s = Some u.

(** The state of a service is well typed: every state has well-typed pointers,
    what is registered under a token is a state with that token, a [self_weak]
    points to the state it is in, new states get new pointers, new tokens are
    greater than those of the states, what the user has been told is justified,
    the connection map represents handshakes and connections, and no two states
    that are to learn their peer have the same token. A state that a handler runs
    on may have given its socket away already. *)
Record well_typed Σ w : Prop := {
  wt_heap : shape <$> w_heap w = ht_shapes Σ;
  wt_objs : ∀ r o, w_heap w !! r = Some o → pointers_ok Σ o;
  wt_unspent : ∀ r o, w_heap w !! r = Some o → w_borrows w !! r ≠ Some Writing → unspent Σ o;
  wt_states : ∀ t r, w_states w !! t = Some r → ∃ s, Σ !! r = Some s ∧ sh_token s = t;
  wt_self : ∀ r s r', Σ !! r = Some s → sh_self s = Some r' → r' = r;
  wt_fresh : ∀ r, (w_next_rc w ≤ r)%nat → Σ !! r = None;
  wt_tokens : ∀ r s, Σ !! r = Some s → tok Σ (sh_token s);
  wt_bound : overflow_checks = true → 6 ≤ ht_bound Σ ≤ w_token_counter w;
  wt_told : ht_told Σ `prefix_of` w_events w;
  wt_justified : justified (w_events w);
  wt_cm : overflow_checks = true → ∃ c, represents (w_cm w) c;
  wt_active : active_ok Σ (w_cm w);
  wt_peers : overflow_checks = true → ∀ t u, ht_peers Σ !! t = Some u → t < ht_bound Σ;
  wt_learners : overflow_checks = true → ∀ r r' s s', Σ !! r = Some s → Σ !! r' = Some s' →
    learns (sh_kind s) = true → learns (sh_kind s') = true → sh_token s = sh_token s' → r = r'
}.

(** *** What stays known as the type grows *)

Lemma points_to_mono Σ Σ' r k : Σ ⊑ Σ' → points_to Σ r k → points_to Σ' r k.
Proof. intros Hs (s & Hr & Hk). exists s. split; [by eapply ht_weaken|done]. Qed.

Lemma leads_to_mono Σ Σ' r u : Σ ⊑ Σ' → leads_to Σ r u → leads_to Σ' r u.
Proof. intros Hs (s & Hr & Hk). exists s. split; [by eapply ht_weaken|done]. Qed.

Lemma tok_mono Σ Σ' t : Σ ⊑ Σ' → tok Σ t → tok Σ' t.
Proof. intros Hs Ht Hc. pose proof (hg_bound _ _ Hs). specialize (Ht Hc). lia. Qed.

Lemma assigned_mono Σ Σ' t u : Σ ⊑ Σ' → assigned Σ t u → assigned Σ' t u.
Proof.
  intros Hs Ht Hc. pose proof (hg_bound _ _ Hs). destruct (Ht Hc). split; [lia|]. by apply (hg_peers _ _ Hs).
Qed.

Lemma unassigned_mono Σ Σ' t : Σ ⊆ Σ' → unassigned Σ t → unassigned Σ' t.
Proof.
  intros Hs Ht Hc. pose proof (hg_bound _ _ (ht_keeps_grows _ _ Hs)). destruct (Ht Hc). split; [lia|].
  by rewrite (hk_peers _ _ Hs).
Qed.

Lemma finish_ok_mono Σ Σ' f : Σ ⊑ Σ' → finish_ok Σ f → finish_ok Σ' f.
Proof. intros Hs. destruct f; cbn; [by apply tok_mono|done]. Qed.

Lemma candidate_ok_mono Σ Σ' u f : Σ ⊑ Σ' → candidate_ok Σ u f → candidate_ok Σ' u f.
Proof. intros Hs. destruct f; cbn; [by apply leads_to_mono|done]. Qed.

Lemma pointers_ok_mono Σ Σ' o : Σ ⊑ Σ' → pointers_ok Σ o → pointers_ok Σ' o.
Proof.
  intros Hs. destruct o as [x|x|x| | | | | | | | | |x]; cbn; try done;
    try by first [apply points_to_mono|apply leads_to_mono].
  - intros [Ha Ht]. split; [by eapply announced_prefix; [apply (hg_told _ _ Hs)|]|by eapply assigned_mono].
  - intros [Ht Hf]. split; [by eapply assigned_mono|by eapply candidate_ok_mono].
  - intros [Ht Hf]. split; [by eapply assigned_mono|by eapply leads_to_mono].
  - destruct (mt_finish x) as [f|]; cbn; [by apply finish_ok_mono|done].
Qed.

Lemma unspent_mono Σ Σ' o : Σ ⊆ Σ' → unspent Σ o → unspent Σ' o.
Proof. intros Hs. destruct o; cbn; try done; intros H Hn; by eapply unassigned_mono; [|apply H]. Qed.

Lemma has_mono Σ Σ' s o : Σ ⊆ Σ' → has Σ s o → has Σ' s o.
Proof.
  intros Hs (H1 & H2 & H3 & H4). split; [done|].
  split; [by eapply pointers_ok_mono; [apply ht_keeps_grows|]|].
  split; [by eapply tok_mono; [apply ht_keeps_grows|]|by eapply unspent_mono].
Qed.

(** The states that do not learn their peer have nothing to lose. *)
Lemma unspent_trivial Σ o : learns (kind o) = false → unspent Σ o.
Proof. by destruct o. Qed.

Lemma has_grows Σ Σ' s o : Σ ⊑ Σ' → learns (kind o) = false → has Σ s o → has Σ' s o.
Proof.
  intros Hs Hl (H1 & H2 & H3 & _). split; [done|]. split; [by eapply pointers_ok_mono|].
  split; [by eapply tok_mono|by apply unspent_trivial].
Qed.

Lemma allocated_mono Σ Σ' r : Σ ⊑ Σ' → is_Some (Σ !! r) → is_Some (Σ' !! r).
Proof. intros Hs [s Hr]. exists s. by eapply ht_weaken. Qed.

Lemma active_ok_mono Σ Σ' cm : Σ ⊑ Σ' → active_ok Σ cm → active_ok Σ' cm.
Proof. intros Hs Ha u t (r & s & Hr & Hk)%Ha. exists r, s. split; [by eapply ht_weaken|done]. Qed.

Lemma points_to_allocated Σ r k : points_to Σ r k → is_Some (Σ !! r).
Proof. intros (s & Hr & _). by exists s. Qed.

Lemma leads_to_points Σ r u : leads_to Σ r u → points_to Σ r KConnect.
Proof. intros (s & Hr & Hk & _). by exists s. Qed.

End HeapTyping.
