(* ===== verification/Typing.v ===== *)
(** A typing judgement on the computations of the event loop, with its rules and
    automation. *)

From stdpp Require Import base tactics list gmap.
From Stdlib Require Import ZArith Lia.
From S2P Require Import Prelude Types Env Socket ConnMap World Traces ActiveConnection Candidate.
From S2P Require Import NatUtil Connect Listener Refresher Discovery Bootstrap IfAddrs Mapped System Clean HeapTyping.

Section Typing.
Context {ENV : Env} {UID : Type} `{!Uid UID, !Codec (Message UID), !Codec DiscoveryMsg}.
Abbreviation MW := (M (World UID)).
Implicit Types (w : World UID) (o : StateObj UID) (Σ : HeapType UID) (s : Shape UID).

(** ** What a computation of a given type returns, run by a state of shape [s] *)

Class Post (A : Type) := { returns : Shape UID → HeapType UID → A → Prop }.

(** Most results are plain data. *)
#[export] Instance post_any A : Post A | 100 := {| returns _ _ _ := True |}.

Definition post_obj {A} (inj : A → StateObj UID) : Post A := {| returns s Σ a := has Σ s (inj a) |}.

#[export] Instance post_StateObj : Post (StateObj UID) := post_obj id.
#[export] Instance post_Active : Post (ActiveConnection UID) := post_obj StActive.
#[export] Instance post_Candidate : Post (ConnectionCandidate UID) := post_obj StCandidate.
#[export] Instance post_ConnectExchange : Post (ConnectExchange UID) := post_obj StConnectExchange.
#[export] Instance post_Connect : Post (ConnectState UID) := post_obj StConnect.
#[export] Instance post_ListenerExchange : Post (ListenerExchange UID) := post_obj StListenerExchange.
#[export] Instance post_Refresher : Post (@ConfigRefresher ENV) := post_obj StRefresher.
#[export] Instance post_TryPeer : Post (TryPeer UID) := post_obj StTryPeer.
#[export] Instance post_Bootstrap : Post (Bootstrap UID) := post_obj StBootstrap.
#[export] Instance post_Discovery : Post (@ServiceDiscovery ENV) := post_obj StServiceDiscovery.
#[export] Instance post_GetExtAddr : Post (GetExtAddr UID) := post_obj StGetExtAddr.
#[export] Instance post_Mapped : Post (MappedTcpSocket UID) := post_obj StMapped.

(** A pointer that was found, and pointers that were collected, are to states. *)
#[export] Instance post_found : Post (option rc) :=
  {| returns _ Σ a := match a with Some r => is_Some (Σ !! r) | None => True end |}.

Definition post_collected : Post (list rc) := {| returns _ Σ l := Forall (λ r, is_Some (Σ !! r)) l |}.

(** A state with a value. *)
Definition post_with {A B} (_ : Post B) : Post (A * B) := {| returns s Σ ab := returns s Σ ab.2 |}.

#[export] Instance post_with_StateObj A : Post (A * StateObj UID) := post_with post_StateObj.
#[export] Instance post_with_Discovery A : Post (A * @ServiceDiscovery ENV) :=
  post_with post_Discovery.

(** What every computation leaves as it was: the borrows, and the events that
    were sent to the user. *)
Record follows w w' : Prop := {
  fl_borrows : w_borrows w' = w_borrows w;
  fl_events : w_events w `prefix_of` w_events w'
}.

#[export] Instance follows_preorder : PreOrder follows.
Proof.
  split; [by intros w|]. intros w1 w2 w3 [B1 E1] [B2 E2]. split; [congruence|by etrans].
Qed.

(** ** The judgement

    [runs sub P s Σ m]: started in a state of type [Σ] that satisfies [P], [m] does
    not use an ill-typed pointer, and if it completes, the state has a type that
    extends [Σ] as [sub] says, the borrows are as before, events were only added,
    and the result is as its type says. *)
Definition runs {A} `{Post A} (sub : relation (HeapType UID)) (P : World UID → Prop) s Σ (m : MW A) : Prop :=
  ∀ w, well_typed Σ w → P w →
  match m w with
  | Done a w' => ∃ Σ', sub Σ Σ' ∧ well_typed Σ' w' ∧ follows w w' ∧ returns s Σ' a
  | Panicked e => e ≠ IllTyped
  | Diverged => True
  end.

(** The tokens that do not stand for a peer yet are left alone. *)
Definition ok {A} `{Post A} s Σ (m : MW A) : Prop := runs (⊆) (λ _, True) s Σ m.

(** A token may come to stand for a peer. *)
Definition okw {A} `{Post A} s Σ (m : MW A) : Prop := runs ht_goes (λ _, True) s Σ m.

(** The state that is to learn which peer the token [t] stands for, if there is
    one, is the one a handler is running on: so the handler can let it stand for a
    peer. *)
Definition mine Σ (t : Token) w : Prop := overflow_checks = true → ∀ r s, Σ !! r = Some s →
  learns (sh_kind s) = true → sh_token s = t → w_borrows w !! r = Some Writing.
Definition okx {A} `{Post A} (t : Token) s Σ (m : MW A) : Prop := runs ht_goes (mine Σ t) s Σ m.

(** The token [t] has just been handed out and no state has it. *)
Definition fresh Σ (t : Token) w : Prop :=
  overflow_checks = true → 6 ≤ t ∧ ht_bound Σ ≤ t < w_token_counter w.
Definition okf {A} `{Post A} (t : Token) s Σ (m : MW A) : Prop := runs (⊆) (fresh Σ t) s Σ m.

Lemma runs_weaken {A} `{Post A} (sub sub' : relation (HeapType UID)) (P P' : World UID → Prop) s Σ (m : MW A) :
  (∀ Σ Σ', sub Σ Σ' → sub' Σ Σ') → (∀ w, P' w → P w) → runs sub P s Σ m → runs sub' P' s Σ m.
Proof.
  intros Hs HP Hm w Hw Hp. specialize (Hm w Hw (HP w Hp)). destruct (m w) as [a w'|e|]; [|done|done].
  destruct Hm as (Σ' & Hsub & ?). exists Σ'. split; [by apply Hs|done].
Qed.

Lemma okw_ok {A} `{Post A} s Σ (m : MW A) : ok s Σ m → okw s Σ m.
Proof. apply runs_weaken; [exact ht_keeps_goes|done]. Qed.
Lemma okx_okw {A} `{Post A} t s Σ (m : MW A) : okw s Σ m → okx t s Σ m.
Proof. apply runs_weaken; done. Qed.
Lemma okf_ok {A} `{Post A} t s Σ (m : MW A) : ok s Σ m → okf t s Σ m.
Proof. apply runs_weaken; done. Qed.

Lemma runs_ret {A} `{Post A} (sub : relation (HeapType UID)) `{!PreOrder sub} P s Σ (a : A) :
  returns s Σ a → runs sub P s Σ (mret a).
Proof. intros Ha w Hw _. by exists Σ. Qed.

(** A first step, and what comes after it. *)
Lemma runs_bind {A B} `{Post A, Post B} (sub1 sub : relation (HeapType UID)) P (Q : HeapType UID → World UID → Prop)
    s Σ (m : MW A) (k : A → MW B) :
  (∀ Σ1 Σ2 Σ3, sub1 Σ1 Σ2 → sub Σ2 Σ3 → sub Σ1 Σ3) →
  (∀ Σ' w w', well_typed Σ w → P w → sub1 Σ Σ' → follows w w' → Q Σ' w') →
  runs sub1 P s Σ m → (∀ Σ' a, sub1 Σ Σ' → returns s Σ' a → runs sub (Q Σ') s Σ' (k a)) →
  runs sub P s Σ (m ≫= k).
Proof.
  intros Htr HQ Hm Hk w Hw Hp. unfold mbind, M_bind. specialize (Hm w Hw Hp).
  destruct (m w) as [a w1|e|]; [|done|done].
  destruct Hm as (Σ1 & H1 & Hw1 & Hb1 & Ha). specialize (Hk Σ1 a H1 Ha w1 Hw1 (HQ _ _ _ Hw Hp H1 Hb1)).
  destruct (k a w1) as [b w2|e|]; [|done|done]. destruct Hk as (Σ2 & H2 & Hw2 & Hb2 & Hb).
  exists Σ2. split; [by eapply Htr|]. split; [done|]. split; [by etrans|done].
Qed.

Lemma ok_ret {A} `{Post A} s Σ (a : A) : returns s Σ a → ok s Σ (mret a).
Proof. apply runs_ret, _. Qed.
Lemma okw_ret {A} `{Post A} s Σ (a : A) : returns s Σ a → okw s Σ (mret a).
Proof. apply runs_ret, _. Qed.

Lemma ok_bind {A B} `{Post A, Post B} s Σ (m : MW A) (k : A → MW B) :
  ok s Σ m → (∀ Σ' a, Σ ⊆ Σ' → returns s Σ' a → ok s Σ' (k a)) → ok s Σ (m ≫= k).
Proof. apply runs_bind; [|done]. intros Σ1 Σ2 Σ3. apply transitivity. Qed.

Lemma okw_bind {A B} `{Post A, Post B} s Σ (m : MW A) (k : A → MW B) :
  okw s Σ m → (∀ Σ' a, ht_goes Σ Σ' → returns s Σ' a → okw s Σ' (k a)) → okw s Σ (m ≫= k).
Proof. apply runs_bind; [|done]. intros Σ1 Σ2 Σ3. apply transitivity. Qed.

Lemma okx_bind {A B} `{Post A, Post B} t s Σ (m : MW A) (k : A → MW B) :
  tok Σ t → okx t s Σ m → (∀ Σ' a, ht_goes Σ Σ' → returns s Σ' a → okx t s Σ' (k a)) → okx t s Σ (m ≫= k).
Proof.
  intros Ht Hm. apply (runs_bind ht_goes ht_goes (mine Σ t) (λ Σ', mine Σ' t)); [| |exact Hm].
  - intros Σ1 Σ2 Σ3. apply transitivity.
  - intros Σ' w w' Hw Hmine Hs [Hb _] Hc r s' Hr Hl <-. rewrite Hb. apply (Hmine Hc _ s'); [|done|done].
    apply (ho_learners _ _ Hs); try done. destruct (wt_bound _ _ Hw Hc). specialize (Ht Hc). lia.
Qed.

(** A first step that leaves the tokens alone. *)
Lemma okx_bind_ok {A B} `{Post A, Post B} t s Σ (m : MW A) (k : A → MW B) :
  tok Σ t → ok s Σ m → (∀ Σ' a, Σ ⊆ Σ' → returns s Σ' a → okx t s Σ' (k a)) → okx t s Σ (m ≫= k).
Proof.
  intros Ht Hm. apply (runs_bind (⊆) ht_goes (mine Σ t) (λ Σ', mine Σ' t)).
  - intros Σ1 Σ2 Σ3 H1 H2. etrans; [by apply ht_keeps_goes|done].
  - intros Σ' w w' Hw Hmine [Hs _] [Hb _] Hc r s' Hr Hl <-. rewrite Hb. apply (Hmine Hc _ s'); [|done|done].
    apply (ho_learners _ _ Hs); try done. destruct (wt_bound _ _ Hw Hc). specialize (Ht Hc). lia.
  - by eapply runs_weaken; [| |exact Hm].
Qed.

Lemma ok_bind_ok {A B E} `{Post A} s Σ (m : MW (result A E)) (k : A → MW (result B E)) :
  ok s Σ m → (∀ Σ' a, Σ ⊆ Σ' → ok s Σ' (k a)) → ok s Σ (bind_ok m k).
Proof. intros Hm Hk. eapply ok_bind; [done|]. intros Σ' [a|e] Hs _; [by apply Hk|by apply ok_ret]. Qed.

Lemma ok_throw {A} `{Post A} s Σ e : e ≠ IllTyped → ok s Σ (throw e : MW A).
Proof. by intros He w Hw. Qed.

Lemma ok_diverge {A} `{Post A} s Σ : ok s Σ (diverge : MW A).
Proof. by intros w Hw. Qed.

Lemma ok_unwrap {A} s Σ (a : option A) : ok s Σ (unwrap a : MW A).
Proof. destruct a; [by apply ok_ret|by apply ok_throw]. Qed.

(** A computation that only touches the untyped parts of the state. *)
Definition untyped {A} (m : MW A) : Prop := ∀ w,
  match m w with
  | Done _ w' => w_heap w' = w_heap w ∧ w_states w' = w_states w ∧ w_next_rc w' = w_next_rc w ∧
                 w_token_counter w' = w_token_counter w ∧ w_cm w' = w_cm w ∧
                 w_events w' = w_events w ∧ w_borrows w' = w_borrows w
  | Panicked e => e ≠ IllTyped
  | Diverged => True
  end.

Lemma well_typed_untyped Σ w w' :
  well_typed Σ w → w_heap w' = w_heap w ∧ w_states w' = w_states w ∧ w_next_rc w' = w_next_rc w ∧
    w_token_counter w' = w_token_counter w ∧ w_cm w' = w_cm w ∧
    w_events w' = w_events w ∧ w_borrows w' = w_borrows w →
  well_typed Σ w' ∧ follows w w'.
Proof.
  intros [Wheap Wobjs Wunspent Wstates Wself Wfresh Wtokens Wbound Wtold
    Wjustified Wcm Wactive Wpeers Wlearners] (Hh & Hs & Hn & Hc & Hcm & He & Hb).
  split; [by split; rewrite ?Hh, ?Hs, ?Hn, ?Hc, ?Hcm, ?He, ?Hb|]. split; [done|by rewrite He].
Qed.

Lemma ok_untyped {A} s Σ (m : MW A) : untyped m → @ok A (post_any A) s Σ m.
Proof.
  intros Hm w Hw _. specialize (Hm w). destruct (m w) as [a w'|e|]; [|done|done].
  destruct (well_typed_untyped Σ w w' Hw Hm). by exists Σ.
Qed.

(** Such a computation also leaves a fresh token fresh. *)
Lemma okf_bind_untyped {A B} `{Post B} t s Σ (m : MW A) (k : A → MW B) :
  untyped m → (∀ a, okf t s Σ (k a)) → okf t s Σ (m ≫= k).
Proof.
  intros Hm Hk w Hw Hf. unfold mbind, M_bind. specialize (Hm w). destruct (m w) as [a w1|e|]; [|done|done].
  destruct (well_typed_untyped Σ w w1 Hw Hm) as [Hw1 Hb1].
  assert (fresh Σ t w1) as Hf1. { destruct Hm as (_ & _ & _ & Hc & _). unfold fresh. by rewrite Hc. }
  specialize (Hk a w1 Hw1 Hf1). destruct (k a w1) as [b w2|e|]; [|done|done].
  destruct Hk as (Σ2 & H2 & Hw2 & Hb2 & Hb). exists Σ2. split; [done|]. split; [done|]. split; [by etrans|done].
Qed.

Lemma untyped_gets {A} (f : World UID → A) : untyped (gets f).
Proof. done. Qed.

Lemma untyped_io {A} (m : M net A) : clean m → untyped (io m).
Proof. intros Hm w. unfold io, zoom. specialize (Hm (w_net w)). destruct (m (w_net w)); [done|congruence|done]. Qed.

Lemma untyped_set_timeout i t : untyped (set_timeout i t).
Proof. intros w. unfold set_timeout, mbind, M_bind, io, zoom, call. by destruct (timer_set_timeout _ _ _). Qed.

Lemma ok_gets {A} s Σ (f : World UID → A) : @ok A (post_any A) s Σ (gets f).
Proof. by apply ok_untyped. Qed.

Lemma ok_io {A} s Σ (m : M net A) : clean m → @ok A (post_any A) s Σ (io m).
Proof. intros Hm. by apply ok_untyped, untyped_io. Qed.

(** What the outside world may return. *)
Definition post_sat {A} (φ : A → Prop) : Post A := {| returns _ _ a := φ a |}.

Lemma ok_io_sat {A} (φ : A → Prop) s Σ (m : M net A) :
  clean m → (∀ n a n', m n = Done a n' → φ a) → @ok A (post_sat φ) s Σ (io m).
Proof.
  intros Hc Hm w Hw _. pose proof (untyped_io m Hc w) as Hu. unfold io, zoom in *. specialize (Hm (w_net w)).
  destruct (m (w_net w)) as [a n|e|]; [|done|done]. destruct (well_typed_untyped Σ w _ Hw Hu). exists Σ.
  split; [done|]. split; [done|]. split; [done|]. by apply (Hm a n).
Qed.

(** A socket that was given away stays so, and fails. *)
Definition socket_stays {A E} (sock : Socket) (res : result A E * Socket) : Prop :=
  match sock with
  | Some _ => res.2 ≠ None
  | None => res.2 = None ∧ ∃ e, res.1 = Err e
  end.

Lemma ok_socket_read s Σ (sock : Socket) :
  @ok _ (post_sat (socket_stays sock)) s Σ (io (Socket_read (T:=Message UID) sock)).
Proof.
  apply ok_io_sat; [clean_go|]. intros n a n'. destruct sock as [inner|]; cbn; unfold mbind, M_bind, mret, M_ret.
  - destruct (SockInner_read inner n) as [[r inner']|e|]; [|done|done]. by intros [= <- _].
  - intros [= <- _]. split; [done|by eexists].
Qed.

Lemma ok_socket_write s Σ (sock : Socket) t (msg : option (Message UID * Priority)) :
  @ok _ (post_sat (socket_stays sock)) s Σ (io (Socket_write sock t msg)).
Proof.
  apply ok_io_sat; [clean_go|]. intros n a n'. destruct sock as [inner|]; cbn; unfold mbind, M_bind, mret, M_ret.
  - destruct (SockInner_write inner t msg n) as [[r inner']|e|]; [|done|done]. by intros [= <- _].
  - intros [= <- _]. split; [done|by eexists].
Qed.

Lemma okx_socket_read {B} `{Post B} t s Σ sock (k : _ → MW B) :
  tok Σ t → (∀ Σ' r sk, Σ ⊆ Σ' → socket_stays sock (r, sk) → okx t s Σ' (k (r, sk))) →
  okx t s Σ (io (Socket_read (T:=Message UID) sock) ≫= k).
Proof.
  intros Ht Hk. eapply (@okx_bind_ok _ _ (post_sat (socket_stays sock))); [done|apply ok_socket_read|].
  intros Σ' [r sk]. apply Hk.
Qed.

Lemma okx_socket_write {B} `{Post B} t s Σ sock tk (msg : option (Message UID * Priority)) (k : _ → MW B) :
  tok Σ t → (∀ Σ' r sk, Σ ⊆ Σ' → socket_stays sock (r, sk) → okx t s Σ' (k (r, sk))) →
  okx t s Σ (io (Socket_write sock tk msg) ≫= k).
Proof.
  intros Ht Hk. eapply (@okx_bind_ok _ _ (post_sat (socket_stays sock))); [done|apply ok_socket_write|].
  intros Σ' [r sk]. apply Hk.
Qed.

(** The connection map. *)
Lemma well_typed_cm Σ w (op : conn_op UID) cm' :
  well_typed Σ w → run_op op (w_cm w) = Done tt cm' →
  (∀ u t, op = Activate u t →
     ∃ r s, Σ !! r = Some s ∧ sh_kind s = KActive ∧ sh_token s = t ∧ sh_peer s = Some u) →
  well_typed Σ (set_cm cm' w).
Proof.
  intros Hw Hrun Hact. destruct Hw as [Wheap Wobjs Wunspent Wstates Wself Wfresh Wtokens Wbound Wtold
    Wjustified Wcm Wactive Wpeers Wlearners]. split; cbn; try done.
  - intros Hc. destruct (Wcm Hc) as [c Hr]. by eapply run_op_represents.
  - intros u t Ht. destruct (run_op_active op (w_cm w) cm' u t Hrun Ht) as [->|Ht']; [by apply Hact|by apply Wactive].
Qed.

Lemma ok_with_cm s Σ (op : conn_op UID) :
  match op with Activate _ _ => False | _ => True end → ok s Σ (with_cm (run_op op)).
Proof.
  intros Hop w Hw _. unfold with_cm, zoom. pose proof (clean_run_op op (w_cm w)).
  destruct (run_op op (w_cm w)) as [[] cm'|e|] eqn:E; [|congruence|done].
  exists Σ. split; [done|]. split; [|done]. eapply well_typed_cm; [done|exact E|]. by intros u t ->.
Qed.

(** An event adds to what the user has been told. *)
Definition ht_tell (ev : Event UID TcpBuilder) w Σ : HeapType UID :=
  mkHeapType (ht_shapes Σ) (ht_bound Σ) (w_events w ++ [ev]) (ht_peers Σ).

Lemma well_typed_tell Σ w ev :
  well_typed Σ w → allowed (ht_told Σ) ev →
  Σ ⊆ ht_tell ev w Σ ∧ well_typed (ht_tell ev w Σ) (set_events (w_events w ++ [ev]) w).
Proof.
  intros Hw Hev. assert (Σ ⊆ ht_tell ev w Σ) as Hsub.
  { split; [|done]. split; [|done]. split; [done|done| |done]. by apply prefix_app_r, (wt_told _ _ Hw). }
  split; [done|]. destruct Hw as [Wheap Wobjs Wunspent Wstates Wself Wfresh Wtokens Wbound Wtold
    Wjustified Wcm Wactive Wpeers Wlearners]. split; cbn; try done.
  - intros r o Ho. eapply pointers_ok_mono; [by apply ht_keeps_grows|by eapply Wobjs].
  - apply justified_snoc; [done|]. by eapply allowed_prefix.
Qed.

Lemma ok_send_event s Σ ev : allowed (ht_told Σ) ev → ok s Σ (send_event ev).
Proof.
  intros Hev w Hw _. destruct (well_typed_tell Σ w ev Hw Hev) as [Hsub Hw'].
  exists (ht_tell ev w Σ). split; [done|]. split; [done|]. split; [|done]. split; [done|]. by apply prefix_app_r.
Qed.

Lemma ok_set_config s Σ f : ok s Σ (modify (λ w, set_config (f w) w)).
Proof. by apply ok_untyped. Qed.

Lemma ok_set_listeners s Σ l : ok s Σ (modify (set_listeners l)).
Proof. by apply ok_untyped. Qed.

Lemma ok_set_threads s Σ f : ok s Σ (modify (λ w, set_threads (f w) w)).
Proof. by apply ok_untyped. Qed.

Lemma ok_set_timeout s Σ i t : ok s Σ (set_timeout i t).
Proof. apply ok_untyped, untyped_set_timeout. Qed.

Lemma ok_cancel_timeout s Σ t : ok s Σ (cancel_timeout t).
Proof. apply ok_io, clean_call. Qed.

Lemma ok_channels s Σ c v :
  ok s Σ channel ∧ ok s Σ (channel_send c v) ∧ ok s Σ (channel_drain c) ∧ ok s Σ (channel_drop c).
Proof.
  split_and!; apply ok_untyped; intros w; [done| |done|done].
  unfold channel_send. by destruct (w_channels w !! c).
Qed.

Lemma ok_remove_state s Σ t : ok s Σ (remove_state t).
Proof.
  intros w Hw _. exists Σ. split; [done|]. split; [|done]. destruct Hw as [Wheap Wobjs Wunspent Wstates Wself Wfresh Wtokens Wbound Wtold
    Wjustified Wcm Wactive Wpeers Wlearners].
  split; try done. cbn. intros t' r [_ Hr]%lookup_delete_Some. by apply Wstates.
Qed.

Lemma ok_insert_state s Σ t r :
  (∃ s', Σ !! r = Some s' ∧ sh_token s' = t) → ok s Σ (insert_state t r).
Proof.
  intros Hr w Hw _. exists Σ. split; [done|]. split; [|done]. destruct Hw as [Wheap Wobjs Wunspent Wstates Wself Wfresh Wtokens Wbound Wtold
    Wjustified Wcm Wactive Wpeers Wlearners].
  split; try done. cbn. intros t' r' [[<- <-]|[_ Hr']]%lookup_insert_Some; [done|by apply Wstates].
Qed.

Lemma ok_get_state s Σ t : ok s Σ (get_state t).
Proof.
  intros w Hw _. exists Σ. split; [done|]. split; [done|]. split; [done|]. cbn.
  destruct (w_states w !! t) as [r|] eqn:Hr; [|done].
  destruct (wt_states _ _ Hw _ _ Hr) as (s' & ? & _). by exists s'.
Qed.

(** *** New tokens *)

(** Giving a meaning to tokens leaves the state well typed. *)
Lemma well_typed_retype Σ Σ' w :
  well_typed Σ w → Σ ⊆ Σ' → ht_shapes Σ' = ht_shapes Σ → ht_told Σ' = ht_told Σ →
  (overflow_checks = true → ht_bound Σ' ≤ w_token_counter w) →
  (overflow_checks = true → ∀ t u, ht_peers Σ' !! t = Some u → t < ht_bound Σ') →
  well_typed Σ' w.
Proof.
  intros [Wheap Wobjs Wunspent Wstates Wself Wfresh Wtokens Wbound Wtold
    Wjustified Wcm Wactive Wpeers Wlearners] Hs Hsh Htold Hb Hp. pose proof (ht_keeps_grows _ _ Hs) as Hg.
  assert (∀ r, Σ' !! r = Σ !! r) as Hl by (intros r; unfold lookup, HeapType_lookup; by rewrite Hsh).
  split; try done.
  - by rewrite Hsh.
  - intros r o Ho. eapply pointers_ok_mono; [exact Hg|by eapply Wobjs].
  - intros r o Ho Hn. eapply unspent_mono; [exact Hs|by eapply Wunspent].
  - intros t r Hr. setoid_rewrite Hl. by apply Wstates.
  - intros r s r'. rewrite Hl. apply Wself.
  - intros r. rewrite Hl. apply Wfresh.
  - intros r s. rewrite Hl. intros Hr. eapply tok_mono; [exact Hg|by eapply Wtokens].
  - intros Hc. destruct (Wbound Hc). pose proof (hg_bound _ _ Hg). specialize (Hb Hc). lia.
  - by rewrite Htold.
  - by eapply active_ok_mono.
  - intros Hc r r' s s'. rewrite !Hl. by apply Wlearners.
Qed.

Definition ht_bump (t : Token) Σ : HeapType UID :=
  mkHeapType (ht_shapes Σ) (Z.max (ht_bound Σ) (t + 1)) (ht_told Σ) (ht_peers Σ).
Definition ht_assign (t : Token) (u : UID) Σ : HeapType UID :=
  mkHeapType (ht_shapes Σ) (ht_bound Σ) (ht_told Σ) (<[t := u]> (ht_peers Σ)).

Lemma ht_bump_keeps t Σ : Σ ⊆ ht_bump t Σ.
Proof. split; [|done]. split; [|done]. split; cbn; [done|lia|done|done]. Qed.

Lemma tok_bump Σ t w : fresh Σ t w → tok (ht_bump t Σ) t.
Proof. intros Hf Hc. destruct (Hf Hc). right. cbn. lia. Qed.

Lemma well_typed_bump Σ t w : well_typed Σ w → fresh Σ t w → well_typed (ht_bump t Σ) w.
Proof.
  intros Hw Hf. apply (well_typed_retype Σ); try done; [apply ht_bump_keeps|..]; cbn; intros Hc.
  - destruct (wt_bound _ _ Hw Hc), (Hf Hc). lia.
  - intros t' u Ht. pose proof (wt_peers _ _ Hw Hc t' u Ht). lia.
Qed.

(** A new token stands for a peer from the beginning. *)
Lemma well_typed_bump_assign Σ t u w :
  well_typed Σ w → fresh Σ t w →
  Σ ⊆ ht_assign t u (ht_bump t Σ) ∧ well_typed (ht_assign t u (ht_bump t Σ)) w.
Proof.
  intros Hw Hf. assert (Σ ⊆ ht_assign t u (ht_bump t Σ)) as Hs.
  { assert (overflow_checks = true → ∀ t', t' < ht_bound Σ → <[t:=u]> (ht_peers Σ) !! t' = ht_peers Σ !! t') as Hp.
    { intros Hc t' Ht'. destruct (Hf Hc). by rewrite lookup_insert_ne by lia. }
    split; [|done]. split; [|done]. split; cbn; [done|lia|done|]. intros Hc t' v Ht' Hv. by rewrite Hp. }
  split; [done|]. apply (well_typed_retype Σ); try done; cbn; intros Hc.
  - destruct (wt_bound _ _ Hw Hc), (Hf Hc). lia.
  - intros t' v [[<- _]|[_ Ht]]%lookup_insert_Some; [lia|]. pose proof (wt_peers _ _ Hw Hc t' v Ht). lia.
Qed.

Lemma ok_new_token {B} `{Post B} s Σ (k : Token → MW B) :
  (∀ t, okf t s Σ (k t)) → ok s Σ (get_new_token ≫= k).
Proof.
  intros Hk w Hw _. set (t := w_token_counter w).
  assert (∀ next, (overflow_checks = true → next = t + 1) →
    match k t (set_token_counter next w) with
    | Done a w' => ∃ Σ', Σ ⊆ Σ' ∧ well_typed Σ' w' ∧ follows w w' ∧ returns s Σ' a
    | Panicked e => e ≠ IllTyped
    | Diverged => True
    end) as Hrun.
  { intros next Hn. assert (well_typed Σ (set_token_counter next w)) as Hw1.
    { destruct Hw as [Wheap Wobjs Wunspent Wstates Wself Wfresh Wtokens Wbound Wtold
    Wjustified Wcm Wactive Wpeers Wlearners]. split; cbn; try done. intros Hc. rewrite (Hn Hc). destruct (Wbound Hc). unfold t. lia. }
    assert (fresh Σ t (set_token_counter next w)) as Hf.
    { intros Hc. destruct (wt_bound _ _ Hw Hc). cbn. rewrite (Hn Hc). unfold t. lia. }
    specialize (Hk t _ Hw1 Hf). destruct (k t _) as [b w2|e|]; [|done|done].
    destruct Hk as (Σ2 & H2 & Hw2 & [Hb2 He2] & Hb). exists Σ2. split; [done|]. by split. }
  unfold get_new_token, usize_succ, mbind, M_bind, gets, modify. fold t.
  destruct (t =? usize_modulus - 1), overflow_checks eqn:Ec; cbn; try done; by apply Hrun.
Qed.

Lemma okf_bump {A} `{Post A} t s Σ (m : MW A) :
  (∀ Σ', Σ ⊆ Σ' → tok Σ' t → ok s Σ' m) → okf t s Σ m.
Proof.
  intros Hm w Hw Hf. pose proof (ht_bump_keeps t Σ) as Hs.
  specialize (Hm _ Hs (tok_bump _ _ _ Hf) w (well_typed_bump _ _ _ Hw Hf) I).
  destruct (m w) as [a w'|e|]; [|done|done]. destruct Hm as (Σ' & Hs' & ?). exists Σ'. split; [by etrans|done].
Qed.

Lemma okf_assign {A} `{Post A} t u s Σ (m : MW A) :
  (∀ Σ', Σ ⊆ Σ' → tok Σ' t → assigned Σ' t u → ok s Σ' m) → okf t s Σ m.
Proof.
  intros Hm w Hw Hf. destruct (well_typed_bump_assign Σ t u w Hw Hf) as [Hs Hw'].
  assert (assigned (ht_assign t u (ht_bump t Σ)) t u) as Ha.
  { intros Hc. destruct (Hf Hc). cbn. rewrite lookup_insert_eq. split; [lia|done]. }
  specialize (Hm _ Hs (tok_bump _ _ _ Hf) Ha w Hw' I).
  destruct (m w) as [a w'|e|]; [|done|done]. destruct Hm as (Σ' & Hs' & ?). exists Σ'. split; [by etrans|done].
Qed.

Lemma ok_get_new_token {B} `{Post B} s Σ (k : Token → MW B) :
  (∀ Σ' t, Σ ⊆ Σ' → tok Σ' t → ok s Σ' (k t)) → ok s Σ (get_new_token ≫= k).
Proof. intros Hk. apply ok_new_token. intros t. apply okf_bump. intros Σ'. apply Hk. Qed.

Lemma ok_get_new_token_for {B} `{Post B} u s Σ (k : Token → MW B) :
  (∀ Σ' t, Σ ⊆ Σ' → tok Σ' t → assigned Σ' t u → ok s Σ' (k t)) → ok s Σ (get_new_token ≫= k).
Proof. intros Hk. apply ok_new_token. intros t. apply (okf_assign t u). intros Σ'. apply Hk. Qed.

(** The handler that holds the state with the token [t] lets it stand for [u]. *)
Lemma okx_assign {A} `{Post A} t u s Σ (m : MW A) :
  unassigned Σ t → (∀ Σ', ht_goes Σ Σ' → assigned Σ' t u → ok s Σ' m) → okx t s Σ m.
Proof.
  intros Hu Hm w Hw Hmine. set (Σ' := ht_assign t u Σ).
  assert (ht_goes Σ Σ') as Hs.
  { split; [|done]. split; cbn; try done. intros Hc t' v _ Hv. destruct (Hu Hc) as [_ Hn].
    rewrite lookup_insert_ne; [done|]. intros ->. congruence. }
  assert (assigned Σ' t u) as Ha.
  { intros Hc. destruct (Hu Hc). cbn. by rewrite lookup_insert_eq. }
  assert (well_typed Σ' w) as Hw'.
  { pose proof Hw as Hw0. destruct Hw as [Wheap Wobjs Wunspent Wstates Wself Wfresh Wtokens Wbound Wtold
    Wjustified Wcm Wactive Wpeers Wlearners]. split; cbn; try done.
    - intros r o Ho. eapply pointers_ok_mono; [apply Hs|by eapply Wobjs].
    - intros r o Ho Hn. specialize (Wunspent r o Ho Hn).
      destruct (learns (kind o)) eqn:Hl; [|by apply unspent_trivial].
      assert (overflow_checks = true → state_token o ≠ t) as Hne.
      { intros Hc <-. apply Hn, (Hmine Hc r (shape o)); [|done|done].
        unfold lookup, HeapType_lookup. by rewrite <- Wheap, lookup_fmap, Ho. }
      destruct o; try discriminate Hl; cbn in *; intros Hsock Hc; destruct (Wunspent Hsock Hc);
        (split; [done|]); cbn; rewrite lookup_insert_ne; (done || (intros Ht; by apply (Hne Hc))).
    - intros Hc t' v [[<- _]|[_ Ht]]%lookup_insert_Some; [by apply (Hu Hc)|by eapply Wpeers]. }
  specialize (Hm Σ' Hs Ha w Hw' I). destruct (m w) as [a w'|e|]; [|done|done].
  destruct Hm as (Σ2 & Hs2 & ?). exists Σ2. split; [|done]. etrans; [exact Hs|by apply ht_keeps_goes].
Qed.

(** *** New states *)

Lemma well_typed_new Σ w o :
  let r := w_next_rc w in
  let Σ' := <[r := shape o]> Σ in
  well_typed Σ w → (∀ r', self_weak o = Some r' → r' = r) → pointers_ok Σ' o → tok Σ (state_token o) →
  unspent Σ o →
  (overflow_checks = true → learns (kind o) = true →
     ∀ r s, Σ !! r = Some s → learns (sh_kind s) = true → sh_token s ≠ state_token o) →
  well_typed Σ' (set_next_rc (S r) (set_heap (<[r := o]> (w_heap w)) w)).
Proof.
  intros r Σ' Hw Hself Ho Htok Hu Hnew.
  assert (Σ ⊑ Σ') as Hsub by (apply ht_insert_grows, (wt_fresh _ _ Hw); lia).
  destruct Hw as [Wheap Wobjs Wunspent Wstates Wself Wfresh Wtokens Wbound Wtold
    Wjustified Wcm Wactive Wpeers Wlearners]. split; cbn; try done.
  - by rewrite fmap_insert, Wheap.
  - intros r' o' [[<- <-]|[_ Hr]]%lookup_insert_Some; [done|]. eapply pointers_ok_mono; [done|by eapply Wobjs].
  - intros r' o' [[<- <-]|[_ Hr]]%lookup_insert_Some; [done|]. by eapply Wunspent.
  - intros t r' (s' & Hr & Ht)%Wstates. exists s'. split; [by eapply ht_weaken|done].
  - intros r' s' r'' [[-> ->]|Hr]%ht_insert_inv; [apply Hself|by eapply Wself].
  - intros r' Hr. unfold Σ'. change (<[r:=shape o]> (ht_shapes Σ) !! r' = None).
    rewrite lookup_insert_ne by (unfold r; lia). apply Wfresh. lia.
  - intros r' s' [[-> ->]|Hr]%ht_insert_inv; [exact Htok|by eapply Wtokens].
  - by eapply active_ok_mono.
  - intros Hc r1 r2 s1 s2 [[-> ->]|H1]%ht_insert_inv [[-> ->]|H2]%ht_insert_inv Hl1 Hl2 Ht; [done| | |].
    + by destruct (Hnew Hc Hl1 r2 s2 H2 Hl2).
    + by destruct (Hnew Hc Hl2 r1 s1 H1 Hl1).
    + by eapply (Wlearners Hc).
Qed.

Lemma ok_new_self {B} `{Post B} s Σ (o : rc → StateObj UID) (k : rc → rc → MW B) :
  (∀ r, self_weak (o r) = Some r) → (∀ r, learns (kind (o r)) = false) → (∀ r, tok Σ (state_token (o r))) →
  (∀ Σ' r, Σ ⊆ Σ' → Σ' !! r = Some (shape (o r)) → pointers_ok Σ' (o r)) →
  (∀ Σ' r, Σ ⊆ Σ' → Σ' !! r = Some (shape (o r)) → ok s Σ' (k r r)) →
  ok s Σ (r ← gets w_next_rc; r' ← rc_new (o r); k r r').
Proof.
  intros Hself Hl Htok Ho Hk w Hw _. unfold mbind, M_bind, gets, rc_new. set (r := w_next_rc w).
  assert (<[r := shape (o r)]> Σ !! r = Some (shape (o r))) as Hr by apply ht_insert_eq.
  assert (Σ ⊆ <[r := shape (o r)]> Σ) as Hsub by (apply ht_insert_keeps; [by apply (wt_fresh _ _ Hw)|apply Hl]).
  assert (well_typed (<[r := shape (o r)]> Σ) (set_next_rc (S r) (set_heap (<[r := o r]> (w_heap w)) w))) as Hw'.
  { apply well_typed_new; [done| |by apply Ho|apply Htok|by apply unspent_trivial|by rewrite Hl].
    rewrite Hself. by intros r' [= <-]. }
  specialize (Hk _ r Hsub Hr _ Hw' I). destruct (k r r _) as [b w2|e|]; [|done|done].
  destruct Hk as (Σ2 & H2 & Hw2 & [Hb2 He2] & Hb). exists Σ2. split; [by etrans|]. by split.
Qed.

Lemma ok_new {B} `{Post B} s Σ o (k : rc → MW B) :
  self_weak o = None → learns (kind o) = false → pointers_ok Σ o → tok Σ (state_token o) →
  (∀ Σ' r, Σ ⊆ Σ' → Σ' !! r = Some (shape o) → ok s Σ' (k r)) → ok s Σ (rc_new o ≫= k).
Proof.
  intros Hself Hl Ho Htok Hk w Hw _. unfold mbind, M_bind, rc_new. set (r := w_next_rc w).
  assert (Σ ⊆ <[r := shape o]> Σ) as Hsub by (apply ht_insert_keeps; [by apply (wt_fresh _ _ Hw)|done]).
  assert (well_typed (<[r := shape o]> Σ) (set_next_rc (S r) (set_heap (<[r := o]> (w_heap w)) w))) as Hw'.
  { apply well_typed_new; [done|by rewrite Hself| |done|by apply unspent_trivial|congruence].
    eapply pointers_ok_mono; [by apply ht_keeps_grows|done]. }
  specialize (Hk _ r Hsub (ht_insert_eq _ _ _) _ Hw' I). destruct (k r _) as [b w2|e|]; [|done|done].
  destruct Hk as (Σ2 & H2 & Hw2 & [Hb2 He2] & Hb). exists Σ2. split; [by etrans|]. by split.
Qed.

(** A new state that is to learn its peer, under a new token. *)
Lemma well_typed_learner Σ w o :
  let t := state_token o in
  let r := w_next_rc w in
  let Σ' := <[r := shape o]> (ht_bump t Σ) in
  well_typed Σ w → fresh Σ t w → (∀ r', self_weak o = Some r' → r' = r) → pointers_ok Σ' o →
  Σ ⊆ Σ' ∧ well_typed Σ' (set_next_rc (S r) (set_heap (<[r := o]> (w_heap w)) w)).
Proof.
  intros t r Σ' Hw Hf Hself Ho. pose proof (ht_bump_keeps t Σ) as Hs. assert (Σ !! r = None) as Hr.
  { by apply (wt_fresh _ _ Hw). }
  assert (overflow_checks = true → ∀ r s, Σ !! r = Some s → sh_token s ≠ t) as Hnew.
  { intros Hc r' s' Hr' Ht. destruct (Hf Hc), (wt_tokens _ _ Hw _ _ Hr' Hc); lia. }
  assert (unassigned (ht_bump t Σ) t) as Hu.
  { intros Hc. destruct (Hf Hc). cbn. split; [lia|]. destruct (ht_peers Σ !! t) as [u|] eqn:E; [|done].
    pose proof (wt_peers _ _ Hw Hc t u E). lia. }
  split.
  - split; [|done]. split.
    + etrans; [by apply ht_keeps_grows|]. by apply ht_insert_grows.
    + intros Hc r' s' [[-> ->]|Hr']%ht_insert_inv _ Ht; [|done]. destruct (Hf Hc). cbn in Ht. fold t in Ht. lia.
  - apply well_typed_new; [by apply well_typed_bump|done|done|by eapply tok_bump| |].
    + destruct o; try done; by intros _.
    + intros Hc _ r' s' Hr' _. by apply (Hnew Hc r').
Qed.

Lemma okf_new {B} `{Post B} s Σ o (k : rc → MW B) :
  self_weak o = None → pointers_ok Σ o →
  (∀ Σ' r, Σ ⊆ Σ' → Σ' !! r = Some (shape o) → ok s Σ' (k r)) → okf (state_token o) s Σ (rc_new o ≫= k).
Proof.
  intros Hself Ho Hk w Hw Hf. unfold mbind, M_bind, rc_new. set (r := w_next_rc w).
  destruct (well_typed_learner Σ w o Hw Hf) as [Hsub Hw']; [by rewrite Hself| |].
  { eapply pointers_ok_mono; [|exact Ho]. etrans; [apply ht_keeps_grows, ht_bump_keeps|].
    apply ht_insert_grows, (wt_fresh _ _ Hw). done. }
  specialize (Hk _ r Hsub (ht_insert_eq _ _ _) _ Hw' I). destruct (k r _) as [b w2|e|]; [|done|done].
  destruct Hk as (Σ2 & H2 & Hw2 & [Hb2 He2] & Hb). exists Σ2. split; [by etrans|]. by split.
Qed.

Lemma okf_new_self {B} `{Post B} t s Σ (o : rc → StateObj UID) (k : rc → rc → MW B) :
  (∀ r, self_weak (o r) = Some r) → (∀ r, state_token (o r) = t) →
  (∀ Σ' r, Σ' !! r = Some (shape (o r)) → pointers_ok Σ' (o r)) →
  (∀ Σ' r, Σ ⊆ Σ' → Σ' !! r = Some (shape (o r)) → ok s Σ' (k r r)) →
  okf t s Σ (r ← gets w_next_rc; r' ← rc_new (o r); k r r').
Proof.
  intros Hself Ht Ho Hk w Hw Hf. unfold mbind, M_bind, gets, rc_new. set (r := w_next_rc w).
  destruct (well_typed_learner Σ w (o r) Hw) as [Hsub Hw']; [by rewrite Ht| |by apply Ho, ht_insert_eq|].
  { rewrite Hself. by intros r' [= <-]. }
  specialize (Hk _ r Hsub (ht_insert_eq _ _ _) _ Hw' I). destruct (k r r _) as [b w2|e|]; [|done|done].
  destruct Hk as (Σ2 & H2 & Hw2 & [Hb2 He2] & Hb). exists Σ2. split; [by etrans|]. by split.
Qed.

(** *** Borrows *)

(** What a pointer points to. *)
Lemma well_typed_cell Σ w r :
  well_typed Σ w → is_Some (Σ !! r) → w_borrows w !! r ≠ Some Writing →
  ∃ o, w_heap w !! r = Some o ∧ Σ !! r = Some (shape o) ∧ has Σ (shape o) o.
Proof.
  intros Hw [s' Hr] Hb. pose proof Hr as Hr'. unfold lookup, HeapType_lookup in Hr'.
  rewrite <- (wt_heap _ _ Hw), lookup_fmap in Hr'.
  destruct (w_heap w !! r) as [o|] eqn:Ho; [|done]. injection Hr' as <-.
  exists o. split; [done|]. split; [done|]. split; [done|]. split; [by eapply wt_objs|].
  split; [by eapply wt_tokens|by eapply wt_unspent].
Qed.

(** Borrowing only takes obligations away. *)
Lemma well_typed_borrows Σ w b :
  well_typed Σ w → (∀ r, b !! r ≠ Some Writing → w_borrows w !! r ≠ Some Writing) →
  well_typed Σ (set_borrows b w).
Proof. intros [Wheap Wobjs Wunspent Wstates Wself Wfresh Wtokens Wbound Wtold
    Wjustified Wcm Wactive Wpeers Wlearners] Hb. split; try done. cbn. intros r o Ho Hr. eapply Wunspent; [exact Ho|by apply Hb]. Qed.

Lemma well_typed_writing Σ w r : well_typed Σ w → well_typed Σ (set_borrows (<[r := Writing]> (w_borrows w)) w).
Proof.
  intros Hw. apply well_typed_borrows; [done|]. intros r' Hr'. destruct (decide (r' = r)) as [->|Hne].
  - by rewrite lookup_insert_eq in Hr'.
  - by rewrite lookup_insert_ne in Hr'.
Qed.

(** The end of a borrow of [r], which is now [o]. *)
Lemma well_typed_put Σ w r o :
  well_typed Σ w → Σ !! r = Some (shape o) → pointers_ok Σ o → unspent Σ o →
  well_typed Σ (set_borrows (delete r (w_borrows w)) (set_heap (<[r := o]> (w_heap w)) w)).
Proof.
  intros [Wheap Wobjs Wunspent Wstates Wself Wfresh Wtokens Wbound Wtold
    Wjustified Wcm Wactive Wpeers Wlearners] Hr Ho Hu. split; cbn; try done.
  - rewrite fmap_insert, Wheap. by apply (insert_id (ht_shapes Σ)).
  - intros r' o' [[<- <-]|[_ Hr']]%lookup_insert_Some; [done|by eapply Wobjs].
  - intros r' o' [[<- <-]|[Hne Hr']]%lookup_insert_Some; [done|]. rewrite lookup_delete_ne by done.
    by eapply Wunspent.
Qed.

(** A borrow whose body returns the new state and a value; [P] holds before and
    [Q] in the body. *)
Lemma runs_with_borrow_mut_val {A} (sub : relation (HeapType UID)) P Q s Σ r (f : StateObj UID → MW (A * StateObj UID)) :
  (∀ Σ Σ', sub Σ Σ' → Σ ⊑ Σ') → is_Some (Σ !! r) →
  (∀ o, Σ !! r = Some (shape o) → has Σ (shape o) o →
     (∀ w, well_typed Σ w → P w → Q o (set_borrows (<[r := Writing]> (w_borrows w)) w)) ∧
     runs sub (Q o) (shape o) Σ (f o)) →
  @runs A (post_any A) sub P s Σ (with_borrow_mut_val r f).
Proof.
  intros Hgrows Hr Hf w Hw Hp. unfold with_borrow_mut_val, mbind, M_bind, gets.
  destruct (w_borrows w !! r) as [b|] eqn:Hb; [done|]. unfold modify. cbn.
  destruct (well_typed_cell Σ w r Hw Hr) as (o & Ho & Hs & Hhas); [by rewrite Hb|]. rewrite Ho. cbn.
  destruct (Hf o Hs Hhas) as [HQ Hrun]. specialize (Hrun _ (well_typed_writing Σ w r Hw) (HQ w Hw Hp)).
  destruct (f o _) as [[a o'] w1|e|]; [|done|done].
  destruct Hrun as (Σ1 & H1 & Hw1 & [Hb1 He1] & Hs1 & Hp1 & _ & Hu1). cbn. exists Σ1. split; [done|]. split.
  - apply well_typed_put; [done| |done|done]. change (shape o' = shape o) in Hs1. rewrite Hs1.
    eapply ht_weaken; [done|by apply Hgrows].
  - split; [|done]. split; [|exact He1]. cbn. rewrite Hb1. cbn. by rewrite delete_insert_id.
Qed.

Lemma runs_with_borrow_mut (sub : relation (HeapType UID)) `{!PreOrder sub} P Q s Σ r (f : StateObj UID → MW (StateObj UID)) :
  (∀ Σ Σ', sub Σ Σ' → Σ ⊑ Σ') → is_Some (Σ !! r) →
  (∀ o, Σ !! r = Some (shape o) → has Σ (shape o) o →
     (∀ w, well_typed Σ w → P w → Q o (set_borrows (<[r := Writing]> (w_borrows w)) w)) ∧
     runs sub (Q o) (shape o) Σ (f o)) →
  runs sub P s Σ (with_borrow_mut r f).
Proof.
  intros Hgrows Hr Hf.
  assert (runs sub P s Σ (with_borrow_mut_val r (λ o, o' ← f o; mret (tt, o')))) as Hval.
  { apply (runs_with_borrow_mut_val sub P Q); [done|done|]. intros o Hs Ho. destruct (Hf o Hs Ho) as [HQ Hrun].
    split; [done|]. apply (runs_bind sub sub (Q o) (λ _ _, True)); [|done|exact Hrun|].
    - intros Σ1 Σ2 Σ3. apply transitivity.
    - intros Σ' o' _ Ho'. by apply runs_ret. }
  intros w Hw Hp. specialize (Hval w Hw Hp). revert Hval.
  unfold with_borrow_mut_val, with_borrow_mut, mbind, M_bind, gets, modify.
  destruct (w_borrows w !! r); [done|]. cbn. destruct (deref _ _) as [o w1|e|]; [|done|done].
  by destruct (f o w1).
Qed.

Lemma ok_with_borrow_mut_val {A} s Σ r (f : StateObj UID → MW (A * StateObj UID)) :
  is_Some (Σ !! r) → (∀ o, Σ !! r = Some (shape o) → has Σ (shape o) o → ok (shape o) Σ (f o)) →
  @ok A (post_any A) s Σ (with_borrow_mut_val r f).
Proof.
  intros Hr Hf. apply (runs_with_borrow_mut_val _ _ (λ _ _, True)); [exact ht_keeps_grows|done|].
  intros o Hs Ho. split; [done|by apply Hf].
Qed.

Lemma ok_with_borrow_mut s Σ r (f : StateObj UID → MW (StateObj UID)) :
  is_Some (Σ !! r) → (∀ o, Σ !! r = Some (shape o) → has Σ (shape o) o → ok (shape o) Σ (f o)) →
  ok s Σ (with_borrow_mut r f).
Proof.
  intros Hr Hf. apply (runs_with_borrow_mut _ _ (λ _ _, True)); [exact ht_keeps_grows|done|].
  intros o Hs Ho. split; [done|by apply Hf].
Qed.

(** The state that a handler runs on is held by it. *)
Lemma okw_with_borrow_mut s Σ r (f : StateObj UID → MW (StateObj UID)) :
  is_Some (Σ !! r) →
  (∀ o, Σ !! r = Some (shape o) → has Σ (shape o) o →
     if learns (kind o) then okx (state_token o) (shape o) Σ (f o) else okw (shape o) Σ (f o)) →
  okw s Σ (with_borrow_mut r f).
Proof.
  intros Hr Hf. apply (runs_with_borrow_mut _ _
    (λ o w, learns (kind o) = true → mine Σ (state_token o) w)); [exact ht_goes_grows|done|].
  intros o Hs Ho. specialize (Hf o Hs Ho). split.
  - intros w Hw _ Hl Hc r' s' Hr' Hl' Ht. cbn.
    rewrite (wt_learners _ _ Hw Hc r' r s' (shape o) Hr' Hs Hl' Hl Ht). apply lookup_insert_eq.
  - destruct (learns (kind o)); [by eapply runs_weaken; [| |exact Hf]; [|auto]|by eapply runs_weaken; [| |exact Hf]].
Qed.

(** What a handler holds it still holds in the handlers it calls. *)
Lemma mine_writing Σ t w r : mine Σ t w → mine Σ t (set_borrows (<[r := Writing]> (w_borrows w)) w).
Proof.
  intros Hm Hc r' s' Hr' Hl Ht. cbn. destruct (decide (r' = r)) as [->|]; [apply lookup_insert_eq|].
  rewrite lookup_insert_ne by done. by eapply Hm.
Qed.

Lemma okx_with_borrow_mut t s Σ r (f : StateObj UID → MW (StateObj UID)) :
  is_Some (Σ !! r) → (∀ o, Σ !! r = Some (shape o) → has Σ (shape o) o → okx t (shape o) Σ (f o)) →
  okx t s Σ (with_borrow_mut r f).
Proof.
  intros Hr Hf. apply (runs_with_borrow_mut _ _ (λ _ w, mine Σ t w)); [exact ht_goes_grows|done|].
  intros o Hs Ho. split; [|by apply Hf]. intros w _. apply mine_writing.
Qed.

(** The borrows that only look at the state. *)
Lemma ok_with_borrow_mut_ref {A} `{Post A} s Σ r (f : StateObj UID → MW A) :
  is_Some (Σ !! r) → (∀ o, Σ !! r = Some (shape o) → has Σ (shape o) o → ok s Σ (f o)) →
  (∀ o w a w', learns (kind o) = true → f o w = Done a w' → w_heap w' = w_heap w) →
  ok s Σ (with_borrow_mut_ref r f).
Proof.
  intros Hr Hf Hheap w Hw _. unfold with_borrow_mut_ref, mbind, M_bind, gets.
  destruct (w_borrows w !! r) as [b|] eqn:Hb; [done|]. unfold modify. cbn.
  destruct (well_typed_cell Σ w r Hw Hr) as (o & Ho & Hs & Hhas); [by rewrite Hb|]. rewrite Ho. cbn.
  specialize (Hf o Hs Hhas _ (well_typed_writing Σ w r Hw) I).
  set (w0 := set_borrows (<[r:=Writing]> (w_borrows w)) w) in *.
  destruct (f o w0) as [a w1|e|] eqn:E; [|done|done]. destruct Hf as (Σ1 & H1 & Hw1 & [Hb1 He1] & Ha).
  exists Σ1. split; [done|]. split; [|split; [|done]].
  - destruct Hw1 as [Wheap Wobjs Wunspent Wstates Wself Wfresh Wtokens Wbound Wtold
    Wjustified Wcm Wactive Wpeers Wlearners]. split; try done. cbn. intros r' o' Ho' Hr'. destruct (decide (r' = r)) as [->|Hne].
    + destruct (learns (kind o')) eqn:Hl; [|by apply unspent_trivial].
      assert (shape o' = shape o) as Hsh.
      { apply (ht_weaken _ Σ1) in Hs; [|by apply ht_keeps_grows]. unfold lookup, HeapType_lookup in Hs.
        rewrite <- Wheap, lookup_fmap, Ho' in Hs. by apply (inj Some) in Hs. }
      assert (learns (kind o) = true) as Hl0. { change (learns (sh_kind (shape o)) = true). by rewrite <- Hsh. }
      rewrite (Hheap o w0 a w1 Hl0 E) in Ho'. cbn in Ho'. rewrite Ho in Ho'. injection Ho' as <-.
      eapply unspent_mono; [exact H1|apply Hhas].
    + rewrite lookup_delete_ne in Hr' by done. by eapply Wunspent.
  - split; [|exact He1]. cbn. rewrite Hb1. cbn. by rewrite delete_insert_id.
Qed.

Lemma ok_with_borrow {A} `{Post A} s Σ r (f : StateObj UID → MW A) :
  is_Some (Σ !! r) → (∀ o, Σ !! r = Some (shape o) → has Σ (shape o) o → ok s Σ (f o)) →
  ok s Σ (with_borrow r f).
Proof.
  intros Hr Hf w Hw _. unfold with_borrow, mbind, M_bind, gets.
  assert (w_borrows w !! r ≠ Some Writing → match (modify (λ w, set_borrows (<[r:=Reading]> (w_borrows w)) w) ;;
     cell ← gets (λ w, w_heap w !! r); o ← deref cell; a ← f o;
     modify (λ w', set_borrows (partial_alter (λ _, w_borrows w !! r) r (w_borrows w')) w') ;;
     mret a) w with
    | Done a w' => ∃ Σ', Σ ⊆ Σ' ∧ well_typed Σ' w' ∧ follows w w' ∧ returns s Σ' a
    | Panicked e => e ≠ IllTyped
    | Diverged => True
    end) as Hrun.
  { intros Hnw. destruct (well_typed_cell Σ w r Hw Hr Hnw) as (o & Ho & Hs & Hhas).
    assert (well_typed Σ (set_borrows (<[r:=Reading]> (w_borrows w)) w)) as Hw0.
    { apply well_typed_borrows; [done|]. intros r' Hr'. destruct (decide (r' = r)) as [->|Hne]; [done|].
      by rewrite lookup_insert_ne in Hr'. }
    unfold mbind, M_bind, gets, modify. cbn. rewrite Ho. cbn. specialize (Hf o Hs Hhas _ Hw0 I).
    destruct (f o _) as [a w1|e|]; [|done|done].
    destruct Hf as (Σ1 & H1 & Hw1 & [Hb1 He1] & Ha). cbn in Hb1.
    assert (partial_alter (λ _, w_borrows w !! r) r (w_borrows w1) = w_borrows w) as Hback.
    { rewrite Hb1. apply map_eq. intros r'. destruct (decide (r' = r)) as [->|].
      - by rewrite lookup_partial_alter_eq.
      - by rewrite lookup_partial_alter_ne, lookup_insert_ne. }
    exists Σ1. split; [done|]. split; [|by split; [split; [exact Hback|exact He1]|]].
    apply well_typed_borrows; [done|]. rewrite Hback, Hb1. intros r' Hr'.
    destruct (decide (r' = r)) as [->|]; [by rewrite lookup_insert_eq|by rewrite lookup_insert_ne]. }
  destruct (w_borrows w !! r) as [[]|]; [done|by apply Hrun|by apply Hrun].
Qed.

(** The borrows of a pointer whose kind is known. *)
Lemma points_to_kind Σ r k o : points_to Σ r k → Σ !! r = Some (shape o) → kind o = k.
Proof. intros (s & Hr & <-) Hs. rewrite Hr in Hs. by injection Hs as ->. Qed.

Lemma leads_to_peer Σ r u x : leads_to Σ r u → Σ !! r = Some (shape (StConnect x)) → cn_their_id x = u.
Proof. intros (s & Hr & _ & Hp) Hs. rewrite Hr in Hs. injection Hs as ->. cbn in Hp. by injection Hp. Qed.

(** The peer of an attempt to connect does not change. *)
Lemma has_peer Σ Σ' s x x' : has Σ s (StConnect x) → has Σ' s (StConnect x') → cn_their_id x' = cn_their_id x.
Proof. intros (<- & _) (Hs & _). by injection Hs. Qed.

Lemma ok_down s Σ r k (f : StateObj UID → MW (StateObj UID)) :
  points_to Σ r k → (∀ o, kind o = k → has Σ (shape o) o → ok (shape o) Σ (f o)) →
  ok s Σ (with_borrow_mut r f).
Proof.
  intros Hr Hf. apply ok_with_borrow_mut; [by eapply points_to_allocated|]. intros o Hs. apply Hf.
  by eapply points_to_kind.
Qed.

Lemma ok_down_connect s Σ r u (f : ConnectState UID → MW (ConnectState UID)) :
  leads_to Σ r u → (∀ x, cn_their_id x = u → has Σ (shape (StConnect x)) (StConnect x) →
                         ok (shape (StConnect x)) Σ (f x)) →
  ok s Σ (with_borrow_mut r (as_connect f)).
Proof.
  intros Hr Hf. apply ok_with_borrow_mut; [by eapply points_to_allocated, leads_to_points|]. intros o Hs Ho.
  pose proof (points_to_kind _ _ _ _ (leads_to_points _ _ _ Hr) Hs) as Hk. destruct o; try discriminate Hk.
  cbn. eapply ok_bind; [apply Hf; [by eapply leads_to_peer|done]|]. intros Σ' x' _ Hx'. by apply ok_ret.
Qed.

Lemma okx_down t s Σ r k (f : StateObj UID → MW (StateObj UID)) :
  points_to Σ r k → (∀ o, kind o = k → has Σ (shape o) o → okx t (shape o) Σ (f o)) →
  okx t s Σ (with_borrow_mut r f).
Proof.
  intros Hr Hf. apply okx_with_borrow_mut; [by eapply points_to_allocated|]. intros o Hs. apply Hf.
  by eapply points_to_kind.
Qed.

Lemma ok_down_look {A} `{Post A} s Σ r k (f : StateObj UID → MW A) :
  points_to Σ r k → (∀ o, kind o = k → has Σ (shape o) o → ok s Σ (f o)) →
  ok s Σ (with_borrow r f).
Proof.
  intros Hr Hf. apply ok_with_borrow; [by eapply points_to_allocated|]. intros o Hs. apply Hf.
  by eapply points_to_kind.
Qed.

Lemma new_points_to Σ r o : Σ !! r = Some (shape o) → points_to Σ r (kind o).
Proof. intros Hr. by exists (shape o). Qed.

Lemma new_leads_to Σ r x : Σ !! r = Some (shape (StConnect x)) → leads_to Σ r (cn_their_id x).
Proof. intros Hr. by exists (shape (StConnect x)). Qed.

(** A handler run on what is registered under a token. *)
Lemma ok_on_state s Σ t (f : StateObj UID → MW (StateObj UID)) :
  (∀ Σ' o, has Σ' (shape o) o → ok (shape o) Σ' (f o)) →
  ok s Σ (state ← get_state t;
          match state with Some r => with_borrow_mut r f | None => mret tt end).
Proof.
  intros Hf. eapply ok_bind; [apply ok_get_state|]. intros Σ1 [r|] _ Hr; [|by apply ok_ret].
  apply ok_with_borrow_mut; [exact Hr|]. intros o _. apply Hf.
Qed.

Lemma okw_on_state s Σ t (f : StateObj UID → MW (StateObj UID)) :
  (∀ Σ' o, has Σ' (shape o) o →
     if learns (kind o) then okx (state_token o) (shape o) Σ' (f o) else okw (shape o) Σ' (f o)) →
  okw s Σ (state ← get_state t;
           match state with Some r => with_borrow_mut r f | None => mret tt end).
Proof.
  intros Hf. eapply okw_bind; [apply okw_ok, ok_get_state|]. intros Σ1 [r|] _ Hr; [|by apply okw_ret].
  apply okw_with_borrow_mut; [exact Hr|]. intros o _. apply Hf.
Qed.

(** *** Loops *)

Lemma ok_for_each {A} s Σ (body : A → MW unit) l :
  (∀ Σ' a, Σ ⊆ Σ' → a ∈ l → ok s Σ' (body a)) → ok s Σ (for_each body l).
Proof.
  revert Σ. induction l as [|x l IH]; intros Σ Hb; [by apply ok_ret|].
  cbn [for_each]. eapply ok_bind; [apply Hb; [done|left]|]. intros Σ1 [] Hs _. apply IH.
  intros Σ2 a Hs2 Ha. apply Hb; [by etrans|by right].
Qed.

Lemma ok_fold_loop {A B} `{Post B} s Σ (body : B → A → MW B) l : ∀ b,
  (∀ Σ' b a, Σ ⊆ Σ' → returns s Σ' b → ok s Σ' (body b a)) → returns s Σ b →
  ok s Σ (fold_loop body b l).
Proof.
  revert Σ. induction l as [|x l IH]; intros Σ b Hb Hp; [by apply ok_ret|].
  cbn [fold_loop]. eapply ok_bind; [by apply Hb|]. intros Σ1 b1 Hs Hp1. apply IH; [|done].
  intros Σ2 b2 a Hs2. apply Hb. by etrans.
Qed.

End Typing.

(** ** Automation *)

Create HintDb ok.
#[export] Hint Resolve ok_diverge ok_unwrap ok_gets ok_set_config ok_set_listeners
  ok_set_threads ok_set_timeout ok_cancel_timeout ok_remove_state ok_get_state : ok.
#[export] Hint Extern 1 (ok _ _ (throw _)) => by apply ok_throw : ok.
#[export] Hint Extern 1 (ok _ _ (io _)) => apply ok_io; clean_go : ok.
#[export] Hint Extern 1 (ok _ _ (with_cm (cm_enter ?u))) => apply (ok_with_cm _ _ (Enter u) I) : ok.
#[export] Hint Extern 1 (ok _ _ (with_cm (cm_leave ?u))) => apply (ok_with_cm _ _ (Leave u) I) : ok.
#[export] Hint Extern 1 (ok _ _ (with_cm (cm_deactivate ?u))) => apply (ok_with_cm _ _ (Deactivate u) I) : ok.

(** Most events may always be sent; a connection tells of the peer that was
    announced. *)
#[export] Hint Extern 1 (ok _ _ (send_event _)) => apply ok_send_event : ok.
#[export] Hint Extern 1 (allowed _ _) =>
  first [exact I
        |match goal with
         | H : has ?Σ _ (StActive _) |- allowed (ht_told ?Σ) (NewMessage _ _ _) => exact (proj1 (proj1 (proj2 H)))
         | H : has ?Σ _ (StActive _) |- allowed (ht_told ?Σ) (LostPeer _) =>
             intros _; eexists; exact (proj1 (proj1 (proj2 H)))
         end] : ok.
#[export] Hint Extern 1 (ok _ _ channel) => apply (ok_channels _ _ 0%nat []) : ok.
#[export] Hint Extern 1 (ok _ _ (channel_send _ _)) => apply ok_channels : ok.
#[export] Hint Extern 1 (ok _ _ (channel_drain _)) => apply (ok_channels _ _ _ []) : ok.
#[export] Hint Extern 1 (ok _ _ (channel_drop _)) => apply (ok_channels _ _ _ []) : ok.
#[export] Hint Resolve points_to_allocated : ok.
#[export] Hint Extern 1 (ok _ _ (insert_state _ _)) =>
  apply ok_insert_state; eexists; split; [eassumption|reflexivity] : ok.
#[export] Hint Extern 1 (points_to _ _ _) =>
  match goal with
  | H : has ?Σ _ _ |- points_to ?Σ _ _ => exact (proj1 (proj2 H))
  | H : ?Σ !! ?r = Some (shape _) |- points_to ?Σ ?r _ => exact (new_points_to _ _ _ H)
  end : ok.
#[export] Hint Extern 1 (leads_to _ _ _) =>
  match goal with
  | H : leads_to _ _ _ |- _ => exact H
  | H : has ?Σ _ (StConnect _) |- leads_to ?Σ _ _ => exact (proj1 (proj2 H))
  | H : has ?Σ _ (StConnectExchange _) |- leads_to ?Σ _ _ => exact (proj2 (proj1 (proj2 H)))
  | H : ?Σ !! ?r = Some (shape (StConnect _)) |- leads_to ?Σ ?r _ => exact (new_leads_to _ _ _ H)
  end : ok.
#[export] Hint Extern 1 (candidate_ok _ _ _) =>
  match goal with
  | H : candidate_ok _ _ _ |- _ => exact H
  | H : has ?Σ _ (StCandidate _) |- candidate_ok ?Σ _ _ => exact (proj2 (proj1 (proj2 H)))
  | |- candidate_ok ?Σ ?u (FinishConnect ?p) => change (leads_to Σ p u); solve [eauto with ok]
  | |- candidate_ok _ _ (FinishListener _ _) => exact eq_refl
  end : ok.

(** The peer that the token of a state stands for. *)
#[export] Hint Extern 1 (assigned _ _ _) =>
  match goal with
  | H : assigned _ _ _ |- _ => exact H
  | H : has ?Σ _ (StActive _) |- assigned ?Σ _ _ => exact (proj2 (proj1 (proj2 H)))
  | H : has ?Σ _ (StCandidate _) |- assigned ?Σ _ _ => exact (proj1 (proj1 (proj2 H)))
  | H : has ?Σ _ (StConnectExchange _) |- assigned ?Σ _ _ => exact (proj1 (proj1 (proj2 H)))
  end : ok.

(** The token of a state, and those that are fixed. *)
#[export] Hint Extern 1 (tok _ _) =>
  match goal with
  | H : tok ?Σ ?t |- tok ?Σ ?t' => unify t t'; exact H
  | H : has ?Σ _ _ |- tok ?Σ _ => refine (eq_rect _ (tok Σ) (proj1 (proj2 (proj2 H))) _ (eq_sym (f_equal sh_token (proj1 H))))
  | |- tok _ _ => intros _; left; vm_compute; split; congruence
  end : ok.

#[export] Hint Extern 1 (finish_ok _ (MapConnectionInfo _ _ _)) => exact I : ok.
#[export] Hint Extern 1 (finish_ok ?Σ (MapListener _ _ _ _ _ ?t)) => change (tok Σ t) : ok.
#[export] Hint Extern 1 (from_option (finish_ok _) True (Some _)) => assumption : ok.

(** The setters of a state's fields keep its shape. *)
Ltac ok_has :=
  repeat match goal with |- has _ _ (_ match ?x with _ => _ end) => destruct x end;
  match goal with H : has ?Σ ?s _ |- has ?Σ ?s _ => exact H end.
#[export] Hint Extern 1 (has _ _ _) => ok_has : ok.

(** What is known of the states stays known. *)
Ltac weaken_by Hg Σ :=
  repeat match goal with
  | H : points_to Σ _ _ |- _ => apply (points_to_mono _ _ _ _ Hg) in H
  | H : leads_to Σ _ _ |- _ => apply (leads_to_mono _ _ _ _ Hg) in H
  | H : tok Σ _ |- _ => apply (tok_mono _ _ _ Hg) in H
  | H : assigned Σ _ _ |- _ => apply (assigned_mono _ _ _ _ Hg) in H
  | H : finish_ok Σ _ |- _ => apply (finish_ok_mono _ _ _ Hg) in H
  | H : candidate_ok Σ _ _ |- _ => apply (candidate_ok_mono _ _ _ _ Hg) in H
  | H : is_Some (Σ !! _) |- _ => apply (allocated_mono _ _ _ Hg) in H
  | H : Σ !! _ = Some _ |- _ => apply (λ H, ht_weaken _ _ _ _ H Hg) in H
  end.
Ltac weaken :=
  match goal with
  | Hs : ?Σ ⊆ ?Σ' |- _ =>
      repeat match goal with
      | H : has Σ _ _ |- _ => apply (has_mono _ _ _ _ Hs) in H
      | H : unassigned Σ _ |- _ => apply (unassigned_mono _ _ _ Hs) in H
      end;
      apply ht_keeps_grows in Hs; weaken_by Hs Σ; clear Hs
  | Hs : ht_goes ?Σ ?Σ' |- _ =>
      apply ht_goes_grows in Hs;
      repeat match goal with H : has Σ ?s ?o |- _ => apply (has_grows Σ Σ' s o Hs eq_refl) in H end;
      weaken_by Hs Σ; clear Hs
  end.

Ltac open_post H := cbv [returns post_any post_obj post_StateObj post_Active post_Candidate
  post_ConnectExchange post_Connect post_ListenerExchange post_Refresher post_TryPeer
  post_Bootstrap post_Discovery post_GetExtAddr post_Mapped post_found post_with
  post_with_StateObj post_with_Discovery id fst snd] in H.

(** The shape of what was just returned. *)
Ltac ok_post :=
  match goal with
  | |- returns _ _ _ =>
      cbv [returns post_any post_obj post_StateObj post_Active post_Candidate
        post_ConnectExchange post_Connect post_ListenerExchange post_Refresher post_TryPeer
        post_Bootstrap post_Discovery post_GetExtAddr post_Mapped post_found post_with
        post_with_StateObj post_with_Discovery id fst snd]
  | _ => idtac
  end;
  first [done|ok_has|idtac].

Ltac ok_step :=
  match goal with
  | |- ok _ _ (mret _) => apply ok_ret; ok_post
  | |- ok _ _ (rc_new _ ≫= _) =>
      apply ok_new;
      [done|done|cbn [pointers_ok]; solve [eauto with ok]|cbn [state_token]; solve [eauto with ok]
      |intros ? ? ? ?; weaken]
  | |- ok _ _ (gets w_next_rc ≫= _) =>
      eapply ok_new_self;
      [done|done|intros ?; cbn [state_token]; solve [eauto with ok]
      |cbn [pointers_ok]; intros ? ? ? ?; solve [eauto with ok]|intros ? ? ? ?; weaken]
  | |- ok _ _ (get_new_token ≫= _) => apply ok_get_new_token; intros ? ? ? ?; weaken
  | |- ok _ _ (_ ≫= _) =>
      eapply ok_bind; [| let Hp := fresh "Hp" in intros ? ? ? Hp; open_post Hp; weaken; cbn beta iota]
  | |- ok _ _ (bind_ok _ _) =>
      eapply ok_bind_ok; [|intros ? ? ?; weaken]
  | |- ok _ _ (match ?x with _ => _ end) => destruct x
  | |- ok _ _ (with_borrow_mut _ (as_connect _)) =>
      eapply ok_down_connect; [solve [eauto with ok]|let Hu := fresh in intros ? Hu ?; try subst]
  | |- ok _ _ (with_borrow_mut _ _) =>
      eapply ok_down; [solve [eauto with ok]|let o := fresh "o" in let Hk := fresh in
        intros o Hk ?; destruct o; try discriminate Hk; clear Hk;
        cbn [as_active as_connect as_bootstrap as_mapped as_listener_exchange as_candidate]]
  | |- ok _ _ (with_borrow _ _) =>
      eapply ok_down_look; [solve [eauto with ok]|let o := fresh "o" in let Hk := fresh in
        intros o Hk ?; destruct o; try discriminate Hk; clear Hk;
        cbn [as_active as_connect as_bootstrap as_mapped as_listener_exchange as_candidate]]
  | |- ok _ _ (for_each _ _) => apply ok_for_each; intros ? ? ? _; weaken
  | |- ok _ _ (fold_loop _ _ _) =>
      apply ok_fold_loop;
      [let Hp := fresh "Hp" in intros ? ? ? ? Hp; open_post Hp; weaken|ok_post]
  | |- ok _ _ _ => solve [eauto with ok]
  end.
Ltac ok_go := repeat (cbv zeta; ok_step).
