(* ===== verification/HandlerTyping.v ===== *)
(** Every handler of the event loop, and everything the service posts to it, is
    well typed. *)

From stdpp Require Import base tactics list gmap strings.
From Stdlib Require Import ZArith Lia.
From S2P Require Import Prelude Types Env Socket ConnMap World Traces ActiveConnection Candidate.
From S2P Require Import NatUtil Connect Listener Refresher Discovery Bootstrap IfAddrs Mapped System Service Clean HeapTyping Typing.

Section Handlers.
Context {ENV : Env} {UID : Type} `{!Uid UID, !Codec (Message UID), !Codec DiscoveryMsg}.
Abbreviation MW := (M (World UID)).
Implicit Types (w : World UID) (o : StateObj UID) (Σ : HeapType UID) (s : Shape UID).

(** These two kinds of states do not depend on the identifiers. *)
#[local] Hint Extern 0 (Post (@ConfigRefresher _)) =>
  exact (post_Refresher (UID:=UID)) : typeclass_instances.
#[local] Hint Extern 0 (Post (@ServiceDiscovery _)) =>
  exact (post_Discovery (UID:=UID)) : typeclass_instances.
#[local] Hint Extern 0 (Post (_ * @ServiceDiscovery _)) =>
  exact (post_with_Discovery (UID:=UID) _) : typeclass_instances.

(** ** Active connections *)

Lemma ok_ac_terminate s Σ (self : ActiveConnection UID) :
  has Σ s (StActive self) → ok s Σ (ActiveConnection_terminate self).
Proof. intros H. unfold ActiveConnection_terminate, Heartbeat_terminate. ok_go. Qed.
#[local] Hint Resolve ok_ac_terminate : ok.

Lemma ok_reset_receive s Σ (self : ActiveConnection UID) :
  has Σ s (StActive self) → ok s Σ (reset_receive_heartbeat self).
Proof. intros H. unfold reset_receive_heartbeat, Heartbeat_reset_receive. ok_go. Qed.
#[local] Hint Resolve ok_reset_receive : ok.

Lemma ok_reset_send s Σ (self : ActiveConnection UID) :
  has Σ s (StActive self) → ok s Σ (reset_send_heartbeat self).
Proof. intros H. unfold reset_send_heartbeat, Heartbeat_reset_send. ok_go. Qed.
#[local] Hint Resolve ok_reset_send : ok.

Lemma ok_ac_read fuel : ∀ s Σ (self : ActiveConnection UID),
  has Σ s (StActive self) → ok s Σ (ActiveConnection_read fuel self).
Proof. induction fuel as [|fuel IH]; intros s Σ self H; cbn [ActiveConnection_read]; ok_go. Qed.
#[local] Hint Resolve ok_ac_read : ok.

Lemma ok_ac_write_msg s Σ (self : ActiveConnection UID) m :
  has Σ s (StActive self) → ok s Σ (ActiveConnection_write_msg self m).
Proof. intros H. unfold ActiveConnection_write_msg. ok_go. Qed.
#[local] Hint Resolve ok_ac_write_msg : ok.

Lemma ok_ac_ready s Σ (self : ActiveConnection UID) k :
  has Σ s (StActive self) → ok s Σ (ActiveConnection_ready self k).
Proof. intros H. unfold ActiveConnection_ready. ok_go. Qed.

Lemma ok_ac_write s Σ (self : ActiveConnection UID) d p :
  has Σ s (StActive self) → ok s Σ (ActiveConnection_write self d p).
Proof. intros H. unfold ActiveConnection_write. ok_go. Qed.

Lemma ok_ac_timeout s Σ (self : ActiveConnection UID) t :
  has Σ s (StActive self) → ok s Σ (ActiveConnection_timeout self t).
Proof. intros H. unfold ActiveConnection_timeout, Heartbeat_timeout. ok_go. Qed.

(** A new connection: its state is made and registered before its peer is
    announced, but nothing looks at it in between. *)
Lemma ok_new_active s Σ (c : ActiveConnection UID) ev f :
  let t := ac_token c in
  let u := ac_their_id c in
  tok Σ t → assigned Σ t u → announces ev u (ac_their_role c) →
  (∀ Σ' s', has Σ' s' (StActive c) → ok s' Σ' (f c)) →
  ok s Σ (state ← rc_new (StActive c);
          insert_state t state ;;
          with_borrow_mut state (as_active (λ self,
            with_cm (cm_activate u t) ;; send_event ev ;; f self))).
Proof.
  intros t u Ht Hu Hev Hf w Hw _. set (r := w_next_rc w). set (o := StActive c).
  destruct (well_typed_tell Σ w ev Hw) as [Hsub0 Hw0]; [by eapply announces_allowed|]. set (Σ0 := ht_tell ev w Σ) in *.
  assert (pointers_ok Σ0 o) as Ho by (split; [by apply announced_snoc|apply (assigned_mono Σ); [by apply ht_keeps_grows|done]]).
  set (Σ1 := <[r := shape o]> Σ0). assert (Σ0 ⊆ Σ1) as Hsub1 by (apply ht_insert_keeps; [by apply (wt_fresh _ _ Hw)|done]).
  assert (Σ ⊆ Σ1) as Hsub by by etrans. assert (Σ1 !! r = Some (shape o)) as Hr by apply ht_insert_eq.
  assert (has Σ1 (shape o) o) as Hhas.
  { split; [done|]. split; [apply (pointers_ok_mono Σ0); [by apply ht_keeps_grows|done]|].
    split; [apply (tok_mono Σ); [by apply ht_keeps_grows|done]|done]. }
  pose proof (well_typed_new Σ0 _ o Hw0) as Hw1. cbn zeta in Hw1.
  change (w_next_rc (set_events (w_events w ++ [ev]) w)) with r in Hw1. fold Σ1 in Hw1.
  specialize (Hw1 ltac:(done) (proj1 (proj2 Hhas)) Ht I ltac:(done)).
  destruct (ok_insert_state (shape o) Σ1 t r (ex_intro _ _ (conj Hr eq_refl)) _ Hw1 I) as (Σ2 & Hsub2 & Hw2 & _ & _).
  clear Hw1. unfold mbind, M_bind, rc_new, insert_state, with_borrow_mut, gets, modify, mbind, M_bind. cbn. fold r.
  destruct (w_borrows w !! r) as [b|] eqn:Hb; [done|]. cbn. unfold deref. rewrite lookup_insert_eq. cbn.
  unfold mbind, M_bind, with_cm, zoom. cbn. pose proof (clean_run_op (Activate u t) (w_cm w)) as Hclean. cbn in Hclean.
  destruct (cm_activate u t (w_cm w)) as [[] cm'|e|] eqn:Hcm; [|congruence|done]. clear Hclean. cbn.
  assert (Σ2 !! r = Some (shape o)) as Hr2 by (apply (ht_weaken Σ1); [done|by apply ht_keeps_grows]).
  pose proof (well_typed_writing _ _ r (well_typed_cm _ _ (Activate u t) cm' Hw2 Hcm
    ltac:(intros u' t' E; injection E as <- <-; by exists r, (shape o)))) as Hw3.
  specialize (Hf Σ2 (shape o) (has_mono _ _ _ _ Hsub2 Hhas) _ Hw3 I). cbn in Hf.
  match type of Hf with context [f c ?W] => set (w3 := W) in * end.
  match goal with |- context [f c ?W] => change W with w3 end.
  destruct (f c w3) as [c' w4|e|]; [|done|done]. destruct Hf as (Σ4 & Hsub4 & Hw4 & [Hb4 He4] & Hs4 & Hp4 & _ & Hu4).
  cbn. exists Σ4. split; [by do 2 (etrans; [eassumption|])|]. split; [|split; [|done]].
  - apply well_typed_put; [done| |done|done].
    change (shape (StActive c') = shape o) in Hs4. rewrite Hs4. apply (ht_weaken Σ2); [done|by apply ht_keeps_grows].
  - split; cbn; [|by etrans; [|exact He4]; apply prefix_app_r]. rewrite Hb4. cbn. by rewrite delete_insert_id.
Qed.

(** The timers can be set unless the timer is full. *)
Definition post_timers : Post (UID:=UID) (result HeartbeatTimers CrustError) :=
  {| returns _ _ r := match r with Ok _ => True | Err _ => ¬ timers_succeed end |}.

Lemma ok_heartbeat_new s Σ t : @ok _ _ _ _ post_timers s Σ (Heartbeat_new t : MW _).
Proof.
  intros w Hw _. unfold Heartbeat_new, mbind, M_bind. rewrite set_timeout_done.
  assert (∀ n, well_typed Σ (set_net n w)) as Hnet by (intros n; by destruct Hw).
  destruct (timer_set_timeout _ _ (w_net w)) as [[tm|e] n] eqn:E1; cbn.
  - rewrite set_timeout_done. cbn. destruct (timer_set_timeout _ _ n) as [[tm'|e] n'] eqn:E2; cbn.
    + exists Σ. split; [done|]. split; [apply Hnet|done].
    + exists Σ. split; [done|]. split; [apply Hnet|]. split; [done|]. intros Ht.
      destruct (Ht HEARTBEAT_PERIOD_MS (mkCoreTimer t 1) n) as [tm' H]. by rewrite E2 in H.
  - exists Σ. split; [done|]. split; [apply Hnet|]. split; [done|]. intros Ht.
    destruct (Ht INACTIVITY_TIMEOUT_MS (mkCoreTimer t 0) (w_net w)) as [tm' H]. by rewrite E1 in H.
Qed.

Lemma ok_ac_start s Σ t sock u1 u2 k ev :
  tok Σ t → assigned Σ t u2 → announces ev u2 k → ok s Σ (ActiveConnection_start t sock u1 u2 k ev : MW unit).
Proof.
  intros Ht Hu Hev. unfold ActiveConnection_start. eapply (@ok_bind _ _ _ _ _ post_timers); [apply ok_heartbeat_new|].
  intros Σ1 [h|e] Hs Hp; weaken.
  - apply (ok_new_active s Σ1 (mkActiveConnection t sock u1 u2 k h)); [done|done|done|]. intros. by apply ok_ac_read.
  - eapply ok_bind; [ok_go|]. intros Σ2 a _ _. apply ok_send_event. intros Htm. by destruct (Hp Htm).
Qed.
#[local] Hint Extern 1 (announces _ _ _) => by split : ok.
#[local] Hint Resolve ok_ac_start : ok.


(** ** Connection candidates *)

Lemma ok_cc_terminate s Σ (self : ConnectionCandidate UID) : ok s Σ (ConnectionCandidate_terminate self).
Proof. unfold ConnectionCandidate_terminate. ok_go. Qed.
#[local] Hint Resolve ok_cc_terminate : ok.

Lemma ok_cc_start s Σ t sock u1 u2 (f : CandidateFinish UID) :
  tok Σ t → assigned Σ t u2 → candidate_ok Σ u2 f →
  ok s Σ (ConnectionCandidate_start t sock u1 u2 f).
Proof. intros Ht Hu Hf. unfold ConnectionCandidate_start. ok_go. Qed.
#[local] Hint Resolve ok_cc_start : ok.

(** ** [State::terminate] *)

Section Terminate.
Variable dt : rc → MW unit.
Hypothesis ok_dt : ∀ s Σ r, is_Some (Σ !! r) → ok s Σ (dt r).
#[local] Hint Resolve ok_dt : ok.

Lemma ok_terminate_children s Σ (l : list Token) :
  ok s Σ (for_each (λ child, state ← get_state child;
                    match state with Some state => dt state | None => mret tt end) l).
Proof. ok_go. Qed.
#[local] Hint Resolve ok_terminate_children : ok.

Lemma ok_cn_terminate s Σ self : has Σ s (StConnect self) → ok s Σ (Connect_terminate dt self).
Proof. intros H. unfold Connect_terminate, Connect_terminate_children. ok_go. Qed.

Lemma ok_le_children s Σ self :
  has Σ s (StListenerExchange self) → ok s Σ (terminate_childern dt self).
Proof. intros H. unfold terminate_childern. ok_go. Qed.
#[local] Hint Resolve ok_le_children : ok.

Lemma ok_le_terminate s Σ self :
  has Σ s (StListenerExchange self) → ok s Σ (ListenerExchange_terminate dt self).
Proof. intros H. unfold ListenerExchange_terminate. ok_go. Qed.

Lemma ok_bs_terminate s Σ self : has Σ s (StBootstrap self) → ok s Σ (Bootstrap_terminate dt self).
Proof. intros H. unfold Bootstrap_terminate, Bootstrap_terminate_children. ok_go. Qed.

Lemma ok_mapped_finish s Σ f b (l : list SocketAddr) :
  finish_ok Σ f → ok s Σ (mapped_finish f b l : MW unit).
Proof.
  intros Hf. destruct f; cbn [mapped_finish]; unfold connection_info_mapped; [|ok_go].
  unfold listener_mapped, handle_mapped_socket, crust_io. ok_go.
Qed.
#[local] Hint Resolve ok_mapped_finish : ok.

Lemma ok_mt_terminate s Σ self : has Σ s (StMapped self) → ok s Σ (Mapped_terminate dt self).
Proof.
  intros H. unfold Mapped_terminate. eapply ok_bind; [unfold Mapped_terminate_children; ok_go|].
  intros Σ1 self' _ (H1 & H2 & H3).
  assert (has Σ1 s (StMapped (mt_set_finish None (mt_set_mapped_addrs [] (mt_set_socket None self')))))
    as Hdone by (by split).
  assert (∀ f, mt_finish self' = Some f → finish_ok Σ1 f) as Hf by (intros f E; cbn in H2; by rewrite E in H2).
  clear H1 H2 H3. eapply ok_bind; [ok_go|]. intros Σ2 [] Hs2 _. eapply ok_bind; [ok_go|]. intros Σ3 ? Hs3 _.
  eapply ok_bind; [ok_go|]. intros Σ4 b Hs4 _. cbv zeta. assert (Σ1 ⊆ Σ4) as Hs by (by do 2 etrans).
  change (mt_finish (mt_set_mapped_addrs [] (mt_set_socket None self'))) with (mt_finish self').
  destruct (mt_finish self') as [f|]; [|by apply ok_throw]. specialize (Hf f eq_refl).
  clear Hs2 Hs3 Hs4. weaken. change (ok s Σ4 (mapped_finish f b (mt_mapped_addrs (mt_set_socket None self')) ;;
    mret (mt_set_finish None (mt_set_mapped_addrs [] (mt_set_socket None self'))))). ok_go.
Qed.

End Terminate.
#[local] Hint Resolve ok_cn_terminate ok_le_children ok_le_terminate ok_bs_terminate ok_mt_terminate : ok.

Lemma ok_State_terminate depth : ∀ s Σ r, is_Some (Σ !! r) → ok s Σ (State_terminate depth r : MW unit).
Proof.
  induction depth as [|depth IH]; intros s Σ r Hr; cbn [State_terminate]; [ok_go|].
  apply ok_with_borrow_mut; [done|]. intros o _ Ho.
  unfold ConnectExchange_terminate, CheckReachability_terminate, ConnectionListener_terminate,
    ConfigRefresher_terminate, TryPeer_terminate, ServiceDiscovery_terminate, GetExtAddr_terminate.
  destruct o; ok_go.
Qed.

Lemma ok_dyn_terminate s Σ r : is_Some (Σ !! r) → ok s Σ (dyn_terminate r : MW unit).
Proof. intros Hr. eapply ok_bind; [apply ok_gets|]. intros. weaken. by apply ok_State_terminate. Qed.
#[local] Hint Resolve ok_dyn_terminate : ok.

(** ** The connecting side *)

Lemma ok_ce_start s Σ sock u1 u2 nh (parent : rc) :
  leads_to Σ parent u2 → ok s Σ (ConnectExchange_start sock u1 u2 nh parent : MW _).
Proof.
  intros H. unfold ConnectExchange_start. apply (ok_get_new_token_for u2). intros Σ' t Hs Ht Hu. weaken. ok_go.
Qed.
#[local] Hint Resolve ok_ce_start : ok.

Lemma ok_cn_maybe_terminate s Σ self :
  has Σ s (StConnect self) → ok s Σ (Connect_maybe_terminate dyn_terminate self).
Proof. intros H. unfold Connect_maybe_terminate. ok_go. Qed.
#[local] Hint Resolve ok_cn_maybe_terminate : ok.

Lemma ok_cn_exchange_msg s Σ self sock :
  has Σ s (StConnect self) → ok s Σ (Connect_exchange_msg dyn_terminate self sock).
Proof. intros H. unfold Connect_exchange_msg. ok_go. Qed.
#[local] Hint Resolve ok_cn_exchange_msg : ok.

Lemma ok_cn_handle_exchange_msg s Σ self child res :
  tok Σ child → assigned Σ child (cn_their_id self) → has Σ s (StConnect self) →
  ok s Σ (Connect_handle_exchange_msg dyn_terminate self child res).
Proof. intros Ht Hu H. unfold Connect_handle_exchange_msg. ok_go. Qed.
#[local] Hint Resolve ok_cn_handle_exchange_msg : ok.

Lemma ok_cn_handle_candidate s Σ self child res :
  tok Σ child → assigned Σ child (cn_their_id self) → has Σ s (StConnect self) →
  ok s Σ (Connect_handle_connection_candidate dyn_terminate self child res).
Proof.
  intros Ht Hu H. unfold Connect_handle_connection_candidate. destruct res as [sock|]; [|ok_go].
  eapply ok_bind; [apply ok_cn_terminate; [apply ok_dyn_terminate|exact H]|]. intros Σ1 self1 Hs H1. open_post H1. weaken.
  rewrite <- (has_peer _ _ _ _ _ H H1 : cn_their_id self1 = cn_their_id self) in Hu. clear H. ok_go.
Qed.
#[local] Hint Resolve ok_cn_handle_candidate : ok.

Lemma ok_cn_accept fuel : ∀ s Σ self,
  has Σ s (StConnect self) → ok s Σ (Connect_accept dyn_terminate fuel self).
Proof. induction fuel as [|fuel IH]; intros s Σ self H; cbn [Connect_accept]; ok_go. Qed.
#[local] Hint Resolve ok_cn_accept : ok.

Lemma ok_cn_start s Σ our their nh : ok s Σ (Connect_start dyn_terminate our their nh : MW _).
Proof.
  unfold Connect_start. ok_go.
Qed.

Lemma ok_cef s Σ (parent : rc) u child res :
  tok Σ child → assigned Σ child u → leads_to Σ parent u → ok s Σ (connect_exchange_finish parent child res : MW unit).
Proof. intros Ht Hu H. unfold connect_exchange_finish, when_alive, upgrade. ok_go. Qed.
#[local] Hint Resolve ok_cef : ok.

Lemma ok_ce_terminate s Σ (self : ConnectExchange UID) : ok s Σ (ConnectExchange_terminate self).
Proof. unfold ConnectExchange_terminate. ok_go. Qed.
#[local] Hint Resolve ok_ce_terminate : ok.

Lemma ok_ce_handle_error s Σ self :
  has Σ s (StConnectExchange self) → ok s Σ (ConnectExchange_handle_error connect_exchange_finish self).
Proof. intros H. unfold ConnectExchange_handle_error. ok_go. Qed.
#[local] Hint Resolve ok_ce_handle_error : ok.

Lemma ok_ce_ready s Σ self k :
  has Σ s (StConnectExchange self) → ok s Σ (ConnectExchange_ready connect_exchange_finish self k).
Proof.
  intros H. unfold ConnectExchange_ready, ConnectExchange_write, ConnectExchange_receive_response.
  ok_go.
Qed.

Lemma ok_candidate_finish s Σ f u child res :
  tok Σ child → assigned Σ child u → candidate_ok Σ u f →
  ok s Σ (candidate_finish f child res : MW unit).
Proof.
  intros Ht Hu H. destruct f as [parent|our their]; cbn [candidate_finish candidate_ok] in *; [|subst their];
    unfold when_alive, upgrade, listener_candidate_finish; ok_go.
Qed.

Lemma ok_cc_finish s Σ self res :
  has Σ s (StCandidate self) → ok s Σ (candidate_finish (cc_finish self) (cc_token self) res : MW unit).
Proof. intros H. eapply ok_candidate_finish; eauto with ok. Qed.
#[local] Hint Resolve ok_cc_finish : ok.

Lemma ok_cc_ready s Σ self k :
  has Σ s (StCandidate self) → ok s Σ (ConnectionCandidate_ready candidate_finish self k).
Proof.
  intros H. unfold ConnectionCandidate_ready, ConnectionCandidate_read, ConnectionCandidate_write,
    ConnectionCandidate_read, ConnectionCandidate_handle_error, ConnectionCandidate_done.
  ok_go.
Qed.

(** ** The accepting side *)

Lemma ok_cr_start s Σ a t (parent : rc) :
  points_to Σ parent KListenerExchange → ok s Σ (CheckReachability_start a t parent : MW _).
Proof. intros H. unfold CheckReachability_start. ok_go. Qed.
#[local] Hint Resolve ok_cr_start : ok.

Lemma ok_le_start s Σ t sock b u nh : ok s Σ (ListenerExchange_start t sock b u nh : MW _).
Proof.
  unfold ListenerExchange_start. apply ok_new_token. intros tk.
  apply okf_bind_untyped; [apply untyped_io; clean_go|]. intros [r|e]; [|by apply okf_ok, ok_ret].
  apply okf_bind_untyped; [apply untyped_set_timeout|]. intros [tm|e]; [|by apply okf_ok, ok_ret].
  apply okf_bind_untyped; [apply untyped_gets|]. intros cfg. cbv zeta.
  eapply (okf_new_self tk); [done|done|cbn [pointers_ok]; intros; solve [eauto with ok]|]. intros Σ' r' Hs Hr'. ok_go.
Qed.
#[local] Hint Resolve ok_le_start : ok.

(** Sockets do not come back. *)
Lemma has_le_socket Σ s self sock :
  has Σ s (StListenerExchange self) → (le_socket self = None → sock = None) →
  has Σ s (StListenerExchange (le_set_socket sock self)).
Proof.
  intros (H1 & H2 & H3 & H4) Hs. split; [done|]. split; [done|]. split; [done|].
  intros Hn. apply H4. intros E. by apply Hn, Hs.
Qed.

Lemma le_tok Σ s self : has Σ s (StListenerExchange self) → tok Σ (le_token self).
Proof. intros (Hs & _ & Ht & _). by rewrite <- Hs in Ht. Qed.
#[local] Hint Resolve le_tok : ok.

(** The end of a handshake lets its token stand for the peer. *)
Lemma okx_le_done s Σ self :
  le_socket self ≠ None → has Σ s (StListenerExchange self) →
  okx (le_token self) s Σ (ListenerExchange_done dyn_terminate self).
Proof.
  intros Hsock H. pose proof (le_tok _ _ _ H) as Ht. unfold ListenerExchange_done.
  eapply okx_bind_ok; [done|ok_go|]. intros Σ1 [] Hs _. weaken.
  eapply okx_bind_ok; [done|ok_go|]. intros Σ2 a Hs _. weaken.
  assert (∀ Σ3 Σ4, Σ2 ⊑ Σ3 → Σ3 ⊑ Σ4 → has Σ4 s (StListenerExchange (le_set_socket Socket_default self))) as Hdone.
  { intros Σ3 Σ4 H3 H4. destruct H as (E1 & E2 & E3 & _). assert (Σ2 ⊑ Σ4) by by etrans.
    split; [done|]. split; [by eapply (points_to_mono Σ2)|]. split; [by eapply (tok_mono Σ2)|done]. }
  pose proof (proj2 (proj2 (proj2 H)) Hsock) as Hu. cbv zeta.
  destruct (le_next_state self) as [|u k|u]; [by apply okx_okw, okw_ok; eauto with ok| |];
    apply (okx_assign _ u); try done; intros Σ3 Hs3 Ha;
    (eapply ok_bind; [|intros Σ4 r4 Hs4 _; apply ok_ret; apply (Hdone Σ3); [by apply ht_goes_grows|by apply ht_keeps_grows]]);
    clear Hdone H; weaken; eauto with ok.
Qed.

Lemma okx_le_write s Σ self m :
  has Σ s (StListenerExchange self) → okx (le_token self) s Σ (ListenerExchange_write dyn_terminate self m).
Proof.
  intros H. pose proof (le_tok _ _ _ H) as Ht. unfold ListenerExchange_write.
  eapply okx_bind_ok; [done|ok_go|]. intros Σ1 cm Hs _. weaken. cbv zeta.
  destruct (match le_next_state self with NextActiveConnection _ _ => _ | _ => false end); [by apply okx_okw, okw_ok; ok_go|].
  apply okx_socket_write; [done|]. intros Σ2 r sk Hs Hsk. weaken.
  assert (has Σ2 s (StListenerExchange (le_set_socket sk self))) as H2.
  { apply has_le_socket; [done|]. intros E. rewrite E in Hsk. apply Hsk. }
  destruct r as [[|]|e]; [|by apply okx_okw, okw_ok, ok_ret|by apply okx_okw, okw_ok; ok_go].
  apply (okx_le_done s Σ2 (le_set_socket sk self)); [|done].
  destruct (le_socket self); [exact Hsk|]. by destruct Hsk as [_ [e ?]].
Qed.

Lemma okx_grant s Σ self u k :
  has Σ s (StListenerExchange self) → okx (le_token self) s Σ (send_bootstrap_grant dyn_terminate self u k).
Proof.
  intros H. unfold send_bootstrap_grant, enter_handshaking_mode. eapply okx_bind_ok; [by eauto with ok|ok_go|].
  intros Σ1 [] Hs _. weaken. by apply (okx_le_write s Σ1 (le_set_next_state _ self)).
Qed.

Lemma ok_update_config s Σ : ok s Σ (try_update_crust_config : MW unit).
Proof. unfold try_update_crust_config. ok_go. Qed.
#[local] Hint Resolve ok_update_config : ok.

Lemma ok_whitelisted s Σ (self : ListenerExchange UID) k : ok s Σ (is_peer_whitelisted self k).
Proof. unfold is_peer_whitelisted. ok_go. Qed.
#[local] Hint Resolve ok_whitelisted : ok.

(** The token of a handshake does not change. *)
Lemma le_same_token Σ Σ' s self self' :
  has Σ s (StListenerExchange self) → has Σ' s (StListenerExchange self') → le_token self' = le_token self.
Proof. intros (<- & _) (Hs & _). by injection Hs. Qed.

Lemma okx_bootstrap_req s Σ self u nh e :
  has Σ s (StListenerExchange self) → okx (le_token self) s Σ (handle_bootstrap_req dyn_terminate self u nh e).
Proof.
  intros H. pose proof (le_tok _ _ _ H) as Ht. unfold handle_bootstrap_req, deny.
  destruct (negb _); [by apply okx_le_write|]. eapply okx_bind_ok; [done|ok_go|]. intros Σ1 [] Hs _. weaken.
  destruct e as [|addrs].
  - eapply okx_bind_ok; [done|ok_go|]. intros Σ2 b Hs _. weaken. destruct (negb b); [by apply okx_le_write|by apply okx_grant].
  - eapply okx_bind_ok; [done|ok_go|]. intros Σ2 b Hs _. weaken. destruct (negb b); [by apply okx_le_write|].
    destruct (negb _); [by apply okx_grant|].
    eapply okx_bind_ok; [done|unfold start_check; ok_go|]. intros Σ3 self' Hs H'. open_post H'. weaken.
    rewrite <- (le_same_token _ _ _ _ _ H H'). case_bool_decide; [by apply okx_le_write|by apply okx_okw, okw_ret].
Qed.

Lemma okx_check_reachability s Σ self child res :
  has Σ s (StListenerExchange self) → okx (le_token self) s Σ (handle_check_reachability dyn_terminate self child res).
Proof.
  intros H. unfold handle_check_reachability, deny. cbv zeta. set (self1 := le_set_children _ self).
  change (le_token self) with (le_token self1). assert (has Σ s (StListenerExchange self1)) as H1 by done.
  pose proof (le_tok _ _ _ H1) as Ht. destruct res as [u|[]].
  - eapply okx_bind_ok; [done|ok_go|]. intros Σ1 self2 Hs H2. open_post H2. clear H. weaken.
    rewrite <- (le_same_token _ _ _ _ _ H1 H2). by apply okx_grant.
  - case_bool_decide; [by apply okx_le_write|by apply okx_okw, okw_ret].
Qed.

Lemma okx_le_connect s Σ self u nh :
  has Σ s (StListenerExchange self) → okx (le_token self) s Σ (handle_connect dyn_terminate self u nh).
Proof.
  intros H. pose proof (le_tok _ _ _ H) as Ht. unfold handle_connect, enter_handshaking_mode.
  destruct (negb _); [by apply okx_okw, okw_ok; ok_go|]. eapply okx_bind_ok; [done|ok_go|]. intros Σ1 [] Hs _. weaken.
  eapply okx_bind_ok; [done|ok_go|]. intros Σ2 b Hs _. weaken. destruct (negb b); [by apply okx_okw, okw_ok; ok_go|].
  eapply okx_bind_ok; [done|ok_go|]. intros Σ3 [] Hs _. weaken. cbv zeta.
  by apply (okx_le_write s Σ3 (le_set_next_state _ self)).
Qed.

Lemma okx_le_read s Σ self :
  has Σ s (StListenerExchange self) → okx (le_token self) s Σ (ListenerExchange_read dyn_terminate self).
Proof.
  intros H. unfold ListenerExchange_read, handle_echo_addr_req.
  apply okx_socket_read; [by eauto with ok|]. intros Σ1 r sk Hs Hsk. weaken.
  assert (has Σ1 s (StListenerExchange (le_set_socket sk self))) as H1.
  { apply has_le_socket; [done|]. intros E. rewrite E in Hsk. apply Hsk. }
  clear H Hsk. cbv zeta. set (self1 := le_set_socket sk self) in *. change (le_token self) with (le_token self1).
  clearbody self1. pose proof (le_tok _ _ _ H1) as Ht.
  assert (okx (le_token self1) s Σ1 (ListenerExchange_terminate dyn_terminate self1)) as Hterm
    by (apply okx_okw, okw_ok; ok_go).
  destruct r as [[[]|]|e]; try exact Hterm.
  - destruct (negb _); [exact Hterm|]. destruct (validate_peer_uid _ _); [by apply okx_bootstrap_req|exact Hterm].
  - eapply okx_bind_ok; [done|ok_go|]. intros Σ2 [a|e] Hs _; weaken; [|by apply okx_okw, okw_ok; ok_go].
    by apply (okx_le_write s Σ2 (le_set_next_state NextNone self1)).
  - destruct (validate_peer_uid _ _); [by apply okx_le_connect|exact Hterm].
  - by apply okx_okw, okw_ret.
Qed.

(** A handler that reads and then writes: the token may stand for a peer when it
    comes to write, but then the socket is gone. *)
Lemma okx_le_ready s Σ self k :
  has Σ s (StListenerExchange self) → okx (le_token self) s Σ (ListenerExchange_ready dyn_terminate self k).
Proof.
  intros H. unfold ListenerExchange_ready. destruct (_ || _); [by apply okx_okw, okw_ok; ok_go|].
  eapply okx_bind; [by eauto with ok| |].
  - destruct (is_readable k); [by apply okx_le_read|by apply okx_okw, okw_ret].
  - intros Σ1 self1 Hs H1. open_post H1. rewrite <- (le_same_token _ _ _ _ _ H H1).
    destruct (is_writable k); [by apply okx_le_write|by apply okx_okw, okw_ret].
Qed.

(** A check of reachability reports to the handshake that started it, which may
    then let its token stand for the peer. *)
Lemma okw_reachability_finish s Σ (parent : rc) child res :
  points_to Σ parent KListenerExchange → okw s Σ (reachability_finish parent child res : MW unit).
Proof.
  intros H. unfold reachability_finish, when_alive, upgrade. eapply okw_bind; [apply okw_ok, ok_gets|].
  intros Σ1 [|] Hs _; weaken; [|by apply okw_ret]. apply okw_with_borrow_mut; [by eapply points_to_allocated|].
  intros o Hr Ho. pose proof (points_to_kind _ _ _ _ H Hr) as Hk. destruct o; try discriminate Hk. cbn.
  eapply okx_bind; [by eauto with ok|by apply okx_check_reachability|]. intros Σ2 self _ Hself. by apply okx_okw, okw_ret.
Qed.

Lemma okw_cr_error s Σ self :
  has Σ s (StCheckReachability self) → okw s Σ (CheckReachability_handle_error reachability_finish self).
Proof.
  intros H. unfold CheckReachability_handle_error, CheckReachability_terminate.
  eapply okw_bind; [apply okw_ok; ok_go|]. intros Σ1 [] Hs _. weaken. by apply okw_reachability_finish, H.
Qed.

Lemma okw_cr_ready s Σ self k :
  has Σ s (StCheckReachability self) → okw s Σ (CheckReachability_ready reachability_finish self k).
Proof.
  intros H. unfold CheckReachability_ready. destruct (_ || _); [by apply okw_cr_error|].
  unfold CheckReachability_handle_success, CheckReachability_terminate.
  eapply okw_bind; [apply okw_ok; ok_go|]. intros Σ1 [] Hs _. weaken. by apply okw_reachability_finish, H.
Qed.

Lemma ok_cl_accept fuel : ∀ s Σ (self : ConnectionListener UID), ok s Σ (ConnectionListener_accept fuel self).
Proof. induction fuel; intros s Σ self; cbn [ConnectionListener_accept]; ok_go. Qed.
#[local] Hint Resolve ok_cl_accept : ok.

Lemma ok_cl_ready s Σ (self : ConnectionListener UID) k : ok s Σ (ConnectionListener_ready self k).
Proof. unfold ConnectionListener_ready, ConnectionListener_terminate. ok_go. Qed.

(** ** The refresher *)

Lemma ok_peers_to_terminate n c l : ∀ s Σ,
  @ok _ _ _ _ post_collected s Σ (peers_to_terminate n c l : MW (list rc)).
Proof.
  induction l as [|cid l IH]; intros s Σ; cbn [peers_to_terminate]; [apply ok_ret; by constructor|].
  eapply ok_bind.
  - unfold peer_to_terminate, should_drop, ActiveConnection_peer_addr. ok_go.
    apply ok_with_borrow_mut_ref; [done| |].
    + intros o _ _. ok_go. by destruct a.
    + intros o w a w' Hl. destruct o; try discriminate Hl; by intros [= _ <-].
  - intros Σ1 p Hs1 Hp. eapply (@ok_bind _ _ _ _ _ post_collected post_collected); [apply IH|].
    intros Σ2 rest Hs2 Hrest. apply ok_ret. destruct p as [r|]; [|exact Hrest].
    constructor; [by eapply allocated_mono; [apply ht_keeps_grows; eassumption|]|exact Hrest].
Qed.

Lemma ok_purge s Σ n c : ok s Σ (purge dyn_terminate n c : MW unit).
Proof.
  unfold purge. eapply ok_bind; [apply ok_gets|]. intros Σ1 cm _ _.
  eapply (@ok_bind _ _ _ _ _ post_collected); [apply ok_peers_to_terminate|].
  intros Σ2 l _ Hl. apply ok_for_each. intros Σ3 r Hs Hr. apply ok_dyn_terminate.
  eapply allocated_mono; [by apply ht_keeps_grows|]. exact (proj1 (Forall_forall _ _) Hl r Hr).
Qed.
#[local] Hint Resolve ok_purge : ok.

Lemma ok_rf_timeout s Σ self t :
  has Σ s (StRefresher self : StateObj UID) → ok s Σ (ConfigRefresher_timeout dyn_terminate self t : MW _).
Proof. intros H. unfold ConfigRefresher_timeout, ConfigRefresher_terminate. ok_go. Qed.

Lemma ok_rf_start s Σ t : tok Σ t → ok s Σ (ConfigRefresher_start t : MW _).
Proof. intros Ht. unfold ConfigRefresher_start. ok_go. Qed.
#[local] Hint Resolve ok_rf_start : ok.

(** ** Service discovery *)

Lemma ok_sd_terminate s Σ self : ok s Σ (ServiceDiscovery_terminate self : MW unit).
Proof. unfold ServiceDiscovery_terminate. ok_go. Qed.
#[local] Hint Resolve ok_sd_terminate : ok.

Lemma ok_sd_write s Σ self :
  has Σ s (StServiceDiscovery self : StateObj UID) → ok s Σ (ServiceDiscovery_write self : MW _).
Proof.
  intros H. unfold ServiceDiscovery_write. eapply ok_bind.
  - unfold write_impl. ok_go. destruct a0 as [[z|]|e]; [exact H..|]. by destruct (would_block e).
  - intros Σ1 [r self'] Hs Hp. open_post Hp. weaken. ok_go.
Qed.
#[local] Hint Resolve ok_sd_write : ok.

Lemma ok_notify l v : ∀ s Σ, ok s Σ (notify l v : MW (list nat)).
Proof. induction l; intros s Σ; cbn [notify]; ok_go. Qed.
#[local] Hint Resolve ok_notify : ok.

Lemma ok_sd_ready s Σ self k :
  has Σ s (StServiceDiscovery self : StateObj UID) → ok s Σ (ServiceDiscovery_ready self k : MW _).
Proof. intros H. unfold ServiceDiscovery_ready, ServiceDiscovery_read. ok_go. Qed.

Lemma ok_sd_start s Σ t p : tok Σ t → ok s Σ (ServiceDiscovery_start t p : MW _).
Proof. intros Ht. unfold ServiceDiscovery_start, sd_io. ok_go. Qed.
#[local] Hint Resolve ok_sd_start : ok.

Lemma ok_sd_seek s Σ self : ok s Σ (ServiceDiscovery_seek_peers self : MW _).
Proof. unfold ServiceDiscovery_seek_peers, sd_io. ok_go. Qed.
#[local] Hint Resolve ok_sd_seek : ok.

(** ** Bootstrap *)

Lemma ok_seek_peers s Σ t1 t2 : ok s Σ (seek_peers t1 t2 : MW _).
Proof.
  unfold seek_peers. eapply ok_bind; [apply ok_get_state|]. intros Σ1 st _ Hst.
  destruct st as [r|]; [|ok_go]. eapply ok_bind; [apply ok_with_borrow_mut_val; [exact Hst|]|ok_go].
  intros o _ Ho. destruct o; try (by apply ok_throw). unfold seek_borrowed. ok_go.
  all: intros Σ2 [] _ _; ok_go.
Qed.
#[local] Hint Resolve ok_seek_peers : ok.

Lemma ok_tp_start s Σ a u nh e (parent : rc) :
  points_to Σ parent KBootstrap → ok s Σ (TryPeer_start a u nh e parent : MW _).
Proof.
  intros H. unfold TryPeer_start. eapply ok_bind; [ok_go|]. intros Σ1 [sock|e1] Hs _; weaken; [|by apply ok_ret].
  apply ok_new_token. intros tk. apply okf_bind_untyped; [apply untyped_io; clean_go|].
  intros [r|e0]; [|by apply okf_ok, ok_ret].
  apply (okf_new s Σ1 (StTryPeer (mkTryPeer tk a sock _ parent))); [done|done|]. intros Σ2 r2 Hs Hr2. weaken. ok_go.
Qed.
#[local] Hint Resolve ok_tp_start : ok.

Lemma ok_bs_maybe_terminate s Σ self :
  has Σ s (StBootstrap self) → ok s Σ (Bootstrap_maybe_terminate dyn_terminate self).
Proof. intros H. unfold Bootstrap_maybe_terminate. ok_go. Qed.
#[local] Hint Resolve ok_bs_maybe_terminate : ok.

Lemma ok_begin_bootstrap s Σ self :
  has Σ s (StBootstrap self) → ok s Σ (begin_bootstrap dyn_terminate self).
Proof. intros H. unfold begin_bootstrap, try_peer. ok_go. Qed.
#[local] Hint Resolve ok_begin_bootstrap : ok.

(** A grant lets the token of the attempt stand for the peer it names. *)
Lemma okx_bs_handle_result s Σ self child res :
  tok Σ child → (∀ r, res = Ok r → unassigned Σ child) → has Σ s (StBootstrap self) →
  okx child s Σ (Bootstrap_handle_result dyn_terminate self child res).
Proof.
  intros Ht Hu H. unfold Bootstrap_handle_result. cbv zeta. destruct res as [[[sock addr] u]|[bad [reason|]]].
  - specialize (Hu _ eq_refl). eapply okx_bind_ok; [done|ok_go|]. intros Σ1 self1 Hs H1. open_post H1. clear H. weaken.
    apply (okx_assign _ u); [done|]. intros Σ2 Hs Ha. weaken. clear Hu. ok_go.
  - apply okx_okw, okw_ok. ok_go.
  - apply okx_okw, okw_ok. ok_go.
Qed.

Lemma ok_bs_handle_error s Σ self child bad :
  has Σ s (StBootstrap self) → ok s Σ (Bootstrap_handle_result dyn_terminate self child (Err bad)).
Proof. intros H. unfold Bootstrap_handle_result. ok_go. Qed.
#[local] Hint Resolve ok_bs_handle_error : ok.

Lemma ok_bs_timeout s Σ self t :
  has Σ s (StBootstrap self) → ok s Σ (Bootstrap_timeout dyn_terminate self t).
Proof. intros H. unfold Bootstrap_timeout. ok_go. Qed.

Lemma ok_bs_start s Σ nh e u bl t1 t2 :
  tok Σ t1 → ok s Σ (Bootstrap_start dyn_terminate nh e u bl t1 t2 : MW _).
Proof. intros Ht. unfold Bootstrap_start. ok_go. Qed.
#[local] Hint Resolve ok_bs_start : ok.

Lemma ok_try_peer_error s Σ (parent : rc) child bad :
  points_to Σ parent KBootstrap → ok s Σ (try_peer_finish parent child (Err bad) : MW unit).
Proof. intros H. unfold try_peer_finish, when_alive, upgrade. ok_go. Qed.
#[local] Hint Resolve ok_try_peer_error : ok.

Lemma okx_try_peer_finish s Σ (parent : rc) child res :
  tok Σ child → unassigned Σ child → points_to Σ parent KBootstrap →
  okx child s Σ (try_peer_finish parent child res : MW unit).
Proof.
  intros Ht Hu H. unfold try_peer_finish, when_alive, upgrade. eapply okx_bind_ok; [done|apply ok_gets|].
  intros Σ1 [|] Hs _; weaken; [|by apply okx_okw, okw_ret].
  eapply okx_down; [done|]. intros o Hk Ho. destruct o; try discriminate Hk. cbn.
  eapply okx_bind; [done|by apply okx_bs_handle_result|]. intros Σ2 self _ Hself. by apply okx_okw, okw_ret.
Qed.

Lemma has_tp_socket Σ s self sock :
  has Σ s (StTryPeer self) → (tp_socket self = None → sock = None) →
  has Σ s (StTryPeer (tp_set_socket sock self)).
Proof.
  intros (H1 & H2 & H3 & H4) Hs. split; [done|]. split; [done|]. split; [done|].
  intros Hn. apply H4. intros E. by apply Hn, Hs.
Qed.

Lemma tp_tok Σ s self : has Σ s (StTryPeer self) → tok Σ (tp_token self).
Proof. intros (Hs & _ & Ht & _). by rewrite <- Hs in Ht. Qed.
#[local] Hint Resolve tp_tok : ok.

Lemma tp_same_token Σ Σ' s self self' :
  has Σ s (StTryPeer self) → has Σ' s (StTryPeer self') → tp_token self' = tp_token self.
Proof. intros (<- & _) (Hs & _). by injection Hs. Qed.

Lemma ok_tp_handle_error s Σ self reason :
  has Σ s (StTryPeer self) → ok s Σ (TryPeer_handle_error try_peer_finish self reason).
Proof. intros H. unfold TryPeer_handle_error, TryPeer_terminate. ok_go. Qed.
#[local] Hint Resolve ok_tp_handle_error : ok.

Lemma okx_tp_write s Σ self m :
  has Σ s (StTryPeer self) → okx (tp_token self) s Σ (TryPeer_write try_peer_finish self m).
Proof.
  intros H. unfold TryPeer_write. apply okx_socket_write; [by eauto with ok|]. intros Σ1 r sk Hs Hsk. weaken.
  assert (has Σ1 s (StTryPeer (tp_set_socket sk self))) as H1.
  { apply has_tp_socket; [done|]. intros E. rewrite E in Hsk. apply Hsk. }
  destruct r; [by apply okx_okw, okw_ret|by apply okx_okw, okw_ok, ok_tp_handle_error].
Qed.

Lemma okx_tp_read s Σ self :
  has Σ s (StTryPeer self) → okx (tp_token self) s Σ (TryPeer_read try_peer_finish self).
Proof.
  intros H. unfold TryPeer_read. apply okx_socket_read; [by eauto with ok|]. intros Σ1 r sk Hs Hsk. weaken.
  assert (has Σ1 s (StTryPeer (tp_set_socket sk self))) as H1.
  { apply has_tp_socket; [done|]. intros E. rewrite E in Hsk. apply Hsk. }
  assert (∀ reason, okx (tp_token self) s Σ1 (TryPeer_handle_error try_peer_finish (tp_set_socket sk self) reason)) as Herr
    by (intros reason; by apply okx_okw, okw_ok, ok_tp_handle_error).
  cbv zeta. destruct r as [[[]|]|e]; try apply Herr; [|by apply okx_okw, okw_ret].
  assert (unassigned Σ1 (tp_token self)) as Hu.
  { apply H1. cbn. destruct (tp_socket self); [exact Hsk|]. by destruct Hsk as [_ [e ?]]. }
  clear Hsk Herr H1. pose proof (tp_tok _ _ _ H) as Ht. eapply okx_bind_ok; [done|ok_go|]. intros Σ2 [] Hs _. weaken.
  eapply okx_bind; [done|by apply okx_try_peer_finish, H|]. intros Σ3 [] Hs _.
  apply okx_okw, okw_ret. destruct H as (E1 & E2 & E3 & _). apply ht_goes_grows in Hs. split; [done|].
  split; [by apply (points_to_mono Σ2)|]. split; [by apply (tok_mono Σ2)|done].
Qed.

Lemma okx_tp_ready s Σ self k :
  has Σ s (StTryPeer self) → okx (tp_token self) s Σ (TryPeer_ready try_peer_finish self k).
Proof.
  intros H. unfold TryPeer_ready. destruct (is_error k); [by apply okx_okw, okw_ok, ok_tp_handle_error|].
  destruct (_ || _); [|by apply okx_okw, okw_ok, ok_tp_handle_error]. eapply okx_bind; [by eauto with ok| |].
  - destruct (is_writable k); [by apply (okx_tp_write s Σ (tp_set_request None self))|by apply okx_okw, okw_ret].
  - intros Σ1 self1 Hs H1. open_post H1. rewrite <- (tp_same_token _ _ _ _ _ H H1).
    destruct (is_readable k); [by apply okx_tp_read|by apply okx_okw, okw_ret].
Qed.

(** ** The mapping of sockets *)

Lemma ok_ge_start s Σ a1 a2 (parent : rc) :
  points_to Σ parent KMapped → ok s Σ (GetExtAddr_start a1 a2 parent : MW _).
Proof. intros H. unfold GetExtAddr_start. ok_go. Qed.
#[local] Hint Resolve ok_ge_start : ok.

Lemma ok_mt_stun s Σ self child res :
  has Σ s (StMapped self) → ok s Σ (handle_stun_resp dyn_terminate self child res).
Proof. intros H. unfold handle_stun_resp. ok_go. Qed.
#[local] Hint Resolve ok_mt_stun : ok.

Lemma ok_mt_igd s Σ self a :
  has Σ s (StMapped self) → ok s Σ (handle_igd_resp dyn_terminate self a).
Proof.
  intros H. unfold handle_igd_resp. eapply ok_bind.
  - apply ok_untyped. intros w. unfold usize_pred. destruct (_ =? _), overflow_checks; by cbn.
  - intros Σ1 k Hs _. weaken. ok_go.
Qed.
#[local] Hint Resolve ok_mt_igd : ok.

Lemma ok_stun_finish s Σ (parent : rc) child res :
  points_to Σ parent KMapped → ok s Σ (stun_finish parent child res : MW unit).
Proof. intros H. unfold stun_finish, when_alive, upgrade. ok_go. Qed.
#[local] Hint Resolve ok_stun_finish : ok.

Lemma ok_ge_ready s Σ self k :
  has Σ s (StGetExtAddr self) → ok s Σ (GetExtAddr_ready stun_finish self k).
Proof.
  intros H. unfold GetExtAddr_ready, GetExtAddr_write, GetExtAddr_receive_response,
    GetExtAddr_handle_error, GetExtAddr_terminate. ok_go.
Qed.

Lemma ok_ask_gateways t p l : ∀ s Σ, ok s Σ (ask_gateways t p l : MW Z).
Proof. induction l as [|[ip [g|]] l IH]; intros s Σ; cbn [ask_gateways]; ok_go. Qed.
#[local] Hint Resolve ok_ask_gateways : ok.

Lemma ok_mt_start s Σ p mc f : finish_ok Σ f → ok s Σ (MappedTcpSocket_start dyn_terminate p mc f : MW _).
Proof. intros Hf. unfold MappedTcpSocket_start, ask_stun. ok_go. Qed.
#[local] Hint Resolve ok_mt_start : ok.

Lemma ok_igd_message s Σ t a : ok s Σ (igd_message dyn_terminate t a : MW unit).
Proof.
  apply ok_on_state. intros Σ1 o Ho. destruct o; ok_go.
Qed.

(** ** The event loop *)

Lemma okw_handle_event s Σ t k : okw s Σ (handle_event t k : MW unit).
Proof.
  apply okw_on_state. intros Σ1 o Ho.
  destruct o; cbn [State_ready learns kind state_token]; unfold Connect_ready.
  5: { eapply okx_bind; [by eauto with ok|by apply okx_le_ready|]. intros Σ2 self _ H. by apply okx_okw, okw_ret. }
  8: { eapply okx_bind; [by eauto with ok|by apply okx_tp_ready|]. intros Σ2 self _ H. by apply okx_okw, okw_ret. }
  5: { eapply okw_bind; [by apply okw_cr_ready|]. intros Σ2 [] Hs _. weaken. by apply okw_ret. }
  all: apply okw_ok; repeat first [ok_step | by eauto using ok_ac_ready, ok_cc_ready, ok_ce_ready,
      ok_cl_ready, ok_sd_ready, ok_ge_ready].
Qed.

Lemma okw_timer_event s Σ ct : okw s Σ (timer_event ct : MW unit).
Proof.
  apply okw_on_state. intros Σ1 o Ho.
  destruct o; cbn [State_timeout learns kind]; unfold Connect_timeout, ListenerExchange_timeout, Mapped_timeout.
  6: { eapply okw_bind; [by apply okw_cr_error|]. intros Σ2 [] Hs _. weaken. by apply okw_ret. }
  all: try apply okx_okw; apply okw_ok;
    repeat first [ok_step | by eauto using ok_ac_timeout, ok_rf_timeout, ok_bs_timeout].
Qed.
#[local] Hint Resolve ok_igd_message ok_cn_start : ok.

Lemma okw_timer_loop fuel : ∀ s Σ, okw s Σ (timer_loop fuel : MW unit).
Proof.
  induction fuel as [|fuel IH]; intros s Σ; cbn [timer_loop]; [apply okw_ok, ok_diverge|].
  eapply okw_bind; [apply okw_ok; ok_go|]. intros Σ1 [ct|] _ _; [|by apply okw_ret].
  eapply okw_bind; [apply okw_timer_event|]. intros Σ2 [] _ _. apply IH.
Qed.

Lemma okw_handle_timer s Σ k : okw s Σ (handle_timer k : MW unit).
Proof. unfold handle_timer. destruct (negb _); [by apply okw_ret|apply okw_timer_loop]. Qed.

(** ** What the service posts *)

(** A computation that is well typed in every state. *)
Definition typed {A} `{!Post (UID:=UID) A} (m : MW A) : Prop := ∀ s Σ, okw s Σ m.

Lemma typed_terminate t : typed (post_terminate t : MW unit).
Proof. intros s Σ. apply okw_ok. unfold post_terminate. ok_go. Qed.

Lemma typed_write t m p : typed (post_write t m p : MW unit).
Proof.
  intros s Σ. apply okw_ok. apply ok_on_state. intros Σ1 o Ho.
  destruct o; cbn [State_write]; unfold ActiveConnection_write; ok_go.
Qed.

Lemma typed_start_discovery p : typed (post_start_service_discovery p : MW unit).
Proof. intros s Σ. apply okw_ok. unfold post_start_service_discovery. ok_go. Qed.

Lemma typed_set_discovery_listen b : typed (post_set_service_discovery_listen b : MW unit).
Proof. intros s Σ. apply okw_ok. apply ok_on_state. intros Σ1 o Ho. destruct o; ok_go. Qed.

Lemma typed_seek_peers obs : typed (post_seek_peers obs : MW unit).
Proof. intros s Σ. apply okw_ok. apply ok_on_state. intros Σ1 o Ho. destruct o; ok_go. Qed.

Lemma typed_start_bootstrap nh e u bl : typed (post_start_bootstrap nh e u bl : MW unit).
Proof. intros s Σ. apply okw_ok. unfold post_start_bootstrap. ok_go. Qed.

Lemma typed_start_listening p b u nh mc : typed (post_start_listening_tcp p b u nh mc : MW unit).
Proof. intros s Σ. apply okw_ok. unfold post_start_listening_tcp, ConnectionListener_start. ok_go. Qed.

Lemma typed_prepare t u l mc : typed (post_prepare_connection_info t u l mc : MW unit).
Proof. intros s Σ. apply okw_ok. unfold post_prepare_connection_info. ok_go. Qed.

Lemma typed_connect our their nh :
  typed (_ ← Connect_start dyn_terminate our their nh; mret tt : MW unit).
Proof. intros s Σ. apply okw_ok. ok_go. Qed.

Lemma typed_start_refresher : typed (post_start_config_refresher : MW _).
Proof. intros s Σ. apply okw_ok. unfold post_start_config_refresher. ok_go. Qed.

Lemma typed_accept_bootstrap b : typed (post_set_accept_bootstrap b : MW _).
Proof.
  intros s Σ. apply okw_ok. unfold post_set_accept_bootstrap. eapply ok_bind; [apply ok_get_state|].
  intros Σ1 [r|] _ Hr; [|ok_go]. eapply ok_bind.
  - apply ok_with_borrow_mut_ref; [exact Hr|intros o _ _; ok_go|].
    intros o w a w' _. by destruct o; intros [= _ <-].
  - intros Σ2 [] Hs _; [|ok_go]. eapply ok_bind; [|intros; ok_go].
    apply ok_with_borrow_mut; [by eapply allocated_mono; [apply ht_keeps_grows; eassumption|]|]. intros o _ Ho. destruct o; ok_go.
Qed.

Lemma typed_peer_addr t : typed (post_peer_addr t : MW _).
Proof.
  intros s Σ. apply okw_ok. unfold post_peer_addr. eapply ok_bind; [apply ok_get_state|].
  intros Σ1 [r|] _ Hr; [|ok_go]. apply ok_with_borrow_mut_ref; [exact Hr| |].
  - intros o _ _. unfold ActiveConnection_peer_addr. ok_go.
  - intros o w a w' Hl. destruct o; try discriminate Hl; by intros [= _ <-].
Qed.

End Handlers.
