(* ===== verification/TypeSafety.v ===== *)
(** What holds of a service whatever happens to it: the pointers between the
    state machines are used at the right kind of state, tokens are not handed out
    twice, the user is told things in their order, and what is sent to a peer goes
    to no other. *)

From stdpp Require Import base tactics list gmap strings.
From Stdlib Require Import ZArith Lia.
From S2P Require Import Prelude Types Env Socket ConnMap World Traces ActiveConnection Candidate.
From S2P Require Import NatUtil Connect Listener Refresher Discovery Bootstrap IfAddrs Mapped System Service Clean HeapTyping Typing HandlerTyping.

Section Service.
Context {ENV : Env} {UID : Type} `{!Uid UID, !Codec (Message UID), !Codec DiscoveryMsg}.
Abbreviation MW := (M (World UID)).
Abbreviation SM := (M (@Service ENV UID _)).
Implicit Types (sv : @Service ENV UID _).

(** The service and its event loop are well typed: the state is, no state is
    borrowed, and so is every computation in the channel. *)
Record sv_ok sv : Prop := {
  sv_typed : ∃ Σ, well_typed Σ (sv_world sv);
  sv_unborrowed : w_borrows (sv_world sv) = ∅;
  sv_posted : Forall (λ msg, match msg with Some f => typed f | None => True end) (sv_msgs sv)
}.

(** What stays whatever happens: events are only added, and states keep their
    shapes. *)
Record later sv sv' : Prop := {
  lt_events : w_events (sv_world sv) `prefix_of` w_events (sv_world sv');
  lt_shapes : (shape <$> w_heap (sv_world sv)) ⊆ (shape <$> w_heap (sv_world sv'))
}.

#[export] Instance later_preorder : PreOrder later.
Proof. split; [by intros sv|]. intros sv1 sv2 sv3 [E1 S1] [E2 S2]. split; by etrans. Qed.

Lemma ht_shape_stays Σ Σ' (w w' : World UID) r o :
  well_typed Σ w → well_typed Σ' w' → Σ ⊑ Σ' → w_heap w !! r = Some o →
  ∃ o', w_heap w' !! r = Some o' ∧ shape o' = shape o.
Proof.
  intros Hw Hw' Hs Ho. assert (Σ !! r = Some (shape o)) as Hr.
  { unfold lookup, HeapType_lookup. by rewrite <- (wt_heap _ _ Hw), lookup_fmap, Ho. }
  apply (ht_weaken _ Σ') in Hr; [|done]. unfold lookup, HeapType_lookup in Hr.
  rewrite <- (wt_heap _ _ Hw'), lookup_fmap in Hr. destruct (w_heap w' !! r) as [o'|]; [|done].
  exists o'. split; [done|]. by apply (inj Some) in Hr.
Qed.

Lemma later_world sv sv' : sv_world sv' = sv_world sv → later sv sv'.
Proof. intros E. split; by rewrite E. Qed.

Definition sok {A} (m : SM A) : Prop := ∀ sv, sv_ok sv →
  match m sv with
  | Done _ sv' => sv_ok sv' ∧ later sv sv'
  | Panicked e => e ≠ IllTyped
  | Diverged => True
  end.

Lemma sok_ret {A} (a : A) : sok (mret a).
Proof. by intros sv Hsv. Qed.

Lemma sok_bind {A B} (m : SM A) (k : A → SM B) : sok m → (∀ a, sok (k a)) → sok (m ≫= k).
Proof.
  intros Hm Hk sv Hsv. unfold mbind, M_bind. specialize (Hm sv Hsv).
  destruct (m sv) as [a sv'|e|]; [|done|done]. destruct Hm as [Hsv' He]. specialize (Hk a sv' Hsv').
  destruct (k a sv') as [b sv''|e|]; [|done|done]. destruct Hk as [? He']. split; [done|by etrans].
Qed.

Lemma sok_gets {A} (f : _ → A) : sok (gets f).
Proof. by intros sv Hsv. Qed.

Lemma sok_shared {A} `{!Post (UID:=UID) A} (m : MW A) : typed m → sok (shared m).
Proof.
  intros Hm sv [[Σ Hw] Hb Hp]. unfold shared, zoom.
  specialize (Hm (mkShape KActive 0 None None) Σ _ Hw I). destruct (m (sv_world sv)) as [a w|e|]; [|done|done].
  destruct Hm as (Σ' & Hs & Hw' & [Hb' He'] & _). split; [split; cbn; [by exists Σ'|congruence|done]|].
  split; [done|]. cbn. rewrite (wt_heap _ _ Hw), (wt_heap _ _ Hw'). apply (hg_shapes _ _ (ht_goes_grows _ _ Hs)).
Qed.

Lemma sok_post f : typed f → sok (post f).
Proof.
  intros Hf sv [Ht Hb Hp]. unfold post, mbind, M_bind, gets, modify.
  destruct (sv_alive sv); [|by repeat split]. split; [|done]. split; cbn; [done|done|].
  apply Forall_app. by repeat constructor.
Qed.

Lemma typed_channel_loop msgs : ∀ b,
  Forall (λ msg, match msg with Some f => typed f | None => True end) msgs →
  typed (channel_loop msgs b : MW _).
Proof.
  induction msgs as [|[f|] msgs IH]; intros b Hm s Σ; cbn [channel_loop]; try by apply okw_ret.
  apply Forall_cons in Hm as [Hf Hm]. eapply okw_bind; [apply Hf|]. intros. by apply IH.
Qed.

Lemma channel_loop_rest msgs b w stop ch w' :
  (channel_loop msgs b : MW _) w = Done (stop, ch) w' → ∃ l, msgs = l ++ ch_msgs ch.
Proof.
  revert w. induction msgs as [|[f|] msgs IH]; intros w; cbn; unfold mret, M_ret.
  - intros [= <- <- <-]. by exists [].
  - unfold mbind, M_bind. destruct (f w); [|done|done]. intros [l ->]%IH. by exists (Some f :: l).
  - intros [= <- <- <-]. by exists [None].
Qed.

Lemma sok_pump : sok pump.
Proof.
  intros sv Hsv. unfold pump. unfold mbind, M_bind, gets, modify.
  pose proof (sok_shared _ (typed_channel_loop _ false (sv_posted sv Hsv)) sv Hsv) as Hrun.
  destruct (shared (channel_loop (sv_msgs sv) false) sv) as [[stop ch] sv'|e|] eqn:E; [|done|done].
  destruct Hrun as [[Ht Hb Hp] He]. destruct stop.
  { split; [by split|]. etrans; [exact He|by apply later_world]. }
  split; [|etrans; [exact He|by apply later_world]]. split; cbn; [done|done|].
  unfold shared, zoom in E. destruct (channel_loop _ _ _) as [[b c] w|e|] eqn:E'; [|done|done].
  injection E as -> -> <-. apply channel_loop_rest in E' as [l Hl].
  pose proof (sv_posted sv Hsv) as Hall. rewrite Hl in Hall. by apply Forall_app in Hall as [_ ?].
Qed.

Lemma sok_post_and_wait {A} (f : MW (list A)) : typed f → sok (post_and_wait f).
Proof.
  intros Hf. unfold post_and_wait. apply sok_bind; [apply sok_gets|]. intros [|]; cbn; [|apply sok_ret].
  apply sok_bind; [apply sok_pump|]. intros _.
  apply sok_bind; [apply sok_gets|]. intros [|]; cbn; [|apply sok_ret].
  apply sok_bind; [by apply sok_shared|]. intros. apply sok_ret.
Qed.

End Service.

Create HintDb sok.
#[export] Hint Resolve sok_ret sok_gets sok_pump : sok.
#[export] Hint Extern 1 (sok (shared _)) => apply sok_shared : sok.
#[export] Hint Extern 1 (sok (post _)) => apply sok_post : sok.
#[export] Hint Extern 1 (sok (post_and_wait _)) => apply sok_post_and_wait : sok.
#[export] Hint Resolve typed_terminate typed_write typed_start_discovery typed_set_discovery_listen
  typed_seek_peers typed_start_bootstrap typed_start_listening typed_prepare typed_connect
  typed_start_refresher typed_accept_bootstrap typed_peer_addr : sok.
#[export] Hint Extern 1 (typed (send_event _)) => intros ? ?; apply okw_ok, ok_send_event; exact I : sok.
#[export] Hint Extern 1 (typed channel) => intros ? ?; apply okw_ok, (ok_channels _ _ 0%nat []) : sok.
#[export] Hint Extern 1 (typed (channel_drain _)) => intros ? ?; apply okw_ok, (ok_channels _ _ _ []) : sok.
#[export] Hint Extern 1 (typed (channel_drop _)) => intros ? ?; apply okw_ok, (ok_channels _ _ _ []) : sok.

Ltac sok_go := repeat (cbv zeta;
  match goal with
  | |- sok (_ ≫= _) => apply sok_bind; [|intros ?]
  | |- sok (match ?x with _ => _ end) => destruct x
  | |- sok _ => solve [eauto with sok]
  end).

Section Safety.
Context {ENV : Env} {UID : Type} `{!Uid UID, !Codec (Message UID), !Codec DiscoveryMsg}.
Abbreviation MW := (M (World UID)).
Abbreviation SM := (M (@Service ENV UID _)).
Implicit Types (sv : @Service ENV UID _).

(** What happens to a service: its user calls an operation, its event loop has a
    turn on the channel, a socket or a timer, a thread that asks a gateway ends,
    or the outside world moves on. *)
Inductive action : SM unit → Prop :=
| Act_start_config_refresher : action (_ ← start_config_refresher; mret tt)
| Act_set_accept_bootstrap b : action (_ ← Service_set_accept_bootstrap b; mret tt)
| Act_get_peer_socket_addr u : action (_ ← get_peer_socket_addr u; mret tt)
| Act_get_peer_ip_addr u : action (_ ← get_peer_ip_addr u; mret tt)
| Act_is_peer_hard_coded u : action (_ ← is_peer_hard_coded u; mret tt)
| Act_start_service_discovery : action start_service_discovery
| Act_set_service_discovery_listen b : action (set_service_discovery_listen b)
| Act_has_peers_on_lan events :
    action (_ ← has_peers_on_lan (for_each (λ '(t, k), handle_event t k) events); mret tt)
| Act_start_bootstrap bl k : action (_ ← start_bootstrap bl k; mret tt)
| Act_stop_bootstrap : action (_ ← stop_bootstrap; mret tt)
| Act_start_listening_tcp : action (_ ← start_listening_tcp; mret tt)
| Act_stop_tcp_listener : action (_ ← stop_tcp_listener; mret tt)
| Act_connect our their : action (_ ← Service_connect our their; mret tt)
| Act_disconnect u : action (_ ← Service_disconnect u; mret tt)
| Act_send u m p : action (_ ← Service_send u m p; mret tt)
| Act_prepare_connection_info t : action (prepare_connection_info t)
| Act_igd_thread_ends t : action (igd_thread_ends t)
| Act_drop : action EventLoop_drop
| Act_channel : action pump
| Act_event t k : action (shared (handle_event t k))
| Act_timer k : action (shared (handle_timer k))
| Act_outside n : action (shared (io (modify (λ _, n)))).

Inductive reachable : @Service ENV UID _ → Prop :=
| reachable_new uid nh n c mc :
    reachable (mkService uid nh (Core_new (4 + USER_TOKEN_OFFSET) n c) [] true mc)
| reachable_action m sv sv' :
    reachable sv → action m → m sv = Done tt sv' → reachable sv'.

(** ** Lemmas *)

(** The type of a heap as it is, for given peers of its tokens. *)
Definition typing_of (w : World UID) (peers : gmap Token UID) : HeapType UID :=
  mkHeapType (shape <$> w_heap w) (w_token_counter w) (w_events w) peers.

Lemma pointers_ok_typing Σ w (o : StateObj UID) :
  well_typed Σ w → pointers_ok Σ o → pointers_ok (typing_of w (ht_peers Σ)) o.
Proof.
  intros Hw. destruct overflow_checks eqn:Hc.
  - apply pointers_ok_mono. split; cbn; [by rewrite (wt_heap _ _ Hw)|by apply (wt_bound _ _ Hw)|apply (wt_told _ _ Hw)|done].
  - assert (∀ (Σ' : HeapType UID) t u, assigned Σ' t u) as Hany by (intros Σ' t u H; congruence).
    unfold pointers_ok, candidate_ok, points_to, leads_to, finish_ok, tok, lookup, HeapType_lookup. rewrite Hc. cbn.
    rewrite (wt_heap _ _ Hw). destruct o as [| | | | | | | | | | | |x]; try done.
    { intros [Ha _]. split; [|apply Hany]. by eapply announced_prefix; [apply (wt_told _ _ Hw)|]. }
    { intros [_ Hf]. split; [apply Hany|done]. }
    { intros [_ Hf]. split; [apply Hany|done]. }
    destruct (mt_finish x) as [[]|]; done.
Qed.

Lemma typed_igd_thread t : typed (igd_thread dyn_terminate t : MW _).
Proof. intros s Σ. apply okw_ok. unfold igd_thread. ok_go. Qed.

Lemma sok_igd_thread_ends t : sok (igd_thread_ends t : SM unit).
Proof.
  intros sv Hsv. unfold igd_thread_ends, mbind, M_bind.
  pose proof (sok_shared _ (typed_igd_thread t) sv Hsv) as Hrun.
  destruct (shared (igd_thread dyn_terminate t) sv) as [msg sv1|e|] eqn:E; [|done|done].
  assert (match msg with Some f => typed f | None => True end) as Hmsg.
  { revert E. unfold shared, zoom, igd_thread, mbind, M_bind, io, zoom, call. cbn.
    destruct (get_any_address _ _ _ _) as [[[ip port]|] n]; intros [= <- <-]; [|done].
    intros s Σ. apply okw_ok, ok_igd_message. }
  destruct msg as [f|]; [|done]. destruct Hrun as [Hsv1 He1]. pose proof (sok_post f Hmsg sv1 Hsv1) as Hp.
  destruct (post f sv1) as [r sv2|e|]; [|done|done]. destruct Hp as [Hsv2 He2]. split; [done|]. cbn. by etrans.
Qed.

Lemma sok_action m : action m → sok m.
Proof.
  destruct 1.
  - unfold start_config_refresher. sok_go.
  - unfold Service_set_accept_bootstrap. sok_go.
  - unfold get_peer_socket_addr. sok_go.
  - unfold get_peer_ip_addr, get_peer_socket_addr. sok_go.
  - unfold is_peer_hard_coded, get_peer_socket_addr. sok_go.
  - unfold start_service_discovery. sok_go.
  - unfold set_service_discovery_listen. sok_go.
  - unfold has_peers_on_lan. sok_go. apply sok_shared. intros s Σ.
    clear. induction events as [|[t k] events IH] in Σ |- *; cbn [for_each]; [by apply okw_ret|].
    eapply okw_bind; [apply okw_handle_event|]. intros Σ1 [] _ _. apply IH.
  - unfold start_bootstrap. sok_go.
  - unfold stop_bootstrap. sok_go.
  - unfold start_listening_tcp. sok_go.
  - unfold stop_tcp_listener. sok_go.
  - unfold Service_connect. sok_go.
  - unfold Service_disconnect. sok_go.
  - unfold Service_send. sok_go.
  - unfold prepare_connection_info. sok_go.
  - apply sok_igd_thread_ends.
  - intros sv [Ht Hb Hp]. unfold EventLoop_drop, modify. destruct (sv_alive sv); [|by repeat split].
    split; [|done]. split; cbn; [done|done|]. apply Forall_app. by repeat constructor.
  - apply sok_pump.
  - apply sok_shared. intros s Σ. apply okw_handle_event.
  - apply sok_shared. intros s Σ. apply okw_handle_timer.
  - apply sok_shared. intros s Σ. apply okw_ok, ok_io, clean_modify.
Qed.

Lemma reachable_ok sv : reachable sv → sv_ok sv.
Proof.
  induction 1 as [uid nh n c mc|m sv sv' _ IH Hm Hrun].
  - split; cbn; [|done|done]. exists (mkHeapType ∅ 6 [] ∅). split; try done.
    intros _. exists (mkConns (λ _, 0) (λ _, None)). intros u. split; [by cbn|]. by rewrite decide_True.
  - pose proof (sok_action m Hm sv IH) as H. rewrite Hrun in H. by destruct H.
Qed.

(** An operation that returns a value. *)
Lemma reachable_op {A} (m : SM A) sv a sv' :
  action (_ ← m; mret tt) → reachable sv → m sv = Done a sv' → reachable sv'.
Proof.
  intros Hm Hr Hrun. eapply reachable_action; [exact Hr|exact Hm|]. unfold mbind, M_bind. by rewrite Hrun.
Qed.

Lemma sok_op {A} (m : SM A) : action (_ ← m; mret tt) → sok m.
Proof.
  intros Hm sv Hsv. pose proof (sok_action _ Hm sv Hsv) as H. unfold mbind, M_bind in H.
  by destruct (m sv) as [a sv'|e|].
Qed.

(** What happens one after the other. *)
Definition step sv sv' : Prop := ∃ m, action m ∧ m sv = Done tt sv'.

Lemma steps_ok sv sv' : sv_ok sv → rtc step sv sv' → sv_ok sv' ∧ later sv sv'.
Proof.
  intros Hsv Hsteps. revert Hsv. induction Hsteps as [sv|sv1 sv2 sv3 (m & Hm & Hrun) _ IH]; intros Hsv; [by split|].
  pose proof (sok_action m Hm sv1 Hsv) as H. rewrite Hrun in H. destruct H as [H2 L2]. destruct (IH H2) as [H3 L3].
  split; [done|by etrans].
Qed.

(** Part of what is in the channel. *)
Definition run_msgs (msgs : list (option (MW unit))) : MW unit :=
  for_each (λ msg, match msg with Some f => f | None => mret tt end) msgs.

Lemma typed_run_msgs msgs :
  Forall (λ msg, match msg with Some f => typed f | None => True end) msgs → typed (run_msgs msgs).
Proof.
  induction 1 as [|[f|] msgs Hf _ IH]; intros s Σ; cbn; [by apply okw_ret| |].
  - eapply okw_bind; [apply Hf|]. intros. apply IH.
  - eapply okw_bind; [by apply okw_ret|]. intros. apply IH.
Qed.

(** The connection that the connection map names, later on. *)
Lemma active_stays sv sv' u t :
  sv_ok sv → later sv sv' → cm_active u (w_cm (sv_world sv)) = Some t →
  ∃ r c, w_heap (sv_world sv') !! r = Some (StActive c) ∧ ac_token c = t ∧ ac_their_id c = u.
Proof.
  intros [[Σ Hw] _ _] [_ Hs] (r & sh & Hr & Hk & Ht & Hu)%(wt_active _ _ Hw).
  unfold lookup, HeapType_lookup in Hr. rewrite <- (wt_heap _ _ Hw) in Hr. apply (lookup_weaken _ _ _ _ Hr) in Hs.
  rewrite lookup_fmap in Hs. destruct (w_heap (sv_world sv') !! r) as [o|] eqn:Ho; [|done].
  apply (inj Some) in Hs. subst sh. destruct o as [c| | | | | | | | | | | |]; try discriminate Hk.
  exists r, c. split; [done|]. split; [done|]. cbn in Hu. by injection Hu.
Qed.

(** Two connections with the same token are to the same peer. *)
Lemma same_token_same_peer Σ w r r' c c' :
  overflow_checks = true → well_typed Σ w →
  w_heap w !! r = Some (StActive c) → w_heap w !! r' = Some (StActive c') → ac_token c = ac_token c' →
  ac_their_id c = ac_their_id c'.
Proof.
  intros Hc Hw Hr Hr' Ht. destruct (wt_objs _ _ Hw _ _ Hr) as [_ H1], (wt_objs _ _ Hw _ _ Hr') as [_ H2].
  destruct (H1 Hc) as [_ E1], (H2 Hc) as [_ E2]. rewrite Ht in E1. rewrite E1 in E2. by injection E2.
Qed.

(** ** Properties *)

(** The services that are reachable are those that [with_config] makes, and what
    becomes of them. *)
Lemma with_config_reachable sha3_256 c our_uid n sv n' :
  with_config sha3_256 c our_uid n = Done (Ok sv) n' → reachable sv.
Proof.
  unfold with_config. intros H.
  destruct (Done_bind_inv _ _ _ _ _ H) as ([mc|e] & n1 & _ & H1); [|done].
  destruct (Done_bind_inv _ _ _ _ _ H1) as ([w|e] & n2 & Hw & H2); [|done].
  assert (∃ n0, w = Core_new (4 + USER_TOKEN_OFFSET) n0 (ConfigWrapper_new c)) as [n0 ->].
  { revert Hw. unfold spawn_event_loop. intros Hw.
    destruct (Done_bind_inv _ _ _ _ _ Hw) as ([p|e] & m1 & _ & Hw1); [|done].
    destruct (Done_bind_inv _ _ _ _ _ Hw1) as ([p1|e] & m2 & _ & Hw2); [|done].
    destruct (Done_bind_inv _ _ _ _ _ Hw2) as ([p2|e] & m3 & _ & Hw3); [|done].
    unfold mbind, M_bind, gets, mret, M_ret in Hw3. injection Hw3 as <- _. by eexists. }
  unfold new_service in H2. destruct (start_config_refresher _) as [[r|e] sv1|e|] eqn:E; try done.
  injection H2 as <- _. eapply (reachable_op start_config_refresher); [constructor| |exact E]. constructor.
Qed.

(** The pointers between the state machines are well typed. However the
    operations of a service, its events, its timers and the threads it has
    started follow each other, no handler ever follows a pointer that dangles, or
    finds another kind of state than the one it was made for. *)
Theorem never_ill_typed sv m :
  reachable sv → action m → m sv ≠ Panicked IllTyped.
Proof.
  intros Hr Hm Hrun. pose proof (sok_action m Hm sv (reachable_ok sv Hr)) as H.
  rewrite Hrun in H. done.
Qed.

(** C9: the event loop's table of states is in order whenever it waits for the
    next event: what is registered under a token is a state with that token (so
    that a state that removes itself removes itself and no other), a state's
    pointer to itself is to itself, its pointer to its parent is to a state of
    the parent's kind (and, with arithmetic checked, tokens can be given peers so
    that the token of every connection, and of what is to become one, has its
    peer), with arithmetic checked the connection map represents a count of
    handshakes and connections, and no state is left borrowed. *)
Theorem registered_states sv :
  reachable sv →
  let w := sv_world sv in
  (∀ t r, w_states w !! t = Some r → ∃ o, w_heap w !! r = Some o ∧ state_token o = t) ∧
  (∃ peers, ∀ r o, w_heap w !! r = Some o →
     (∀ r', self_weak o = Some r' → r' = r) ∧ pointers_ok (typing_of w peers) o) ∧
  (overflow_checks = true → ∃ c, represents (w_cm w) c) ∧
  w_borrows w = ∅.
Proof.
  intros [[Σ Hw] Hb _]%reachable_ok w. pose proof (wt_heap _ _ Hw) as HΣ. fold w in Hw, Hb, HΣ.
  split; [|split; [|split; [exact (wt_cm _ _ Hw)|done]]].
  - intros t r (s & Hr & Ht)%(wt_states _ _ Hw). destruct (well_typed_cell Σ w r Hw) as (o & Ho & Hs & _);
      [by exists s|by rewrite Hb|]. exists o. split; [done|]. rewrite Hr in Hs. by injection Hs as ->.
  - exists (ht_peers Σ). intros r o Ho. split.
    + intros r' Hr'. apply (wt_self _ _ Hw r (shape o) r'); [|done].
      unfold lookup, HeapType_lookup. by rewrite <- HΣ, lookup_fmap, Ho.
    + eapply (pointers_ok_typing Σ); [done|by eapply wt_objs].
Qed.

(** C11: tokens are not handed out twice. When arithmetic is checked, a token that
    the event loop hands out is not that of a state that is registered, nor one of
    those that are fixed or the loop's own: so a new state never takes the place
    of another one. *)
Theorem new_tokens_are_free sv t w' :
  reachable sv → overflow_checks = true →
  get_new_token (sv_world sv) = Done t w' →
  w_states (sv_world sv) !! t = None ∧ 6 ≤ t ∧
  (∀ t' r, w_states (sv_world sv) !! t' = Some r → 0 ≤ t' < 4 ∨ 6 ≤ t' < t) ∧
  w_token_counter w' = t + 1.
Proof.
  intros [[Σ Hw] _ _]%reachable_ok Hc Hrun. destruct (wt_bound _ _ Hw Hc) as [H6 Hb]. assert (6 ≤ w_token_counter (sv_world sv)) by lia.
  assert (t = w_token_counter (sv_world sv) ∧ w_token_counter w' = t + 1) as [-> Hnext].
  { revert Hrun. unfold get_new_token, usize_succ, mbind, M_bind, gets, modify. rewrite Hc.
    destruct (_ =? _); [done|]. by intros [= <- <-]. }
  assert (∀ t' r, w_states (sv_world sv) !! t' = Some r →
    0 ≤ t' < 4 ∨ 6 ≤ t' < w_token_counter (sv_world sv)) as Hold.
  { intros t' r (s & Hr & <-)%(wt_states _ _ Hw). destruct (wt_tokens _ _ Hw _ _ Hr Hc); [by left|right; lia]. }
  split; [|done]. destruct (w_states (sv_world sv) !! _) as [r|] eqn:Hr; [|done]. apply Hold in Hr. lia.
Qed.

(** C4: the user is told things in their order. Every message it is given is from
    a peer that was announced before, as the kind of peer it was announced to be
    (a node, if we connected to it ourselves); every peer it is told it has lost
    was announced before, unless the timer was full when the connection began; and
    it is never told that a message was too large. *)
Theorem told_in_order sv :
  reachable sv →
  let evs := w_events (sv_world sv) in
  (∀ l u k d r, evs = l ++ NewMessage u k d :: r → announced l u k) ∧
  (timers_succeed → ∀ l u r, evs = l ++ LostPeer u :: r → ∃ k, announced l u k) ∧
  (∀ u d, WriteMsgSizeProhibitive u d ∉ evs).
Proof.
  intros [[Σ Hw] _ _]%reachable_ok evs. pose proof (wt_justified _ _ Hw) as Hj. split_and!.
  - intros l u k d r E. exact (justified_split _ _ _ _ Hj E).
  - intros Ht l u r E. exact (justified_split _ _ _ _ Hj E Ht).
  - intros u d (l & r & E)%list_elem_of_split. exact (justified_split _ _ _ _ Hj E).
Qed.

(** C3: a message for a peer goes to no other peer. [send] posts a write to the
    connection that the connection map names; whatever happens between then and
    the moment the event loop runs it (other operations, events, timers, what was
    posted before), a connection that is registered under that token is one to
    the peer the message is for. *)
Theorem sent_to_no_other sv u d p sv1 :
  reachable sv → overflow_checks = true → Service_send u d p sv = Done (Ok tt) sv1 →
  ∃ t, cm_active u (w_cm (sv_world sv)) = Some t ∧
    sv_msgs sv1 = sv_msgs sv ++ [Some (post_write t d p)] ∧
    ∀ sv2 msgs rest w r c, rtc step sv1 sv2 → sv_msgs sv2 = msgs ++ rest →
      run_msgs msgs (sv_world sv2) = Done tt w →
      w_states w !! t = Some r → w_heap w !! r = Some (StActive c) → ac_their_id c = u.
Proof.
  intros Hsv%reachable_ok Hc Hsend.
  assert (∃ t, cm_active u (w_cm (sv_world sv)) = Some t ∧
    sv1 = sv_set_msgs (sv_msgs sv ++ [Some (post_write t d p)]) sv) as (t & Ht & ->).
  { revert Hsend. unfold Service_send, post, mbind, M_bind, gets, modify.
    destruct (cm_active u _) as [t|]; [|done]. destruct (sv_alive sv); [|done]. intros [= <-]. by exists t. }
  exists t. split; [done|]. split; [done|]. intros sv2 msgs rest w r c Hsteps Hmsgs Hrun Hr Hcell.
  assert (sv_ok (sv_set_msgs (sv_msgs sv ++ [Some (post_write t d p)]) sv)) as Hsv1.
  { pose proof (sok_post _ (typed_write t d p) sv Hsv) as H. revert H Hsend.
    unfold Service_send, post, mbind, M_bind, gets, modify. rewrite Ht. destruct (sv_alive sv); [|done]. by intros []. }
  destruct (steps_ok _ _ Hsv1 Hsteps) as [[[Σ Hw] Hb Hp] Hlater].
  rewrite Hmsgs in Hp. apply Forall_app in Hp as [Hp _].
  pose proof (typed_run_msgs msgs Hp (mkShape KActive 0 None None) Σ _ Hw I) as H. rewrite Hrun in H.
  destruct H as (Σ' & Hs & Hw' & _). apply ht_goes_grows in Hs.
  destruct (active_stays _ sv2 u t Hsv1 Hlater Ht) as (r0 & c0 & Hr0 & Ht0 & <-).
  destruct (ht_shape_stays Σ Σ' (sv_world sv2) w r0 _ Hw Hw' Hs Hr0) as (o & Ho & Hsh).
  destruct o as [c1| | | | | | | | | | | |]; try discriminate Hsh. injection Hsh as Ht1 Hu1. rewrite <- Hu1.
  apply (same_token_same_peer Σ' w r r0); try done. rewrite Ht1, Ht0.
  destruct (wt_states _ _ Hw' _ _ Hr) as (sh & Hsh' & <-). unfold lookup, HeapType_lookup in Hsh'.
  rewrite <- (wt_heap _ _ Hw'), lookup_fmap, Hcell in Hsh'. by injection Hsh' as <-.
Qed.

(** Events are only added. Whatever happens to a service, the events it has
    sent to its user stay as they are, in their order. *)
Theorem events_only_added sv sv' m :
  reachable sv → action m → m sv = Done tt sv' →
  w_events (sv_world sv) `prefix_of` w_events (sv_world sv').
Proof.
  intros Hr Hm Hrun. pose proof (sok_action m Hm sv (reachable_ok sv Hr)) as H. rewrite Hrun in H. apply H.
Qed.

End Safety.

Module SafetyWitness.

#[local] Instance wenv : Env := Script.env true false.
#[local] Existing Instance Script.msg_codec.
#[local] Existing Instance Script.disc_codec.

(** A service that has begun to connect to a peer. *)
Definition sv0 : @Service wenv Z _ :=
  mkService 1 [] (Core_new 6 (Script.quiet : @net wenv) (ConfigWrapper_new Config_default)) [] true
    (mkMappingContext [] [] []).
Definition connecting : M (@Service wenv Z _) unit :=
  _ ← Service_connect (mkPrivConnectionInfo 1 [] [] None : PrivConnectionInfo Z (@TcpBuilder wenv))
        (mkPubConnectionInfo 8 [] [Script.local]); mret tt.
Definition after (m : M (@Service wenv Z _) unit) (sv : @Service wenv Z _) : @Service wenv Z _ :=
  match m sv with Done _ sv' => sv' | _ => sv end.
Definition sv1 : @Service wenv Z _ := after pump (after connecting sv0).

Definition completes (m : M (@Service wenv Z _) unit) (sv : @Service wenv Z _) : bool :=
  match m sv with Done _ _ => true | _ => false end.

Lemma completes_after m sv : completes m sv = true → m sv = Done tt (after m sv).
Proof. unfold completes, after. by destruct (m sv) as [[] sv'|e|]. Qed.

Lemma reachable_after m sv : reachable sv → action m → completes m sv = true → reachable (after m sv).
Proof. intros Hr Hm Hc. apply (reachable_action m sv); [done|done|by apply completes_after]. Qed.

Lemma sv1_reachable : reachable sv1.
Proof.
  apply reachable_after; [|constructor|vm_compute; reflexivity].
  apply reachable_after; [constructor|constructor|vm_compute; reflexivity].
Qed.

Lemma never_ill_typed_witness :
  shared (handle_event 7 ready_write) sv1 ≠ Panicked IllTyped.
Proof. apply (never_ill_typed sv1); [exact sv1_reachable|constructor]. Defined.

(** The handshake is registered under its token, and its parent is the
    connection attempt. *)
Lemma registered_states_witness :
  (∀ t r, w_states (sv_world sv1) !! t = Some r →
     ∃ o, w_heap (sv_world sv1) !! r = Some o ∧ state_token o = t) ∧
  map_to_list (w_states (sv_world sv1)) = [(7, 1%nat); (6, 0%nat)] ∧
  w_borrows (sv_world sv1) = ∅.
Proof.
  destruct (registered_states sv1 sv1_reachable) as (H1 & _ & _ & H3).
  split; [exact H1|]. split; [vm_compute; reflexivity|exact H3].
Defined.

(** The connection attempt and its handshake have the tokens 6 and 7. *)
Lemma new_tokens_are_free_witness :
  ∃ w', get_new_token (sv_world sv1) = Done 8 w' ∧ w_states (sv_world sv1) !! 8 = None ∧
        w_states (sv_world sv1) !! 7 = Some 1%nat.
Proof.
  exists (set_token_counter 9 (sv_world sv1)).
  assert (get_new_token (sv_world sv1) = Done 8 (set_token_counter 9 (sv_world sv1))) as Hrun
    by (vm_compute; reflexivity).
  split; [exact Hrun|]. split; [|vm_compute; reflexivity].
  exact (proj1 (new_tokens_are_free sv1 8 _ sv1_reachable eq_refl Hrun)).
Defined.

(** A connection info is asked for; the event loop prepares it. *)
Definition sv2 : @Service wenv Z _ := after (prepare_connection_info 5) sv0.

Lemma sv2_reachable : reachable sv2.
Proof. apply reachable_after; [constructor|constructor|vm_compute; reflexivity]. Qed.

Lemma events_only_added_witness :
  w_events (sv_world sv2) `prefix_of` w_events (sv_world (after pump sv2)) ∧
  length (w_events (sv_world (after pump sv2))) = 1%nat.
Proof.
  split; [|vm_compute; reflexivity].
  apply (events_only_added sv2 _ pump); [exact sv2_reachable|constructor|].
  apply completes_after. vm_compute. reflexivity.
Defined.

(** The peer answers on the stream. *)
Definition hears (bs : list byte) : M (@Service wenv Z _) unit :=
  shared (io (modify (λ _, Script.set_reads [Ok bs] Script.quiet : @net wenv))).
Definition readable : Ready := mkReady true false false false.
Definition writable : Ready := mkReady false true false false.
Definition on_event (k : Ready) : M (@Service wenv Z _) unit := shared (handle_event 7 k).

(** The handshake is written, the peer's reply is read, and its choice: it is
    connected; then it sends a byte. *)
Definition sv3 : @Service wenv Z _ :=
  after (on_event readable) (after (hears [Byte.x02; Byte.x00; Byte.x00; Byte.x00; Byte.x04; Byte.x08])
    (after (on_event writable) sv1)).
Definition sv4 : @Service wenv Z _ :=
  after (on_event readable) (after (hears [Byte.x01; Byte.x00; Byte.x00; Byte.x00; Byte.x01])
    (after (on_event writable) sv3)).
Definition sv5 : @Service wenv Z _ :=
  after (on_event readable) (after (hears [Byte.x02; Byte.x00; Byte.x00; Byte.x00; Byte.x03; Byte.x2a]) sv4).

Lemma sv4_reachable : reachable sv4.
Proof.
  repeat (apply reachable_after; [|constructor|vm_compute; reflexivity]). constructor.
Qed.

Lemma sv5_reachable : reachable sv5.
Proof. do 2 (apply reachable_after; [|constructor|vm_compute; reflexivity]). exact sv4_reachable. Qed.

(** The message comes after the peer's announcement. *)
Lemma told_in_order_witness :
  w_events (sv_world sv5) = [ConnectSuccess 8; NewMessage 8 Node [Byte.x2a]] ∧
  announced [ConnectSuccess 8 : Event Z (@TcpBuilder wenv)] 8 Node.
Proof.
  assert (w_events (sv_world sv5) = [ConnectSuccess 8; NewMessage 8 Node [Byte.x2a]]) as He
    by (vm_compute; reflexivity).
  split; [exact He|].
  exact (proj1 (told_in_order sv5 sv5_reachable) [ConnectSuccess 8] 8 Node [Byte.x2a] [] He).
Defined.

Lemma is_active_cell (cell : option (@StateObj wenv Z)) :
  match cell with Some (StActive _) => true | _ => false end = true → ∃ c, cell = Some (StActive c).
Proof. destruct cell as [[c| | | | | | | | | | | |]|]; try discriminate. by exists c. Qed.

(** A byte is sent to the peer; the connection under the token is to it. *)
Lemma sent_to_no_other_witness :
  ∃ sv' c, Service_send 8 [Byte.x2b] 0 sv4 = Done (Ok tt) sv' ∧
    w_states (sv_world sv') !! 7 = Some 3%nat ∧ w_heap (sv_world sv') !! 3%nat = Some (StActive c) ∧
    ac_their_id c = 8.
Proof.
  set (sv' := sv_set_msgs (sv_msgs sv4 ++ [Some (post_write 7 [Byte.x2b] 0)]) sv4).
  assert (cm_active 8 (w_cm (sv_world sv4)) = Some 7) as Ha by (vm_compute; reflexivity).
  assert (Service_send 8 [Byte.x2b] 0 sv4 = Done (Ok tt) sv') as Hrun.
  { unfold Service_send, post, mbind, M_bind, gets, modify. rewrite Ha.
    replace (sv_alive sv4) with true by (vm_compute; reflexivity). reflexivity. }
  assert (w_states (sv_world sv4) !! 7 = Some 3%nat) as Hr by (vm_compute; reflexivity).
  destruct (is_active_cell (w_heap (sv_world sv4) !! 3%nat)) as [c Hc]; [vm_compute; reflexivity|].
  exists sv', c. split; [exact Hrun|]. split; [exact Hr|]. split; [exact Hc|].
  destruct (sent_to_no_other sv4 8 [Byte.x2b] 0 sv' sv4_reachable eq_refl Hrun) as (t & Ht & Hmsgs & Hnone).
  rewrite Ha in Ht. injection Ht as <-.
  exact (Hnone sv' [] (sv_msgs sv') (sv_world sv') 3%nat c (rtc_refl _ _) eq_refl eq_refl Hr Hc).
Defined.

End SafetyWitness.
