(* ===== verification/Threads.v ===== *)
(** Threads that share a state guarded by mutexes ([std::sync::Mutex]), run in
    any interleaving: a thread's code, its steps, and why threads that take their
    locks in order do not deadlock. *)

From stdpp Require Import base tactics list gmap sets.
From Stdlib Require Import ZArith Lia.
From S2P Require Import Prelude.

(** ** The code of a thread

    [S] is the shared state, [L] the mutexes, [P] the points of the program a
    thread can go (back) to. *)
Inductive thread (S L P : Type) : Type :=
| Finished
| Acquire (l : L) (k : thread S L P)
| Release (l : L) (k : thread S L P)
| Atomic (A : Type) (m : M S A) (k : A → thread S L P)
| Goto (p : P).
Arguments Finished {S L P}.
Arguments Acquire {S L P} l k.
Arguments Release {S L P} l k.
Arguments Atomic {S L P A} m k.
Arguments Goto {S L P} p.

Abbreviation tid := nat (only parsing).

(** A thread runs, or has panicked. *)
Inductive status (S L P : Type) : Type :=
| Running (t : thread S L P)
| Dead (e : panic).
Arguments Running {S L P} t.
Arguments Dead {S L P} e.

(** The shared state, who holds which mutex, which mutexes are poisoned, and the
    threads. *)
Record config (S L P : Type) `{Countable L} := mkThreads {
  c_state : S;
  c_held : gmap L tid;
  c_poisoned : gset L;
  c_threads : gmap tid (status S L P)
}.
Arguments mkThreads {S L P _ _} _ _ _ _.
Arguments c_state {S L P _ _} _.
Arguments c_held {S L P _ _} _.
Arguments c_poisoned {S L P _ _} _.
Arguments c_threads {S L P _ _} _.

(** ** What a computation does

    From a state in [J], it goes to a state in [J] that [R] relates it to, and
    does not panic in a [bad] way. *)
Section Does.
Context {S : Type} (J : S → Prop) (R : S → S → Prop) (bad : panic → Prop) `{!PreOrder R}.

Definition does {A} (m : M S A) : Prop := ∀ s, J s →
  match m s with
  | Done _ s' => J s' ∧ R s s'
  | Panicked e => ¬ bad e
  | Diverged => True
  end.

Lemma does_ret {A} (a : A) : does (mret a).
Proof. by intros s Hs. Qed.

Lemma does_bind {A B} (m : M S A) (k : A → M S B) : does m → (∀ a, does (k a)) → does (m ≫= k).
Proof.
  intros Hm Hk s Hs. unfold mbind, M_bind. specialize (Hm s Hs). destruct (m s) as [a s1|e|]; [|done|done].
  destruct Hm as [H1 HR1]. specialize (Hk a s1 H1). destruct (k a s1) as [b s2|e|]; [|done|done].
  destruct Hk as [H2 HR2]. split; [done|by etrans].
Qed.

Lemma does_gets {A} (f : S → A) : does (gets f).
Proof. by intros s Hs. Qed.

Lemma does_throw {A} e : ¬ bad e → does (throw e : M S A).
Proof. by intros He s Hs. Qed.

Lemma does_unwrap {A} (o : option A) : ¬ bad UnwrapNone → does (unwrap o).
Proof. intros Hu. destruct o; [apply does_ret|by apply does_throw]. Qed.

Lemma does_modify f : (∀ s, J s → J (f s) ∧ R s (f s)) → does (modify f).
Proof. intros Hf s Hs. by apply Hf. Qed.

Lemma does_for_each {A} (body : A → M S unit) l : (∀ a, does (body a)) → does (for_each body l).
Proof. intros Hb. induction l; cbn [for_each]; [apply does_ret|]. by apply does_bind. Qed.

Lemma does_fold_loop {A B} (body : B → A → M S B) l :
  (∀ b a, does (body b a)) → ∀ b, does (fold_loop body b l).
Proof. intros Hb. induction l; intros b; cbn [fold_loop]; [apply does_ret|]. by apply does_bind. Qed.

End Does.

Section Threads.
Context {S L P : Type} `{Countable L}.
Implicit Types (c : config S L P) (t k : thread S L P) (i j : nat).

(** The code at each point of the program, and what a thread that panics drops
    of the shared state (its ends of channels). *)
Context (code : P → thread S L P) (on_panic : nat → S → S).

(** The thread [i] panics: the mutexes it holds are unlocked, and poisoned. *)
Definition dies i (e : panic) c : config S L P :=
  mkThreads (on_panic i (c_state c))
    (filter (λ lj, lj.2 ≠ i) (c_held c))
    (c_poisoned c ∪ dom (filter (λ lj, lj.2 = i) (c_held c)))
    (<[i := Dead e]> (c_threads c)).

(** The thread [i] goes on with [k]. *)
Definition goes_on i k (s : S) (held : gmap L tid) c : config S L P :=
  mkThreads s held (c_poisoned c) (<[i := Running k]> (c_threads c)).

(** One step of the thread [i], if it can make one: it waits for a mutex that is
    held, also by itself, and panics on one that is poisoned. *)
Definition step_thread i c : option (config S L P) :=
  match c_threads c !! i with
  | Some (Running (Acquire l k)) =>
      match c_held c !! l with
      | Some _ => None
      | None =>
          if decide (l ∈ c_poisoned c) then Some (dies i Poisoned c)
          else Some (goes_on i k (c_state c) (<[l := i]> (c_held c)) c)
      end
  | Some (Running (Release l k)) => Some (goes_on i k (c_state c) (delete l (c_held c)) c)
  | Some (Running (Atomic m k)) =>
      match m (c_state c) with
      | Done a s => Some (goes_on i (k a) s (c_held c) c)
      | Panicked e => Some (dies i e c)
      | Diverged => None
      end
  | Some (Running (Goto p)) => Some (goes_on i (code p) (c_state c) (c_held c) c)
  | Some (Running Finished) | Some (Dead _) | None => None
  end.

(** Any thread that can makes the next step. *)
Inductive step c c' : Prop :=
| step_by i : step_thread i c = Some c' → step c c'.

Inductive steps : config S L P → config S L P → Prop :=
| steps_refl c : steps c c
| steps_next c1 c2 c3 : steps c1 c2 → step c2 c3 → steps c1 c3.

(** A run in which [I] holds of the shared state at all times. *)
Inductive steps_while (I : S → Prop) : config S L P → config S L P → Prop :=
| while_refl c : I (c_state c) → steps_while I c c
| while_next c1 c2 c3 : steps_while I c1 c2 → step c2 c3 → I (c_state c3) → steps_while I c1 c3.

(** The thread [i] waits for a mutex that [j] holds. *)
Definition waits_for c i j : Prop :=
  ∃ l k, c_threads c !! i = Some (Running (Acquire l k)) ∧ c_held c !! l = Some j.

(** Some threads wait for each other, so that none of them can ever go on. *)
Definition deadlocked c : Prop :=
  ∃ D : gset nat, D ≠ ∅ ∧ ∀ i, i ∈ D → ∃ j, j ∈ D ∧ waits_for c i j.

(** ** Lemmas on runs *)

Lemma steps_trans c1 c2 c3 : steps c1 c2 → steps c2 c3 → steps c1 c3.
Proof. intros H1 H2. induction H2; [done|]. by eapply steps_next; [apply IHsteps|]. Qed.

Lemma steps_invariant (I : config S L P → Prop) :
  (∀ c c', I c → step c c' → I c') → ∀ c c', steps c c' → I c → I c'.
Proof. intros HI c c' Hs. induction Hs; eauto. Qed.

(** A step only moves the thread that makes it, which was running. *)
Lemma step_thread_threads i c c' :
  step_thread i c = Some c' →
  (∃ t, c_threads c !! i = Some (Running t)) ∧ ∃ st, c_threads c' = <[i := st]> (c_threads c).
Proof.
  unfold step_thread. destruct (c_threads c !! i) as [[t|e]|]; [|done|done]. intros Hi. split; [by exists t|].
  destruct t as [|l k|l k|A m k|p]; [done| | | |]; repeat case_match; simplify_eq/=; by eexists.
Qed.

(** The steps, one by one. *)
Lemma go_goto i p s held q ths :
  ths !! i = Some (Running (Goto p)) →
  step (mkThreads s held q ths) (mkThreads s held q (<[i := Running (code p)]> ths)).
Proof. intros Hi. exists i. unfold step_thread. cbn. by rewrite Hi. Qed.

Lemma go_atomic {A} i (m : M S A) (k : A → thread S L P) a s s' held q ths :
  ths !! i = Some (Running (Atomic m k)) → m s = Done a s' →
  step (mkThreads s held q ths) (mkThreads s' held q (<[i := Running (k a)]> ths)).
Proof. intros Hi Hm. exists i. unfold step_thread. cbn. by rewrite Hi, Hm. Qed.

Lemma go_acquire i l k s held q ths :
  ths !! i = Some (Running (Acquire l k)) → held !! l = None → l ∉ q →
  step (mkThreads s held q ths) (mkThreads s (<[l := i]> held) q (<[i := Running k]> ths)).
Proof.
  intros Hi Hl Hq. exists i. unfold step_thread. cbn. by rewrite Hi, Hl, decide_False.
Qed.

Lemma go_release i l k s held q ths :
  ths !! i = Some (Running (Release l k)) →
  step (mkThreads s held q ths) (mkThreads s (delete l held) q (<[i := Running k]> ths)).
Proof. intros Hi. exists i. unfold step_thread. cbn. by rewrite Hi. Qed.

(** ** Deadlocks last *)

(** The code takes and gives back no mutex; [free] are the points it goes to. *)
Fixpoint lock_free (free : P → Prop) (t : thread S L P) : Prop :=
  match t with
  | Finished => True
  | Acquire _ _ | Release _ _ => False
  | Atomic m k => ∀ a, lock_free free (k a)
  | Goto p => free p
  end.

(** The threads in [D] wait for each other, and the others use no mutexes. *)
Definition stuck (free : P → Prop) (D : gset nat) c : Prop :=
  (∀ i, i ∈ D → ∃ j, j ∈ D ∧ waits_for c i j) ∧
  (∀ i t, i ∉ D → c_threads c !! i = Some (Running t) → lock_free free t).

Lemma stuck_step free D c c' :
  (∀ p, free p → lock_free free (code p)) → stuck free D c → step c c' → stuck free D c'.
Proof.
  intros Hcode [HD Hfree] [i Hi].
  assert (i ∉ D) as Hout.
  { intros (j & _ & l & k & Ht & Hl)%HD. unfold step_thread in Hi. by rewrite Ht, Hl in Hi. }
  destruct (step_thread_threads i c c' Hi) as [[t Ht] _].
  pose proof (Hfree i t Hout Ht) as Ht'.
  assert (∃ st s held, c_threads c' = <[i := st]> (c_threads c) ∧ c_state c' = s ∧ c_held c' = held ∧
    (∀ l j, j ∈ D → c_held c !! l = Some j → held !! l = Some j) ∧
    match st with Running k => lock_free free k | Dead _ => True end) as (st & s & held & Hc & _ & Hh & Hkeep & Hst).
  { unfold step_thread in Hi. rewrite Ht in Hi.
    destruct t as [|l k|l k|A m k|q]; [done|done|done| |]; cbn in Ht'.
    - destruct (m (c_state c)) as [a s|e|]; [| |done]; injection Hi as <-.
      + exists (Running (k a)). by eexists _, _.
      + exists (Dead e). eexists _, _. split_and!; [done|done|done| |done]. intros l j Hj Hl. cbn.
        apply map_lookup_filter_Some. split; [done|]. cbn. by intros ->.
    - injection Hi as <-. exists (Running (code q)). eexists _, _. split_and!; try done. by apply Hcode. }
  split.
  - intros i1 Hi1. destruct (HD i1 Hi1) as (j & Hj & l & k & Ht1 & Hl). exists j. split; [done|].
    exists l, k. rewrite Hc, Hh, lookup_insert_ne by (intros ->; done). split; [done|]. by apply (Hkeep l j).
  - intros i1 t1 Hi1. rewrite Hc. intros [[<- ->]|[_ H1]]%lookup_insert_Some; [done|by eapply Hfree].
Qed.

Lemma stuck_steps free D c c' :
  (∀ p, free p → lock_free free (code p)) → D ≠ ∅ → stuck free D c → steps c c' → deadlocked c'.
Proof.
  intros Hcode HD Hc Hs. exists D. split; [done|].
  apply (steps_invariant (stuck free D)) with (c' := c') in Hc; [apply Hc| |done].
  intros. by eapply stuck_step.
Qed.

(** ** What a thread relies on

    The thread [i0] relies on what the others change being in [R], and is not to
    panic in a [bad] way; [own] are the points it goes to, [guarded] those the
    others go to. If it is bad to find a mutex poisoned, it must not. *)
Section Rely.
Context (i0 : nat) (R : S → S → Prop) (bad : panic → Prop) (own guarded : P → Prop).
Context (panic_R : ∀ i s, R s (on_panic i s)).

Fixpoint guarantees (t : thread S L P) : Prop :=
  match t with
  | Finished => True
  | Acquire _ k | Release _ k => guarantees k
  | Atomic m k => ∀ s a s', m s = Done a s' → R s s' ∧ guarantees (k a)
  | Goto p => guarded p
  end.

Definition stable (Φ : S → Prop) : Prop := ∀ s s', R s s' → Φ s → Φ s'.

(** [t] does not panic in a bad way from a state in which [Φ] holds: between its
    steps, only what is stable is known. *)
Fixpoint secure (Φ : S → Prop) (t : thread S L P) : Prop :=
  match t with
  | Finished => True
  | Goto p => own p
  | Acquire _ k | Release _ k => secure Φ k
  | Atomic m k => ∀ s, Φ s →
      match m s with
      | Done a s' => ∃ Φ', stable Φ' ∧ Φ' s' ∧ secure Φ' (k a)
      | Panicked e => ¬ bad e
      | Diverged => True
      end
  end.

Context (code_secure : ∀ p, own p → secure (λ _, True) (code p)).
Context (code_guarded : ∀ p, guarded p → guarantees (code p)).

Record relies c : Prop := {
  rl_self : match c_threads c !! i0 with
            | Some (Running t) => ∃ Φ, stable Φ ∧ Φ (c_state c) ∧ secure Φ t
            | Some (Dead e) => ¬ bad e
            | None => True
            end;
  rl_others : ∀ i t, i ≠ i0 → c_threads c !! i = Some (Running t) → guarantees t
}.

(** A step of the thread itself. *)
Lemma relies_self c c' :
  (bad Poisoned → c_poisoned c = ∅) → relies c → step_thread i0 c = Some c' → relies c'.
Proof.
  intros Hpois [Hself Hothers] Hi. split.
  - unfold step_thread in Hi. destruct (c_threads c !! i0) as [[t|e]|]; [|done|done].
    destruct Hself as (Φ & Hst & Hs & Ht). destruct t as [|l k|l k|A m k|q]; [done| | | |]; cbn in Ht.
    + destruct (c_held c !! l); [done|]. case_decide as Hl; injection Hi as <-; cbn; rewrite lookup_insert_eq; [|by exists Φ].
      intros Hb%Hpois. rewrite Hb in Hl. by apply not_elem_of_empty in Hl.
    + injection Hi as <-. cbn. rewrite lookup_insert_eq. by exists Φ.
    + specialize (Ht _ Hs). destruct (m (c_state c)); [| |done]; injection Hi as <-; cbn; by rewrite lookup_insert_eq.
    + injection Hi as <-. cbn. rewrite lookup_insert_eq. exists (λ _, True).
      split; [done|]. split; [done|]. by apply code_secure.
  - destruct (step_thread_threads _ _ _ Hi) as [_ [st ->]]. intros i t Hne. rewrite lookup_insert_ne by done.
    by apply Hothers.
Qed.

(** A step of another. *)
Lemma relies_other i c c' : relies c → i ≠ i0 → step_thread i c = Some c' → relies c'.
Proof.
  intros [Hself Hothers] Hne Hi. destruct (step_thread_threads _ _ _ Hi) as [[t Ht] [st Hc]].
  pose proof (Hothers i t Hne Ht) as Hg.
  assert ((R (c_state c) (c_state c') ∨ c_state c' = c_state c) ∧
    match st with Running k => guarantees k | Dead _ => True end) as [HR Hk].
  { assert (c_threads c' !! i = Some st) as Hst by (rewrite Hc; apply lookup_insert_eq). revert Hst.
    unfold step_thread in Hi. rewrite Ht in Hi. destruct t as [|l k|l k|A m k|q]; [done| | | |]; cbn in Hg.
    - destruct (c_held c !! l); [done|]. case_decide; injection Hi as <-; cbn; rewrite lookup_insert_eq;
        intros [= <-]; split; auto.
    - injection Hi as <-. cbn. rewrite lookup_insert_eq. intros [= <-]. split; auto.
    - specialize (Hg (c_state c)). destruct (m (c_state c)) as [a s|e|]; [| |done]; injection Hi as <-; cbn;
        rewrite lookup_insert_eq; intros [= <-]; [|split; auto]. destruct (Hg a s eq_refl). auto.
    - injection Hi as <-. cbn. rewrite lookup_insert_eq. intros [= <-]. auto. }
  split.
  - rewrite Hc, lookup_insert_ne by done. destruct (c_threads c !! i0) as [[t0|e]|]; [|done|done].
    destruct Hself as (Φ & Hst & Hs & Ht0). exists Φ. split; [done|]. split; [|done].
    destruct HR as [HR| ->]; [by eapply Hst|done].
  - intros j t' Hj. rewrite Hc. intros [[<- ->]|[_ Hj']]%lookup_insert_Some; [done|by eapply Hothers].
Qed.

Lemma relies_step i c c' :
  ((∃ t, c_threads c !! i0 = Some (Running t)) → bad Poisoned → c_poisoned c = ∅) →
  relies c → step_thread i c = Some c' → relies c'.
Proof.
  intros Hpois Hc Hi. destruct (decide (i = i0)) as [->|]; [|by eapply relies_other].
  eapply relies_self; [|done|done]. apply Hpois. apply (step_thread_threads _ _ _ Hi).
Qed.

End Rely.

(** ** What all threads keep

    [J] is an invariant of the shared state. Every thread changes the state within
    [R] only, and may use what is stable under [R] of what it has seen. *)
Section Keep.
Context (J : S → Prop) (R : S → S → Prop).
Context (panic_J : ∀ i s, J s → J (on_panic i s) ∧ R s (on_panic i s)).

Fixpoint keeps (Φ : S → Prop) (t : thread S L P) : Prop :=
  match t with
  | Finished | Goto _ => True
  | Acquire _ k | Release _ k => keeps Φ k
  | Atomic m k => ∀ s a s', J s → Φ s → m s = Done a s' →
      J s' ∧ R s s' ∧ ∃ Φ', stable R Φ' ∧ Φ' s' ∧ keeps Φ' (k a)
  end.

Context (code_keeps : ∀ p, keeps (λ _, True) (code p)).

Record all_keep c : Prop := {
  ke_state : J (c_state c);
  ke_threads : ∀ i t, c_threads c !! i = Some (Running t) → ∃ Φ, stable R Φ ∧ Φ (c_state c) ∧ keeps Φ t
}.

Lemma all_keep_step c c' : all_keep c → step c c' → all_keep c'.
Proof.
  intros [HJ Ht] [i Hi].
  assert (∀ st, J (c_state c') → R (c_state c) (c_state c') ∨ c_state c' = c_state c →
    c_threads c' = <[i := st]> (c_threads c) →
    (∀ t, st = Running t → ∃ Φ, stable R Φ ∧ Φ (c_state c') ∧ keeps Φ t) → all_keep c') as Hset.
  { intros st HJ' HR Hc Hst. split; [done|]. intros j t. rewrite Hc.
    intros [[<- E]|[_ Hj]]%lookup_insert_Some; [by apply Hst|].
    destruct (Ht _ _ Hj) as (Φ & H1 & H2 & H3). exists Φ. split; [done|]. split; [|done].
    destruct HR as [HR| ->]; [by eapply H1|done]. }
  unfold step_thread in Hi. destruct (c_threads c !! i) as [[t|e]|] eqn:E; [|done|done].
  destruct (Ht _ _ E) as (Φ & H1 & H2 & H3). destruct t as [|l k|l k|A m k|q]; [done| | | |]; cbn in H3.
  - destruct (c_held c !! l); [done|]. case_decide; injection Hi as <-.
    + destruct (panic_J i _ HJ). eapply (Hset (Dead Poisoned)); try done. by left.
    + eapply (Hset (Running k)); try done; [by right|]. intros t [= <-]. by exists Φ.
  - injection Hi as <-. eapply (Hset (Running k)); try done; [by right|]. intros t [= <-]. by exists Φ.
  - destruct (m (c_state c)) as [a s|e|] eqn:Em; [| |done]; injection Hi as <-.
    + destruct (H3 _ _ _ HJ H2 Em) as (HJ' & HR & HΦ).
      eapply (Hset (Running (k a))); try done; [by left|]. by intros t [= <-].
    + destruct (panic_J i _ HJ). eapply (Hset (Dead e)); try done. by left.
  - injection Hi as <-. eapply (Hset (Running (code q))); try done; [by right|]. intros t [= <-]. exists (λ _, True).
    split; [done|]. by split.
Qed.

Lemma all_keep_steps c c' : all_keep c → steps c c' → all_keep c'.
Proof. intros Hc Hs. revert Hc. by apply (steps_invariant all_keep all_keep_step). Qed.

End Keep.

(** ** Taking locks in order

    [rank] orders the mutexes, [held_at p] are those a thread holds whenever it
    is at [p], and [I] holds of the shared state at all times. *)
Section Order.
Context (rank : L → nat) (held_at : P → gset L) (I : S → Prop).

(** [t], holding [X], takes mutexes in increasing order, only releases what it
    holds, ends with none, and is where it says to be. *)
Fixpoint ordered (X : gset L) (t : thread S L P) : Prop :=
  match t with
  | Finished => X = ∅
  | Acquire l k => (∀ l', l' ∈ X → rank l' < rank l)%nat ∧ ordered ({[l]} ∪ X) k
  | Release l k => l ∈ X ∧ ordered (X ∖ {[l]}) k
  | Atomic m k => ∀ s a s', I s → m s = Done a s' → ordered X (k a)
  | Goto p => X = held_at p
  end.

Definition holds c i : gset L := dom (filter (λ lj, lj.2 = i) (c_held c)).

Lemma elem_of_holds c i l : l ∈ holds c i ↔ c_held c !! l = Some i.
Proof.
  unfold holds. rewrite elem_of_dom. unfold is_Some. setoid_rewrite map_lookup_filter_Some.
  split; [intros (j & Hj & <-); done|]. intros Hl. by exists i.
Qed.

(** Every running thread is ordered, and only running threads hold mutexes. *)
Record in_order c : Prop := {
  io_running : ∀ i t, c_threads c !! i = Some (Running t) → ordered (holds c i) t;
  io_holders : ∀ l i, c_held c !! l = Some i → ∃ t, c_threads c !! i = Some (Running t)
}.

Context (code_ordered : ∀ p, ordered (held_at p) (code p)).

Lemma holds_ext c c' i :
  (∀ l, c_held c' !! l = Some i ↔ c_held c !! l = Some i) → holds c' i = holds c i.
Proof. intros Hl. apply set_eq. intros l. by rewrite !elem_of_holds. Qed.

(** A step of the thread [i] that changes its own mutexes only. *)
Lemma in_order_goes_on i k s held c t :
  in_order c → c_threads c !! i = Some (Running t) →
  (∀ l j, j ≠ i → held !! l = Some j ↔ c_held c !! l = Some j) →
  ordered (holds (goes_on i k s held c) i) k → in_order (goes_on i k s held c).
Proof.
  intros [Hr Hh] Hi Hother Hk. split; cbn.
  - intros j t' [[<- [= <-]]|[Hne Hj]]%lookup_insert_Some; [done|].
    rewrite (holds_ext c); [by apply Hr|]. intros l. by apply Hother.
  - intros l j Hl. destruct (decide (j = i)) as [->|Hne]; [eexists; apply lookup_insert_eq|].
    rewrite Hother in Hl by done. destruct (Hh _ _ Hl) as [t' Ht'].
    exists t'. by rewrite lookup_insert_ne.
Qed.

Lemma in_order_dies i e c : in_order c → in_order (dies i e c).
Proof.
  intros [Hr Hh]. split; cbn.
  - intros j t [[_ [=]]|[Hne Hj]]%lookup_insert_Some.
    rewrite (holds_ext c); [by apply Hr|]. intros l. cbn. rewrite map_lookup_filter_Some. cbn. naive_solver.
  - intros l j [Hl Hne]%map_lookup_filter_Some. cbn in Hne. destruct (Hh _ _ Hl) as [t Ht].
    exists t. by rewrite lookup_insert_ne.
Qed.

Lemma in_order_step c c' : I (c_state c) → in_order c → step c c' → in_order c'.
Proof.
  intros HI Hc [i Hi]. unfold step_thread in Hi.
  destruct (c_threads c !! i) as [[t|e]|] eqn:Ht; [|done|done].
  pose proof (io_running _ Hc i t Ht) as Ho. destruct t as [|l k|l k|A m k|p]; [done| | | |]; cbn in Ho.
  - destruct (c_held c !! l) eqn:El; [done|]. case_decide; injection Hi as <-; [by apply in_order_dies|].
    eapply in_order_goes_on; [done|done| |].
    + intros l' j Hj. destruct (decide (l' = l)) as [->|]; [|by rewrite lookup_insert_ne].
      rewrite lookup_insert_eq, El. split; congruence.
    + replace (holds _ i) with ({[l]} ∪ holds c i); [apply Ho|]. apply set_eq. intros l'.
      rewrite elem_of_union, elem_of_singleton, !elem_of_holds. cbn. rewrite lookup_insert_Some.
      destruct (decide (l' = l)); naive_solver.
  - injection Hi as <-. eapply in_order_goes_on; [done|done| |].
    + intros l' j Hj. rewrite lookup_delete_Some.
      destruct Ho as [Hl%elem_of_holds _]. split; [naive_solver|]. intros Hl'. split; [congruence|done].
    + replace (holds _ i) with (holds c i ∖ {[l]}); [apply Ho|]. apply set_eq. intros l'.
      rewrite elem_of_difference, elem_of_singleton, !elem_of_holds. cbn. rewrite lookup_delete_Some.
      naive_solver.
  - specialize (Ho (c_state c)). destruct (m (c_state c)) as [a s|e|]; [| |done]; injection Hi as <-;
      [|by apply in_order_dies]. eapply in_order_goes_on; [done|done|done|by eapply Ho].
  - injection Hi as <-. eapply in_order_goes_on; [done|done|done|].
    change (holds _ i) with (holds c i). rewrite Ho. apply code_ordered.
Qed.

(** Of the mutexes that are held, one has the greatest rank. *)
Lemma greatest_held (held : gmap L tid) :
  held ≠ ∅ → ∃ l i, held !! l = Some i ∧ ∀ l' i', held !! l' = Some i' → (rank l' ≤ rank l)%nat.
Proof.
  induction held as [|l i held Hl IH] using map_ind; [done|]. intros _.
  destruct (decide (held = ∅)) as [->|Hne].
  - exists l, i. split; [apply lookup_insert_eq|]. intros l' i'.
    rewrite insert_empty, lookup_singleton_Some. intros [<- _]. lia.
  - destruct (IH Hne) as (l1 & i1 & Hl1 & Hmax).
    destruct (decide (rank l1 ≤ rank l)%nat) as [Hle|Hle].
    + exists l, i. split; [apply lookup_insert_eq|].
      intros l' i' [[<- _]|[_ Hl']]%lookup_insert_Some; [lia|]. specialize (Hmax _ _ Hl'). lia.
    + exists l1, i1. split; [rewrite lookup_insert_ne; [done|congruence]|].
      intros l' i' [[<- _]|[_ Hl']]%lookup_insert_Some; [lia|]. by eapply Hmax.
Qed.

(** Threads that take their mutexes in order never wait for each other. *)
Lemma in_order_live c : in_order c → ¬ deadlocked c.
Proof.
  intros Hc (D & HD & Hwait). apply set_choose_L in HD as [i Hi].
  destruct (Hwait i Hi) as (j & Hj & l & k & _ & Hl).
  destruct (greatest_held (filter (λ lj, lj.2 ∈ D) (c_held c))) as (l1 & i1 & [Hl1 Hi1]%map_lookup_filter_Some & Hmax).
  { intros E. apply (map_filter_empty_not_lookup _ _ l j E); [done|]. exact Hl. }
  destruct (Hwait i1 Hi1) as (j2 & Hj2 & l2 & k2 & Ht2 & Hl2).
  assert (rank l2 ≤ rank l1)%nat as Hle by (apply (Hmax l2 j2), map_lookup_filter_Some; done).
  pose proof (io_running _ Hc _ _ Ht2) as [Hlt _].
  specialize (Hlt l1 (proj2 (elem_of_holds _ _ _) Hl1)). lia.
Qed.

Lemma in_order_steps c c' : in_order c → steps_while I c c' → ¬ deadlocked c'.
Proof.
  intros Hc Hs. apply in_order_live.
  assert (in_order c' ∧ I (c_state c')) as [? _]; [|done].
  induction Hs as [|c1 c2 c3 _ IH Hstep HI]; [done|]. destruct (IH Hc) as [Hc2 HI2].
  split; [by eapply in_order_step|done].
Qed.

End Order.
End Threads.
