(* ===== verification/Peer.v ===== *)
(** [src/examples/crust_peer.rs]: a node run from a command line. Its main thread
    runs the user's commands, or a speed test; another thread handles the events
    of the service, which the service's event loop sends; they share the table of
    peers and the service, each behind a mutex. A fourth thread ends the speed test
    when there is no peer in time. What is printed is left out, but for the list of
    the peers. *)

From stdpp Require Import base tactics list gmap strings.
From Stdlib Require Import ZArith Lia Ascii.
From Stdlib Require Strings.String.
From S2P Require Import Prelude Types Env Socket ConnMap World ActiveConnection Candidate.
From S2P Require Import NatUtil Connect Listener Refresher Discovery Bootstrap IfAddrs Mapped System Service Threads.

(** ** Strings *)

(** [str::parse] to an unsigned integer below [modulus]. *)
Definition digit (c : ascii) : option Z :=
  let n := Z.of_N (N_of_ascii c) in
  if (48 <=? n) && (n <=? 57) then Some (n - 48) else None.

Fixpoint parse_digits (modulus acc : Z) (l : list ascii) : option Z :=
  match l with
  | [] => Some acc
  | c :: l =>
      d ← digit c;
      if acc * 10 + d <? modulus then parse_digits modulus (acc * 10 + d) l else None
  end.

Definition parse_uint (modulus : Z) (s : string) : option Z :=
  let l := String.list_ascii_of_string s in
  let l := match l with "+"%char :: l => l | _ => l end in
  match l with [] => None | _ => parse_digits modulus 0 l end.

Definition u64_modulus : Z := 2 ^ 64.
Definition u16_modulus : Z := 2 ^ 16.

(** [cmd.trim_right_matches(|c| c == '\r' || c == '\n')]. *)
Definition is_newline (c : ascii) : bool :=
  Ascii.eqb c (ascii_of_nat 13) || Ascii.eqb c (ascii_of_nat 10).

Fixpoint trim_right (s : string) : string :=
  match s with
  | EmptyString => EmptyString
  | String c s =>
      match trim_right s with
      | EmptyString => if is_newline c then EmptyString else String c EmptyString
      | s => String c s
      end
  end.

(** [s.split(' ')]. *)
Fixpoint split_spaces (s : string) : list string :=
  match s with
  | EmptyString => [EmptyString]
  | String c s =>
      if Ascii.eqb c " " then EmptyString :: split_spaces s
      else match split_spaces s with
           | w :: l => String c w :: l
           | [] => [String c EmptyString]
           end
  end.

(** ** The command line

    An [App] of the [clap] crate: its subcommands, with their arguments in the
    order of their indices, all of them required. *)
Record App := mkApp { app_subcommands : list (string * list string) }.

(** What the program calls and does not define: [clap], [serde_json], [rand] and
    the clock. *)
Class PeerEnv (UID : Type) := {
  sys : Type;
  instant_now : sys → Z * sys;
  gen_range : Z → Z → sys → Z * sys;
  random_u8 : sys → byte * sys;
  json_to_string : PubConnectionInfo UID → option string;
  json_from_str : string → option (PubConnectionInfo UID);
  ArgMatches : Type;
  get_matches_from_safe : App → list string → option ArgMatches;
  is_present : ArgMatches → string → bool;
  subcommand_matches : ArgMatches → string → option ArgMatches;
  value_of : ArgMatches → string → option string
}.

Inductive UserCommand :=
| Stop
| PrepareConnectionInfo
| ConnectTo (our_info_id their_info : string)
| Send (peer : Z) (message : string)
| SendAll (message : string)
| ListNodes.

(** The application [parse_user_command] builds. *)
Definition cli : App := mkApp [
  ("prepare-connection-info", []);
  ("connect", ["our-info-id"; "their-info"]);
  ("send", ["peer"; "message"]);
  ("send-all", ["message"]);
  ("list", []);
  ("stop", []);
  ("help", []) ]%string.

Section Parse.
Context {UID : Type} `{!PeerEnv UID} {W : Type}.

Definition parse_user_command (cmd : string) : M W (option UserCommand) :=
  match get_matches_from_safe cli (split_spaces (trim_right cmd)) with
  | None => mret None
  | Some matches =>
      if is_present matches "connect" then
        matches ← unwrap (subcommand_matches matches "connect");
        our_info_id ← unwrap (value_of matches "our-info-id");
        their_info ← unwrap (value_of matches "their-info");
        mret (Some (ConnectTo our_info_id their_info))
      else if is_present matches "send" then
        matches ← unwrap (subcommand_matches matches "send");
        peer ← unwrap (value_of matches "peer");
        peer ← unwrap (parse_uint usize_modulus peer);
        msg ← unwrap (value_of matches "message");
        mret (Some (Send peer msg))
      else if is_present matches "send-all" then
        msg ← unwrap (value_of matches "message");
        mret (Some (SendAll msg))
      else if is_present matches "prepare-connection-info" then mret (Some PrepareConnectionInfo)
      else if is_present matches "list" then mret (Some ListNodes)
      else if is_present matches "stop" then mret (Some Stop)
      else mret None
  end.

End Parse.

(** ** The table of peers *)

(** [a + b] on an unsigned integer. *)
Definition uint_add {W} (overflow_checks : bool) (modulus a b : Z) : M W Z :=
  if a + b <? modulus then mret (a + b)
  else if overflow_checks then throw ArithOverflow else mret ((a + b) mod modulus).

Record Network (UID B : Type) := mkNetwork {
  nodes : gmap Z UID;
  our_connection_infos : gmap Z (PrivConnectionInfo UID B);
  performance_start : Z;
  performance_interval : Z;
  received_msgs : Z;
  received_bytes : Z;
  peer_index : Z;
  connection_info_index : Z
}.
Arguments mkNetwork {UID B} _ _ _ _ _ _ _ _.
Arguments nodes {UID B} _.
Arguments our_connection_infos {UID B} _.
Arguments performance_start {UID B} _.
Arguments performance_interval {UID B} _.
Arguments received_msgs {UID B} _.
Arguments received_bytes {UID B} _.
Arguments peer_index {UID B} _.
Arguments connection_info_index {UID B} _.

(** A line of [print_connected_nodes]. *)
Inductive Line (UID : Type) :=
| NodeCount (n : Z)
| NodeLine (id : Z) (connected : bool) (node : UID).
Arguments NodeCount {UID} n.
Arguments NodeLine {UID} id connected node.

(** The two mutexes. *)
Inductive Guarded := NetworkLock | ServiceLock.

#[export] Instance Guarded_eq_dec : EqDecision Guarded.
Proof. solve_decision. Defined.
#[export] Instance Guarded_countable : Countable Guarded.
Proof.
  refine (inj_countable' (λ l, match l with NetworkLock => true | ServiceLock => false end)
    (λ b, if b : bool then NetworkLock else ServiceLock) _). by intros [].
Defined.

(** The heads of the loops of the threads. *)
Inductive Point (UID : Type) :=
| HandlerLoop
| MainLoop
| SpeedWait
| SpeedLoop (peer_id : UID) (speed : Z)
| SpeedSend (peer_id : UID) (speed length : Z) (times : nat)
| EventLoop
| TimeOut.
Arguments HandlerLoop {UID}.
Arguments MainLoop {UID}.
Arguments SpeedWait {UID}.
Arguments SpeedLoop {UID} peer_id speed.
Arguments SpeedSend {UID} peer_id speed length times.
Arguments EventLoop {UID}.
Arguments TimeOut {UID}.

Section Peer.
Context {ENV : Env} {UID : Type} `{!Uid UID, !Codec (Message UID), !Codec DiscoveryMsg, !PeerEnv UID}.
Abbreviation Net := (Network UID TcpBuilder).
Abbreviation Svc := (@Service ENV UID _).

(** What the threads share: the two guarded values, the clock and the random
    numbers, the lines the user has still to type, how many of the service's
    events have been received, the peers announced to the speed test, the order
    to exit, whether the handler still listens to it, what was printed, what the
    service's event loop will be told by the outside world, whether the thread
    that gives up was told not to, and the code the process has exited with. *)
Inductive LoopInput :=
| Outside (n : net)
| ChannelReady
| TimerReady (kind : Ready)
| StateReady (token : Token) (kind : Ready).

Record Peer := mkPeer {
  pr_network : Net;
  pr_service : Svc;
  pr_sys : sys;
  pr_stdin : list string;
  pr_seen : nat;
  pr_bs : list Z;
  pr_exit : bool;
  pr_handler : bool;
  pr_out : list (Line UID);
  pr_io : list LoopInput;
  pr_told : bool;
  pr_exited : option Z
}.
Abbreviation PM := (M Peer).

Definition pr_set_network x p := mkPeer x (pr_service p) (pr_sys p) (pr_stdin p) (pr_seen p)
  (pr_bs p) (pr_exit p) (pr_handler p) (pr_out p) (pr_io p) (pr_told p) (pr_exited p).
Definition pr_set_service x p := mkPeer (pr_network p) x (pr_sys p) (pr_stdin p) (pr_seen p)
  (pr_bs p) (pr_exit p) (pr_handler p) (pr_out p) (pr_io p) (pr_told p) (pr_exited p).
Definition pr_set_sys x p := mkPeer (pr_network p) (pr_service p) x (pr_stdin p) (pr_seen p)
  (pr_bs p) (pr_exit p) (pr_handler p) (pr_out p) (pr_io p) (pr_told p) (pr_exited p).
Definition pr_set_stdin x p := mkPeer (pr_network p) (pr_service p) (pr_sys p) x (pr_seen p)
  (pr_bs p) (pr_exit p) (pr_handler p) (pr_out p) (pr_io p) (pr_told p) (pr_exited p).
Definition pr_set_seen x p := mkPeer (pr_network p) (pr_service p) (pr_sys p) (pr_stdin p) x
  (pr_bs p) (pr_exit p) (pr_handler p) (pr_out p) (pr_io p) (pr_told p) (pr_exited p).
Definition pr_set_bs x p := mkPeer (pr_network p) (pr_service p) (pr_sys p) (pr_stdin p)
  (pr_seen p) x (pr_exit p) (pr_handler p) (pr_out p) (pr_io p) (pr_told p) (pr_exited p).
Definition pr_set_exit x p := mkPeer (pr_network p) (pr_service p) (pr_sys p) (pr_stdin p)
  (pr_seen p) (pr_bs p) x (pr_handler p) (pr_out p) (pr_io p) (pr_told p) (pr_exited p).
Definition pr_set_handler x p := mkPeer (pr_network p) (pr_service p) (pr_sys p) (pr_stdin p)
  (pr_seen p) (pr_bs p) (pr_exit p) x (pr_out p) (pr_io p) (pr_told p) (pr_exited p).
Definition pr_set_out x p := mkPeer (pr_network p) (pr_service p) (pr_sys p) (pr_stdin p)
  (pr_seen p) (pr_bs p) (pr_exit p) (pr_handler p) x (pr_io p) (pr_told p) (pr_exited p).
Definition pr_set_io x p := mkPeer (pr_network p) (pr_service p) (pr_sys p) (pr_stdin p)
  (pr_seen p) (pr_bs p) (pr_exit p) (pr_handler p) (pr_out p) x (pr_told p) (pr_exited p).
Definition pr_set_told x p := mkPeer (pr_network p) (pr_service p) (pr_sys p) (pr_stdin p)
  (pr_seen p) (pr_bs p) (pr_exit p) (pr_handler p) (pr_out p) (pr_io p) x (pr_exited p).
Definition pr_set_exited x p := mkPeer (pr_network p) (pr_service p) (pr_sys p) (pr_stdin p)
  (pr_seen p) (pr_bs p) (pr_exit p) (pr_handler p) (pr_out p) (pr_io p) (pr_told p) x.

(** [std::process::exit]: no thread makes another step. *)
Definition process_exit (code : Z) : PM unit := modify (pr_set_exited (Some code)).

(** A computation on the table, on the service, on the clock and the random numbers. *)
Definition network {A} (m : M Net A) : PM A := zoom pr_network pr_set_network m.
Definition service {A} (m : M Svc A) : PM A := zoom pr_service pr_set_service m.
Definition outside {A} (f : sys → A * sys) : PM A := zoom pr_sys pr_set_sys (call f).

Definition nt_set_nodes x (n : Net) : Net := mkNetwork x (our_connection_infos n) (performance_start n)
  (performance_interval n) (received_msgs n) (received_bytes n) (peer_index n) (connection_info_index n).
Definition nt_set_infos x (n : Net) : Net := mkNetwork (nodes n) x (performance_start n)
  (performance_interval n) (received_msgs n) (received_bytes n) (peer_index n) (connection_info_index n).
Definition nt_set_start x (n : Net) : Net := mkNetwork (nodes n) (our_connection_infos n) x
  (performance_interval n) (received_msgs n) (received_bytes n) (peer_index n) (connection_info_index n).
Definition nt_set_received m b (n : Net) : Net := mkNetwork (nodes n) (our_connection_infos n)
  (performance_start n) (performance_interval n) m b (peer_index n) (connection_info_index n).
Definition nt_set_peer_index x (n : Net) : Net := mkNetwork (nodes n) (our_connection_infos n)
  (performance_start n) (performance_interval n) (received_msgs n) (received_bytes n) x
  (connection_info_index n).
Definition nt_set_info_index x (n : Net) : Net := mkNetwork (nodes n) (our_connection_infos n)
  (performance_start n) (performance_interval n) (received_msgs n) (received_bytes n) (peer_index n) x.

(** [Network::new], at the instant [start]; times are in milliseconds. *)
Definition Network_new (start : Z) : Net := mkNetwork ∅ ∅ start (10 * 1000) 0 0 0 0.

Definition next_peer_index : M Net Z :=
  ret ← gets peer_index;
  i ← uint_add overflow_checks usize_modulus ret 1;
  modify (nt_set_peer_index i) ;;
  mret ret.

Definition next_connection_info_index : M Net Z :=
  ret ← gets connection_info_index;
  i ← uint_add overflow_checks u32_modulus ret 1;
  modify (nt_set_info_index i) ;;
  mret ret.

Definition get_peer_id (n : Z) (self : Net) : option UID := nodes self !! n.

Definition print_connected_nodes : PM unit :=
  ns ← gets (λ p, nodes (pr_network p));
  modify (λ p, pr_set_out (pr_out p ++ [NodeCount (Z.of_nat (size ns))]) p) ;;
  for_each (λ '(id, node),
    status ← service (is_connected node);
    modify (λ p, pr_set_out (pr_out p ++ [NodeLine id status node]) p)) (map_to_list ns).

(** Only the first message since the last reset reads the clock for the start. *)
Definition record_received (msg_size : Z) : PM unit :=
  n ← gets pr_network;
  msgs ← uint_add overflow_checks u32_modulus (received_msgs n) 1;
  bytes ← uint_add overflow_checks usize_modulus (received_bytes n) msg_size;
  network (modify (nt_set_received msgs bytes)) ;;
  (if msgs =? 1
   then start ← outside instant_now; network (modify (nt_set_start start))
   else mret tt) ;;
  now ← outside instant_now;
  n ← gets pr_network;
  if performance_start n + performance_interval n <? now
  then network (modify (nt_set_received 0 0))
  else mret tt.

Definition generate_random_vec_u8 (size : Z) : PM (list byte) :=
  fold_loop (λ vec _, b ← outside random_u8; mret (vec ++ [b])) [] (seqZ 0 size).

(** ** The event handler *)

Abbreviation thread := (thread Peer Guarded (Point UID)).

(** A thread takes the mutex and has the value, or panics when it is poisoned. *)
Definition handle_new_peer (peer_id : UID) (k : Z → thread) : thread :=
  Acquire NetworkLock (Atomic (
    peer_index ← network next_peer_index;
    network (modify (λ n, nt_set_nodes (<[peer_index := peer_id]> (nodes n)) n)) ;;
    print_connected_nodes ;;
    mret peer_index) (λ peer_index,
  Release NetworkLock (k peer_index))).

(** The next event, when there is one ([category_rx.recv_timeout] and
    [channel_receiver.try_recv]: the event is sent before its category, so that it
    is there; and the handler itself keeps the service, which has the other ends of
    the channels, so that they are never disconnected). *)
Definition recv_event : PM (option (Event UID TcpBuilder)) :=
  e ← gets (λ p, w_events (sv_world (pr_service p)) !! pr_seen p);
  match e with
  | Some e => modify (λ p, pr_set_seen (S (pr_seen p)) p) ;; mret (Some e)
  | None => mret None
  end.

(** [network.our_connection_infos.insert(result_token, info)]. *)
Definition store_info (result_token : Z) (info : PrivConnectionInfo UID TcpBuilder) : PM unit :=
  n ← gets pr_network;
  if bool_decide (is_Some (our_connection_infos n !! result_token)) then throw ExplicitPanic
  else network (modify (nt_set_infos (<[result_token := info]> (our_connection_infos n)))).

(** The index of a lost peer, the first that is found. *)
Definition find_index (peer_id : UID) (ns : gmap Z UID) : option Z :=
  fst <$> List.find (λ '(_, id), bool_decide (id = peer_id)) (map_to_list ns).

Definition remove_node (index : option Z) : PM unit :=
  match index with
  | None => mret tt
  | Some index =>
      n ← gets pr_network;
      _ ← unwrap (nodes n !! index);
      network (modify (nt_set_nodes (delete index (nodes n))))
  end.

Definition handle_crust_event (event : Event UID TcpBuilder) : thread :=
  match event with
  | NewMessage peer_id _ bytes =>
      Acquire NetworkLock (Atomic (record_received (Z.of_nat (length bytes))) (λ _,
      Release NetworkLock (Goto HandlerLoop)))
  | ConnectionInfoPrepared r =>
      match ci_result r with
      | Err _ => Goto HandlerLoop
      | Ok info =>
          Atomic (unwrap (json_to_string (to_pub_connection_info info))) (λ _,
          Acquire NetworkLock (Atomic (store_info (result_token r) info) (λ _,
          Release NetworkLock (Goto HandlerLoop))))
      end
  | BootstrapConnect peer_id _ | BootstrapAccept peer_id _ =>
      Acquire ServiceLock (handle_new_peer peer_id (λ peer_index,
      Release ServiceLock (Atomic (modify (λ p, pr_set_bs (pr_bs p ++ [peer_index]) p)) (λ _,
      Goto HandlerLoop))))
  | ConnectSuccess peer_id =>
      Acquire ServiceLock (handle_new_peer peer_id (λ _,
      Release ServiceLock (Goto HandlerLoop)))
  | LostPeer peer_id =>
      Acquire NetworkLock (Atomic (gets (λ p, find_index peer_id (nodes (pr_network p)))) (λ index,
      Release NetworkLock (
      Acquire NetworkLock (Atomic (remove_node index) (λ _,
      Acquire ServiceLock (Atomic print_connected_nodes (λ _,
      Release ServiceLock (Release NetworkLock (Goto HandlerLoop)))))))))
  | _ => Goto HandlerLoop
  end.

(** The handler ends: its ends of the channels are dropped. *)
Definition handler_leaves : thread := Atomic (modify (pr_set_handler false)) (λ _, Finished).

Definition event_handler : thread :=
  Atomic recv_event (λ it,
  match it with
  | Some event => handle_crust_event event
  | None => Atomic (gets pr_exit) (λ exit, if exit : bool then handler_leaves else Goto HandlerLoop)
  end).

(** ** The main thread: commands *)

(** [io::stdin().read_line]: at the end of the input, the empty string. *)
Definition read_line : PM string :=
  lines ← gets pr_stdin;
  match lines with
  | [] => mret ""%string
  | line :: lines => modify (pr_set_stdin lines) ;; mret line
  end.

(** The connection infos [connect] is given; ours is taken out of the table. *)
Definition connect_args (our_info_index their_info : string) :
  PM (option (PrivConnectionInfo UID TcpBuilder * PubConnectionInfo UID)) :=
  match parse_uint u32_modulus our_info_index with
  | None => mret None
  | Some our_info_index =>
      n ← gets pr_network;
      match our_connection_infos n !! our_info_index with
      | None => mret None
      | Some our_info =>
          network (modify (nt_set_infos (delete our_info_index (our_connection_infos n)))) ;;
          mret match json_from_str their_info with
               | None => None
               | Some their_info => Some (our_info, their_info)
               end
      end
  end.

(** [unwrap!] on a [Result]. *)
Definition unwrap_ok {A E} (m : PM (result A E)) : PM A := r ← m; unwrap (result_ok r).

Definition peer_send (peer_id : UID) (msg : list byte) : PM unit :=
  unwrap_ok (service (Service_send peer_id msg 0)).

(** [message.into_bytes()]. *)
Definition into_bytes (s : string) : list byte := String.list_byte_of_string s.

Fixpoint send_all (peers : list UID) (msg : list byte) (k : thread) : thread :=
  match peers with
  | [] => k
  | peer_id :: peers =>
      Acquire ServiceLock (Atomic (peer_send peer_id msg) (λ _,
      Release ServiceLock (send_all peers msg k)))
  end.

(** When the main thread has come to its end, so has the process; whether it waits
    for the handler before ([_joiner] is dropped) is left open. *)
Definition run_command (cmd : UserCommand) : thread :=
  let continue := Release NetworkLock (Goto MainLoop) in
  match cmd with
  | PrepareConnectionInfo =>
      Acquire NetworkLock (Atomic (network next_connection_info_index) (λ token,
      Acquire ServiceLock (Atomic (service (prepare_connection_info token)) (λ _,
      Release ServiceLock continue))))
  | ConnectTo our_info_index their_info =>
      Acquire NetworkLock (Atomic (connect_args our_info_index their_info) (λ infos,
      match infos with
      | None => continue
      | Some (our_info, their_info) =>
          Acquire ServiceLock (Atomic (unwrap_ok (service (Service_connect our_info their_info))) (λ _,
          Release ServiceLock continue))
      end))
  | Send peer_index message =>
      Acquire NetworkLock (Atomic (gets (λ p, get_peer_id peer_index (pr_network p))) (λ peer_id,
      match peer_id with
      | Some peer_id =>
          Acquire ServiceLock (Atomic (peer_send peer_id (into_bytes message)) (λ _,
          Release ServiceLock continue))
      | None => continue
      end))
  | SendAll message =>
      Acquire NetworkLock (Atomic (gets (λ p, (map_to_list (nodes (pr_network p))).*2)) (λ peers,
      send_all peers (into_bytes message) continue))
  | ListNodes =>
      Acquire NetworkLock (Acquire ServiceLock (Atomic print_connected_nodes (λ _,
      Release ServiceLock continue)))
  | Stop =>
      Atomic (handler ← gets pr_handler;
              if handler : bool then modify (pr_set_exit true) else throw UnwrapNone) (λ _,
      Atomic (process_exit 0) (λ _, Finished))
  end.

Definition main_loop : thread :=
  Atomic (command ← read_line; parse_user_command command) (λ cmd,
  match cmd with
  | Some cmd => run_command cmd
  | None => Goto MainLoop
  end).

(** ** The main thread: the speed test *)

(** How a round of the test sends at most [speed] bytes: so many messages, so
    many milliseconds apart. *)
Definition speed_times (speed length : Z) : Z := Z.max 1 (speed / length).
Definition speed_sleep (times : Z) : Z := Z.max 1 (1000 / times).

(** [rng.gen_range(50, speed)] panics when the range is empty. *)
Definition speed_length (speed : Z) : PM Z :=
  if 50 <? speed then outside (gen_range 50 speed) else throw ExplicitPanic.

(** [speed] is the value of the option. [bs_receiver.recv()] blocks; when it fails,
    the handler being gone, the program exits. *)
Definition speed_wait (speed : option string) : thread :=
  Atomic (l ← gets pr_bs;
          match l with
          | [] => handler ← gets pr_handler;
                  (if handler : bool then mret tt else process_exit 6) ;;
                  mret (Err handler)
          | i :: l => modify (pr_set_bs l) ;; mret (Ok i)
          end) (λ r,
  match r with
  | Err handler => if handler : bool then Goto SpeedWait else Finished
  | Ok peer_index =>
      Acquire NetworkLock (Atomic (
        peer_id ← gets (λ p, get_peer_id peer_index (pr_network p));
        peer_id ← unwrap peer_id;
        modify (pr_set_told true) ;;
        mret peer_id) (λ peer_id,
      Atomic (speed ← unwrap speed; unwrap (parse_uint u64_modulus speed)) (λ speed,
      Goto (SpeedLoop peer_id speed))))
  end).

Definition speed_loop (peer_id : UID) (speed : Z) : thread :=
  Atomic (speed_length speed) (λ length,
  Goto (SpeedSend peer_id speed length (Z.to_nat (speed_times speed length)))).

Definition speed_send (peer_id : UID) (speed length : Z) (times : nat) : thread :=
  match times with
  | O => Goto (SpeedLoop peer_id speed)
  | S times =>
      Acquire ServiceLock (Atomic (
        msg ← generate_random_vec_u8 length;
        peer_send peer_id msg) (λ _,
      Release ServiceLock (Goto (SpeedSend peer_id speed length times))))
  end.

(** The thread that gives up: it sleeps, and is not told in time that there is a
    peer. How long it sleeps is left open. *)
Definition on_time_out (flag_speed : bool) : thread :=
  Atomic (told ← gets pr_told;
          if told : bool then mret tt
          else if flag_speed then process_exit 3
          else mret tt) (λ _, Finished).

(** ** The event loop of the service *)

(** What the loop does when it is told something, until it was told to stop. *)
Definition loop_input (i : LoopInput) : M Svc unit :=
  match i with
  | Outside n => shared (io (modify (λ _, n)))
  | ChannelReady => pump
  | TimerReady kind => shared (handle_timer kind)
  | StateReady token kind => shared (handle_event token kind)
  end.

Definition event_loop_turn : thread :=
  Atomic (io ← gets pr_io;
          alive ← gets (λ p, sv_alive (pr_service p));
          match io with
          | i :: io => modify (pr_set_io io) ;; (if alive : bool then service (loop_input i) else mret tt)
          | [] => mret tt
          end) (λ _,
  Goto EventLoop).

(** ** The program *)

Definition MAIN : nat := 0.
Definition HANDLER : nat := 1.
Definition LOOP : nat := 2.
Definition TIMER : nat := 3.

(** [speed] is the value of the option of that name, if it was given. *)
Definition peer_code (speed : option string) (p : Point UID) : thread :=
  match p with
  | HandlerLoop => event_handler
  | MainLoop => main_loop
  | SpeedWait => speed_wait speed
  | SpeedLoop peer_id speed => speed_loop peer_id speed
  | SpeedSend peer_id speed length times => speed_send peer_id speed length times
  | EventLoop => event_loop_turn
  | TimeOut => on_time_out (bool_decide (is_Some speed))
  end.

(** A handler that panics drops its ends of the channels, an event loop its end of
    the service's. When the main thread panics, the program ends. *)
Definition peer_panics (i : nat) (p : Peer) : Peer :=
  if (i =? HANDLER)%nat then pr_set_handler false p
  else if (i =? LOOP)%nat then pr_set_service (sv_stop (pr_service p)) p
  else if (i =? MAIN)%nat then pr_set_exited (Some 101) p
  else p.

(** The configuration of the program: the default one, with the port of the
    option [discovery-port]. *)
Definition peer_config {W} (discovery_port : option string) : M W Config :=
  let d := Config_default in
  let with_port port := mkConfig (hard_coded_contacts d) (tcp_acceptor_port d) (force_acceptor_port_in_ext_ep d)
    port (bootstrap_cache_name d) (whitelisted_node_ips d) (whitelisted_client_ips d) (network_name d) (dev d) in
  match discovery_port with
  | Some port => port ← unwrap (parse_uint u16_modulus port); mret (with_port (Some port))
  | None => mret (with_port None)
  end.

(** The service the program starts with: it listens, and discovers the peers on
    the local network. *)
Definition peer_service (sha3_256 : string → NameHash) (discovery_port : option string) (our_uid : UID) :
  M net Svc := λ n,
  match (config ← peer_config discovery_port; r ← with_config sha3_256 config our_uid; unwrap (result_ok r)) n with
  | Done sv n =>
      match (r ← start_listening_tcp; _ ← unwrap (result_ok r); start_service_discovery) sv with
      | Done _ sv => Done sv (w_net (sv_world sv))
      | Panicked e => Panicked e
      | Diverged => Diverged
      end
  | Panicked e => Panicked e
  | Diverged => Diverged
  end.

(** What the threads find: a service, an empty table and channels with nothing in
    them. *)
Definition peer_new (sv : Svc) (now : Z) (s : sys) (stdin : list string) (inputs : list LoopInput) : Peer :=
  mkPeer (Network_new now) sv s stdin 0 [] false true [] inputs false None.

(** The program has not exited. *)
Definition alive (p : Peer) : Prop := pr_exited p = None.

(** The threads at the heads of their loops; the one that gives up runs in the
    speed test only. *)
Definition peer_start (speed : option string) (p : Peer) : config Peer Guarded (Point UID) :=
  let threads := {[ MAIN := Running (Goto (if speed then SpeedWait else MainLoop));
                    HANDLER := Running (Goto HandlerLoop);
                    LOOP := Running (Goto EventLoop) ]} in
  mkThreads p ∅ ∅ (if speed then <[TIMER := Running (Goto TimeOut)]> threads else threads).

End Peer.
