(* ===== verification/PeerProps.v ===== *)
(** Properties of the node run from a command line
    ([src/examples/crust_peer.rs]). *)

From stdpp Require Import base tactics list gmap strings.
From Stdlib Require Import ZArith Lia Ascii.
From S2P Require Import Prelude Types Env Socket ConnMap World Traces ActiveConnection Candidate.
From S2P Require Import NatUtil Connect Listener Refresher Discovery Bootstrap IfAddrs Mapped System.
From S2P Require Import Service Clean HeapTyping Typing HandlerTyping TypeSafety Threads Peer.

(** ** Commands *)

(** What [clap] documents of an application that has subcommands and no
    arguments of its own: a name is present when it is the subcommand's that was
    given ([subcommand_name]), only that one's matches are there, a value belongs
    to the subcommand whose argument it is, and required arguments have one. *)
Class ClapLaws (UID : Type) `{!PeerEnv UID} := {
  subcommand_name : ArgMatches → option string;
  name_is_present : ∀ words m name, get_matches_from_safe cli words = Some m →
    is_present m name = bool_decide (subcommand_name m = Some name);
  has_matches : ∀ words m name, get_matches_from_safe cli words = Some m →
    subcommand_name m = Some name → is_Some (subcommand_matches m name);
  no_own_values : ∀ words m arg, get_matches_from_safe cli words = Some m → value_of m arg = None;
  required_values : ∀ words m name args m' arg, get_matches_from_safe cli words = Some m →
    subcommand_matches m name = Some m' → (name, args) ∈ app_subcommands cli → arg ∈ args →
    is_Some (value_of m' arg)
}.

Section Commands.
Context {UID : Type} `{!PeerEnv UID, !ClapLaws UID} {W : Type}.

(** The value of a subcommand's argument. *)
Definition argument (m : ArgMatches) (name arg : string) : option string :=
  m' ← subcommand_matches m name; value_of m' arg.

Lemma argument_given words m name args arg :
  get_matches_from_safe cli words = Some m → subcommand_name m = Some name →
  (name, args) ∈ app_subcommands cli → arg ∈ args →
  ∃ m' v, subcommand_matches m name = Some m' ∧ value_of m' arg = Some v ∧ argument m name arg = Some v.
Proof.
  intros Hm Hn Hin Harg. destruct (has_matches words m name Hm Hn) as [m' Hm'].
  destruct (required_values words m name args m' arg Hm Hm' Hin Harg) as [v Hv].
  exists m', v. unfold argument. by rewrite Hm'.
Qed.

(** C37: what becomes of a command line. One that [clap] does not accept, and one
    that only asks for help, are no command. The subcommands [connect] and [send]
    become commands with the arguments that were given (and the index of [send]
    has to be a number, or the program panics); [prepare-connection-info], [list]
    and [stop] become what they say. [send-all] always panics: its message is
    looked up outside of the subcommand it belongs to. *)
Theorem commands_understood line m (w : W)
  (given := λ name, subcommand_name m = Some name) (parsed := parse_user_command line w) :
  get_matches_from_safe cli (split_spaces (trim_right line)) = Some m →
  (given "connect"%string → ∃ ours theirs, argument m "connect" "our-info-id" = Some ours ∧
     argument m "connect" "their-info" = Some theirs ∧ parsed = Done (Some (ConnectTo ours theirs)) w) ∧
  (given "send"%string → ∃ peer msg, argument m "send" "peer" = Some peer ∧
     argument m "send" "message" = Some msg ∧
     parsed = match parse_uint usize_modulus peer with
              | Some i => Done (Some (Send i msg)) w
              | None => Panicked UnwrapNone
              end) ∧
  (given "send-all"%string → parsed = Panicked UnwrapNone) ∧
  (given "prepare-connection-info"%string → parsed = Done (Some PrepareConnectionInfo) w) ∧
  (given "list"%string → parsed = Done (Some ListNodes) w) ∧
  (given "stop"%string → parsed = Done (Some Stop) w) ∧
  (given "help"%string ∨ subcommand_name m = None → parsed = Done None w).
Proof.
  intros Hm. unfold parsed, parse_user_command, given. rewrite Hm, !(name_is_present _ _ _ Hm).
  split_and!; [intros Hn|intros Hn|intros ->|intros ->|intros ->|intros ->|intros [->| ->]]; try done.
  - destruct (argument_given _ m "connect" ["our-info-id"; "their-info"]%string "our-info-id" Hm Hn)
      as (m1 & a & Hs1 & Hv1 & Ha); [set_solver|set_solver|].
    destruct (argument_given _ m "connect" ["our-info-id"; "their-info"]%string "their-info" Hm Hn)
      as (m2 & b & Hs2 & Hv2 & Hb); [set_solver|set_solver|].
    rewrite Hs1 in Hs2. injection Hs2 as <-. exists a, b. rewrite Hn, bool_decide_true by done.
    unfold mbind, M_bind. rewrite Hs1. cbn. rewrite Hv1. cbn. by rewrite Hv2.
  - destruct (argument_given _ m "send" ["peer"; "message"]%string "peer" Hm Hn)
      as (m1 & a & Hs1 & Hv1 & Ha); [set_solver|set_solver|].
    destruct (argument_given _ m "send" ["peer"; "message"]%string "message" Hm Hn)
      as (m2 & b & Hs2 & Hv2 & Hb); [set_solver|set_solver|].
    rewrite Hs1 in Hs2. injection Hs2 as <-. exists a, b. rewrite Hn.
    rewrite (bool_decide_false (Some _ = Some "connect"%string)), bool_decide_true by done.
    split_and!; try done. unfold mbind, M_bind. rewrite Hs1. cbn. rewrite Hv1. cbn -[parse_uint].
    destruct (parse_uint _ a); [|done]. cbn. by rewrite Hv2.
  - rewrite (no_own_values _ _ _ Hm). done.
Qed.

End Commands.

Section PeerProps.
Context {ENV : Env} {UID : Type} `{!Uid UID, !Codec (Message UID), !Codec DiscoveryMsg, !PeerEnv UID}.
Implicit Types (p : Peer) (speed : option string).

Abbreviation peer_steps speed := (steps (peer_code speed) peer_panics).
Abbreviation peer_deadlocked speed := (deadlocked (peer_code speed) peer_panics).

(** The event announces a new peer. *)
Definition new_peer (e : Event UID TcpBuilder) : option UID :=
  match e with
  | BootstrapConnect u _ | BootstrapAccept u _ | ConnectSuccess u => Some u
  | _ => None
  end.

(** ** Running the threads *)

Definition trio (m h l : status Peer Guarded (Point UID)) : gmap nat (status Peer Guarded (Point UID)) :=
  {[ MAIN := m; HANDLER := h; LOOP := l ]}.

Lemma trio_main m h l m' : trio m h l !! MAIN = Some m ∧ <[MAIN := m']> (trio m h l) = trio m' h l.
Proof. done. Qed.

Lemma trio_handler m h l h' : trio m h l !! HANDLER = Some h ∧ <[HANDLER := h']> (trio m h l) = trio m h' l.
Proof. done. Qed.

Lemma trio_loop m h l l' : trio m h l !! LOOP = Some l ∧ <[LOOP := l']> (trio m h l) = trio m h l'.
Proof. done. Qed.

Lemma trio_others m h l i st : trio m h l !! i = Some st → i = MAIN ∨ i = HANDLER ∨ i = LOOP.
Proof.
  unfold trio. intros [[<- _]|[_ [[<- _]|[_ [<- _]%lookup_singleton_Some]]%lookup_insert_Some]]%lookup_insert_Some;
    auto.
Qed.

(** The threads a run starts with. *)
Lemma start_threads speed p i st :
  c_threads (peer_start speed p) !! i = Some st →
  i = MAIN ∧ st = Running (Goto (if speed then SpeedWait else MainLoop)) ∨
  i = HANDLER ∧ st = Running (Goto HandlerLoop) ∨
  i = LOOP ∧ st = Running (Goto EventLoop) ∨
  i = TIMER ∧ speed ≠ None ∧ st = Running (Goto TimeOut).
Proof.
  assert (∀ m h l, trio m h l !! i = Some st →
    i = MAIN ∧ st = m ∨ i = HANDLER ∧ st = h ∨ i = LOOP ∧ st = l) as Htrio.
  { intros m h l Hi. destruct (trio_others _ _ _ _ _ Hi) as [->|[->| ->]]; injection Hi as <-; auto. }
  cbn. destruct speed as [speed|].
  - intros [[<- <-]|[_ Hi]]%lookup_insert_Some; [by do 3 right|]. apply Htrio in Hi. naive_solver.
  - intros Hi%Htrio. naive_solver.
Qed.

(** The steps up to the first mutex: the handler takes an event, the main thread
    a command. *)
Lemma handler_receives speed p held m l e :
  w_events (sv_world (pr_service p)) !! pr_seen p = Some e →
  peer_steps speed (mkThreads p held ∅ (trio m (Running (Goto HandlerLoop)) l))
    (mkThreads (pr_set_seen (S (pr_seen p)) p) held ∅ (trio m (Running (handle_crust_event e)) l)).
Proof.
  intros He. eapply steps_next; [eapply steps_next; [constructor|]|].
  - by apply (go_goto _ _ HANDLER).
  - refine (go_atomic _ _ HANDLER recv_event _ (Some e) _ _ _ _ _ _ _); [done|].
    unfold recv_event, mbind, M_bind, gets. by rewrite He.
Qed.

Lemma main_reads p held h l line lines cmd :
  pr_stdin p = line :: lines →
  (∀ p', parse_user_command line p' = Done (Some cmd) p') →
  peer_steps None (mkThreads p held ∅ (trio (Running (Goto MainLoop)) h l))
    (mkThreads (pr_set_stdin lines p) held ∅ (trio (Running (run_command cmd)) h l)).
Proof.
  intros Hin Hparse. eapply steps_next; [eapply steps_next; [constructor|]|].
  - by apply (go_goto _ _ MAIN).
  - refine (go_atomic _ _ MAIN (command ← read_line; parse_user_command command) _ (Some cmd) _ _ _ _ _ _ _);
      [done|].
    unfold read_line, mbind, M_bind, gets. rewrite Hin. apply Hparse.
Qed.

(** ** Deadlock *)

(** The handler has an event that announces a new peer. *)
Lemma new_peer_waits e u :
  new_peer e = Some u →
  ∃ k, handle_crust_event e = Acquire ServiceLock (handle_new_peer u k).
Proof. destruct e; cbn; intros [= <-]; by eexists. Qed.

(** The event loop goes on without the mutexes. *)
Definition at_loop (q : Point UID) : Prop := q = EventLoop.

(** The main thread and the handler each hold the mutex the other waits for. *)
Lemma cross_wait speed p t1 t2 c :
  peer_steps speed (mkThreads p {[ NetworkLock := MAIN; ServiceLock := HANDLER ]} ∅
    (trio (Running (Acquire ServiceLock t1)) (Running (Acquire NetworkLock t2)) (Running (Goto EventLoop)))) c →
  deadlocked c.
Proof.
  apply (stuck_steps (peer_code speed) peer_panics at_loop {[ MAIN; HANDLER ]}).
  - by intros q ->.
  - set_solver.
  - split.
    + intros i [->%elem_of_singleton| ->%elem_of_singleton]%elem_of_union; [exists HANDLER|exists MAIN];
        (split; [set_solver|by eexists _, _]).
    + intros i t Hi Ht. destruct (trio_others _ _ _ _ _ Ht) as [->|[->| ->]]; [set_solver|set_solver|].
      by injection Ht as <-.
Qed.

(** C34: the threads can deadlock. When the service announces a new peer while the
    user lists the peers, there is a run in which the handler holds the service
    and waits for the table, and the main thread holds the table and waits for the
    service, whatever comes after: the handler takes the two in the other order
    than all commands do. *)
Theorem peer_can_deadlock p e u line lines :
  w_events (sv_world (pr_service p)) !! pr_seen p = Some e → new_peer e = Some u →
  pr_stdin p = line :: lines →
  (∀ p', parse_user_command line p' = Done (Some ListNodes) p') →
  ∃ c, peer_steps None (peer_start None p) c ∧ ∀ c', peer_steps None c c' → deadlocked c'.
Proof.
  intros He Hu Hin Hparse. destruct (new_peer_waits e u Hu) as [k Hk].
  set (p1 := pr_set_seen (S (pr_seen p)) p). set (p2 := pr_set_stdin lines p1).
  set (h := Running (handle_new_peer u k)). set (l := Running (Goto EventLoop) : status Peer Guarded (Point UID)).
  eexists. split; [|intros c'; apply (cross_wait None p2)].
  eapply steps_next; [eapply (steps_trans _ _ _ (mkThreads p1 {[ ServiceLock := HANDLER ]} ∅
    (trio (Running (Goto MainLoop)) h l)))|].
  - eapply steps_next; [by apply handler_receives|]. rewrite Hk.
    by apply (go_acquire _ _ HANDLER ServiceLock (handle_new_peer u k) p1 ∅ ∅ (trio _ _ _)).
  - by apply (main_reads p1 _ h l line lines ListNodes).
  - by apply (go_acquire _ _ MAIN NetworkLock _ p2 {[ ServiceLock := HANDLER ]} ∅
      (trio (Running (run_command ListNodes)) h l)).
Qed.

(** ** Freedom from deadlock *)

(** No new peer is announced by the events to come. *)
Definition no_new_peers p : Prop :=
  ∀ i e, (pr_seen p ≤ i)%nat → w_events (sv_world (pr_service p)) !! i = Some e → new_peer e = None.

(** The order of the mutexes: the table before the service. *)
Definition lock_rank (l : Guarded) : nat := match l with NetworkLock => 0 | ServiceLock => 1 end.

Definition held_at (p : Point UID) : gset Guarded :=
  match p with
  | HandlerLoop | MainLoop | SpeedWait | EventLoop | TimeOut => ∅
  | SpeedLoop _ _ | SpeedSend _ _ _ _ => {[ NetworkLock ]}
  end.

Abbreviation peer_ordered := (ordered lock_rank held_at no_new_peers).

Lemma ordered_atomic {A} X (m : M Peer A) k :
  (∀ a, peer_ordered X (k a)) → peer_ordered X (Atomic m k).
Proof. intros Hk p a p' _ _. apply Hk. Qed.

(** The table is free, or is held and the service is not. *)
Lemma ordered_network X k :
  X = ∅ → peer_ordered {[ NetworkLock ]} k → peer_ordered X (Acquire NetworkLock k).
Proof. intros -> Hk. split; [set_solver|]. by rewrite union_empty_r_L. Qed.

Lemma ordered_network_release k :
  peer_ordered ∅ k → peer_ordered {[ NetworkLock ]} (Release NetworkLock k).
Proof. intros Hk. split; [set_solver|]. by rewrite difference_diag_L. Qed.

(** The service is only used for a while. *)
Lemma ordered_service {A} (m : M Peer A) k :
  (∀ a, peer_ordered {[ NetworkLock ]} (k a)) →
  peer_ordered {[ NetworkLock ]} (Acquire ServiceLock (Atomic m (λ a, Release ServiceLock (k a)))).
Proof.
  intros Hk. split; [intros l ->%elem_of_singleton; cbn; lia|].
  apply ordered_atomic. intros a. split; [set_solver|].
  replace (({[ServiceLock]} ∪ {[NetworkLock]}) ∖ {[ServiceLock]} : gset Guarded)
    with ({[NetworkLock]} : gset Guarded) by set_solver. apply Hk.
Qed.

Ltac ordered_go := repeat
  match goal with
  | |- peer_ordered _ (Goto _) => done
  | |- peer_ordered _ Finished => done
  | |- peer_ordered _ (Acquire NetworkLock _) => apply ordered_network; [done|]
  | |- peer_ordered _ (Release NetworkLock _) => apply ordered_network_release
  | |- peer_ordered _ (Acquire ServiceLock (Atomic _ _)) => apply ordered_service; intros ?
  | |- peer_ordered _ (Atomic _ _) => apply ordered_atomic; intros ?
  | |- peer_ordered _ (match ?x with _ => _ end) => destruct x
  end.

Lemma ordered_send_all l msg k :
  peer_ordered {[ NetworkLock ]} k → peer_ordered {[ NetworkLock ]} (send_all l msg k).
Proof. intros Hk. induction l; cbn [send_all]; ordered_go; done. Qed.

Lemma ordered_command cmd : peer_ordered ∅ (run_command cmd).
Proof.
  destruct cmd; cbn [run_command]; ordered_go. apply ordered_send_all. ordered_go.
Qed.

Lemma ordered_event e : new_peer e = None → peer_ordered ∅ (handle_crust_event e).
Proof. intros He. destruct e; try discriminate He; cbn [handle_crust_event]; ordered_go. Qed.

Lemma ordered_recv (k : option (Event UID TcpBuilder) → thread Peer Guarded (Point UID)) :
  (∀ e, new_peer e = None → peer_ordered ∅ (k (Some e))) → peer_ordered ∅ (k None) →
  peer_ordered ∅ (Atomic recv_event k).
Proof.
  intros Hs Hn p a p' Hp. unfold recv_event, mbind, M_bind, gets.
  destruct (w_events _ !! pr_seen p) as [e|] eqn:E; intros [= <- _]; [|done].
  apply Hs. by eapply (Hp (pr_seen p)).
Qed.

Lemma peer_code_ordered speed (q : Point UID) : peer_ordered (held_at q) (peer_code speed q).
Proof.
  destruct q as [| | |u r|u r len times| |]; cbn [peer_code held_at].
  - apply ordered_recv; [apply ordered_event|]. unfold handler_leaves. ordered_go.
  - unfold main_loop. ordered_go. apply ordered_command.
  - unfold speed_wait. ordered_go.
  - unfold speed_loop. ordered_go.
  - unfold speed_send. destruct times; ordered_go.
  - unfold event_loop_turn. ordered_go.
  - unfold on_time_out. ordered_go.
Qed.

(** C33: as long as no new peer is announced, the threads never deadlock, in
    either mode and however they interleave: of the threads that wait for a mutex,
    one waits for a thread that does not. *)
Theorem peer_no_deadlock speed p c :
  steps_while (peer_code speed) peer_panics no_new_peers (peer_start speed p) c → ¬ deadlocked c.
Proof.
  apply (in_order_steps _ _ lock_rank held_at); [apply peer_code_ordered|].
  assert (∀ i, holds (peer_start speed p) i = ∅) as Hnone.
  { intros i. apply set_eq. intros l. rewrite elem_of_holds. cbn. rewrite lookup_empty. set_solver. }
  split; [|done]. intros i t Ht. rewrite Hnone.
  apply start_threads in Ht as [[_ [= ->]]|[[_ [= ->]]|[[_ [= ->]]|(_ & _ & [= ->])]]]; by destruct speed.
Qed.

(** ** The speed test *)

(** The code never gives the table back. *)
Definition sending (q : Point UID) : Prop :=
  match q with SpeedLoop _ _ | SpeedSend _ _ _ _ => True | _ => False end.

Fixpoint clings (t : thread Peer Guarded (Point UID)) : Prop :=
  match t with
  | Finished => False
  | Acquire _ k => clings k
  | Release l k => l ≠ NetworkLock ∧ clings k
  | Atomic _ k => ∀ a, clings (k a)
  | Goto q => sending q
  end.

Lemma clings_code speed (q : Point UID) : sending q → clings (peer_code speed q).
Proof. destruct q as [| | |u r|u r len times| |]; try done. intros _; cbn. by destruct times; cbn. Qed.

(** The points of the threads that use no mutexes. *)
Definition unlocked (q : Point UID) : Prop := q = EventLoop ∨ q = TimeOut.

Lemma unlocked_code speed (q : Point UID) : unlocked q → lock_free unlocked (peer_code speed q).
Proof. intros [->| ->]; [|done]. intros a. by left. Qed.

(** The main thread has the table for good, and the handler waits for it. *)
Record starving (k : thread Peer Guarded (Point UID)) (c : config Peer Guarded (Point UID)) : Prop := {
  st_main : match c_threads c !! MAIN with Some (Running t) => clings t | _ => False end;
  st_handler : c_threads c !! HANDLER = Some (Running (Acquire NetworkLock k));
  st_others : ∀ i t, i ≠ MAIN → i ≠ HANDLER → c_threads c !! i = Some (Running t) → lock_free unlocked t;
  st_held : c_held c !! NetworkLock = Some MAIN
}.

Definition main_dead (c : config Peer Guarded (Point UID)) : Prop :=
  match c_threads c !! MAIN with Some (Running _) => False | _ => True end.

Lemma dead_step speed c c' : main_dead c → step (peer_code speed) peer_panics c c' → main_dead c'.
Proof.
  unfold main_dead. intros Hc [i [[t Ht] [st ->]]%step_thread_threads].
  destruct (decide (i = MAIN)) as [->|Hne]; [by rewrite Ht in Hc|]. by rewrite lookup_insert_ne.
Qed.

(** Steps of the others change neither these two nor the mutexes they hold. *)
Lemma starving_step speed k c c' :
  starving k c → step (peer_code speed) peer_panics c c' → starving k c' ∨ main_dead c'.
Proof.
  intros [Hm Hh Ho Hn] [i Hi]. unfold step_thread in Hi.
  destruct (c_threads c !! i) as [st|] eqn:Est; [|done].
  destruct (decide (i = MAIN)) as [->|HnM]; [|destruct (decide (i = HANDLER)) as [->|HnH]].
  - destruct st as [t|]; [|done]. rewrite Est in Hm.
    assert ((∃ k' s held, clings k' ∧ c' = goes_on MAIN k' s held c ∧ held !! NetworkLock = Some MAIN) ∨
            ∃ e, c' = dies peer_panics MAIN e c) as [(k' & s & held & Hk' & -> & Hheld)|(e & ->)].
    { destruct t as [|l k'|l k'|A m k'|q]; [done| | | |]; cbn [clings] in Hm.
      - destruct (c_held c !! l) eqn:El; [done|]. case_decide; injection Hi as <-; [right; by eexists|left].
        eexists _, _, _. split; [exact Hm|]. split; [done|]. rewrite lookup_insert_ne; [done|congruence].
      - injection Hi as <-. left. eexists _, _, _. split; [apply Hm|]. split; [done|].
        rewrite lookup_delete_ne; [done|]. by intros ->; destruct Hm.
      - destruct (m (c_state c)) as [a s|e|]; [| |done]; injection Hi as <-; [left|right; by eexists].
        eexists _, _, _. split; [apply Hm|]. split; [reflexivity|exact Hn].
      - injection Hi as <-. left. eexists _, _, _. split; [by apply (clings_code speed)|]. split; [reflexivity|exact Hn]. }
    + left. split; cbn; rewrite ?lookup_insert_eq, ?lookup_insert_ne by done; try done.
      intros j t' Hj1 Hj2. rewrite lookup_insert_ne by done. by apply Ho.
    + right. unfold main_dead. cbn. by rewrite lookup_insert_eq.
  - rewrite Hh in Est. injection Est as <-. by rewrite Hn in Hi.
  - left. destruct st as [t|]; [|done]. pose proof (Ho i t HnM HnH Est) as Hl.
    assert ((∃ k' s, lock_free unlocked k' ∧ c' = goes_on i k' s (c_held c) c) ∨
            ∃ e, c' = dies peer_panics i e c) as [(k' & s & Hk' & ->)|(e & ->)].
    { destruct t as [|l k'|l k'|A m k'|q]; [done|done|done| |]; cbn [lock_free] in Hl.
      - destruct (m (c_state c)) as [a s|e|]; [| |done]; injection Hi as <-; [left|right; by eexists].
        by eexists _, _.
      - injection Hi as <-. left. eexists _, _. split; [by apply unlocked_code|reflexivity]. }
    + split; cbn; rewrite ?lookup_insert_ne by done; try done.
      intros j t' Hj1 Hj2 [[<- [= <-]]|[_ Hj]]%lookup_insert_Some; [done|by eapply Ho].
    + split; cbn; rewrite ?lookup_insert_ne by done; try done.
      * intros j t' Hj1 Hj2 [[_ [=]]|[_ Hj]]%lookup_insert_Some. by eapply Ho.
      * apply map_lookup_filter_Some. by split.
Qed.

(** The speed test blocks the event handler. Once the main thread has begun to
    send, a handler that needs the table of peers, as it does to count a message
    that was received, waits for it as long as the main thread lives, and the main
    thread does not end but by a panic. *)
Theorem speed_test_blocks_handler speed timer u rate peer_id kind bytes c c' t :
  c_threads c = <[TIMER := timer]> (trio (Running (Goto (SpeedLoop u rate)))
    (Running (handle_crust_event (NewMessage peer_id kind bytes))) (Running (Goto EventLoop))) →
  match timer with Running t => lock_free unlocked t | Dead _ => True end →
  c_held c !! NetworkLock = Some MAIN →
  peer_steps speed c c' → c_threads c' !! MAIN = Some (Running t) →
  c_threads c' !! HANDLER = Some (Running (handle_crust_event (NewMessage peer_id kind bytes))) ∧
  t ≠ Finished.
Proof.
  intros Hc Htm Hn Hs Hm. cbn [handle_crust_event] in *. set (k := Atomic _ _) in *.
  assert (starving k c' ∨ main_dead c') as [[Hmain Hh _ _]|Hdead].
  - eapply (steps_invariant _ _ (λ c, starving k c ∨ main_dead c)); [|exact Hs|].
    + intros c1 c2 [H1|H1] Hstep; [by eapply starving_step|right; by eapply dead_step].
    + left. split; rewrite ?Hc; try done. intros i t' Hi1 Hi2 [[_ ->]|[_ Ht]]%lookup_insert_Some; [done|].
      destruct (trio_others _ _ _ _ _ Ht) as [->|[->| ->]]; [done|done|]. injection Ht as <-. by left.
  - rewrite Hm in Hmain. split; [done|]. by intros ->.
  - unfold main_dead in Hdead. by rewrite Hm in Hdead.
Qed.

(** ** What the computations of the threads do

    [J] and [R] depend on the service, on the peers in the table, and on whether
    the program has exited; they allow more events to be received. *)
Class Contract (J : Peer → Prop) (R : Peer → Peer → Prop) (bad : panic → Prop) : Prop := {
  ct_preorder :: PreOrder R;
  ct_other : ∀ p p', pr_service p' = pr_service p → nodes (pr_network p') = nodes (pr_network p) →
    pr_exited p' = pr_exited p → (pr_seen p ≤ pr_seen p')%nat → J p → J p' ∧ R p p';
  ct_bad : ∀ e, bad e → e = UnwrapNone ∨ e = IllTyped ∨ e = Poisoned
}.

Section Contracts.
Context (J : Peer → Prop) (R : Peer → Peer → Prop) (bad : panic → Prop) `{!Contract J R bad}.
Abbreviation dos := (does J R bad).

Lemma does_modify_other f :
  (∀ p, pr_service (f p) = pr_service p ∧ nodes (pr_network (f p)) = nodes (pr_network p) ∧
        pr_exited (f p) = pr_exited p ∧ (pr_seen p ≤ pr_seen (f p))%nat) → dos (modify f).
Proof. intros Hf. apply does_modify. intros p. destruct (Hf p) as (? & ? & ? & ?). by apply ct_other. Qed.

Lemma does_network_modify f : (∀ n, nodes (f n) = nodes n) → dos (network (modify f)).
Proof. intros Hf p Hp. unfold network, zoom, modify. apply ct_other; [done|apply Hf|done|done|done]. Qed.

Lemma does_outside {A} (f : sys → A * sys) : dos (outside f).
Proof.
  intros p Hp. unfold outside, zoom, call. destruct (f (pr_sys p)) as [a s]. by apply ct_other.
Qed.

Lemma does_panic {A} e : e ≠ UnwrapNone → e ≠ IllTyped → e ≠ Poisoned → dos (throw e : M Peer A).
Proof. intros H1 H2 H3. apply does_throw. intros [|[|]]%ct_bad; done. Qed.

Lemma does_uint_add m a b : dos (uint_add overflow_checks m a b).
Proof.
  unfold uint_add. destruct (_ <? _); [by apply does_ret; apply ct_preorder|].
  destruct overflow_checks; [by apply does_panic|by apply does_ret; apply ct_preorder].
Qed.

Lemma does_next_info : dos (network next_connection_info_index).
Proof.
  intros p Hp. unfold network, zoom, next_connection_info_index, uint_add, mbind, M_bind, gets.
  destruct (_ <? _), overflow_checks; cbn; try (by apply ct_other). intros [|[|]]%ct_bad; done.
Qed.

End Contracts.

Create HintDb does.
#[local] Hint Resolve does_ret does_gets does_outside does_uint_add does_next_info ct_preorder : does.
#[local] Hint Extern 1 (does _ _ _ (throw _)) =>
  first [apply does_panic; [tc_solve|done|done|done]|apply does_throw; by intros ?] : does.
#[local] Hint Extern 1 (does _ _ _ (unwrap _)) => apply does_unwrap; [tc_solve|first [assumption|by intros ?]] : does.
#[local] Hint Extern 1 (does _ _ _ (modify _)) => apply does_modify_other; [tc_solve|intros ?; split_and!; first [done|cbn; lia]] : does.
#[local] Hint Extern 1 (does _ _ _ (network (modify _))) => apply does_network_modify; [tc_solve|done] : does.

Ltac does_go := repeat (cbv zeta;
  match goal with
  | |- does _ _ _ (_ ≫= _) => apply does_bind; [tc_solve| |intros ?]
  | |- does _ _ _ (for_each _ _) => apply does_for_each; [tc_solve|intros ?]
  | |- does _ _ _ (fold_loop _ _ _) => apply does_fold_loop; [tc_solve|intros ? ?]
  | |- does _ _ _ (match ?x with _ => _ end) => destruct x
  | |- does _ _ _ _ => solve [eauto with does typeclass_instances]
  end).

Section Pieces.
Context (J : Peer → Prop) (R : Peer → Peer → Prop) (bad : panic → Prop) `{!Contract J R bad}.
Abbreviation dos := (does J R bad).

Lemma does_print : (∀ u, dos (service (is_connected u))) → dos print_connected_nodes.
Proof. intros Hc. unfold print_connected_nodes. does_go. Qed.

Lemma does_record n : dos (record_received n).
Proof. unfold record_received. does_go. Qed.

Lemma does_store t i : dos (store_info t i).
Proof. unfold store_info. does_go. Qed.

Lemma does_recv : dos recv_event.
Proof. unfold recv_event. does_go. Qed.

Lemma does_read_line : dos read_line.
Proof. unfold read_line. does_go. Qed.

Lemma does_connect_args a b : dos (connect_args a b).
Proof. unfold connect_args. does_go. Qed.

Lemma does_random n : dos (generate_random_vec_u8 n).
Proof. unfold generate_random_vec_u8. does_go. Qed.

Lemma does_speed_length n : dos (speed_length n).
Proof. unfold speed_length. does_go. Qed.

(** Where a failed [unwrap] is not bad. *)
Context (Hu : ¬ bad UnwrapNone).

Lemma does_parse line : dos (parse_user_command line).
Proof. unfold parse_user_command. does_go. Qed.

Lemma does_unwrap_ok {A E} (m : M Peer (result A E)) : dos m → dos (unwrap_ok m).
Proof. intros Hm. unfold unwrap_ok. does_go. Qed.

End Pieces.
#[local] Hint Resolve does_record does_store does_recv does_read_line does_connect_args does_random
  does_speed_length : does.
#[local] Hint Extern 1 (does _ _ _ (parse_user_command _)) => apply does_parse; [tc_solve|by intros ?] : does.
#[local] Hint Extern 1 (does _ _ _ print_connected_nodes) => apply does_print; [tc_solve|intros ?] : does.
#[local] Hint Extern 1 (does _ _ _ (unwrap_ok _)) => apply does_unwrap_ok; [tc_solve|by intros ?|] : does.
#[local] Hint Extern 1 (does _ _ _ (peer_send _ _)) => apply does_unwrap_ok; [tc_solve|by intros ?|] : does.

(** ** The handler does not lose track of the table *)

(** Nobody but the handler takes peers out of the table. *)
Definition grows p p' : Prop := nodes (pr_network p) ⊆ nodes (pr_network p').
Abbreviation any := (λ _ : Peer, True).
Abbreviation never := (λ _ : panic, False).

#[local] Instance grows_contract : Contract any grows never.
Proof.
  split; [|intros p p' _ E _ _ _; split; [done|]; unfold grows; rewrite E; reflexivity|done].
  split; [intros p; unfold grows; reflexivity|]. intros p1 p2 p3. unfold grows. apply transitivity.
Qed.

Lemma grows_service {A} (m : M (@Service ENV UID _) A) : does any grows never (service m).
Proof.
  intros p _. unfold service, zoom. destruct (m (pr_service p)); [|by intros []|done].
  split; [done|]. unfold grows. reflexivity.
Qed.

Lemma grows_exit code : does any grows never (process_exit code).
Proof. intros p _. split; [done|]. unfold grows. reflexivity. Qed.
#[local] Hint Resolve grows_service grows_exit : does.

(** The points of the main thread and the event loop, and the handler's. *)
Definition elsewhere (q : Point UID) : Prop := q ≠ HandlerLoop.
Definition handlers (q : Point UID) : Prop := q = HandlerLoop.

Abbreviation peer_guarantees := (guarantees (L:=Guarded) grows elsewhere).

Lemma guarantees_atomic {A} (m : M Peer A) k :
  does any grows never m → (∀ a, peer_guarantees (k a)) → peer_guarantees (Atomic m k).
Proof.
  intros Hm Hk p a p' Hrun. specialize (Hm p I). rewrite Hrun in Hm. by split; [apply Hm|].
Qed.

Ltac guarantees_go := repeat
  match goal with
  | |- peer_guarantees (Atomic _ _) => apply guarantees_atomic; [solve [does_go]|intros ?]
  | |- peer_guarantees (Acquire _ ?k) => change (peer_guarantees k)
  | |- peer_guarantees (Release _ ?k) => change (peer_guarantees k)
  | |- peer_guarantees (Goto _) => done
  | |- peer_guarantees Finished => done
  | |- peer_guarantees (match ?x with _ => _ end) => destruct x
  end.

Lemma guarantees_send_all l msg k : peer_guarantees k → peer_guarantees (send_all l msg k).
Proof. intros Hk. induction l; cbn [send_all]; guarantees_go; done. Qed.

Lemma guarantees_command cmd : peer_guarantees (run_command cmd).
Proof. unfold run_command. destruct cmd; guarantees_go. apply guarantees_send_all. guarantees_go. Qed.

Lemma peer_code_guarantees speed q : elsewhere q → peer_guarantees (peer_code speed q).
Proof.
  destruct q as [| | |u r|u r len times| |]; try done; intros _; cbn [peer_code].
  - unfold main_loop. guarantees_go. apply guarantees_command.
  - unfold speed_wait. guarantees_go.
  - unfold speed_loop. guarantees_go.
  - unfold speed_send. guarantees_go.
  - unfold event_loop_turn. guarantees_go.
  - unfold on_time_out. guarantees_go.
Qed.

(** *** What the handler does *)

(** A failed [unwrap] is the end of a value that is not there, or of a mutex that is
    poisoned. *)
Definition bad_unwrap (e : panic) : Prop := e = UnwrapNone ∨ e = Poisoned.
Abbreviation anything := (λ _ _ : Peer, True).

#[local] Instance calm_contract : Contract any anything bad_unwrap.
Proof. split; [by split|done|]. intros e [|]; auto. Qed.

Lemma calm_is_connected u : does any anything bad_unwrap (service (is_connected u)).
Proof. by intros p _. Qed.

Lemma calm_next_index : does any anything bad_unwrap (network next_peer_index).
Proof.
  intros p _. unfold network, zoom, next_peer_index, uint_add, mbind, M_bind, gets.
  destruct (_ <? _), overflow_checks; try done. by intros [|].
Qed.

Lemma calm_network_modify f : does any anything bad_unwrap (network (modify f)).
Proof. by intros p _. Qed.

Lemma calm_exit code : does any anything bad_unwrap (process_exit code).
Proof. by intros p _. Qed.
#[local] Hint Resolve calm_is_connected calm_next_index calm_network_modify calm_exit : does.

Abbreviation peer_secure := (secure (L:=Guarded) grows bad_unwrap handlers).

Lemma secure_atomic {A} Φ (m : M Peer A) k :
  does any anything bad_unwrap m → (∀ a, peer_secure any (k a)) → peer_secure Φ (Atomic m k).
Proof.
  intros Hm Hk p _. specialize (Hm p I). destruct (m p) as [a p'|e|]; [|done|done]. by exists any.
Qed.

Lemma find_index_key u ns i : find_index u ns = Some i → is_Some (ns !! i).
Proof.
  unfold find_index. destruct (List.find _ _) as [[j id]|] eqn:E; [|done]. intros [= <-].
  apply find_some in E as [Hin _]. exists id. by apply elem_of_map_to_list, list_elem_of_In.
Qed.

Ltac secure_go := repeat
  match goal with
  | |- peer_secure _ (Atomic _ _) => apply secure_atomic; [solve [does_go]|intros ?]
  | |- peer_secure ?Φ (Acquire _ ?k) => change (peer_secure Φ k)
  | |- peer_secure ?Φ (Release _ ?k) => change (peer_secure Φ k)
  | |- peer_secure _ (Goto _) => reflexivity
  | |- peer_secure _ Finished => exact I
  | |- peer_secure _ (match ?x with _ => _ end) => destruct x
  end.

(** The index of a lost peer is still in the table when the handler comes back to
    remove it. *)
Lemma secure_lost u : peer_secure (λ _, True) (handle_crust_event (LostPeer u)).
Proof.
  cbn [handle_crust_event]. change (peer_secure (λ _, True) (Atomic (gets (λ p, find_index u (nodes (pr_network p))))
    (λ index, Release NetworkLock (Acquire NetworkLock (Atomic (remove_node index) (λ _,
      Acquire ServiceLock (Atomic print_connected_nodes (λ _,
      Release ServiceLock (Release NetworkLock (Goto HandlerLoop)))))))))).
  intros p _. set (index := find_index u (nodes (pr_network p))).
  exists (λ p, match index with Some i => is_Some (nodes (pr_network p) !! i) | None => True end).
  split; [|split].
  - intros p1 p2 Hg. destruct index as [i|]; [|done]. intros [v Hv]. exists v. by eapply lookup_weaken.
  - unfold index. cbn. destruct (find_index u (nodes (pr_network p))) as [i|] eqn:E; [|done]. by eapply find_index_key.
  - fold index. clearbody index. set (k := λ _ : unit, Acquire ServiceLock _).
    assert (peer_secure (λ _, True) (k tt)) as Hk by (unfold k; secure_go).
    intros p1 Hp1. destruct index as [i|]; cbn [remove_node]; unfold mbind, M_bind, gets; [|by exists (λ _, True)].
    cbn -[secure k]. destruct Hp1 as [v ->]. by exists (λ _, True).
Qed.

Lemma secure_event (Hjson : ∀ i : PubConnectionInfo UID, is_Some (json_to_string i)) e :
  peer_secure (λ _, True) (handle_crust_event e).
Proof.
  destruct e; try solve [cbn [handle_crust_event]; unfold handle_new_peer; secure_go].
  - cbn [handle_crust_event]. destruct (ci_result _) as [info|]; [|reflexivity].
    destruct (Hjson (to_pub_connection_info info)) as [j ->]. secure_go.
  - apply secure_lost.
Qed.

(** *** Who poisons a mutex *)

(** The points of the threads that take none. *)
Definition takes_none (q : Point UID) : Prop := q = EventLoop ∨ q = TimeOut.

Lemma peer_code_takes_none speed q : takes_none q → lock_free takes_none (peer_code speed q : thread Peer Guarded _).
Proof. intros [-> | ->]; cbn; intros; [by left|done]. Qed.

(** As long as the program runs, the main thread has not panicked, so that only the
    handler can have poisoned a mutex, by its own panic. *)
Record unpoisoned (c : config Peer Guarded (Point UID)) : Prop := {
  up_clean : (∃ t, c_threads c !! HANDLER = Some (Running t)) → c_poisoned c = ∅;
  up_held : ∀ l i, c_held c !! l = Some i → i = MAIN ∨ i = HANDLER;
  up_free : ∀ i t, i ≠ MAIN → i ≠ HANDLER → c_threads c !! i = Some (Running t) → lock_free takes_none t
}.

Lemma unpoisoned_goes_on i t k s held c :
  unpoisoned c → c_threads c !! i = Some (Running t) →
  (∀ l j, held !! l = Some j → c_held c !! l = Some j ∨ j = MAIN ∨ j = HANDLER) →
  (i ≠ MAIN → i ≠ HANDLER → lock_free takes_none k) → unpoisoned (goes_on i k s held c).
Proof.
  intros [Hp Hh Hf] Hi Hheld Hk. split; cbn.
  - intros [t' [[-> _]|[_ Ht]]%lookup_insert_Some]; apply Hp; [by exists t|by exists t'].
  - intros l j [Hl|Hj]%Hheld; [by eapply Hh|done].
  - intros j t' H1 H2 [[<- [= <-]]|[_ Hj]]%lookup_insert_Some; [by apply Hk|by eapply Hf].
Qed.

Lemma unpoisoned_dies i e c :
  unpoisoned c → alive (peer_panics i (c_state c)) → unpoisoned (dies peer_panics i e c).
Proof.
  intros [Hp Hh Hf] Ha. split; cbn.
  - intros [t [[_ [=]]|[Hne Ht]]%lookup_insert_Some]. rewrite (Hp (ex_intro _ t Ht)).
    assert (filter (λ lj, lj.2 = i) (c_held c) = ∅) as ->; [|set_solver].
    apply map_empty_filter_2. intros l j Hl E. cbn in E. subst j. destruct (Hh _ _ Hl) as [->| ->]; [|done].
    discriminate Ha.
  - intros l j [Hl _]%map_lookup_filter_Some. by eapply Hh.
  - intros j t H1 H2 [[_ [=]]|[_ Hj]]%lookup_insert_Some. by eapply Hf.
Qed.

Lemma unpoisoned_step speed i c c' :
  unpoisoned c → step_thread (peer_code speed) peer_panics i c = Some c' → alive (c_state c') → unpoisoned c'.
Proof.
  intros Hc Hi Ha. unfold step_thread in Hi. destruct (c_threads c !! i) as [[t|e]|] eqn:E; [|done|done].
  assert (i ≠ MAIN → i ≠ HANDLER → lock_free takes_none t) as Hfree by (intros; by eapply up_free).
  destruct t as [|l k|l k|A m k|q]; [done| | | |]; cbn in Hfree.
  - destruct (c_held c !! l); [done|]. case_decide; injection Hi as <-; [by apply unpoisoned_dies|].
    eapply unpoisoned_goes_on; [done|done| |intros H1 H2; by destruct (Hfree H1 H2)].
    intros l' j [[_ <-]|[_ Hl]]%lookup_insert_Some; [right|by left].
    destruct (decide (i = MAIN)); [by left|]. destruct (decide (i = HANDLER)); [by right|]. by destruct Hfree.
  - injection Hi as <-. eapply unpoisoned_goes_on; [done|done| |intros H1 H2; by destruct (Hfree H1 H2)].
    intros l' j [_ Hl]%lookup_delete_Some. by left.
  - destruct (m (c_state c)) as [a s|e|]; [| |done]; injection Hi as <-; [|by apply unpoisoned_dies].
    eapply unpoisoned_goes_on; [done|done|by left|]. intros H1 H2. by apply Hfree.
  - injection Hi as <-. eapply unpoisoned_goes_on; [done|done|by left|].
    intros H1 H2. by apply peer_code_takes_none, Hfree.
Qed.


(** ** The table of peers and the events of the service *)

(** The events of the service that the handler has received. *)
Definition received p : list (Event UID TcpBuilder) := take (pr_seen p) (w_events (sv_world (pr_service p))).

(** The service is as every reachable one, and the peers in the table were announced
    to the handler. *)
Record listed p : Prop := {
  ls_served : sv_ok (pr_service p);
  ls_announced : ∀ i u, nodes (pr_network p) !! i = Some u → ∃ k, announced (received p) u k
}.

Definition hears p p' : Prop := received p `prefix_of` received p'.

Lemma received_mono p p' :
  w_events (sv_world (pr_service p)) `prefix_of` w_events (sv_world (pr_service p')) →
  (pr_seen p ≤ pr_seen p')%nat → hears p p'.
Proof.
  intros [l Hl] Hs. unfold hears, received. rewrite Hl, take_app. apply prefix_app_r.
  replace (take (pr_seen p) _) with (take (pr_seen p) (take (pr_seen p') (w_events (sv_world (pr_service p)))))
    by (rewrite take_take; f_equal; lia).
  apply prefix_take.
Qed.

(** What keeps the table as it is, or takes a peer out of it. *)
Lemma listed_mono p p' :
  sv_ok (pr_service p') → later (pr_service p) (pr_service p') → (pr_seen p ≤ pr_seen p')%nat →
  nodes (pr_network p') ⊆ nodes (pr_network p) → listed p → listed p' ∧ hears p p'.
Proof.
  intros Hsv [He _] Hs Hn [_ Ha]. assert (hears p p') as Hh by by apply received_mono. split; [|done].
  split; [done|]. intros i u Hu. destruct (Ha i u) as [k Hk]; [by eapply lookup_weaken|].
  exists k. by eapply announced_prefix.
Qed.

#[local] Instance listed_contract : Contract listed hears never.
Proof.
  split; [|intros p p' E1 E2 _ Hs Hp; apply listed_mono; [rewrite E1; apply Hp|by rewrite E1|done|by rewrite E2|done]|done].
  split; [intros p; unfold hears; reflexivity|]. intros p1 p2 p3. unfold hears. apply transitivity.
Qed.

Lemma listed_service {A} (m : M (@Service ENV UID _) A) : sok m → does listed hears never (service m).
Proof.
  intros Hm p Hp. unfold service, zoom. specialize (Hm _ (ls_served _ Hp)).
  destruct (m (pr_service p)) as [a sv|e|]; [|by intros []|done]. destruct Hm as [H1 H2]. by apply listed_mono.
Qed.

Lemma listed_next_index : does listed hears never (network next_peer_index).
Proof.
  intros p Hp. unfold network, zoom, next_peer_index, uint_add, mbind, M_bind, gets.
  destruct (_ <? _); [|destruct overflow_checks; [by intros []|]]; cbn; by apply (ct_other p).
Qed.

Lemma listed_remove index : does listed hears never (remove_node index).
Proof.
  intros p Hp. destruct index as [i|]; cbn [remove_node]; [|by split; [|unfold hears]].
  unfold mbind, M_bind, gets. destruct (nodes (pr_network p) !! i); [|by intros []]. cbn.
  apply listed_mono; [apply Hp|done|done|apply delete_subseteq|done].
Qed.

Lemma sok_is_connected u : sok (is_connected u : M (@Service ENV UID _) _).
Proof. by intros sv Hsv. Qed.

Lemma sok_loop_input i : sok (loop_input i : M (@Service ENV UID _) _).
Proof. apply sok_action. destruct i; constructor. Qed.

Lemma listed_exit code : does listed hears never (process_exit code).
Proof. intros p Hp. by apply listed_mono; [apply Hp|..]. Qed.
#[local] Hint Resolve listed_next_index listed_remove sok_is_connected sok_loop_input listed_exit : does.
#[local] Hint Extern 1 (does _ _ _ (service (prepare_connection_info _))) =>
  apply listed_service, sok_action; constructor : does.
#[local] Hint Extern 2 (does _ _ _ (service _)) =>
  apply listed_service; first [solve [eauto with does]|apply sok_op; constructor] : does.

Abbreviation peer_keeps := (keeps (L:=Guarded) (P:=Point UID) listed hears).

Lemma keeps_atomic {A} Φ (m : M Peer A) k :
  does listed hears never m → (∀ a, peer_keeps any (k a)) → peer_keeps Φ (Atomic m k).
Proof.
  intros Hm Hk p a p' Hp _ Hrun. specialize (Hm p Hp). rewrite Hrun in Hm. destruct Hm as [H1 H2].
  split; [done|]. split; [done|]. by exists any.
Qed.

Ltac keeps_go := repeat
  match goal with
  | |- peer_keeps _ (Atomic _ _) => apply keeps_atomic; [solve [does_go]|intros ?]
  | |- peer_keeps ?Φ (Acquire _ ?k) => change (peer_keeps Φ k)
  | |- peer_keeps ?Φ (Release _ ?k) => change (peer_keeps Φ k)
  | |- peer_keeps _ (Goto _) => exact I
  | |- peer_keeps _ Finished => exact I
  | |- peer_keeps _ (match ?x with _ => _ end) => destruct x
  end.

Lemma keeps_send_all l msg k : peer_keeps any k → peer_keeps any (send_all l msg k).
Proof. intros Hk. induction l; cbn [send_all]; keeps_go; done. Qed.

(** A peer that was announced to the handler is put into the table. *)
Lemma keeps_new_peer u kind k Φ :
  (∀ p, Φ p → announced (received p) u kind) → (∀ i, peer_keeps any (k i)) → peer_keeps Φ (handle_new_peer u k).
Proof.
  intros HΦ Hk p i p' Hp Hu%HΦ Hrun.
  apply Done_bind_inv in Hrun as (j & p1 & H1 & Hrun). apply Done_bind_inv in Hrun as ([] & p2 & H2 & H3).
  pose proof (listed_next_index p Hp) as Hi. rewrite H1 in Hi. destruct Hi as [Hp1 Hh1]. clear H1.
  injection H2 as <-. set (p2 := pr_set_network _ p1) in *.
  assert (listed p2) as Hp2.
  { split; [apply Hp1|]. intros i' u' Hi'. change (<[j := u]> (nodes (pr_network p1)) !! i' = Some u') in Hi'.
    apply lookup_insert_Some in Hi' as [[_ <-]|[_ Hi']]; [|by apply (ls_announced _ Hp1 i')].
    exists kind. by eapply announced_prefix. }
  assert (does listed hears never (print_connected_nodes ;; mret j)) as Hpr by does_go.
  specialize (Hpr p2 Hp2). rewrite H3 in Hpr. destruct Hpr as [Hp' Hh'].
  split; [done|]. split; [by transitivity p1|]. exists any. split_and!; [done|done|apply Hk].
Qed.

(** What was just received stays received. *)
Lemma received_stable e : stable hears (λ p, e ∈ received p).
Proof. intros p p' Hh He. by eapply elem_of_prefix. Qed.

Lemma keeps_event e : peer_keeps (λ p, e ∈ received p) (handle_crust_event e).
Proof.
  destruct e as [u kind|u a| | | | |u| | | |]; cbn [handle_crust_event]; try solve [keeps_go].
  - apply (keeps_new_peer u kind); [|intros i; keeps_go]. intros p He. by eexists.
  - apply (keeps_new_peer u Node); [|intros i; keeps_go]. intros p He. by eexists.
  - apply (keeps_new_peer u Node); [|intros i; keeps_go]. intros p He. by eexists.
Qed.

Lemma keeps_handler : peer_keeps any event_handler.
Proof.
  intros p r p' Hp _ Hrun. assert (does listed hears never recv_event) as Hr by does_go.
  specialize (Hr p Hp). rewrite Hrun in Hr. destruct Hr as [H1 H2]. split; [done|]. split; [done|].
  destruct r as [e|]; [|exists any; split_and!; [done|done|]; unfold handler_leaves; keeps_go].
  exists (λ p, e ∈ received p). split; [apply received_stable|]. split; [|apply keeps_event].
  revert Hrun. unfold recv_event, mbind, M_bind, gets.
  destruct (w_events (sv_world (pr_service p)) !! pr_seen p) as [e'|] eqn:E; [|done]. intros [= -> <-].
  unfold received. cbn. erewrite take_S_r by exact E. apply elem_of_app. right. by apply list_elem_of_singleton.
Qed.

Lemma keeps_command cmd : peer_keeps any (run_command cmd).
Proof. unfold run_command. destruct cmd; keeps_go. apply keeps_send_all. keeps_go. Qed.

Lemma peer_code_keeps speed q : peer_keeps any (peer_code speed q).
Proof.
  destruct q as [| | |u r|u r len times| |]; cbn [peer_code].
  - apply keeps_handler.
  - unfold main_loop. keeps_go. apply keeps_command.
  - unfold speed_wait. keeps_go.
  - unfold speed_loop. keeps_go.
  - unfold speed_send. keeps_go.
  - unfold event_loop_turn. keeps_go.
  - unfold on_time_out. keeps_go.
Qed.

(** The service the program starts with is as the theorems on services require. *)
Lemma peer_service_reachable sha3_256 port our_uid n sv n' :
  peer_service sha3_256 port our_uid n = Done sv n' → reachable sv.
Proof.
  unfold peer_service. set (m0 := peer_config port ≫= _). destruct (m0 n) as [sv0 n0|e|] eqn:E0; [|done|done].
  set (m1 := start_listening_tcp ≫= _). destruct (m1 sv0) as [r sv1|e|] eqn:E1; [|done|done]. intros [= <- _].
  assert (reachable sv0) as Hr0.
  { destruct (Done_bind_inv _ _ _ _ _ E0) as (c & n1 & _ & E2).
    destruct (Done_bind_inv _ _ _ _ _ E2) as ([sv|] & n2 & E3 & E4); [|done].
    injection E4 as <- _. by eapply with_config_reachable. }
  destruct (Done_bind_inv _ _ _ _ _ E1) as (r1 & sv2 & E2 & E3).
  destruct (Done_bind_inv _ _ _ _ _ E3) as (r2 & sv3 & E4 & E5).
  assert (sv3 = sv2) as -> by (destruct r1; [by injection E4|done]).
  destruct r. refine (reachable_action start_service_discovery sv2 _ _ Act_start_service_discovery E5).
  exact (reachable_op start_listening_tcp sv0 r1 sv2 Act_start_listening_tcp Hr0 E2).
Qed.

(** C10: the program knows the peers it has been told of. It is run on a service
    in any state a service can reach, such as the one it starts with
    ([peer_service_reachable]); then, however its threads and the service's event
    loop interleave, every peer in its table was announced as connected by an event
    that the handler has received, and each message event that the handler has
    received is from a peer announced to it before, as the kind it was announced
    to be. *)
Theorem peer_lists_announced sv now s stdin inputs speed c :
  reachable sv → peer_steps speed (peer_start speed (peer_new sv now s stdin inputs)) c →
  let p := c_state c in
  (∀ i u, nodes (pr_network p) !! i = Some u → ∃ k, announced (received p) u k) ∧
  (∀ l u k d r, received p = l ++ NewMessage u k d :: r → announced l u k).
Proof.
  intros Hsv Hs p. assert (all_keep (L:=Guarded) listed hears c) as [[[[Σ Hw] _ _] Ha] _].
  { eapply (all_keep_steps _ _ listed hears); [|apply (peer_code_keeps speed)| |exact Hs].
    - intros i q Hq. unfold peer_panics. repeat case_match; try by apply (ct_other q).
      + destruct (ls_served _ Hq) as [H1 H2 H3]. apply listed_mono; [by split|done|done|done|done].
      + apply listed_mono; [apply Hq|done|done|done|done].
    - split; [split; [by apply reachable_ok|done]|]. intros i t Hi.
      apply start_threads in Hi as [[_ [= ->]]|[[_ [= ->]]|[[_ [= ->]]|(_ & _ & [= ->])]]]; by exists any. }
  split; [exact Ha|]. intros l u k d r E.
  apply (justified_split _ l (NewMessage u k d) (r ++ drop (pr_seen p) (w_events (sv_world (pr_service p))))
    (wt_justified _ _ Hw)).
  fold p. rewrite app_comm_cons, app_assoc, <- E. unfold received. by rewrite take_drop.
Qed.

(** ** How the program ends *)

#[local] Instance alive_contract : Contract alive anything never.
Proof. split; [by split| |done]. intros p p' _ _ E _ Hp. unfold alive. by rewrite E. Qed.

Lemma alive_service {A} (m : M (@Service ENV UID _) A) : does alive anything never (service m).
Proof. intros p Hp. unfold service, zoom. by destruct (m (pr_service p)); [|by intros []|]. Qed.

Lemma alive_network {A} (m : M (Network UID TcpBuilder) A) : does alive anything never (network m).
Proof. intros p Hp. unfold network, zoom. by destruct (m (pr_network p)); [|by intros []|]. Qed.
#[local] Hint Resolve alive_service alive_network : does.

(** The thread [i] may end the program with [code], which leaves it in the state
    [q] and with [t] to do. *)
Definition exits_for speed (i : nat) (code : Z) (q : Peer) (t : thread Peer Guarded (Point UID)) : Prop :=
  code = 0 ∧ speed = None ∧ i = MAIN ∧ t = Finished ∨
  code = 3 ∧ speed ≠ None ∧ i = TIMER ∧ pr_told q = false ∨
  code = 6 ∧ speed ≠ None ∧ i = MAIN ∧ pr_handler q = false ∧ pr_bs q = [].

(** The points each thread goes to. *)
Definition at_home speed (i : nat) (q : Point UID) : Prop :=
  match q with
  | HandlerLoop => i = HANDLER
  | MainLoop => i = MAIN ∧ speed = None
  | SpeedWait | SpeedLoop _ _ | SpeedSend _ _ _ _ => i = MAIN ∧ speed ≠ None
  | EventLoop => i = LOOP
  | TimeOut => i = TIMER ∧ speed ≠ None
  end.

Fixpoint exits speed (i : nat) (t : thread Peer Guarded (Point UID)) : Prop :=
  match t with
  | Finished => True
  | Acquire _ k | Release _ k => exits speed i k
  | Atomic m k => ∀ p a p', alive p → m p = Done a p' →
      exits speed i (k a) ∧
      ∀ code, pr_exited p' = Some code → exits_for speed i code p' (k a)
  | Goto q => at_home speed i q
  end.

Lemma exits_atomic {A} speed i (m : M Peer A) k :
  does alive anything never m → (∀ a, exits speed i (k a)) → exits speed i (Atomic m k).
Proof.
  intros Hm Hk p a p' Hp Hrun. split; [apply Hk|]. specialize (Hm p Hp). rewrite Hrun in Hm.
  destruct Hm as [Hm _]. unfold alive in Hm. by rewrite Hm.
Qed.

Ltac exits_go := repeat
  match goal with
  | |- exits _ _ (Atomic _ _) => apply exits_atomic; [solve [does_go]|intros ?]
  | |- exits ?s ?i (Acquire _ ?k) => change (exits s i k)
  | |- exits ?s ?i (Release _ ?k) => change (exits s i k)
  | |- exits _ _ (Goto _) => done
  | |- exits _ _ Finished => exact I
  | |- exits _ _ (match ?x with _ => _ end) => destruct x
  end.

Lemma exits_send_all speed i l msg k : exits speed i k → exits speed i (send_all l msg k).
Proof. intros Hk. induction l; cbn [send_all]; exits_go; done. Qed.

Lemma exits_command cmd : exits None MAIN (run_command cmd).
Proof.
  unfold run_command. destruct cmd; exits_go; [|by apply exits_send_all].
  intros p b p' _ [= _ <-]. split; [exact I|]. intros code [= <-]. by left.
Qed.

Lemma exits_event speed e : exits speed HANDLER (handle_crust_event e).
Proof. destruct e; cbn [handle_crust_event]; unfold handle_new_peer, remove_node; exits_go. Qed.

Lemma peer_code_exits speed i q : at_home speed i q → exits speed i (peer_code speed q).
Proof.
  destruct q as [| | |u r|u r len times| |]; cbn [peer_code at_home].
  - intros ->. unfold event_handler, handler_leaves. exits_go. apply exits_event.
  - intros [-> ->]. unfold main_loop. exits_go. apply exits_command.
  - intros [-> Hs]. unfold speed_wait.
    match goal with |- exits _ _ (Atomic _ ?k) =>
      assert (∀ j, exits speed MAIN (k (Ok j))) as Hk by (intros j; exits_go); set (kk := k) in * end.
    intros p a p' Hp. unfold mbind, M_bind, gets.
    destruct (pr_bs p) as [|j l] eqn:Hbs; [destruct (pr_handler p) eqn:Hh|]; intros [= <- <-].
    + split; [exact (conj eq_refl Hs)|]. intros code Hc. unfold alive in Hp. congruence.
    + split; [exact I|]. intros code [= <-]. do 2 right. by split_and!.
    + split; [apply Hk|]. intros code Hc. unfold alive in Hp. cbn in Hc. congruence.
  - intros H. unfold speed_loop. exits_go.
  - intros H. unfold speed_send. exits_go.
  - intros ->. unfold event_loop_turn. exits_go.
  - intros [-> Hs]. intros p a p' Hp. unfold mbind, M_bind, gets.
    destruct (pr_told p) eqn:Ht; [intros [= <- <-]; split; [done|]; intros code Hc; unfold alive in Hp; congruence|].
    rewrite bool_decide_true by (destruct speed; [by eexists|done]). intros [= <- <-]. split; [done|].
    intros code [= <-]. right. left. by split_and!.
Qed.

(** A step that ends the program. *)
Lemma exits_step speed c c' i :
  alive (c_state c) → (∀ i t, c_threads c !! i = Some (Running t) → exits speed i t) →
  step_thread (peer_code speed) peer_panics i c = Some c' →
  (∀ i t, c_threads c' !! i = Some (Running t) → exits speed i t) ∧
  ∀ code, pr_exited (c_state c') = Some code →
    (∃ t, c_threads c' !! i = Some (Running t) ∧ exits_for speed i code (c_state c') t) ∨
    code = 101 ∧ ∃ e, c_threads c' !! MAIN = Some (Dead e).
Proof.
  intros Ha Ht Hi. unfold step_thread in Hi. destruct (c_threads c !! i) as [[t|e]|] eqn:E; [|done|done].
  pose proof (Ht _ _ E) as Hex.
  assert (∀ k s held, exits speed i k → c' = goes_on i k s held c →
    ∀ i t, c_threads c' !! i = Some (Running t) → exits speed i t) as Hgo.
  { intros k s held Hk ->. cbn. intros j t' [[<- [= <-]]|[_ Hj]]%lookup_insert_Some; [done|by apply Ht]. }
  assert (∀ e, c' = dies peer_panics i e c →
    (∀ i t, c_threads c' !! i = Some (Running t) → exits speed i t) ∧
    ∀ code, pr_exited (c_state c') = Some code → code = 101 ∧ ∃ e, c_threads c' !! MAIN = Some (Dead e)) as Hdie.
  { intros e ->. split; [cbn; intros j t' [[_ [=]]|[_ Hj]]%lookup_insert_Some; by apply Ht|].
    intros code. cbn. unfold alive in Ha. unfold peer_panics.
    destruct (Nat.eqb_spec i HANDLER); [cbn; congruence|]. destruct (Nat.eqb_spec i LOOP); [cbn; congruence|].
    destruct (Nat.eqb_spec i MAIN) as [->|]; [|congruence]. intros [= <-]. split; [done|]. exists e.
    apply lookup_insert_eq. }
  assert (c_state c' = c_state c → ∀ code, pr_exited (c_state c') = Some code → False) as Hsame.
  { intros -> code. unfold alive in Ha. by rewrite Ha. }
  destruct t as [|l k|l k|A m k|q]; [done| | | |]; cbn [exits] in Hex.
  - destruct (c_held c !! l); [done|]. case_decide; injection Hi as <-.
    + destruct (Hdie Poisoned eq_refl) as [H1 H2]. split; [done|]. intros code Hc. right. by apply H2.
    + split; [by eapply Hgo|]. intros code Hc. by destruct (Hsame eq_refl code).
  - injection Hi as <-. split; [by eapply Hgo|]. intros code Hc. by destruct (Hsame eq_refl code).
  - specialize (Hex (c_state c)). destruct (m (c_state c)) as [a s|e|]; [| |done]; injection Hi as <-.
    + destruct (Hex a s Ha eq_refl) as [H1 H2]. split; [by eapply Hgo|]. intros code Hc. left. exists (k a).
      split; [apply lookup_insert_eq|by apply H2].
    + destruct (Hdie e eq_refl) as [H1 H2]. split; [done|]. intros code Hc. right. by apply H2.
  - injection Hi as <-. split; [eapply Hgo; [by apply peer_code_exits|done]|]. intros code Hc. by destruct (Hsame eq_refl code).
Qed.

(** C36: what the code the program exits with says. A run of the program that has
    just ended, in any interleaving of its threads, has ended with 0 when the main
    thread has come to its end, which is so only when it runs commands; with 3 when
    the thread that gives up on the speed test woke before the main thread had told
    it of a peer (the handler may have announced one by then, which the main thread
    has not come to yet); with 6 when the event handler was gone and the channel had
    no peer for the speed test; or with 101 when the main thread panicked. There is
    no other code. *)
Theorem exit_codes speed p c c' i code :
  steps_while (peer_code speed) peer_panics alive (peer_start speed p) c →
  step_thread (peer_code speed) peer_panics i c = Some c' → pr_exited (c_state c') = Some code →
  code = 0 ∧ speed = None ∧ c_threads c' !! MAIN = Some (Running Finished) ∨
  code = 3 ∧ speed ≠ None ∧ i = TIMER ∧ pr_told (c_state c') = false ∨
  code = 6 ∧ speed ≠ None ∧ pr_handler (c_state c') = false ∧ pr_bs (c_state c') = [] ∨
  code = 101 ∧ ∃ e, c_threads c' !! MAIN = Some (Dead e).
Proof.
  intros Hs Hi Hcode.
  assert (alive (c_state c) ∧ ∀ i t, c_threads c !! i = Some (Running t) → exits speed i t) as [Ha Ht].
  { clear Hi Hcode. remember (peer_start speed p) as c0 eqn:E0. induction Hs as [c0 Ha|c0 c1 c2 _ IH [j Hj] Ha]; subst c0.
    - split; [done|]. intros j t Hj. apply start_threads in Hj as [[-> [= ->]]|[[-> [= ->]]|[[-> [= ->]]|(-> & Hs & [= ->])]]];
        try done. by destruct speed.
    - split; [done|]. destruct (IH eq_refl) as [Ha1 Ht1]. by apply (exits_step speed c1 c2 j). }
  destruct (exits_step speed c c' i Ha Ht Hi) as [_ Hex].
  destruct (Hex code Hcode) as [(t & Htt & [(-> & -> & -> & ->)|[(-> & H1 & H2 & H3)|(-> & H1 & -> & H3 & H4)]])|[-> [e He]]].
  - left. by split_and!.
  - right. left. by split_and!.
  - do 2 right. left. by split_and!.
  - do 3 right. split; [done|by exists e].
Qed.

(** ** The speed of the test *)

Lemma sleeps_over_half_a_second times : 1 ≤ times → 501 ≤ times * speed_sleep times.
Proof.
  intros Ht. unfold speed_sleep. destruct (Z.le_gt_cases times 1000) as [Hle|Hgt]; [|nia].
  assert (1 ≤ 1000 / times) by (apply Z.div_le_lower_bound; lia).
  rewrite Z.max_r by done. pose proof (Z.div_mod 1000 times ltac:(lia)) as Hd.
  pose proof (Z.mod_pos_bound 1000 times ltac:(lia)) as Hm. nia.
Qed.

(** The speed test is bounded. In each round it sends at most [speed] bytes,
    in messages of at least 50, and the pauses between the messages add up to
    more than half a second, so that it sends at less than twice the given speed;
    it can be faster than the given speed, which is called the maximum, by nearly
    that factor. *)
Theorem speed_bounded (speed length : Z) :
  50 ≤ length < speed →
  (let times := speed_times speed length in
   let elapsed_ms := times * speed_sleep times in
   50 ≤ times * length ≤ speed ∧ 501 ≤ elapsed_ms ∧ 1000 * (times * length) < 2 * speed * elapsed_ms) ∧
  ∃ speed' length' : Z, 50 ≤ length' < speed' ∧
    (let times := speed_times speed' length' in
     1000 * (times * length') = 25050 * 1000 ∧ speed' * (times * speed_sleep times) = 25050 * 501).
Proof.
  intros Hlen. split.
  - intros times elapsed_ms. assert (times = speed / length) as Ht.
    { unfold times, speed_times. apply Z.max_r, Z.div_le_lower_bound; lia. }
    assert (1 ≤ times) by (unfold times, speed_times; lia).
    pose proof (sleeps_over_half_a_second times ltac:(done)) as He. fold elapsed_ms in He.
    assert (times * length ≤ speed) by (rewrite Ht; pose proof (Z.mul_div_le speed length); lia). nia.
  - exists 25050, 50. split; [lia|]. by vm_compute.
Qed.

End PeerProps.

Module PeerWitness.

#[local] Instance wenv : Env := Script.env true false.
#[local] Existing Instance Script.msg_codec.
#[local] Existing Instance Script.disc_codec.

(** A parser of command lines with the arguments in their order. *)
Record Matches := mkMatches {
  m_values : list (string * string);
  m_sub : option (string * list (string * string))
}.

Definition assoc {A} (name : string) (l : list (string * A)) : option A :=
  snd <$> List.find (λ kv, bool_decide (kv.1 = name)) l.

Definition accept (app : App) (words : list string) : option Matches :=
  match words with
  | [] => Some (mkMatches [] None)
  | name :: values =>
      args ← assoc name (app_subcommands app);
      if (length args =? length values)%nat then Some (mkMatches [] (Some (name, zip args values))) else None
  end.

(** The clock counts the times it is read; the least number is drawn. *)
#[local] Instance wpeer : PeerEnv Z := {|
  sys := Z;
  instant_now n := (n, n + 1);
  gen_range low _ n := (low, n);
  random_u8 n := (Byte.x41, n);
  json_to_string _ := Some "{}"%string;
  json_from_str _ := None;
  ArgMatches := Matches;
  get_matches_from_safe := accept;
  is_present m name := bool_decide (fst <$> m_sub m = Some name);
  subcommand_matches m name :=
    '(name', values) ← m_sub m; if bool_decide (name' = name) then Some (mkMatches values None) else None;
  value_of m arg := assoc arg (m_values m)
|}.

Lemma assoc_zip {A} (args : list string) (values : list A) arg :
  length args = length values → arg ∈ args → is_Some (assoc arg (zip args values)).
Proof.
  revert values. induction args as [|a args IH]; intros [|v values] Hlen Hin; try done; [by apply elem_of_nil in Hin|].
  unfold assoc. cbn. destruct (bool_decide (a = arg)) eqn:E; [by eexists|].
  apply IH; [by injection Hlen|]. apply bool_decide_eq_false in E. by apply elem_of_cons in Hin as [->|].
Qed.

Lemma accept_inv words m : accept cli words = Some m →
  m_values m = [] ∧ (m_sub m = None ∨ ∃ name args values, m_sub m = Some (name, zip args values) ∧
    assoc name (app_subcommands cli) = Some args ∧ length args = length values).
Proof.
  destruct words as [|name values]; cbn -[assoc cli]; [intros [= <-]; split; [done|by left]|].
  destruct (assoc name (app_subcommands cli)) as [args|] eqn:E; cbn; [|done].
  destruct (Nat.eqb_spec (length args) (length values)); [|done]. intros [= <-].
  split; [done|right]. by exists name, args, values.
Qed.

Lemma cli_args name args args' :
  assoc name (app_subcommands cli) = Some args → (name, args') ∈ app_subcommands cli → args' = args.
Proof.
  intros Ha Hin. cbn in Hin. repeat (apply elem_of_cons in Hin as [[= -> ->]|Hin]; [vm_compute in Ha; congruence|]).
  by apply elem_of_nil in Hin.
Qed.

#[local] Program Instance wclap : ClapLaws Z := {| subcommand_name m := fst <$> m_sub m |}.
Next Obligation. done. Defined.
Next Obligation.
  intros words m name Hm Hn. cbn in *. destruct (m_sub m) as [[name' values]|]; [|done].
  injection Hn as ->. cbn. rewrite bool_decide_true by done. by eexists.
Defined.
Next Obligation. intros words m arg [Hv _]%accept_inv. cbn. by rewrite Hv. Defined.
Next Obligation.
  intros words m name args m' arg [_ [Hs|(n & as' & vs & Hs & Ha & Hl)]]%accept_inv Hm Hin Harg; cbn in *;
    rewrite Hs in Hm; [done|]. cbn in Hm. destruct (bool_decide (n = name)) eqn:E; [|done].
  apply bool_decide_eq_true in E as ->. injection Hm as <-. rewrite (cli_args _ _ _ Ha Hin) in Harg.
  by apply assoc_zip.
Defined.

Definition m_all : @ArgMatches Z wpeer := mkMatches [] (Some ("send-all", [("message", "hello")]))%string.
Definition m_send : @ArgMatches Z wpeer :=
  mkMatches [] (Some ("send", [("peer", "3"); ("message", "hello")]))%string.

Lemma commands_understood_witness :
  parse_user_command "send-all hello"%string tt = Panicked UnwrapNone ∧
  parse_user_command "send 3 hello"%string tt = Done (Some (Send 3 "hello"%string)) tt.
Proof.
  split.
  - refine (proj1 (proj2 (proj2 (commands_understood "send-all hello"%string m_all tt _))) _); vm_compute; reflexivity.
  - destruct (proj1 (proj2 (commands_understood "send 3 hello"%string m_send tt
      ltac:(vm_compute; reflexivity))) ltac:(vm_compute; reflexivity)) as (i & msg & [= <-] & [= <-] & H).
    exact H.
Defined.

(** A service that has announced events, a user who types, and what the event loop
    is told. *)
Definition w0 (events : list (Event Z (@TcpBuilder wenv))) : World Z :=
  set_events events (Core_new 6 (Script.quiet : @net wenv) (ConfigWrapper_new Config_default)).
Definition p0 events (stdin : list string) inputs : Peer :=
  peer_new (mkService 1 [] (w0 events) [] true (mkMappingContext [] [] [])) 0 (0 : sys) stdin inputs.

Lemma peer_can_deadlock_witness :
  ∃ c, steps (peer_code None) peer_panics (peer_start None (p0 [ConnectSuccess 7] ["list"%string] [])) c ∧
       ∀ c', steps (peer_code None) peer_panics c c' → deadlocked c'.
Proof.
  apply (peer_can_deadlock (p0 [ConnectSuccess 7] ["list"%string] []) (ConnectSuccess 7) 7 "list"%string []);
    reflexivity.
Defined.

(** A message has come: the handler takes the table while the user lists it, so
    that the main thread has to wait for the handler. *)
Definition p1 : Peer := p0 [NewMessage 7 Node [Byte.x41]] ["list"%string] [].

Lemma p1_calm : no_new_peers p1.
Proof. intros i e _. destruct i as [|i]; cbn; [by intros [= <-]|done]. Qed.

Lemma parse_list (p : Peer) : parse_user_command "list"%string p = Done (Some ListNodes) p.
Proof. reflexivity. Qed.

Lemma main_waits : ∃ c, steps_while (peer_code None) peer_panics no_new_peers (peer_start None p1) c ∧
  waits_for c MAIN HANDLER.
Proof.
  set (l := Running (Goto EventLoop) : status Peer Guarded (Point Z)).
  set (h := Running (handle_crust_event (NewMessage 7 Node [Byte.x41]))).
  eexists. split.
  - eapply while_next; [eapply while_next; [eapply while_next|..]|..];
      [eapply while_next; [eapply while_next; [constructor|..]|..]|..].
    + exact p1_calm.
    + by apply (go_goto _ _ HANDLER).
    + exact p1_calm.
    + refine (go_atomic _ _ HANDLER recv_event _ (Some (NewMessage 7 Node [Byte.x41])) _ _ _ _ _ _ _); done.
    + intros i e Hi. cbn in *. destruct i as [|i]; [lia|done].
    + refine (go_acquire _ _ HANDLER NetworkLock _ _ _ _ (trio (Running (Goto MainLoop)) h l) _ _ _); done.
    + intros i e Hi. cbn in *. destruct i as [|i]; [lia|done].
    + by apply (go_goto _ _ MAIN).
    + intros i e Hi. cbn in *. destruct i as [|i]; [lia|done].
    + refine (go_atomic _ _ MAIN _ _ (Some ListNodes) _ _ _ _ _ _ _); [done|].
      exact (parse_list (pr_set_stdin [] (pr_set_seen 1 p1))).
    + intros i e Hi. cbn in *. destruct i as [|i]; [lia|done].
  - eexists _, _. split; reflexivity.
Qed.

Lemma peer_no_deadlock_witness :
  ∃ c, steps_while (peer_code None) peer_panics no_new_peers (peer_start None p1) c ∧
       waits_for c MAIN HANDLER ∧ ¬ deadlocked c.
Proof.
  destruct main_waits as (c & Hs & Hc). exists c. split; [exact Hs|]. split; [exact Hc|].
  exact (peer_no_deadlock None p1 c Hs).
Defined.

(** The speed test begins to send while a message has come. *)
Definition c_speed : config Peer Guarded (Point Z) :=
  mkThreads (p0 [] [] []) {[ NetworkLock := MAIN ]} ∅
    (<[TIMER := Running Finished]> (trio (Running (Goto (SpeedLoop 7 1000)))
      (Running (handle_crust_event (NewMessage 7 Node [Byte.x41]))) (Running (Goto EventLoop)))).

Lemma speed_begins :
  ∃ c', steps (peer_code (Some "1000"%string)) peer_panics c_speed c' ∧
    c_threads c' !! MAIN = Some (Running (Goto (SpeedSend 7 1000 50 20))).
Proof.
  eexists. split; [eapply steps_next; [eapply steps_next; [constructor|]|]|].
  - by apply (go_goto _ _ MAIN).
  - refine (go_atomic _ _ MAIN _ _ 50 _ _ _ _ _ _ _); [done|].
    unfold speed_length, mbind, M_bind. cbn. reflexivity.
  - reflexivity.
Qed.

Lemma speed_test_blocks_handler_witness :
  ∃ c' t, steps (peer_code (Some "1000"%string)) peer_panics c_speed c' ∧
    c_threads c' !! MAIN = Some (Running t) ∧
    c_threads c' !! HANDLER = Some (Running (handle_crust_event (NewMessage 7 Node [Byte.x41]))).
Proof.
  destruct speed_begins as (c' & Hs & Hm). exists c', (Goto (SpeedSend 7 1000 50 20)).
  split; [exact Hs|]. split; [exact Hm|].
  refine (proj1 (speed_test_blocks_handler (Some "1000"%string) (Running Finished) 7 1000 7 Node [Byte.x41]
    c_speed c' _ _ _ _ Hs Hm));
    reflexivity.
Defined.

(** A peer that is in the table is lost. *)
Definition p2 : Peer := pr_set_network (nt_set_nodes {[ 3 := 7 ]} (Network_new 0)) (p0 [LostPeer 7] [] []).

(** The handler looks it up, gives the mutex back, takes it again and removes it. *)
Lemma handler_removes : ∃ c, steps_while (peer_code None) peer_panics alive (peer_start None p2) c ∧
  nodes (pr_network (c_state c)) = ∅ ∧ ∃ t, c_threads c !! HANDLER = Some (Running t).
Proof.
  set (p3 := pr_set_seen 1 p2).
  eexists. split.
  - eapply while_next; [eapply while_next; [eapply while_next; [eapply while_next|..]|..]|..];
      [eapply while_next; [eapply while_next; [eapply while_next; [by apply while_refl|..]|..]|..]|..].
    + by apply (go_goto _ _ HANDLER).
    + reflexivity.
    + refine (go_atomic _ _ HANDLER recv_event _ (Some (LostPeer 7)) _ p3 _ _ _ _ _); done.
    + reflexivity.
    + refine (go_acquire _ _ HANDLER NetworkLock _ _ _ _ _ _ _ _); done.
    + reflexivity.
    + refine (go_atomic _ _ HANDLER (gets (λ p, find_index 7 (nodes (pr_network p)))) _ (Some 3) _ p3 _ _ _ _ _); done.
    + reflexivity.
    + refine (go_release _ _ HANDLER NetworkLock _ _ _ _ _ _); done.
    + reflexivity.
    + refine (go_acquire _ _ HANDLER NetworkLock _ _ _ _ _ _ _ _); done.
    + reflexivity.
    + refine (go_atomic _ _ HANDLER (remove_node (Some 3)) _ tt _ _ _ _ _ _ _); [done|reflexivity].
    + reflexivity.
  - split; [reflexivity|]. eexists. reflexivity.
Qed.


(** A peer has connected, and the service has said so. *)
Lemma told : ∃ sv : @Service wenv Z _, reachable sv ∧
  w_events (sv_world sv) = [ConnectSuccess 8; NewMessage 8 Node [Byte.x2a]].
Proof. exists SafetyWitness.sv5. split; [exact SafetyWitness.sv5_reachable|vm_compute; reflexivity]. Qed.

(** The handler is told, and puts the peer into the table. *)
Lemma handler_lists (sv : @Service wenv Z _) :
  w_events (sv_world sv) = [ConnectSuccess 8; NewMessage 8 Node [Byte.x2a]] →
  ∃ c, steps (peer_code None) peer_panics (peer_start None (peer_new sv 0 (0 : @sys Z wpeer) [] [])) c ∧
    nodes (pr_network (c_state c)) = {[ 0 := 8 ]} ∧ received (c_state c) = [ConnectSuccess 8].
Proof.
  intros He. set (p := peer_new sv 0 (0 : @sys Z wpeer) [] []).
  assert (w_events (sv_world (pr_service p)) !! pr_seen p = Some (ConnectSuccess 8)) as He0 by (cbn; by rewrite He).
  eexists. split.
  - eapply steps_next; [eapply steps_next; [eapply steps_next|]|].
    + exact (handler_receives None p ∅ _ _ (ConnectSuccess 8) He0).
    + by refine (go_acquire _ _ HANDLER ServiceLock _ _ _ _ _ _ _ _).
    + by refine (go_acquire _ _ HANDLER NetworkLock _ _ _ _ _ _ _ _).
    + refine (go_atomic _ _ HANDLER _ _ _ _ _ _ _ _ _ _); reflexivity.
  - split; [reflexivity|]. unfold received. cbn. by rewrite He.
Qed.

Lemma peer_lists_announced_witness :
  ∃ (sv : @Service wenv Z _) c, reachable sv ∧
    steps (peer_code None) peer_panics (peer_start None (peer_new sv 0 (0 : @sys Z wpeer) [] [])) c ∧
    nodes (pr_network (c_state c)) !! 0 = Some 8 ∧
    ∃ k, announced [ConnectSuccess 8 : Event Z (@TcpBuilder wenv)] 8 k.
Proof.
  destruct told as (sv & Hr & He). destruct (handler_lists sv He) as (c & Hs & Hn & Hrec).
  assert (nodes (pr_network (c_state c)) !! 0 = Some 8) as H0 by (rewrite Hn; reflexivity).
  exists sv, c. split; [exact Hr|]. split; [exact Hs|]. split; [exact H0|]. rewrite <- Hrec.
  exact (proj1 (peer_lists_announced sv 0 0 [] [] None c Hr Hs) 0 8 H0).
Defined.

(** The thread that gives up is the first to run. *)
Lemma exit_codes_witness :
  ∃ c c', steps_while (peer_code (Some "1000"%string)) peer_panics alive
            (peer_start (Some "1000"%string) (p0 [] [] [])) c ∧
    step_thread (peer_code (Some "1000"%string)) peer_panics TIMER c = Some c' ∧
    pr_exited (c_state c') = Some 3 ∧ pr_told (c_state c') = false.
Proof.
  set (speed := Some "1000"%string).
  assert (∃ c c', steps_while (peer_code speed) peer_panics alive (peer_start speed (p0 [] [] [])) c ∧
    step_thread (peer_code speed) peer_panics TIMER c = Some c' ∧
    pr_exited (c_state c') = Some 3) as (c & c' & Hs & Hi & H3).
  { eexists _, _. split; [eapply while_next; [by apply while_refl|by apply (go_goto _ _ TIMER)|done]|].
    split; reflexivity. }
  exists c, c'. split; [exact Hs|]. split; [exact Hi|]. split; [exact H3|].
  destruct (exit_codes speed (p0 [] [] []) c c' TIMER 3 Hs Hi H3) as [[E _]|[H|[[E _]|[E _]]]];
    [discriminate E|exact (proj2 (proj2 (proj2 H)))|discriminate E|discriminate E].
Defined.

Lemma speed_bounded_witness :
  50 ≤ speed_times 1000 300 * 300 ≤ 1000 ∧ 501 ≤ speed_times 1000 300 * speed_sleep (speed_times 1000 300).
Proof. destruct (speed_bounded 1000 300 ltac:(lia)) as [(H1 & H2 & _) _]. exact (conj H1 H2). Defined.

End PeerWitness.
